(** * cms-api-gadget: the Host Bridge ([gadget.js]) and the API Client
      ([cms-api.js]) as a shallow embedding.

    The development follows the JavaScript sources:
    - [Module JS]: the fragment of JavaScript values the two files compute with;
    - [Module CmsApi]: [src/_lib/cms-api.js] (class [CmsApi]);
    - [Module Bridge]: the bridge with a pending-request registry and a
      normalized trusted origin (the first [gadget.js] of
      [src/unnamed/part_001]);
    - [Module Lib]: [src/_lib/gadget.js], the bridge with one listener per
      request.

    Objects that are mutated in place and shared between caller and callee
    live in an explicit store; everything the code does to the outside world
    (HTTP requests, [postMessage], timers, the event bus, the console, the
    page body) is recorded as an effect, in program order. *)

From Stdlib Require Import ZArith Lia Ascii String.
From stdpp Require Import gmap strings list fin_maps pretty.

#[local] Set Warnings "-register-all".
#[local] Open Scope Z_scope.

(** ** JavaScript values *)
Module JS.

(** Numbers: the code only computes with millisecond counts and retry
    counts, so finite numbers are integers; the non-finite ones are kept
    because [sendMessageToTop] tests [isFinite]. *)
Inductive jsnum := Fin (z : Z) | PInf | NInf | NaN.

(** Arrays are objects whose keys are their indices: the code below only
    reads own enumerable properties, truthiness and [typeof], for which the
    two coincide. *)
Inductive value :=
  | VUndef
  | VNull
  | VBool (b : bool)
  | VNum (n : jsnum)
  | VStr (s : string)
  | VObj (o : gmap string value).

Definition is_empty_string (s : string) : bool :=
  match s with EmptyString => true | _ => false end.

(** ToBoolean *)
Definition truthy (v : value) : bool :=
  match v with
  | VUndef | VNull => false
  | VBool b => b
  | VNum (Fin z) => negb (z =? 0)
  | VNum NaN => false
  | VNum _ => true
  | VStr s => negb (is_empty_string s)
  | VObj _ => true
  end.

Definition typeof (v : value) : string :=
  match v with
  | VUndef => "undefined"
  | VNull => "object"
  | VBool _ => "boolean"
  | VNum _ => "number"
  | VStr _ => "string"
  | VObj _ => "object"
  end.

(** [o.k] for an own data property of a plain object; [undefined] when the
    property is absent or the receiver is a primitive. *)
Definition get_prop (v : value) (k : string) : value :=
  match v with
  | VObj o => default VUndef (o !! k)
  | _ => VUndef
  end.

(** [obj.k] on a property bag such as the [gadget] object. *)
Definition field (o : gmap string value) (k : string) : value :=
  default VUndef (o !! k).

(** [a || b] *)
Definition js_or (a b : value) : value := if truthy a then a else b.

(** ToString, as a template literal applies it. *)
Definition num_to_string (n : jsnum) : string :=
  match n with
  | Fin z => pretty z
  | PInf => "Infinity"
  | NInf => "-Infinity"
  | NaN => "NaN"
  end.

Definition to_string (v : value) : string :=
  match v with
  | VUndef => "undefined"
  | VNull => "null"
  | VBool true => "true"
  | VBool false => "false"
  | VNum n => num_to_string n
  | VStr s => s
  | VObj _ => "[object Object]"
  end.

(** [a === b] when [a] is known to be a string. *)
Definition str_strict_eq (s : string) (v : value) : bool :=
  match v with
  | VStr s' => String.eqb s s'
  | _ => false
  end.

(** [s.includes(t)] *)
Fixpoint includes (s t : string) : bool :=
  String.prefix t s ||
  match s with
  | EmptyString => false
  | String _ s' => includes s' t
  end.

End JS.
Export JS.

(** ** The API client: [src/_lib/cms-api.js] *)
Module CmsApi.

(** *** Store

    [call] and the endpoint methods write into objects their caller handed
    in, so these objects live in a store and are passed by location.  Two
    kinds of object occur: parameter objects (string-keyed bags of values)
    and the request configs [{ method, endpoint, data, retries, delay }] of
    [call], typed as its JSDoc types them; [data] holds a location. *)
Abbreviation loc := nat.

Record call_config := CallConfig {
  method : string;
  endpoint : string;
  data : option loc;
  retries : option Z;
  delay : option Z;
}.

Inductive cell :=
  | CParams (o : gmap string value)
  | CConfig (c : call_config).

Abbreviation heap := (gmap loc cell).

(** *** What jQuery hands to the [fail] callback *)
Record jqXHR := JqXHR {
  responseJSON : value;
  http_status : Z;
}.

Inductive ajax_result :=
  | Done (body : value)
  | Failed (x : jqXHR) (status error : string).

(** *** Effects of a [call], in program order *)
Inductive effect :=
  | EAjax (type url : string) (params : gmap string value) (x_auth_token : value)
  | ELog (fmt : string) (args : list value)
  | ESetBody (innerHTML : string)
  | ESetTimeout (ms : Z)
  | EResolve (body : value)
  | EReject (x : jqXHR) (status error : string).

Definition is_ajax (e : effect) : bool :=
  match e with EAjax _ _ _ _ => true | _ => false end.

(** Number of HTTP attempts in a trace. *)
Fixpoint attempts (t : list effect) : nat :=
  match t with
  | [] => O
  | e :: t' => ((if is_ajax e then 1 else 0) + attempts t')%nat
  end.

(** The delays of the retries a trace schedules, in order. *)
Fixpoint delays (t : list effect) : list Z :=
  match t with
  | [] => []
  | ESetTimeout ms :: t' => ms :: delays t'
  | _ :: t' => delays t'
  end.

(** *** The instance built by [constructor] *)
Record instance := Instance {
  name : value;
  site : value;
  apihost : value;
  account : value;
  skin : value;
  hostbase : value;
  user : value;
}.

Definition constructor (gadget : gmap string value) : instance :=
  let name := js_or (js_or (field gadget "name") (field gadget "gid")) (VStr "") in
  let site := js_or (field gadget "site") (VStr "") in
  let apihost := js_or (field gadget "apihost") (VStr "https://a.cms.omniupdate.com") in
  let account := js_or (field gadget "account") (VStr "missouristate") in
  let skin := js_or (field gadget "skin") (VStr "oucampus") in
  let hostbase :=
    js_or (field gadget "hostbase")
      (VStr ("/11/#" +:+ to_string skin +:+ "/" +:+ to_string account +:+ "/" +:+ to_string site)) in
  let user := js_or (field gadget "user") (VStr "unknown user") in
  Instance name site apihost account skin hostbase user.

Section Call.

(** The global [gadget] object, the remote server (the outcome of the
    attempt numbered [count]) and the bits behind the [Math.random()] draw of
    each [backoff(attempt)]. *)
Variable gadget : gmap string value.
Variable server : Z -> ajax_result.
Variable random : Z -> Z.

(** [Math.random()] is a uniform 53-bit fraction in [0, 1);
    [jitter] is [Math.floor(Math.random() * 250)]. *)
Definition jitter (attempt : Z) : Z := (random attempt mod 2 ^ 53) * 250 / 2 ^ 53.

Definition backoff (delay attempt : Z) : Z :=
  let base := delay * 2 ^ attempt in
  Z.min (base + jitter attempt) 15000.

Definition retryCodes : list string := ["TIMEOUT"].

(** [retryCodes.some(token => typeof code === 'string' && code.includes(token))] *)
Definition retriable_code (code : value) : bool :=
  existsb (fun token =>
             match code with
             | VStr c => includes c token
             | _ => false
             end) retryCodes.

Definition style : string := "color: firebrick; font-weight: bold;".

Definition request (cfg : call_config) (params : gmap string value) : effect :=
  EAjax (method cfg) (to_string (field gadget "apihost") +:+ endpoint cfg)
        params (field gadget "token").

(** The body of the [fail] callback up to the retry decision: the value of
    [retriable] and what was logged and done to the page. *)
Definition on_fail (cfg : call_config) (params : gmap string value) (x : jqXHR)
  : bool * list effect :=
  let response := responseJSON x in
  let banner :=
    [ ELog "%c====== CMS API ERROR ======" [VStr style];
      ELog "%c    Method : " [VStr style; VStr (method cfg)];
      ELog "%c  Endpoint : " [VStr style; VStr (endpoint cfg)];
      ELog "%cParameters : " [VStr style; VObj params] ] in
  if negb (truthy response) then
    (false, banner ++ [ELog "%cNo response JSON provided by the error." [VStr style]])
  else
    let code := get_prop response "code" in
    (retriable_code code,
     banner ++
     [ ELog "%c      Code : " [VStr style; code];
       ELog "%c   Message : " [VStr style; get_prop response "error"] ] ++
     (if str_strict_eq "SESSION_NOT_FOUND" code
      then [ESetBody "<h3>Failed to connect</h3><p>Reload the page.</p>"]
      else [])).

(** The local [retriable] when the [fail] callback reaches its last
    statement. *)
Definition retriable (cfg : call_config) (params : gmap string value) (x : jqXHR)
  : bool :=
  fst (on_fail cfg params x).

(** [ring(count)]: one attempt and, after a retriable failure under the
    budget, the next one.  [retries] and [delay] are the values [call] read
    before building the promise.  The recursion is on fuel; [ring] below
    supplies enough of it. *)
Fixpoint ring_fuel (fuel : nat) (cfg : call_config) (params : gmap string value)
    (retries delay : Z) (count : Z) : option (list effect) :=
  match fuel with
  | O => None
  | S fuel' =>
      match server count with
      | Done body => Some [request cfg params; EResolve body]
      | Failed x status error =>
          let '(retriable, logged) := on_fail cfg params x in
          if retriable && (count <? retries) then
            rest ← ring_fuel fuel' cfg params retries delay (count + 1);
            Some (request cfg params :: logged ++ ESetTimeout (backoff delay count) :: rest)
          else
            Some (request cfg params :: logged ++ [EReject x status error])
      end
  end.

Definition ring (cfg : call_config) (params : gmap string value)
    (retries delay : Z) (count : Z) : option (list effect) :=
  ring_fuel (S (Z.to_nat (retries - count))) cfg params retries delay count.

(** [call(config)]: [None] stands for the [TypeError] of a [config] that is
    not a request config, or whose [data] is not an object. *)
Definition call (c : loc) (h : heap) : option (heap * list effect) :=
  match h !! c with
  | Some (CConfig cfg) =>
      let retries := default 3 (retries cfg) in
      let delay := default 1000 (delay cfg) in
      (* config.data = config.data || {} *)
      let '(h1, d) :=
        match data cfg with
        | Some d => (h, d)
        | None => let d := fresh (dom h) in (<[d := CParams ∅]> h, d)
        end in
      let cfg' := CallConfig (method cfg) (endpoint cfg) (Some d) (CmsApi.retries cfg) (CmsApi.delay cfg) in
      let h2 := <[c := CConfig cfg']> h1 in
      (* config.data.authorization_token = gadget.token *)
      match h2 !! d with
      | Some (CParams o) =>
          let o' := <["authorization_token" := field gadget "token"]> o in
          let h3 := <[d := CParams o']> h2 in
          t ← ring cfg' o' retries delay 0;
          Some (h3, t)
      | _ => None
      end
  | _ => None
  end.

(** [config.data] is absent or an object: the precondition under which
    [call] does not throw. *)
Definition data_is_object (h : heap) (cfg : call_config) : Prop :=
  match data cfg with
  | Some d => exists o, h !! d = Some (CParams o)
  | None => True
  end.

Definition get (endpoint : string) (data : option loc) (retries : option Z) (h : heap)
  : option (heap * list effect) :=
  let c := fresh (dom h) in
  call c (<[c := CConfig (CallConfig "GET" endpoint data (Some (default 3 retries)) None)]> h).

Definition post (endpoint : string) (data : option loc) (retries : option Z) (h : heap)
  : option (heap * list effect) :=
  let c := fresh (dom h) in
  call c (<[c := CConfig (CallConfig "POST" endpoint data (Some (default 3 retries)) None)]> h).

End Call.

(** *** Endpoint methods

    Every endpoint method has the same shape: the parameter [config = {}],
    a few defaults written into [config], and a [get], [post] or [call] that
    forwards [config] as the request's [data]. *)
Section Endpoints.

Variable gadget : gmap string value.
Variable server : Z -> ajax_result.
Variable random : Z -> Z.
Variable this : instance.

Inductive rule :=
  (** [if (!config.key) config.key = v] *)
  | IfFalsy (key : string) (v : gmap string value -> value)
  (** [if (config.key === undefined) config.key = v] *)
  | IfUndefined (key : string) (v : value).

Definition apply_rule (config : gmap string value) (r : rule) : gmap string value :=
  match r with
  | IfFalsy key v =>
      if negb (truthy (field config key)) then <[key := v config]> config else config
  | IfUndefined key v =>
      match field config key with
      | VUndef => <[key := v]> config
      | _ => config
      end
  end.

Definition apply_rules (rules : list rule) (config : gmap string value)
  : gmap string value :=
  foldl apply_rule config rules.

Inductive target :=
  (** [return this.get(path, config)] *)
  | ViaGet (path : gmap string value -> string)
  (** [return this.post(path, config)] *)
  | ViaPost (path : gmap string value -> string)
  (** [(config = {}, retries = 0)], [return this.post(path, config, retries)] *)
  | ViaPostRetries (retries : option Z) (path : gmap string value -> string)
  (** [(config = {}, method = 'GET')],
      [if (method === 'POST') return this.post(path, config);
       return this.get(path, config)] *)
  | ByMethod (method : option string) (path : gmap string value -> string)
  (** [return this.call({ method, endpoint, data : config })] *)
  | ViaCall (method endpoint : string).

Definition forward (t : target) (l : loc) (config : gmap string value) (h : heap)
  : option (heap * list effect) :=
  match t with
  | ViaGet path => get gadget server random (path config) (Some l) None h
  | ViaPost path => post gadget server random (path config) (Some l) None h
  | ViaPostRetries retries path =>
      post gadget server random (path config) (Some l) (Some (default 0 retries)) h
  | ByMethod method path =>
      if String.eqb (default "GET" method) "POST"
      then post gadget server random (path config) (Some l) None h
      else get gadget server random (path config) (Some l) None h
  | ViaCall method endpoint =>
      let c := fresh (dom h) in
      call gadget server random c
        (<[c := CConfig (CallConfig method endpoint (Some l) None None)]> h)
  end.

(** [None] stands for the [TypeError] of an argument that is not an object. *)
Definition endpoint_method (rules : list rule) (t : target) (config : option loc)
    (h : heap) : option (heap * list effect) :=
  let arg :=
    match config with
    | None => let l := fresh (dom h) in Some (l, ∅, <[l := CParams ∅]> h)
    | Some l =>
        match h !! l with
        | Some (CParams o) => Some (l, o, h)
        | _ => None
        end
    end in
  '(l, o, h1) ← arg;
  let o' := apply_rules rules o in
  forward t l o' (<[l := CParams o']> h1).

Definition assets_list :=
  endpoint_method [IfFalsy "site" (fun _ => site this)]
    (ViaGet (fun _ => "/assets/list")).

Definition assets_view :=
  endpoint_method [IfFalsy "site" (fun _ => site this)]
    (ViaGet (fun _ => "/assets/view")).

Definition components_dependents :=
  endpoint_method [IfFalsy "type" (fun _ => VStr "generic")]
    (ViaGet (fun config => "/rs/components/dependents/"
                 +:+ to_string (field config "type") +:+ "/"
                 +:+ to_string (field config "name"))).

Definition components_get :=
  endpoint_method [IfFalsy "type" (fun _ => VStr "generic")]
    (ViaGet (fun config => "/rs/components/"
                 +:+ to_string (field config "type") +:+ "/"
                 +:+ to_string (field config "name"))).

Definition components_list :=
  endpoint_method [IfFalsy "type" (fun _ => VStr "generic");
                   IfUndefined "disabled" (VBool false)]
    (ViaGet (fun _ => "/rs/components")).

Definition directories_settings (m : option string) :=
  endpoint_method [IfFalsy "site" (fun _ => site this)]
    (ByMethod m (fun _ => "/directories/settings")).

Definition files_backup :=
  endpoint_method [IfFalsy "site" (fun _ => site this);
                   IfFalsy "message" (fun _ => VStr "Backup via CMS API")]
    (ViaPost (fun _ => "/files/backup")).

Definition files_brokenpages :=
  endpoint_method [IfFalsy "site" (fun _ => site this)]
    (ViaGet (fun _ => "/files/brokenpages")).

Definition files_checkedout :=
  endpoint_method [IfUndefined "all" (VBool true); IfFalsy "site" (fun _ => site this)]
    (ViaGet (fun _ => "/files/checkedout")).

Definition files_checkin :=
  endpoint_method [IfFalsy "site" (fun _ => site this)]
    (ViaPost (fun _ => "/files/checkin")).

Definition files_checkout :=
  endpoint_method [IfFalsy "site" (fun _ => site this)]
    (ViaPost (fun _ => "/files/checkout")).

Definition files_content :=
  endpoint_method [IfFalsy "site" (fun _ => site this)]
    (ViaGet (fun _ => "/files/content")).

Definition files_copy (r : option Z) :=
  endpoint_method [IfFalsy "site" (fun _ => site this)]
    (ViaPostRetries r (fun _ => "/files/copy")).

Definition files_delete :=
  endpoint_method [IfFalsy "site" (fun _ => site this)]
    (ViaPost (fun _ => "/files/delete")).

Definition files_dependencies :=
  endpoint_method [IfFalsy "site" (fun _ => site this)]
    (ViaGet (fun _ => "/files/dependencies")).

Definition files_dependency :=
  endpoint_method [IfFalsy "site" (fun _ => site this)]
    (ViaGet (fun _ => "/files/dependency")).

Definition files_dependents :=
  endpoint_method [IfFalsy "site" (fun _ => site this)]
    (ViaGet (fun _ => "/files/dependents")).

Definition files_dirtypages :=
  endpoint_method [IfFalsy "site" (fun _ => site this)]
    (ViaGet (fun _ => "/files/dirtypages")).

Definition files_dm_revert :=
  endpoint_method [IfFalsy "site" (fun _ => site this)]
    (ViaPost (fun _ => "/files/dm_revert")).

Definition files_info :=
  endpoint_method [IfFalsy "site" (fun _ => site this)]
    (ViaGet (fun _ => "/files/info")).

Definition files_list :=
  endpoint_method [IfFalsy "site" (fun _ => site this)]
    (ViaGet (fun _ => "/files/list")).

Definition files_locked :=
  endpoint_method [IfFalsy "site" (fun _ => site this)]
    (ViaGet (fun _ => "/files/locked")).

Definition files_log :=
  endpoint_method [IfFalsy "site" (fun _ => site this)]
    (ViaGet (fun _ => "/files/log")).

Definition files_move :=
  endpoint_method [IfFalsy "site" (fun _ => site this)]
    (ViaPost (fun _ => "/files/move")).

Definition files_multipublish :=
  endpoint_method [IfFalsy "site" (fun _ => site this);
                   IfFalsy "target" (fun config => field config "site")]
    (ViaCall "POST" "/files/multipublish").

Definition files_new_folder :=
  endpoint_method [IfFalsy "site" (fun _ => site this)]
    (ViaPost (fun _ => "/files/new_folder")).

Definition files_products :=
  endpoint_method [IfFalsy "site" (fun _ => site this)]
    (ViaGet (fun _ => "/files/products")).

Definition files_properties (m : option string) :=
  endpoint_method [IfFalsy "site" (fun _ => site this)]
    (ByMethod m (fun _ => "/files/properties")).

Definition files_publish :=
  endpoint_method [IfFalsy "site" (fun _ => site this)]
    (ViaPost (fun _ => "/files/publish")).

Definition files_recycle :=
  endpoint_method [IfFalsy "site" (fun _ => site this)]
    (ViaPost (fun _ => "/files/recycle")).

Definition files_rename :=
  endpoint_method [IfFalsy "site" (fun _ => site this)]
    (ViaPost (fun _ => "/files/rename")).

Definition files_save :=
  endpoint_method [IfFalsy "site" (fun _ => site this)]
    (ViaPost (fun _ => "/files/save")).

Definition files_scan :=
  endpoint_method [IfFalsy "site" (fun _ => site this)]
    (ViaPost (fun _ => "/files/scan")).

Definition files_settings (m : option string) :=
  endpoint_method [IfFalsy "site" (fun _ => site this)]
    (ByMethod m (fun _ => "/files/settings")).

Definition files_source :=
  endpoint_method [IfFalsy "site" (fun _ => site this); IfUndefined "brokentags" (VBool true)]
    (ViaGet (fun _ => "/files/source")).

Definition files_subscribers :=
  endpoint_method [IfFalsy "site" (fun _ => site this)]
    (ViaGet (fun _ => "/files/subscribers")).

Definition files_upload :=
  endpoint_method [IfFalsy "site" (fun _ => site this); IfUndefined "overwrite" (VBool true)]
    (ViaPost (fun _ => "/files/upload")).

Definition files_versions :=
  endpoint_method [IfFalsy "site" (fun _ => site this)]
    (ViaGet (fun _ => "/files/versions")).

Definition files_view :=
  endpoint_method [IfFalsy "site" (fun _ => site this)]
    (ViaGet (fun _ => "/files/view")).

Definition files_wysiwyg_info :=
  endpoint_method [IfFalsy "site" (fun _ => site this)]
    (ViaGet (fun _ => "/files/wysiwyg_info")).

Definition groups_list :=
  endpoint_method []
    (ViaGet (fun _ => "/groups/list")).

Definition groups_view :=
  endpoint_method []
    (ViaGet (fun _ => "/groups/view")).

Definition reports_custom :=
  endpoint_method [IfUndefined "all" (VBool true); IfFalsy "site" (fun _ => site this)]
    (ViaGet (fun _ => "/reports")).

Definition reports_subscribers :=
  endpoint_method [IfFalsy "site" (fun _ => site this)]
    (ViaGet (fun _ => "/reports/subscribers")).

Definition sites_advanced_search :=
  endpoint_method [IfFalsy "site" (fun _ => site this)]
    (ViaGet (fun _ => "/sites/advanced_search")).

Definition sites_basic_search :=
  endpoint_method [IfFalsy "site" (fun _ => site this)]
    (ViaGet (fun _ => "/sites/basic_search")).

Definition sites_findreplace :=
  endpoint_method [IfFalsy "site" (fun _ => site this)]
    (ViaPost (fun _ => "/sites/findreplace")).

Definition sites_findreplacestatus :=
  endpoint_method [IfFalsy "site" (fun _ => site this)]
    (ViaGet (fun _ => "/sites/findreplacestatus")).

Definition sites_list :=
  endpoint_method [IfFalsy "account" (fun _ => account this)]
    (ViaGet (fun _ => "/sites/list")).

Definition sites_publish :=
  endpoint_method [IfFalsy "site" (fun _ => site this)]
    (ViaPost (fun _ => "/sites/publish")).

Definition sites_quicksearch :=
  endpoint_method [IfFalsy "site" (fun _ => site this); IfFalsy "count" (fun _ => VNum (Fin 1000))]
    (ViaGet (fun _ => "/sites/quicksearch")).

Definition sites_revert :=
  endpoint_method [IfFalsy "site" (fun _ => site this)]
    (ViaPost (fun _ => "/sites/revert")).

Definition sites_scan :=
  endpoint_method [IfFalsy "site" (fun _ => site this)]
    (ViaGet (fun _ => "/sites/scan")).

Definition sites_sitemap :=
  endpoint_method [IfFalsy "site" (fun _ => site this)]
    (ViaPost (fun _ => "/sites/sitemap")).

Definition sites_targets :=
  endpoint_method [IfFalsy "site" (fun _ => site this)]
    (ViaGet (fun _ => "/sites/targets")).

Definition sites_view :=
  endpoint_method [IfFalsy "account" (fun _ => account this); IfFalsy "site" (fun _ => site this)]
    (ViaGet (fun _ => "/sites/view")).

Definition tag_list :=
  endpoint_method []
    (ViaGet (fun _ => "/tag/list")).

Definition users_delete :=
  endpoint_method []
    (ViaPost (fun _ => "/users/delete")).

Definition users_groups :=
  endpoint_method [IfFalsy "user" (fun _ => user this)]
    (ViaGet (fun _ => "/users/groups")).

Definition users_list :=
  endpoint_method []
    (ViaGet (fun _ => "/users/list")).

Definition users_view :=
  endpoint_method [IfFalsy "user" (fun _ => user this)]
    (ViaGet (fun _ => "/users/view")).

Definition all_endpoints (m : option string) (r : option Z) :=
  [ assets_list;
    assets_view;
    components_dependents;
    components_get;
    components_list;
    directories_settings m;
    files_backup;
    files_brokenpages;
    files_checkedout;
    files_checkin;
    files_checkout;
    files_content;
    files_copy r;
    files_delete;
    files_dependencies;
    files_dependency;
    files_dependents;
    files_dirtypages;
    files_dm_revert;
    files_info;
    files_list;
    files_locked;
    files_log;
    files_move;
    files_multipublish;
    files_new_folder;
    files_products;
    files_properties m;
    files_publish;
    files_recycle;
    files_rename;
    files_save;
    files_scan;
    files_settings m;
    files_source;
    files_subscribers;
    files_upload;
    files_versions;
    files_view;
    files_wysiwyg_info;
    groups_list;
    groups_view;
    reports_custom;
    reports_subscribers;
    sites_advanced_search;
    sites_basic_search;
    sites_findreplace;
    sites_findreplacestatus;
    sites_list;
    sites_publish;
    sites_quicksearch;
    sites_revert;
    sites_scan;
    sites_sitemap;
    sites_targets;
    sites_view;
    tag_list;
    users_delete;
    users_groups;
    users_list;
    users_view ].

End Endpoints.

End CmsApi.

(** ** The host bridge: [gadget.js] with the pending-request registry

    This is the first file of [src/unnamed/part_001].  JavaScript strings
    are modelled by Rocq strings, that is by code units below U+0100. *)
Module Bridge.

(** *** String helpers of [normalizeOrigin] *)

(** [WhiteSpace] and [LineTerminator] code units (what [trim] removes). *)
Definition is_space (c : ascii) : bool :=
  match N_of_ascii c with
  | 9 | 10 | 11 | 12 | 13 | 32 | 160 => true
  | _ => false
  end%N.

Fixpoint trim_start (s : string) : string :=
  match s with
  | EmptyString => EmptyString
  | String c s' => if is_space c then trim_start s' else s
  end.

Fixpoint trim_end (s : string) : string :=
  match s with
  | EmptyString => EmptyString
  | String c s' =>
      let r := trim_end s' in
      if is_empty_string r && is_space c then EmptyString else String c r
  end.

(** [value.trim()] *)
Definition trim (s : string) : string := trim_end (trim_start s).

Definition is_digit (c : ascii) : bool :=
  let n := N_of_ascii c in (48 <=? n)%N && (n <=? 57)%N.

Definition is_upper (c : ascii) : bool :=
  let n := N_of_ascii c in (65 <=? n)%N && (n <=? 90)%N.

Definition is_lower (c : ascii) : bool :=
  let n := N_of_ascii c in (97 <=? n)%N && (n <=? 122)%N.

Definition to_lower (c : ascii) : ascii :=
  if is_upper c then ascii_of_N (N_of_ascii c + 32) else c.

Fixpoint lower (s : string) : string :=
  match s with
  | EmptyString => EmptyString
  | String c s' => String (to_lower c) (lower s')
  end.

Fixpoint all_chars (p : ascii -> bool) (s : string) : bool :=
  match s with
  | EmptyString => true
  | String c s' => p c && all_chars p s'
  end.

(** The longest prefix of [s] whose characters satisfy [p], and the rest. *)
Fixpoint span (p : ascii -> bool) (s : string) : string * string :=
  match s with
  | EmptyString => (EmptyString, EmptyString)
  | String c s' =>
      if p c then let '(a, b) := span p s' in (String c a, b)
      else (EmptyString, s)
  end.

(** [/^https?:\/\//i.test(v)] *)
Definition is_absolute_http (v : string) : bool :=
  String.prefix "http://" (lower v) || String.prefix "https://" (lower v).

(** [/^\/\//.test(v)] *)
Definition is_protocol_relative (v : string) : bool := String.prefix "//" v.

(** The class [[a-z0-9.-]] under the [i] flag. *)
Definition is_host_char (c : ascii) : bool :=
  is_lower c || is_upper c || is_digit c || Ascii.eqb c "." || Ascii.eqb c "-".

(** [/^[a-z0-9.-]+(?::\d+)?$/i.test(v)]: the class excludes [:], so the
    greedy match of the host part is the only one. *)
Definition is_host_port (v : string) : bool :=
  let '(host, rest) := span is_host_char v in
  negb (is_empty_string host) &&
  match rest with
  | EmptyString => true
  | String c port =>
      Ascii.eqb c ":" && negb (is_empty_string port) && all_chars is_digit port
  end.

(** [s.split("/")] *)
Fixpoint split_slash (s : string) : list string :=
  match s with
  | EmptyString => [EmptyString]
  | String c s' =>
      if Ascii.eqb c "/" then EmptyString :: split_slash s'
      else match split_slash s' with
           | x :: r => String c x :: r
           | [] => [String c EmptyString]
           end
  end.

(** [l.at(-2)] *)
Definition at_minus_2 (l : list string) : value :=
  if (length l <? 2)%nat then VUndef
  else match l !! (length l - 2)%nat with
       | Some x => VStr x
       | None => VUndef
       end.

(** *** The page and the messages it receives *)

(** [location.protocol] and the parts of [new URL(location.href)] that
    [getUrlData] reads. *)
Record location := Location {
  protocol : string;
  href_origin : string;
  pathname : string;
  searchParams : list (string * string);
}.

(** [event.source]: the top window, another window, or [null]. *)
Inductive window_ref := Top | Frame (w : nat) | NoWindow.

Record message_event := MessageEvent {
  source : window_ref;
  origin : value;
  data : value;
}.

(** What [makeCallbackId] draws on: the UUID when [crypto.randomUUID] is
    available, [Date.now()], and the hexadecimal digits of
    [Math.random().toString(16).slice(2)]. *)
Record entropy := Entropy {
  randomUUID : option string;
  now : Z;
  random_hex : string;
}.

(** *** State *)

(** An entry of [pendingRequests]. *)
Record entry := Entry {
  deferred : nat;
  timerId : option nat;
  name : string;
}.

(** What the callback handed to [setTimeout] captured. *)
Record timeout_closure := TimeoutClosure {
  c_msgid : string;
  c_deferred : nat;
  c_name : string;
  c_timeoutMs : jsnum;
}.

(** A jQuery Deferred. *)
Inductive dstate :=
  | Pending
  | Resolved (payload : value)
  | Rejected (reason : value).

(** Callbacks attached to a Deferred: only the initialization attaches any,
    the [then] of [getEnvironment], the [then] of [collectData] (which
    captured [urlData]) and the final [then]/[fail]. *)
Inductive chain :=
  | Initialization (urlData : gmap string value).

Inductive effect :=
  (** [gadgetWindow.top.postMessage(JSON.stringify(message), targetOrigin)] *)
  | EPostMessage (message targetOrigin : value)
  | EResolve (d : nat) (payload : value)
  | EReject (d : nat) (reason : value)
  (** [$(gadget).trigger(name, payload)] *)
  | ETrigger (name : string) (payload : value)
  (** a callback handed to [gadget.ready] is called *)
  | ERun (callback : nat)
  | ELog (text : string) (args : list value)
  | EWarn (text : string) (args : list value).

Record state := State {
  (** the data properties of the [gadget] object: the Environment *)
  gadget : gmap string value;
  pendingRequests : gmap string entry;
  (** the window's active timers, and the next id [setTimeout] returns *)
  timers : gmap nat timeout_closure;
  next_timer : nat;
  (** the Deferreds created so far *)
  deferreds : gmap nat dstate;
  next_deferred : nat;
  chains : gmap nat chain;
  (** handlers bound by [$(this).one("ready", ...)]: the optional callback
      and the Deferred that [ready] returned *)
  ready_waiters : list (option nat * nat);
  (** everything observable, in program order *)
  effects : list effect;
}.

(** The page before the script runs; timer ids are positive. *)
Definition initial : state :=
  State ∅ ∅ ∅ 1 ∅ 0 ∅ [] [].

Definition set_gadget (g : gmap string value) (s : state) : state :=
  State g (pendingRequests s) (timers s) (next_timer s) (deferreds s)
        (next_deferred s) (chains s) (ready_waiters s) (effects s).

Definition set_pending (p : gmap string entry) (s : state) : state :=
  State (gadget s) p (timers s) (next_timer s) (deferreds s)
        (next_deferred s) (chains s) (ready_waiters s) (effects s).

Definition set_timers (t : gmap nat timeout_closure) (s : state) : state :=
  State (gadget s) (pendingRequests s) t (next_timer s) (deferreds s)
        (next_deferred s) (chains s) (ready_waiters s) (effects s).

Definition set_deferreds (d : gmap nat dstate) (s : state) : state :=
  State (gadget s) (pendingRequests s) (timers s) (next_timer s) d
        (next_deferred s) (chains s) (ready_waiters s) (effects s).

Definition set_chains (c : gmap nat chain) (s : state) : state :=
  State (gadget s) (pendingRequests s) (timers s) (next_timer s) (deferreds s)
        (next_deferred s) c (ready_waiters s) (effects s).

Definition set_waiters (w : list (option nat * nat)) (s : state) : state :=
  State (gadget s) (pendingRequests s) (timers s) (next_timer s) (deferreds s)
        (next_deferred s) (chains s) w (effects s).

Definition emit (e : effect) (s : state) : state :=
  State (gadget s) (pendingRequests s) (timers s) (next_timer s) (deferreds s)
        (next_deferred s) (chains s) (ready_waiters s) (effects s ++ [e]).

(** [new $.Deferred()] *)
Definition new_deferred (s : state) : state * nat :=
  let d := next_deferred s in
  (State (gadget s) (pendingRequests s) (timers s) (next_timer s)
         (<[d := Pending]> (deferreds s)) (S d) (chains s) (ready_waiters s)
         (effects s), d).

(** [setTimeout(callback, ms)] *)
Definition setTimeout (c : timeout_closure) (s : state) : state * nat :=
  let t := next_timer s in
  (State (gadget s) (pendingRequests s) (<[t := c]> (timers s)) (S t)
         (deferreds s) (next_deferred s) (chains s) (ready_waiters s)
         (effects s), t).

(** [clearTimeout(id)] *)
Definition clearTimeout (t : nat) (s : state) : state :=
  set_timers (delete t (timers s)) s.

(** Number of [resolve] and [reject] calls made on the Deferred [d]. *)
Definition is_call_on (d : nat) (e : effect) : bool :=
  match e with
  | EResolve d' _ | EReject d' _ => Nat.eqb d d'
  | _ => false
  end.

Fixpoint calls_on (d : nat) (t : list effect) : nat :=
  match t with
  | [] => O
  | e :: t' => ((if is_call_on d e then 1 else 0) + calls_on d t')%nat
  end.

(** Number of [ready] events put on the event bus. *)
Definition is_ready_trigger (e : effect) : bool :=
  match e with
  | ETrigger name _ => String.eqb name "ready"
  | _ => false
  end.

Fixpoint ready_triggers (t : list effect) : nat :=
  match t with
  | [] => O
  | e :: t' => ((if is_ready_trigger e then 1 else 0) + ready_triggers t')%nat
  end.

Definition is_postMessage (e : effect) : bool :=
  match e with
  | EPostMessage _ _ => true
  | _ => false
  end.

(** *** The code *)
Section Code.

(** The platform: [JSON.parse] and [new URL(s).origin], [None] when they
    throw. *)
Variable JSON_parse : string -> option value.
Variable URL_origin : string -> option string.

Definition parseMessageData (raw : value) (s : state) : state * value :=
  match raw with
  | VStr text =>
      match JSON_parse text with
      | Some v => (s, v)
      | None =>
          (emit (EWarn "Cannot parse postMessage payload (expected JSON string)." []) s,
           VNull)
      end
  | _ => (s, raw)
  end.

Definition normalizeOrigin (page : location) (value : value) : option string :=
  match value with
  | VStr text =>
      let v := trim text in
      if is_empty_string v then None
      else if String.eqb v "*" then None
      else
        let pageProtocol :=
          if is_empty_string (protocol page) then "https:" else protocol page in
        if is_absolute_http v then URL_origin v
        else if is_protocol_relative v then URL_origin (pageProtocol +:+ v)
        else if is_host_port v then URL_origin (pageProtocol +:+ "//" +:+ v)
        else None
  | _ => None
  end.

(** The result of [normalizeOrigin] as stored in [gadget.msghostOrigin]. *)
Definition origin_value (o : option string) : value :=
  match o with
  | Some text => VStr text
  | None => VNull
  end.

Definition isTrustedEvent (event : message_event) (s : state) : bool :=
  match source event with
  | Top =>
      match origin event with
      | VStr o => str_strict_eq o (field (gadget s) "msghostOrigin")
      | _ => false
      end
  | _ => false
  end.

Definition makeCallbackId (e : entropy) : string :=
  match randomUUID e with
  | Some uuid => uuid
  | None => pretty (now e) +:+ "-" +:+ random_hex e
  end.

(** [pendingRequests.get(key)]: the keys are strings. *)
Definition pending_get (s : state) (key : value) : option entry :=
  match key with
  | VStr k => pendingRequests s !! k
  | _ => None
  end.

Definition clearPending (callbackId : value) (s : state) : state :=
  match callbackId, pending_get s callbackId with
  | VStr k, Some entry =>
      let s1 :=
        match timerId entry with
        | Some (S t) => clearTimeout (S t) s
        | _ => s
        end in
      set_pending (delete k (pendingRequests s1)) s1
  | _, _ => s
  end.

(** A Deferred changes state on the first [resolve] or [reject] only. *)
Definition mark (d : nat) (outcome : dstate) (s : state) : state :=
  match deferreds s !! d with
  | Some Pending => set_deferreds (<[d := outcome]> (deferreds s)) s
  | _ => s
  end.

(** *** The [gadget] object *)

(** [gadget.set(arg0, arg1)] *)
Definition set (arg0 arg1 : value) (s : state) : state :=
  match arg0 with
  | VStr key => set_gadget (<[key := arg1]> (gadget s)) s
  | VObj o => set_gadget (o ∪ gadget s) s
  | _ => s
  end.

(** [$(gadget).trigger(name, payload)]: the handlers bound by
    [one("ready", ...)] run once, in the order they were bound. *)
Definition run_waiter (s : state) (w : option nat * nat) : state :=
  let s1 := match w.1 with Some cb => emit (ERun cb) s | None => s end in
  (* deferred.resolve(), on a Deferred nothing is attached to *)
  mark w.2 (Resolved VUndef) (emit (EResolve w.2 VUndef) s1).

Definition trigger (name : string) (payload : value) (s : state) : state :=
  let s1 := emit (ETrigger name payload) s in
  if String.eqb name "ready"
  then foldl run_waiter (set_waiters [] s1) (ready_waiters s1)
  else s1.

(** [{...urlData, ...data}] *)
Fixpoint indexed_chars (i : nat) (text : string) : gmap string value :=
  match text with
  | EmptyString => ∅
  | String c text' =>
      <[pretty i := VStr (String c EmptyString)]> (indexed_chars (S i) text')
  end.

Definition own_properties (v : value) : gmap string value :=
  match v with
  | VObj o => o
  | VStr text => indexed_chars 0 text
  | _ => ∅
  end.

Definition spread (urlData : gmap string value) (data : value) : gmap string value :=
  own_properties data ∪ urlData.

(** [getEnvironment]'s [then]: [data !== "Unrecognized message." ? data : null] *)
Definition getEnvironment_then (data : value) : value :=
  if str_strict_eq "Unrecognized message." data then VNull else data.

(** [collectData]'s [then]: [if (data) this.set(data); return {...urlData, ...data}] *)
Definition collectData_then (urlData : gmap string value) (data : value) (s : state)
  : state * gmap string value :=
  (if truthy data then set data VUndef s else s, spread urlData data).

Definition ready_banner (s : state) : string :=
  "[" +:+ to_string (field (gadget s) "name") +:+ "][" +:+
  to_string (field (gadget s) "gid") +:+ "]".

(** The [then] of the initialization. *)
Definition initialization_then (data : gmap string value) (s : state) : state :=
  let s1 := emit (ELog (ready_banner s +:+ " is ready : ") [VObj data]) s in
  let s2 := set_gadget (<["isReady" := VBool true]> (gadget s1)) s1 in
  trigger "ready" VUndef s2.

(** The [fail] of the initialization. *)
Definition initialization_fail (error : value) (s : state) : state :=
  let s1 :=
    emit (EWarn (ready_banner s +:+ " host env unavailable; continuing without env.")
                [error]) s in
  let s2 := set_gadget (<["isReady" := VBool true]> (gadget s1)) s1 in
  trigger "ready" VUndef s2.

Definition run_chain (c : chain) (outcome : dstate) (s : state) : state :=
  match c, outcome with
  | Initialization urlData, Resolved payload =>
      let '(s1, data) := collectData_then urlData (getEnvironment_then payload) s in
      initialization_then data s1
  | Initialization urlData, Rejected error => initialization_fail error s
  | _, Pending => s
  end.

(** [d.resolve(payload)] and [d.reject(reason)]: only the first call on a
    Deferred settles it and runs its callbacks. *)
Definition settle (d : nat) (outcome : dstate) (s : state) : state :=
  match deferreds s !! d with
  | Some Pending =>
      match chains s !! d with
      | Some c => run_chain c outcome (mark d outcome s)
      | None => mark d outcome s
      end
  | _ => s
  end.

Definition resolve (d : nat) (payload : value) (s : state) : state :=
  settle d (Resolved payload) (emit (EResolve d payload) s).

Definition reject (d : nat) (reason : value) (s : state) : state :=
  settle d (Rejected reason) (emit (EReject d reason) s).

(** Attaching callbacks to a Deferred runs them at once when it is already
    settled. *)
Definition attach (d : nat) (c : chain) (s : state) : state :=
  match deferreds s !! d with
  | Some Pending => set_chains (<[d := c]> (chains s)) s
  | Some outcome => run_chain c outcome s
  | None => s
  end.

(** *** Request and response *)

Definition is_finite_positive (n : jsnum) : bool :=
  match n with
  | Fin z => 0 <? z
  | _ => false
  end.

(** Timeout precedence: per-call option, then [gadget.requestTimeoutMs],
    then the default. *)
Definition request_timeout (options : value) (s : state) : jsnum :=
  match get_prop (js_or options (VObj ∅)) "timeoutMs" with
  | VNum n => n
  | _ =>
      match field (gadget s) "requestTimeoutMs" with
      | VNum n => n
      | _ => Fin 15000
      end
  end.

Definition missing_msghost (name : string) : value :=
  VObj {[ "code" := VStr "missing_msghost";
          "message" := VStr "gadget.msghost is not set (or not a valid origin); cannot postMessage() safely.";
          "name" := VStr name ]}.

Definition envelope (name : string) (payload : value) (msgid : string) (s : state)
  : value :=
  VObj {[ "name" := VStr name;
          "gid" := field (gadget s) "gid";
          "origin" := field (gadget s) "url";
          "token" := field (gadget s) "token";
          "place" := field (gadget s) "place";
          "payload" := payload;
          "callback" := VStr msgid ]}.

(** The part of [sendMessageToTop] between [new $.Deferred()] and the
    [try]: the registry entry and, unless disabled, the timer. *)
Definition register (msgid name : string) (timeoutMs : jsnum) (s : state)
  : state * nat :=
  let '(s1, deferred) := new_deferred s in
  let s2 := set_pending (<[msgid := Entry deferred None name]> (pendingRequests s1)) s1 in
  if is_finite_positive timeoutMs then
    let '(s3, timerId) := setTimeout (TimeoutClosure msgid deferred name timeoutMs) s2 in
    (set_pending
       (alter (fun en => Entry (Bridge.deferred en) (Some timerId) (Bridge.name en))
              msgid (pendingRequests s3)) s3, deferred)
  else (s2, deferred).

(** [thrown] is what [JSON.stringify] or [postMessage] throws, if anything. *)
Definition sendMessageToTop (name : string) (payload options : value)
    (e : entropy) (thrown : option value) (s : state) : state * nat :=
  let timeoutMs := request_timeout options s in
  if negb (truthy (field (gadget s) "msghostOrigin")) then
    let '(s1, d) := new_deferred s in
    (reject d (missing_msghost name) s1, d)
  else
    let msgid := makeCallbackId e in
    let message := envelope name payload msgid s in
    let '(s3, deferred) := register msgid name timeoutMs s in
    match thrown with
    | None => (emit (EPostMessage message (field (gadget s3) "msghostOrigin")) s3, deferred)
    | Some exn => (reject deferred exn (clearPending (VStr msgid) s3), deferred)
    end.

Definition timed_out (c : timeout_closure) : value :=
  VObj {[ "code" := VStr "timeout";
          "message" := VStr "Timed out waiting for host response.";
          "name" := VStr (c_name c);
          "callback" := VStr (c_msgid c);
          "timeoutMs" := VNum (c_timeoutMs c) ]}.

(** The callback of the timer [t]. *)
Definition timeout (t : nat) (s : state) : state :=
  match timers s !! t with
  | Some c =>
      let s1 := clearPending (VStr (c_msgid c)) (set_timers (delete t (timers s)) s) in
      reject (c_deferred c) (timed_out c) s1
  | None => s
  end.

Definition messageHandler (event : message_event) (s : state) : state :=
  if negb (isTrustedEvent event s) then s
  else
    let '(s1, message) := parseMessageData (data event) s in
    if negb (truthy message) then s1
    else if truthy (get_prop message "callback") then
      match pending_get s1 (get_prop message "callback") with
      | None => s1
      | Some entry =>
          resolve (deferred entry) (get_prop message "payload")
                  (clearPending (get_prop message "callback") s1)
      end
    else
      match get_prop message "name" with
      | VStr name =>
          if negb (is_empty_string name)
          then trigger name (get_prop message "payload") s1
          else s1
      | _ => s1
      end.

(** *** Public API *)

(** [gadget.ready(callback)]; [callback] is [None] when it is not a function. *)
Definition ready (callback : option nat) (s : state) : state * nat :=
  let '(s1, deferred) := new_deferred s in
  if truthy (field (gadget s1) "isReady") then
    let s2 := match callback with Some cb => emit (ERun cb) s1 | None => s1 end in
    (resolve deferred VUndef s2, deferred)
  else
    (set_waiters (ready_waiters s1 ++ [(callback, deferred)]) s1, deferred).

Definition resize (height : value) (e : entropy) (thrown : option value) (s : state)
  : state * option nat :=
  if negb (str_strict_eq "sidebar" (field (gadget s) "place")) then (s, None)
  else
    let config :=
      VObj {[ "gid" := field (gadget s) "gid";
              "place" := field (gadget s) "place";
              "height" := height ]} in
    let '(s1, d) := sendMessageToTop "set-gadget-height" config VUndef e thrown s in
    (s1, Some d).

Definition getUrlData (page : location) : gmap string value :=
  let data : gmap string value :=
    <["name" := at_minus_2 (split_slash (pathname page))]>
      (<["url" := VStr (href_origin page +:+ pathname page)]> ∅) in
  foldl (fun d kv => <[kv.1 := VStr kv.2]> d) data (searchParams page).

Definition getEnvironment := sendMessageToTop "get-environment" VUndef VUndef.

Definition getFileInfo := sendMessageToTop "get-current-file-info" VUndef VUndef.

Definition getLocation := sendMessageToTop "get-location" VUndef VUndef.

Definition getSourceContent := sendMessageToTop "get-source-content" VUndef VUndef.

Definition getWysiwygContent := sendMessageToTop "get-wysiwyg-content" VUndef VUndef.

Definition getSelection := sendMessageToTop "get-wysiwyg-selection" VUndef VUndef.

Definition insertAtCursor (content : value) :=
  sendMessageToTop "insert-at-cursor" content VUndef.

Definition refreshLocation := sendMessageToTop "refresh-location" VUndef VUndef.

Definition setLocation (route : value) := sendMessageToTop "set-location" route VUndef.

(** [gadget.collectData()], up to the request it sends; the callbacks it
    attaches are those of [Initialization urlData]. *)
Definition collectData (page : location) (e : entropy) (thrown : option value)
    (s : state) : state * nat * gmap string value :=
  let urlData := getUrlData page in
  let s1 := set (VObj urlData) VUndef s in
  let s2 :=
    set_gadget (<["msghostOrigin" :=
                    origin_value (normalizeOrigin page (field (gadget s1) "msghost"))]>
                  (gadget s1)) s1 in
  let '(s3, d) := getEnvironment e thrown s2 in
  (s3, d, urlData).

(** The Environment when [collectData] asks the host for its environment:
    the URL data and the normalized origin. *)
Definition environment_at_start (page : location) : gmap string value :=
  <["msghostOrigin" :=
      origin_value (normalizeOrigin page (field (getUrlData page) "msghost"))]>
    (getUrlData page).

(** The body of the script: [gadget.collectData().then(...).fail(...)]. *)
Definition initialize (page : location) (e : entropy) (thrown : option value) : state :=
  let '(s, d, urlData) := collectData page e thrown initial in
  attach d (Initialization urlData) s.

(** *** The page as a transition system *)
Inductive input :=
  (** the application calls [sendMessageToTop], directly or through a helper *)
  | Send (name : string) (payload options : value) (e : entropy) (thrown : option value)
  (** a [message] event reaches the window *)
  | Message (event : message_event)
  (** the timer [t] expires *)
  | Timeout (t : nat)
  (** the application calls [gadget.set] *)
  | SetProperty (arg0 arg1 : value)
  (** the application calls [gadget.ready] *)
  | Ready (callback : option nat).

Definition step (s : state) (i : input) : state :=
  match i with
  | Send name payload options e thrown =>
      (sendMessageToTop name payload options e thrown s).1
  | Message event => messageHandler event s
  | Timeout t => timeout t s
  | SetProperty arg0 arg1 => set arg0 arg1 s
  | Ready callback => (ready callback s).1
  end.

Definition run (s : state) (inputs : list input) : state := foldl step s inputs.

End Code.

(** The host says nothing: no [message] event comes from the top window. *)
Definition host_silent (i : input) : bool :=
  match i with
  | Message event =>
      match source event with
      | Top => false
      | _ => true
      end
  | _ => true
  end.

(** What keeps a Deferred unsettled: nothing was called on it, and no timer
    and no [ready] handler holds it. *)
Definition unanswered (d : nat) (s : state) : Prop :=
  calls_on d (effects s) = O /\ (d < next_deferred s)%nat /\
  (forall t c, timers s !! t = Some c -> c_deferred c <> d) /\
  d ∉ (ready_waiters s).*2.

(** *** Vocabulary of the specification *)

(** A strict [scheme://host[:port]] origin with no path: [http://] or
    [https://] followed by a non-empty authority that has no [/], [?] or
    [#]. *)
Definition no_path_char (c : ascii) : bool :=
  negb (Ascii.eqb c "/" || Ascii.eqb c "?" || Ascii.eqb c "#").

Definition is_authority (a : string) : bool :=
  negb (is_empty_string a) && all_chars no_path_char a.

Fixpoint drop_chars (n : nat) (s : string) : string :=
  match n, s with
  | S n', String _ s' => drop_chars n' s'
  | _, _ => s
  end.

Definition strict_origin (o : string) : bool :=
  (String.prefix "http://" o && is_authority (drop_chars 7 o)) ||
  (String.prefix "https://" o && is_authority (drop_chars 8 o)).

(** The accepted forms of the trusted-origin configuration [v], each with
    the absolute URL it stands for on a page served over [pageProtocol]. *)
Inductive accepted_form (pageProtocol : string) : string -> string -> Prop :=
  | AbsoluteUrl scheme rest :
      lower scheme = "http" \/ lower scheme = "https" ->
      accepted_form pageProtocol (scheme +:+ "://" +:+ rest) (scheme +:+ "://" +:+ rest)
  | ProtocolRelative rest :
      accepted_form pageProtocol ("//" +:+ rest) (pageProtocol +:+ "//" +:+ rest)
  | BareHost host :
      host <> "" -> all_chars is_host_char host = true ->
      accepted_form pageProtocol host (pageProtocol +:+ "//" +:+ host)
  | BareHostPort host port :
      host <> "" -> all_chars is_host_char host = true ->
      port <> "" -> all_chars is_digit port = true ->
      accepted_form pageProtocol (host +:+ ":" +:+ port)
                    (pageProtocol +:+ "//" +:+ host +:+ ":" +:+ port).

(** The characters of a bare host with port. *)
Definition host_or_port_char (c : ascii) : bool :=
  is_host_char c || Ascii.eqb c ":" || is_digit c.

(** What the platform guarantees about [new URL(url).origin] for an
    [http(s)] URL: a strict origin. *)
Definition origin_contract (URL_origin : string -> option string) : Prop :=
  forall url o,
    is_absolute_http url = true -> URL_origin url = Some o -> strict_origin o = true.

(** *** The invariant of the registry

    A Deferred is held by the registry entry of its request, by the timer
    of that request, or by a [ready] handler; while it is held nothing has
    been called on it, and whoever calls [resolve] or [reject] on it has
    first removed every holder. *)
Definition holds_entry (s : state) (d : nat) : Prop :=
  exists m en, pendingRequests s !! m = Some en /\ deferred en = d.

Definition holds_timer (s : state) (d : nat) : Prop :=
  exists t c, timers s !! t = Some c /\ c_deferred c = d.

Definition holds_waiter (s : state) (d : nat) : Prop :=
  d ∈ (ready_waiters s).*2.

Definition held (s : state) (d : nat) : Prop :=
  holds_entry s d \/ holds_timer s d \/ holds_waiter s d.

(** What the callbacks of a Deferred leave alone. *)
Definition same_registry (s s' : state) : Prop :=
  pendingRequests s' = pendingRequests s /\ timers s' = timers s /\
  next_timer s' = next_timer s /\ next_deferred s' = next_deferred s.

Record Inv (s : state) : Prop := {
  inv_held : forall d, held s d ->
    calls_on d (effects s) = O /\ (d < next_deferred s)%nat;
  inv_once : forall d, (calls_on d (effects s) <= 1)%nat;
  inv_fresh : forall d, (next_deferred s <= d)%nat -> calls_on d (effects s) = O;
  inv_timer_id : forall t c, timers s !! t = Some c -> (0 < t < next_timer s)%nat;
  inv_next_timer : (0 < next_timer s)%nat;
  inv_link : forall m en t c,
    pendingRequests s !! m = Some en -> timers s !! t = Some c ->
    c_deferred c = deferred en -> timerId en = Some t /\ c_msgid c = m;
  inv_entry_inj : forall m m' en en',
    pendingRequests s !! m = Some en -> pendingRequests s !! m' = Some en' ->
    deferred en = deferred en' -> m = m';
  inv_timer_inj : forall t t' c c',
    timers s !! t = Some c -> timers s !! t' = Some c' ->
    c_deferred c = c_deferred c' -> t = t';
  inv_waiter_nodup : NoDup (ready_waiters s).*2;
  inv_waiter_sep : forall d, holds_waiter s d -> ~ holds_entry s d /\ ~ holds_timer s d;
}.

(** Callbacks are only attached to Deferreds that exist. *)
Definition Fresh (s : state) : Prop :=
  forall d, (next_deferred s <= d)%nat -> chains s !! d = None.

End Bridge.

(** ** The host bridge: [src/_lib/gadget.js], one listener per request

    This file has no registry and no normalized origin: every request adds
    a [message] listener of its own to the window, [cleanup] removes it, and
    messages are trusted when their origin is [gadget.msghost] as
    configured.  The Deferreds, timers, event bus and Environment are those
    of [Bridge.state], whose registry stays empty here. *)
Module Lib.
Import Bridge.

(** The variables a call of [sendMessageToTop] leaves to its closures
    ([_messageHandler], [cleanup] and the timer callback); the Deferred is
    the key they are stored under. *)
Record closure := Closure {
  r_msgid : string;
  r_name : string;
  r_timeoutMs : jsnum;
  r_timerId : option nat;
  r_cleanedUp : bool;
}.

(** The [message] listeners of the window: the [_messageHandler] of a
    request, or the global [messageHandler]. *)
Inductive listener :=
  | PerRequest (deferred : nat)
  | Global.

#[global] Instance listener_eq_dec : EqDecision listener.
Proof. solve_decision. Defined.

Record state := State {
  core : Bridge.state;
  closures : gmap nat closure;
  (** in the order they were added *)
  listeners : list listener;
}.

Definition initial : state := State Bridge.initial ∅ [].

Definition on_core (f : Bridge.state -> Bridge.state) (s : state) : state :=
  State (f (core s)) (closures s) (listeners s).

(** [a === b]: two objects are never the same object here, one comes from
    an event and the other from [gadget]. *)
Definition strict_eq (a b : value) : bool :=
  match a, b with
  | VUndef, VUndef | VNull, VNull => true
  | VBool x, VBool y => Bool.eqb x y
  | VNum (Fin x), VNum (Fin y) => x =? y
  | VNum PInf, VNum PInf | VNum NInf, VNum NInf => true
  | VStr x, VStr y => String.eqb x y
  | _, _ => false
  end.

Section Code.

(** The platform: [JSON.parse] ([None] when it throws) and the event type
    [jQuery.event.trigger] arrives at when its first argument is not a
    string ([None] when it throws). *)
Variable JSON_parse : string -> option value.
Variable jQuery_type : value -> option string.

Definition parseMessageData (raw : value) (s : Bridge.state) : Bridge.state * value :=
  match raw with
  | VStr text =>
      match JSON_parse text with
      | Some v => (s, v)
      | None => (emit (ELog "Cannot parse message:" [raw]) s, VNull)
      end
  | _ => (s, raw)
  end.

Definition isTrustedEvent (event : message_event) (s : Bridge.state) : bool :=
  match source event with
  | Top => strict_eq (origin event) (field (gadget s) "msghost")
  | _ => false
  end.

(** [cleanup()] of the request [deferred] *)
Definition cleanup (deferred : nat) (s : state) : state :=
  match closures s !! deferred with
  | Some r =>
      if r_cleanedUp r then s
      else
        let cleaned :=
          Closure (r_msgid r) (r_name r) (r_timeoutMs r) (r_timerId r) true in
        let s1 := State (core s) (<[deferred := cleaned]> (closures s)) (listeners s) in
        let s2 :=
          match r_timerId r with
          | Some t => on_core (clearTimeout t) s1
          | None => s1
          end in
        State (core s2) (closures s2)
              (filter (fun l => l <> PerRequest deferred) (listeners s2))
  | None => s
  end.

(** [_messageHandler(event)] of the request [deferred] *)
Definition request_listener (deferred : nat) (event : message_event) (s : state)
  : state :=
  match closures s !! deferred with
  | Some r =>
      if negb (isTrustedEvent event (core s)) then s
      else
        let '(c1, parsed) := parseMessageData (data event) (core s) in
        let s1 := State c1 (closures s) (listeners s) in
        if negb (truthy parsed) then s1
        else if str_strict_eq (r_msgid r) (get_prop parsed "callback")
        then on_core (resolve deferred (get_prop parsed "payload")) (cleanup deferred s1)
        else s1
  | None => s
  end.

Definition missing_msghost (name msgid : string) : value :=
  VObj {[ "code" := VStr "missing_msghost";
          "message" := VStr "gadget.msghost is not set; cannot postMessage() safely.";
          "name" := VStr name;
          "callback" := VStr msgid ]}.

(** The part of [sendMessageToTop] between the test of [gadget.msghost] and
    the [try]: the listener and, unless disabled, the timer. *)
Definition listen (deferred : nat) (msgid name : string) (timeoutMs : jsnum)
    (s : state) : state :=
  let s1 :=
    State (core s) (<[deferred := Closure msgid name timeoutMs None false]> (closures s))
          (listeners s ++ [PerRequest deferred]) in
  if is_finite_positive timeoutMs then
    let '(c2, t) :=
      setTimeout (TimeoutClosure msgid deferred name timeoutMs) (core s1) in
    State c2 (<[deferred := Closure msgid name timeoutMs (Some t) false]> (closures s1))
          (listeners s1)
  else s1.

(** [msgid] is [Math.random().toString().slice(2)]; [thrown] is what
    [JSON.stringify] or [postMessage] throws, if anything. *)
Definition sendMessageToTop (name : string) (payload options : value)
    (msgid : string) (thrown : option value) (s : state) : state * nat :=
  let timeoutMs := request_timeout options (core s) in
  let message := envelope name payload msgid (core s) in
  let '(c1, deferred) := new_deferred (core s) in
  let s1 := State c1 (closures s) (listeners s) in
  if negb (truthy (field (gadget c1) "msghost")) then
    (on_core (reject deferred (missing_msghost name msgid)) s1, deferred)
  else
    let s2 := listen deferred msgid name timeoutMs s1 in
    match thrown with
    | None =>
        (on_core (emit (EPostMessage message (field (gadget (core s2)) "msghost"))) s2,
         deferred)
    | Some exn => (on_core (reject deferred exn) (cleanup deferred s2), deferred)
    end.

(** The callback of the timer [t]. *)
Definition timeout (t : nat) (s : state) : state :=
  match timers (core s) !! t with
  | Some c =>
      let s1 := on_core (set_timers (delete t (timers (core s)))) s in
      on_core (reject (c_deferred c) (timed_out c)) (cleanup (c_deferred c) s1)
  | None => s
  end.

(** [$(gadget).trigger(message.name, ...)]: a string is its own event type. *)
Definition event_type (name : value) : option string :=
  match name with
  | VStr type => Some type
  | _ => jQuery_type name
  end.

(** The global [messageHandler(event)] *)
Definition messageHandler (event : message_event) (s : Bridge.state) : Bridge.state :=
  if negb (isTrustedEvent event s) then s
  else
    let '(s1, message) := parseMessageData (data event) s in
    if negb (truthy message) then s1
    else if truthy (get_prop message "callback") then s1
    else
      match event_type (get_prop message "name") with
      | Some type => trigger type (get_prop message "payload") s1
      | None => s1
      end.

(** A [message] event reaches the window: the listeners it had when the
    event arrived are called in order, except those removed meanwhile. *)
Definition call_listener (event : message_event) (s : state) (l : listener) : state :=
  if bool_decide (l ∈ listeners s) then
    match l with
    | PerRequest deferred => request_listener deferred event s
    | Global => on_core (messageHandler event) s
    end
  else s.

Definition dispatch (event : message_event) (s : state) : state :=
  foldl (call_listener event) s (listeners s).

(** [gadget.collectData()], up to the request it sends.  [gadget.set],
    [gadget.getUrlData], [gadget.ready] and the callbacks of the
    initialization read as in [Bridge]: [typeof null == "object"] makes
    [set] enumerate [null], which has nothing to enumerate, and [ready] is
    given a function or nothing. *)
Definition collectData (page : location) (msgid : string) (thrown : option value)
    (s : state) : state * nat * gmap string value :=
  let urlData := getUrlData page in
  let s1 := on_core (set (VObj urlData) VUndef) s in
  let '(s2, d) := sendMessageToTop "get-environment" VUndef VUndef msgid thrown s1 in
  (s2, d, urlData).

(** The body of the script: [gadget.collectData().then(...).fail(...)],
    then [addEventListener("message", messageHandler, false)]. *)
Definition initialize (page : location) (msgid : string) (thrown : option value)
  : state :=
  let '(s, d, urlData) := collectData page msgid thrown initial in
  let s1 := on_core (attach d (Initialization urlData)) s in
  State (core s1) (closures s1) (listeners s1 ++ [Global]).

Inductive input :=
  (** the application calls [sendMessageToTop], directly or through a helper *)
  | Send (name : string) (payload options : value) (msgid : string)
         (thrown : option value)
  (** a [message] event reaches the window *)
  | Message (event : message_event)
  (** the timer [t] expires *)
  | Timeout (t : nat)
  (** the application calls [gadget.set] *)
  | SetProperty (arg0 arg1 : value)
  (** the application calls [gadget.ready] *)
  | Ready (callback : option nat).

Definition step (s : state) (i : input) : state :=
  match i with
  | Send name payload options msgid thrown =>
      (sendMessageToTop name payload options msgid thrown s).1
  | Message event => dispatch event s
  | Timeout t => timeout t s
  | SetProperty arg0 arg1 => on_core (set arg0 arg1) s
  | Ready callback => on_core (fun c => (ready callback c).1) s
  end.

Definition run (s : state) (inputs : list input) : state := foldl step s inputs.

End Code.

(** The host says nothing: no [message] event comes from the top window. *)
Definition host_silent (i : input) : bool :=
  match i with
  | Message event =>
      match source event with
      | Top => false
      | _ => true
      end
  | _ => true
  end.

(** *** The invariant of the listeners

    A request that still listens has had nothing called on its Deferred,
    and a live timer belongs to a request that still listens. *)
Record Inv (s : state) : Prop := {
  inv_core : Bridge.Inv (core s);
  inv_no_registry : pendingRequests (core s) = ∅;
  inv_listener : forall d, PerRequest d ∈ listeners s ->
    calls_on d (effects (core s)) = O /\
    exists r, closures s !! d = Some r /\ r_cleanedUp r = false;
  inv_closure : forall d r, closures s !! d = Some r ->
    (d < next_deferred (core s))%nat /\ d ∉ (ready_waiters (core s)).*2;
  inv_timer : forall t c, timers (core s) !! t = Some c ->
    PerRequest (c_deferred c) ∈ listeners s /\
    exists r, closures s !! c_deferred c = Some r /\ r_timerId r = Some t;
}.

End Lib.

(** * More of the code

    The modules below embed code the development above does not reach:
    - [Module Legacy]: [getDataFromUrl] of the older [gadgetlib.js] (the
      second file of [src/unnamed/part_001]);
    - [Module Common]: the pure helpers of [src/_lib/gadget-common.js]
      ([escapeDmTag], [sortUsersByCase], [sortObjs]);
    - [Module CallTrace], [Module BridgeTrace], [Module RegistryTrace]:
      what is observed of a [call] of the API client and of the two host
      bridges, for the properties proved at the end of the file;
    - [Module Script], [Module LibScript], [Module Gadgetlib]: the calls
      the three versions of the script make through the [gadget] object,
      whose methods are properties beside the Environment. *)

(** ** The URL data of the older [gadgetlib.js]

    [getDataFromUrl] of the second file of [src/unnamed/part_001] cuts
    [location.href] by hand. *)
Module Legacy.

(** [s.split(re)] for a regular expression that matches one character of a
    class, and [s.split(c)] for a one-character string. *)
Fixpoint split_at (sep : ascii -> bool) (s : string) : list string :=
  match s with
  | EmptyString => [EmptyString]
  | String c s' =>
      if sep c then EmptyString :: split_at sep s'
      else match split_at sep s' with
           | x :: r => String c x :: r
           | [] => [String c EmptyString]
           end
  end.

(** The class [[\?&]]. *)
Definition is_query_separator (c : ascii) : bool :=
  Ascii.eqb c "?" || Ascii.eqb c "&".

Definition is_equals (c : ascii) : bool := Ascii.eqb c "=".

(** [data[parts[0]] = parts[1]] on the object literal [data]: a string or
    [undefined] assigned to [__proto__] is dropped by the setter that
    [Object.prototype] has for it. *)
Definition assign_param (data : gmap string value) (param : string)
  : gmap string value :=
  match split_at is_equals param with
  | key :: rest =>
      let v := match rest with
               | text :: _ => VStr text
               | [] => VUndef
               end in
      if String.eqb key "__proto__" then data else <[key := v]> data
  | [] => data
  end.

Definition getDataFromUrl (href : string) : gmap string value :=
  match split_at is_query_separator href with
  | url :: paramArray => foldl assign_param (<["url" := VStr url]> ∅) paramArray
  | [] => ∅
  end.

(** *** Vocabulary: a URL written out from its parts *)

(** [k1=v1&k2=v2&...] *)
Fixpoint query (params : list (string * string)) : string :=
  match params with
  | [] => EmptyString
  | [(k, v)] => k +:+ "=" +:+ v
  | (k, v) :: rest => (k +:+ "=" +:+ v) +:+ "&" +:+ query rest
  end.

(** The address of a page with the query parameters [params]. *)
Definition address (base : string) (params : list (string * string)) : string :=
  match params with
  | [] => base
  | _ => base +:+ "?" +:+ query params
  end.

(** A text without [?], [&] and [=]. *)
Definition plain (text : string) : bool :=
  Bridge.all_chars (fun c => negb (is_query_separator c || is_equals c)) text.

End Legacy.

(** ** Helpers of [src/_lib/gadget-common.js] *)
Module Common.

(** *** [escapeDmTag] *)

(** [s.replace(/c/g, replacement)] for a pattern that is one literal
    character and a replacement without [$]. *)
Fixpoint replace_all (c : ascii) (replacement : string) (s : string) : string :=
  match s with
  | EmptyString => EmptyString
  | String a s' =>
      if Ascii.eqb a c then replacement +:+ replace_all c replacement s'
      else String a (replace_all c replacement s')
  end.

(** [tag.replace(/\{/g, '\\{').replace(/\}/g, '\\}')] *)
Definition escapeDmTag (tag : string) : string :=
  replace_all "}" "\}" (replace_all "{" "\{" tag).

Definition is_brace (c : ascii) : bool := Ascii.eqb c "{" || Ascii.eqb c "}".

(** Reading an escaped tag back: a backslash that stands before a brace is
    dropped. *)
Fixpoint unescape (s : string) : string :=
  match s with
  | EmptyString => EmptyString
  | String a s' =>
      match s' with
      | String c r =>
          if Ascii.eqb a "\" && is_brace c then String c (unescape r)
          else String a (unescape s')
      | EmptyString => String a EmptyString
      end
  end.

(** Every brace of [s] stands directly after a backslash; [prev] is the
    character before [s]. *)
Fixpoint braces_escaped (prev : ascii) (s : string) : bool :=
  match s with
  | EmptyString => true
  | String a s' => (negb (is_brace a) || Ascii.eqb prev "\") && braces_escaped a s'
  end.

(** *** [sortUsersByCase] *)

(** [String.prototype.toLowerCase] on code units below U+0100: the letters
    [A]-[Z] and the Latin-1 capitals U+00C0-U+00DE, except the
    multiplication sign U+00D7, move up by 32. *)
Definition lower_char (c : ascii) : ascii :=
  let n := N_of_ascii c in
  if ((65 <=? n) && (n <=? 90) || (192 <=? n) && (n <=? 222) && negb (n =? 215))%N
  then ascii_of_N (n + 32) else c.

Fixpoint toLowerCase (s : string) : string :=
  match s with
  | EmptyString => EmptyString
  | String c s' => String (lower_char c) (toLowerCase s')
  end.

(** [sortUsersByCase(a, b)]; [None] stands for the [TypeError] of a
    [reverse_name] that is not a string.  [<] and [>] on two strings compare
    them code unit by code unit. *)
Definition sortUsersByCase (a b : gmap string value) : option Z :=
  match field a "reverse_name", field b "reverse_name" with
  | VStr nameA, VStr nameB =>
      Some (if String.ltb (toLowerCase nameA) (toLowerCase nameB) then -1
            else if String.ltb (toLowerCase nameB) (toLowerCase nameA) then 1
            else if String.ltb nameA nameB then -1
            else if String.ltb nameB nameA then 1
            else 0)
  | _, _ => None
  end.

(** *** [sortObjs] *)
Section Sort.

(** The platform: [a.localeCompare(b)] for a string [a], which converts
    [b] to a string and depends on the locale, and [a < b] for an [a] that
    is not a string. *)
Variable localeCompare : string -> value -> Z.
Variable less_than : value -> value -> bool.

(** The test that makes [sortObjs] put [item] before [other]. *)
Definition goes_before (sortKey : string) (item other : gmap string value) : bool :=
  match field item sortKey with
  | VStr text => localeCompare text (field other sortKey) =? -1
  | v => less_than v (field other sortKey)
  end.

(** The inner loop: [item] is spliced in before the first element it goes
    before, or pushed when there is none. *)
Fixpoint insert_item (sortKey : string) (item : gmap string value)
    (sorted : list (gmap string value)) : list (gmap string value) :=
  match sorted with
  | [] => [item]
  | other :: rest =>
      if goes_before sortKey item other then item :: other :: rest
      else other :: insert_item sortKey item rest
  end.

Definition sortObjs (arr : list (gmap string value)) (sortKey : string)
  : list (gmap string value) :=
  foldl (fun sorted item => insert_item sortKey item sorted) [] arr.

End Sort.

(** *** Vocabulary: orders *)

(** [lt] is a strict weak order on the elements of [l]: it is asymmetric,
    and an element between neither of two ordered ones does not exist. *)
Definition strict_weak {A} (lt : A -> A -> bool) (l : list A) : bool :=
  forallb (fun a =>
    forallb (fun b =>
      negb (lt a b) ||
      (negb (lt b a) && forallb (fun c => lt a c || lt c b) l)) l) l.

(** Neither goes before the other. *)
Definition tied {A} (lt : A -> A -> bool) (a b : A) : bool :=
  negb (lt a b) && negb (lt b a).

(** No element goes before an earlier one. *)
Fixpoint ordered {A} (lt : A -> A -> bool) (l : list A) : bool :=
  match l with
  | [] => true
  | a :: l' => forallb (fun b => negb (lt b a)) l' && ordered lt l'
  end.

End Common.

(** ** Observations on the trace of a [call] *)
Module CallTrace.
Import CmsApi.

(** The promise is settled: [resolve(...)] or [reject(...)]. *)
Definition is_settlement (e : effect) : bool :=
  match e with
  | EResolve _ | EReject _ _ _ => true
  | _ => false
  end.

Fixpoint settlements (t : list effect) : nat :=
  match t with
  | [] => O
  | e :: t' => ((if is_settlement e then 1 else 0) + settlements t')%nat
  end.

(** The time a call spends waiting between its attempts. *)
Definition total_delay (t : list effect) : Z := foldr Z.add 0 (delays t).

(** What the promise is settled with when the attempt that came back as
    [r] is the last one: [.done(resolve)], or [reject({ jqXHR, status,
    error })]. *)
Definition outcome (r : ajax_result) : effect :=
  match r with
  | Done body => EResolve body
  | Failed x status error => EReject x status error
  end.

(** The attempt that came back as [r] is followed by another one. *)
Definition retried (retries count : Z) (r : ajax_result) : bool :=
  match r with
  | Done _ => false
  | Failed x _ _ =>
      retriable_code (get_prop (responseJSON x) "code") && (count <? retries)
  end.

(** The HTTP method, the path and the retry budget an endpoint method hands
    to [call]: [get] and [post] default [retries] to 3, and so does [call]. *)
Definition target_method (t : target) : string :=
  match t with
  | ViaGet _ => "GET"
  | ViaPost _ | ViaPostRetries _ _ => "POST"
  | ByMethod method _ => if String.eqb (default "GET" method) "POST" then "POST" else "GET"
  | ViaCall method _ => method
  end.

Definition target_path (t : target) (config : gmap string value) : string :=
  match t with
  | ViaGet path | ViaPost path | ViaPostRetries _ path | ByMethod _ path => path config
  | ViaCall _ endpoint => endpoint
  end.

Definition target_retries (t : target) : Z :=
  match t with
  | ViaPostRetries retries _ => default 0 retries
  | _ => 3
  end.

(** The keys a rule may write. *)
Definition rule_key (r : rule) : string :=
  match r with
  | IfFalsy key _ | IfUndefined key _ => key
  end.

End CallTrace.

(** ** Observations on the trace of the host bridge *)
Module BridgeTrace.
Import Bridge.

(** The messages posted to the top window, in order. *)
Fixpoint posted (t : list effect) : list effect :=
  match t with
  | [] => []
  | e :: t' => if is_postMessage e then e :: posted t' else posted t'
  end.

(** Number of times the callback [cb] was called. *)
Definition is_run (cb : nat) (e : effect) : bool :=
  match e with
  | ERun cb' => Nat.eqb cb cb'
  | _ => false
  end.

Fixpoint runs (cb : nat) (t : list effect) : nat :=
  match t with
  | [] => O
  | e :: t' => ((if is_run cb e then 1 else 0) + runs cb t')%nat
  end.

(** Number of [ready] handlers that wait with the callback [cb]. *)
Fixpoint waiting (cb : nat) (ws : list (option nat * nat)) : nat :=
  match ws with
  | [] => O
  | (Some cb', _) :: ws' => ((if Nat.eqb cb cb' then 1 else 0) + waiting cb ws')%nat
  | (None, _) :: ws' => waiting cb ws'
  end.

(** Number of times [cb] was handed to [gadget.ready]. *)
Fixpoint handed (cb : nat) (inputs : list input) : nat :=
  match inputs with
  | [] => O
  | Ready (Some cb') :: inputs' =>
      ((if Nat.eqb cb cb' then 1 else 0) + handed cb inputs')%nat
  | _ :: inputs' => handed cb inputs'
  end.

Fixpoint lib_handed (cb : nat) (inputs : list Lib.input) : nat :=
  match inputs with
  | [] => O
  | Lib.Ready (Some cb') :: inputs' =>
      ((if Nat.eqb cb cb' then 1 else 0) + lib_handed cb inputs')%nat
  | _ :: inputs' => lib_handed cb inputs'
  end.

(** The message a request posts: none when the trusted origin is not
    usable or the transmission throws. *)
Definition sent (i : input) (s : state) : list effect :=
  match i with
  | Send name payload options e None =>
      if truthy (field (gadget s) "msghostOrigin")
      then [EPostMessage (envelope name payload (makeCallbackId e) s)
                         (field (gadget s) "msghostOrigin")]
      else []
  | _ => []
  end.

Definition lib_sent (i : Lib.input) (s : Lib.state) : list effect :=
  match i with
  | Lib.Send name payload options msgid None =>
      if truthy (field (gadget (Lib.core s)) "msghost")
      then [EPostMessage (envelope name payload msgid (Lib.core s))
                         (field (gadget (Lib.core s)) "msghost")]
      else []
  | _ => []
  end.

(** The callbacks of [ready] that have run or still wait. *)
Definition account (cb : nat) (s : state) : nat :=
  (runs cb (effects s) + waiting cb (ready_waiters s))%nat.

(** A step that posts nothing and neither runs nor drops a callback. *)
Definition quiet (s s' : state) : Prop :=
  posted (effects s') = posted (effects s) /\
  forall cb, account cb s' = account cb s.

(** A request as the host sees it: the envelope, posted to a target that
    is not falsy. *)
Definition is_request (e : effect) : Prop :=
  exists name payload msgid s target,
    e = EPostMessage (envelope name payload msgid s) target /\ truthy target = true.

(** Callbacks are attached to the Deferred of the initialization only,
    which is the first one the script creates. *)
Definition only_initialization (s : state) : Prop :=
  forall d c, chains s !! d = Some c -> d = O.

(** The request of the initialization has been resolved or rejected. *)
Definition initialization_over (s : state) : Prop :=
  deferreds s !! O <> Some Pending.

(** The application does not call [gadget.set]. *)
Definition no_set (i : input) : bool :=
  match i with
  | SetProperty _ _ => false
  | _ => true
  end.

Definition lib_no_set (i : Lib.input) : bool :=
  match i with
  | Lib.SetProperty _ _ => false
  | _ => true
  end.

(** A step that leaves the Environment and the attached callbacks alone,
    and does not reopen the initialization. *)
Definition calm (s s' : state) : Prop :=
  gadget s' = gadget s /\ chains s' = chains s /\
  (initialization_over s -> initialization_over s').

(** *** Events named like a method

    [$(gadget).trigger(type, ...)] ends with jQuery's default action: when
    [gadget] has a method named like the event, that method is called.
    jQuery takes the name of the event from [type.split(".")]: the text
    before the first dot, what follows being namespaces.  [trigger] above
    stops before the default action, so what is said below about a message
    of the host is said of the events that are not named like a method of
    [gadget]. *)
Definition gadget_methods : list string :=
  [ "ready"; "get"; "set"; "resize"; "collectData"; "getUrlData"; "reload";
    "getEnvironment"; "getFileInfo"; "getLocation"; "getSourceContent";
    "getWysiwygContent"; "getSelection"; "insertAtCursor"; "refreshLocation";
    "setLocation" ].

(** [type.split(".")[0]] *)
Fixpoint event_base (type : string) : string :=
  match type with
  | EmptyString => EmptyString
  | String c rest =>
      if Ascii.eqb c "." then EmptyString else String c (event_base rest)
  end.

(** The message [parseMessageData] makes of [event.data]. *)
Definition parsed (JSON_parse : string -> option value) (raw : value) : value :=
  match raw with
  | VStr text => default VNull (JSON_parse text)
  | _ => raw
  end.

(** The event [name], with or without namespaces, is named like a method. *)
Definition names_method (name : value) : bool :=
  match name with
  | VStr type => bool_decide (event_base type ∈ gadget_methods)
  | _ => false
  end.

Definition invokes_method (JSON_parse : string -> option value) (i : input) : bool :=
  match i with
  | Message event => names_method (get_prop (parsed JSON_parse (data event)) "name")
  | _ => false
  end.

(** In [src/_lib/gadget.js] the name need not be a string: the event is
    named by the type jQuery reads from it. *)
Definition lib_names_method (JSON_parse : string -> option value)
    (jQuery_type : value -> option string) (i : Lib.input) : bool :=
  match i with
  | Lib.Message event =>
      match Lib.event_type jQuery_type
              (get_prop (parsed JSON_parse (data event)) "name") with
      | Some type => bool_decide (event_base type ∈ gadget_methods)
      | None => false
      end
  | _ => false
  end.

(** The type jQuery reads is itself the name of a method. *)
Definition lib_invokes_method (JSON_parse : string -> option value)
    (jQuery_type : value -> option string) (i : Lib.input) : bool :=
  match i with
  | Lib.Message event =>
      match Lib.event_type jQuery_type
              (get_prop (parsed JSON_parse (data event)) "name") with
      | Some type => bool_decide (type ∈ gadget_methods)
      | None => false
      end
  | _ => false
  end.

End BridgeTrace.

(** ** Observations on the registry of pending requests *)
Module RegistryTrace.
Import Bridge BridgeTrace.

(** The input [i] is about the request registered under [k]: a response
    with that callback identifier, the expiry of a timer set for it, or a
    new request that takes the same identifier. *)
Definition touches (JSON_parse : string -> option value) (k : string) (s : state)
    (i : input) : bool :=
  match i with
  | Send _ _ _ e _ => String.eqb (makeCallbackId e) k
  | Message event => str_strict_eq k (get_prop (parsed JSON_parse (data event)) "callback")
  | Timeout t =>
      match timers s !! t with
      | Some c => String.eqb (c_msgid c) k
      | None => false
      end
  | _ => false
  end.

(** The timer an entry names is below the next timer id and, when it is
    still active, was set for the identifier the entry is registered
    under. *)
Definition linked (s : state) : Prop :=
  (0 < next_timer s)%nat /\
  forall k en t, pendingRequests s !! k = Some en -> timerId en = Some t ->
    (0 < t < next_timer s)%nat /\
    forall c, timers s !! t = Some c -> c_msgid c = k.

(** What a step keeps of the request [en] registered under [k]: the entry,
    its timer when it has an active one, and its Deferred untouched. *)
Definition kept (k : string) (en : entry) (s s' : state) : Prop :=
  pendingRequests s' !! k = Some en /\
  (forall t c, timerId en = Some t -> timers s !! t = Some c -> timers s' !! t = Some c) /\
  calls_on (deferred en) (effects s') = O.

(** *** The same for the listeners of [src/_lib/gadget.js] *)

(** The input [i] is about the request [d], whose closure is [r]: a
    response with its [msgid], or the expiry of its timer. *)
Definition lib_touches (JSON_parse : string -> option value) (d : nat) (r : Lib.closure)
    (s : Lib.state) (i : Lib.input) : bool :=
  match i with
  | Lib.Message event =>
      str_strict_eq (Lib.r_msgid r) (get_prop (parsed JSON_parse (data event)) "callback")
  | Lib.Timeout t =>
      match timers (Lib.core s) !! t with
      | Some c => Nat.eqb (c_deferred c) d
      | None => false
      end
  | _ => false
  end.

(** The timer a closure names is below the next timer id and, when it is
    still active, was set for the request of that closure. *)
Definition lib_linked (s : Lib.state) : Prop :=
  forall d r t, Lib.closures s !! d = Some r -> Lib.r_timerId r = Some t ->
    (t < next_timer (Lib.core s))%nat /\
    forall c, timers (Lib.core s) !! t = Some c -> c_deferred c = d.

(** What a step keeps of the request [d]: its listener, its closure and
    its timer when it has an active one. *)
Definition lib_kept (d : nat) (r : Lib.closure) (s s' : Lib.state) : Prop :=
  Lib.PerRequest d ∈ Lib.listeners s' /\
  Lib.closures s' !! d = Some r /\
  (forall t c, Lib.r_timerId r = Some t -> timers (Lib.core s) !! t = Some c ->
     timers (Lib.core s') !! t = Some c).

End RegistryTrace.

(** ** The methods of [gadget] are properties of the object the Environment is written on

    [gadget.set] writes [this[key]] onto the object literal that also
    holds the methods, so a parameter of the URL, a field of the host's
    answer or a consumer can put a value where a method was, and the next
    call of that method through the object is a [TypeError].  [Module
    Bridge] and [Module Lib] follow the bodies of the functions; the
    modules below follow the calls the script makes through the object
    ([this.getEnvironment()], [this.set(data)], the default action of
    [$(gadget).trigger]). *)
Module Script.
Import Bridge BridgeTrace.

Inductive exception :=
  (** [TypeError]: [gadget.m] is not a function *)
  | NotAFunction (m : string)
  (** [TypeError]: the property [k] of [undefined] or [null] is read *)
  | NoProperty (k : string)
  (** what [postMessage] or [JSON.stringify] threw *)
  | Raised (v : value).

(** How a call ends.  [Throws exn s]: the exception [exn] is raised with
    the page in state [s]; the script or the listener it is raised in ends
    there (raised in a callback of [then], jQuery 1 and 2 let it leave the
    listener that settled the Deferred, jQuery 3 hands it to the [fail]
    callbacks of the chain).  [Calls m s]: the default action of
    [$(gadget).trigger] calls [gadget.m()], with the page in state [s].
    Neither is followed further. *)
Inductive completion (S A : Type) :=
  | Returns (a : A)
  | Throws (exn : exception) (s : S)
  | Calls (m : string) (s : S).

Arguments Returns {S A} a.
Arguments Throws {S A} exn s.
Arguments Calls {S A} m s.

Definition bind {S A B : Type} (c : completion S A) (f : A -> completion S B)
  : completion S B :=
  match c with
  | Returns a => f a
  | Throws exn s => Throws exn s
  | Calls m s => Calls m s
  end.

(** [typeof gadget[m] === "function"]: [m] is one of the methods the
    script defined and nothing has been written over it (what is written,
    a string of the URL or a value the host sent, is not a function). *)
Definition is_method_of (methods : list string) (m : string) (g : gmap string value)
  : bool :=
  bool_decide (m ∈ methods) && bool_decide (g !! m = None).

(** The names under which [this[key] = value] does not just store data:
    the methods, which it writes over, and [__proto__], which it does not
    store. *)
Definition taken_of (methods : list string) : list string := "__proto__" :: methods.

(** The names that are not free for data as far as the [ready] event goes:
    those, and [length] and [nodeType], which jQuery reads on the object it
    wraps ([$(gadget)] takes an object with a numeric [length] for a list,
    and binds no handler to an object whose [nodeType] is a number other
    than 1 and 9). *)
Definition reserved_of (methods : list string) : list string :=
  "length" :: "nodeType" :: taken_of methods.

(** No property of [o] has one of the [names]. *)
Definition plain_object (names : list string) (o : gmap string value) : bool :=
  forallb (fun k => bool_decide (o !! k = None)) names.

(** [gadget.set(arg0)] writes under none of the [names]. *)
Definition plain_argument (names : list string) (arg0 : value) : bool :=
  match arg0 with
  | VStr key => negb (bool_decide (key ∈ names))
  | VObj o => plain_object names o
  | _ => true
  end.

(** [$(gadget).trigger(name, payload)] with its default action: after the
    handlers, [gadget[type]()] is called when it is a function, [type]
    being the name without its namespaces.  [gadget.ready()] is followed,
    the initialization triggering [ready] itself. *)
Definition trigger_of (methods : list string) (name : string) (payload : value)
    (s : state) : completion state state :=
  let s1 := Bridge.trigger name payload s in
  let type := event_base name in
  if is_method_of methods type (gadget s1) then
    if String.eqb type "ready" then Returns (Bridge.ready None s1).1
    else Calls type s1
  else Returns s1.

(** What the default action of [trigger("ready")] makes of the page:
    [gadget.ready()] is called when [ready] is still a method. *)
Definition default_ready_of (methods : list string) (s : state) : state :=
  if is_method_of methods "ready" (gadget s) then (Bridge.ready None s).1 else s.

(** [gadget.ready(callback)], called through the object. *)
Definition ready_of (methods : list string) (callback : option nat) (s : state)
  : completion state (state * nat) :=
  if is_method_of methods "ready" (gadget s) then Returns (Bridge.ready callback s)
  else Throws (NotAFunction "ready") s.

(** The consumers call [gadget.ready] one after the other. *)
Fixpoint ready_all_of (methods : list string) (callbacks : list (option nat))
    (s : state) : completion state state :=
  match callbacks with
  | [] => Returns s
  | callback :: rest =>
      bind (ready_of methods callback s) (fun r => ready_all_of methods rest r.1)
  end.

(** [event.data] is the message itself or its JSON text. *)
Definition delivered (JSON_parse : string -> option value) (raw message : value)
  : Prop :=
  match raw with
  | VStr text => JSON_parse text = Some message
  | _ => raw = message
  end.

(** Number of times [cb] is among the callbacks handed over. *)
Fixpoint asked (cb : nat) (callbacks : list (option nat)) : nat :=
  match callbacks with
  | [] => O
  | Some cb' :: rest => ((if Nat.eqb cb cb' then 1 else 0) + asked cb rest)%nat
  | None :: rest => asked cb rest
  end.

(** What a call of [gadget.ready] leaves alone. *)
Definition waits (s s' : state) : Prop :=
  gadget s' = gadget s /\ chains s' = chains s /\
  pendingRequests s' = pendingRequests s /\ timers s' = timers s /\
  (next_deferred s <= next_deferred s')%nat /\
  (forall d, (d < next_deferred s)%nat -> deferreds s' !! d = deferreds s !! d) /\
  ready_triggers (effects s') = ready_triggers (effects s).

(** The page is ready: the flag is set, one [ready] event has been
    triggered, no handler waits any more and each of the [callbacks] handed
    to [gadget.ready] has been called once. *)
Definition became_ready (callbacks : list (option nat)) (s : state) : Prop :=
  field (gadget s) "isReady" = VBool true /\
  ready_triggers (effects s) = 1%nat /\
  ready_waiters s = [] /\
  forall cb, runs cb (effects s) = asked cb callbacks.

(** The page is not ready: the script has not set the flag, no [ready]
    event has been triggered and no callback has been called. *)
Definition not_ready (urlData : gmap string value) (s : state) : Prop :=
  field (gadget s) "isReady" = field urlData "isReady" /\
  ready_triggers (effects s) = 0%nat /\
  forall cb, runs cb (effects s) = 0%nat.

(** *** [gadget.js] with the registry (the first file of [src/unnamed/part_001]) *)

Definition is_method : string -> gmap string value -> bool :=
  is_method_of gadget_methods.

Definition taken : list string := taken_of gadget_methods.

Definition reserved : list string := reserved_of gadget_methods.

Definition trigger : string -> value -> state -> completion state state :=
  trigger_of gadget_methods.

Definition default_ready : state -> state := default_ready_of gadget_methods.

(** [collectData]'s [then]: [if (data) this.set(data); return {...urlData, ...data}] *)
Definition collectData_then (urlData : gmap string value) (data : value) (s : state)
  : completion state (state * gmap string value) :=
  if truthy data then
    if is_method "set" (gadget s)
    then Returns (Bridge.set data VUndef s, spread urlData data)
    else Throws (NotAFunction "set") s
  else Returns (s, spread urlData data).

(** The [then] of the initialization. *)
Definition initialization_then (data : gmap string value) (s : state)
  : completion state state :=
  let s1 := emit (ELog (ready_banner s +:+ " is ready : ") [VObj data]) s in
  let s2 := set_gadget (<["isReady" := VBool true]> (gadget s1)) s1 in
  trigger "ready" VUndef s2.

(** The [fail] of the initialization. *)
Definition initialization_fail (error : value) (s : state) : completion state state :=
  let s1 :=
    emit (EWarn (ready_banner s +:+ " host env unavailable; continuing without env.")
                [error]) s in
  let s2 := set_gadget (<["isReady" := VBool true]> (gadget s1)) s1 in
  trigger "ready" VUndef s2.

Definition run_chain (c : chain) (outcome : dstate) (s : state) : completion state state :=
  match c, outcome with
  | Initialization urlData, Resolved payload =>
      bind (collectData_then urlData (getEnvironment_then payload) s)
           (fun r => initialization_then r.2 r.1)
  | Initialization urlData, Rejected error => initialization_fail error s
  | _, Pending => Returns s
  end.

Definition settle (d : nat) (outcome : dstate) (s : state) : completion state state :=
  match deferreds s !! d with
  | Some Pending =>
      match chains s !! d with
      | Some c => run_chain c outcome (mark d outcome s)
      | None => Returns (mark d outcome s)
      end
  | _ => Returns s
  end.

Definition resolve (d : nat) (payload : value) (s : state) : completion state state :=
  settle d (Resolved payload) (emit (EResolve d payload) s).

Definition reject (d : nat) (reason : value) (s : state) : completion state state :=
  settle d (Rejected reason) (emit (EReject d reason) s).

Definition attach (d : nat) (c : chain) (s : state) : completion state state :=
  match deferreds s !! d with
  | Some Pending => Returns (set_chains (<[d := c]> (chains s)) s)
  | Some outcome => run_chain c outcome s
  | None => Returns s
  end.

(** The callback of the timer [t]. *)
Definition timeout (t : nat) (s : state) : completion state state :=
  match timers s !! t with
  | Some c =>
      let s1 := clearPending (VStr (c_msgid c)) (set_timers (delete t (timers s)) s) in
      reject (c_deferred c) (timed_out c) s1
  | None => Returns s
  end.

Definition ready : option nat -> state -> completion state (state * nat) :=
  ready_of gadget_methods.

Definition ready_all : list (option nat) -> state -> completion state state :=
  ready_all_of gadget_methods.

Section Code.

Variable JSON_parse : string -> option value.
Variable URL_origin : string -> option string.

Definition messageHandler (event : message_event) (s : state) : completion state state :=
  if negb (isTrustedEvent event s) then Returns s
  else
    let '(s1, message) := parseMessageData JSON_parse (data event) s in
    if negb (truthy message) then Returns s1
    else if truthy (get_prop message "callback") then
      match pending_get s1 (get_prop message "callback") with
      | None => Returns s1
      | Some entry =>
          resolve (deferred entry) (get_prop message "payload")
                  (clearPending (get_prop message "callback") s1)
      end
    else
      match get_prop message "name" with
      | VStr name =>
          if negb (is_empty_string name)
          then trigger name (get_prop message "payload") s1
          else Returns s1
      | _ => Returns s1
      end.

(** [gadget.collectData()], up to the request it sends. *)
Definition collectData (page : location) (e : entropy) (thrown : option value)
    (s : state) : completion state (state * nat * gmap string value) :=
  if negb (is_method "getUrlData" (gadget s)) then Throws (NotAFunction "getUrlData") s
  else
    let urlData := getUrlData page in
    if negb (is_method "set" (gadget s)) then Throws (NotAFunction "set") s
    else
      let s1 := Bridge.set (VObj urlData) VUndef s in
      let s2 :=
        set_gadget (<["msghostOrigin" :=
                        origin_value (normalizeOrigin URL_origin page
                                        (field (gadget s1) "msghost"))]>
                      (gadget s1)) s1 in
      if negb (is_method "getEnvironment" (gadget s2))
      then Throws (NotAFunction "getEnvironment") s2
      else
        let '(s3, d) := getEnvironment e thrown s2 in
        Returns (s3, d, urlData).

(** The body of the script: [gadget.collectData().then(...).fail(...)]. *)
Definition initialize (page : location) (e : entropy) (thrown : option value)
  : completion state state :=
  bind (collectData page e thrown initial)
       (fun r => attach r.1.2 (Initialization r.2) r.1.1).

End Code.

End Script.

(** *** [src/_lib/gadget.js] *)
Module LibScript.
Import Bridge BridgeTrace Script.

Definition on_core (f : state -> completion state state) (s : Lib.state)
  : completion Lib.state Lib.state :=
  match f (Lib.core s) with
  | Returns c => Returns (Lib.State c (Lib.closures s) (Lib.listeners s))
  | Throws exn c => Throws exn (Lib.State c (Lib.closures s) (Lib.listeners s))
  | Calls m c => Calls m (Lib.State c (Lib.closures s) (Lib.listeners s))
  end.

(** The callback of the timer [t]. *)
Definition timeout (t : nat) (s : Lib.state) : completion Lib.state Lib.state :=
  match timers (Lib.core s) !! t with
  | Some c =>
      let s1 := Lib.on_core (set_timers (delete t (timers (Lib.core s)))) s in
      on_core (Script.reject (c_deferred c) (timed_out c)) (Lib.cleanup (c_deferred c) s1)
  | None => Returns s
  end.

(** The consumers call [gadget.ready] one after the other. *)
Definition ready_all (callbacks : list (option nat)) (s : Lib.state)
  : completion Lib.state Lib.state :=
  on_core (Script.ready_all callbacks) s.

Section Code.

Variable JSON_parse : string -> option value.
Variable jQuery_type : value -> option string.

(** [_messageHandler(event)] of the request [deferred] *)
Definition request_listener (deferred : nat) (event : message_event) (s : Lib.state)
  : completion Lib.state Lib.state :=
  match Lib.closures s !! deferred with
  | Some r =>
      if negb (Lib.isTrustedEvent event (Lib.core s)) then Returns s
      else
        let '(c1, parsed) := Lib.parseMessageData JSON_parse (data event) (Lib.core s) in
        let s1 := Lib.State c1 (Lib.closures s) (Lib.listeners s) in
        if negb (truthy parsed) then Returns s1
        else if str_strict_eq (Lib.r_msgid r) (get_prop parsed "callback")
        then on_core (Script.resolve deferred (get_prop parsed "payload"))
                     (Lib.cleanup deferred s1)
        else Returns s1
  | None => Returns s
  end.

(** The global [messageHandler(event)]; when jQuery cannot read a type
    from the name it throws out of the listener, which ends it. *)
Definition messageHandler (event : message_event) (s : state) : completion state state :=
  if negb (Lib.isTrustedEvent event s) then Returns s
  else
    let '(s1, message) := Lib.parseMessageData JSON_parse (data event) s in
    if negb (truthy message) then Returns s1
    else if truthy (get_prop message "callback") then Returns s1
    else
      match Lib.event_type jQuery_type (get_prop message "name") with
      | Some type => Script.trigger type (get_prop message "payload") s1
      | None => Returns s1
      end.

(** A [message] event reaches the window: its listeners are called in
    order as long as each returns. *)
Definition call_listener (event : message_event) (c : completion Lib.state Lib.state)
    (l : Lib.listener) : completion Lib.state Lib.state :=
  bind c (fun s =>
    if bool_decide (l ∈ Lib.listeners s) then
      match l with
      | Lib.PerRequest deferred => request_listener deferred event s
      | Lib.Global => on_core (messageHandler event) s
      end
    else Returns s).

Definition dispatch (event : message_event) (s : Lib.state)
  : completion Lib.state Lib.state :=
  foldl (call_listener event) (Returns s) (Lib.listeners s).

(** [gadget.collectData()], up to the request it sends. *)
Definition collectData (page : location) (msgid : string) (thrown : option value)
    (s : Lib.state) : completion Lib.state (Lib.state * nat * gmap string value) :=
  if negb (is_method "getUrlData" (gadget (Lib.core s)))
  then Throws (NotAFunction "getUrlData") s
  else
    let urlData := getUrlData page in
    if negb (is_method "set" (gadget (Lib.core s))) then Throws (NotAFunction "set") s
    else
      let s1 := Lib.on_core (Bridge.set (VObj urlData) VUndef) s in
      if negb (is_method "getEnvironment" (gadget (Lib.core s1)))
      then Throws (NotAFunction "getEnvironment") s1
      else
        let '(s2, d) :=
          Lib.sendMessageToTop "get-environment" VUndef VUndef msgid thrown s1 in
        Returns (s2, d, urlData).

(** The body of the script: [gadget.collectData().then(...).fail(...)],
    then [addEventListener("message", messageHandler, false)]. *)
Definition initialize (page : location) (msgid : string) (thrown : option value)
  : completion Lib.state Lib.state :=
  bind (collectData page msgid thrown Lib.initial) (fun r =>
  bind (on_core (Script.attach r.1.2 (Initialization r.2)) r.1.1) (fun s1 =>
  Returns (Lib.State (Lib.core s1) (Lib.closures s1) (Lib.listeners s1 ++ [Lib.Global])))).

End Code.

End LibScript.

(** *** The older [gadgetlib.js] (the second file of [src/unnamed/part_001])

    Its initialization, lines 771 to 783, and what that runs: [gadget.set],
    [getDataFromUrl] ([Module Legacy]), [getEnvironment] with
    [sendMessageToTop] and the listener [_messageHandler] of the request,
    and the [then] that sets the ready flag.  This file has no timer and
    never rejects a request.  It compares with [==] and [!=]; the global
    [messageHandler], added after the initialization, returns at once on a
    message that carries a callback identifier and is not followed. *)
Module Gadgetlib.
Import Bridge BridgeTrace Script.

Definition legacy_methods : list string :=
  [ "ready"; "get"; "set"; "resizeGadget"; "getConfig"; "setConfig";
    "collectUrlData"; "fetch"; "save"; "oucGetCurrentFileInfo";
    "oucGetCurrentLocation"; "oucGetSourceContent"; "oucGetWYSIWYGContent";
    "oucGetWYSIWYGSelection"; "oucInsertAtCursor"; "oucRefreshLocation";
    "oucSetCurrentLocation" ].

(** [set] asks the object it copies for its [hasOwnProperty], so that name
    is not free for data either. *)
Definition reserved : list string := "hasOwnProperty" :: reserved_of legacy_methods.

Record state := State {
  (** [gadget], the Deferreds, the handlers of [ready] and the effects *)
  core : Bridge.state;
  (** the [_messageHandler]s on the window, in the order they were added:
      the [msgid] and the Deferred each one captured *)
  listeners : list (string * nat);
  (** the Deferred the [then] of the initialization is attached to *)
  awaiting : option nat;
}.

Definition initial : state := State Bridge.initial [] None.

Definition on_core (f : Bridge.state -> completion Bridge.state Bridge.state)
    (s : state) : completion state state :=
  match f (core s) with
  | Returns c => Returns (State c (listeners s) (awaiting s))
  | Throws exn c => Throws exn (State c (listeners s) (awaiting s))
  | Calls m c => Calls m (State c (listeners s) (awaiting s))
  end.

(** [gadget.set(arg0, arg1)]: [typeof arg0 == 'string'], or a loop over the
    keys of [arg0] that calls [arg0.hasOwnProperty(key)] first. *)
Definition set (arg0 arg1 : value) (c : Bridge.state)
  : completion Bridge.state Bridge.state :=
  match arg0 with
  | VObj o =>
      if bool_decide (o !! "hasOwnProperty" = None) then Returns (Bridge.set arg0 arg1 c)
      else Throws (NotAFunction "hasOwnProperty") c
  | _ => Returns (Bridge.set arg0 arg1 c)
  end.

(** [gadget.ready(callback)], called through the object, by one consumer
    after the other. *)
Definition ready_all : list (option nat) -> Bridge.state
    -> completion Bridge.state Bridge.state :=
  ready_all_of legacy_methods.

(** [msgid] is [Math.random().toString().slice(2)]; [thrown] is what
    [JSON.stringify] or [postMessage] throws, if anything: nothing catches
    it. *)
Definition sendMessageToTop (name : string) (payload : value) (msgid : string)
    (thrown : option value) (s : state) : completion state (state * nat) :=
  let message := envelope name payload msgid (core s) in
  let '(c1, deferred) := new_deferred (core s) in
  let s1 := State c1 (listeners s ++ [(msgid, deferred)]) (awaiting s) in
  match thrown with
  | None =>
      Returns (State (emit (EPostMessage message (field (gadget c1) "msghost")) c1)
                     (listeners s1) (awaiting s1), deferred)
  | Some exn => Throws (Raised exn) s1
  end.

Section Code.

(** The platform: [JSON.parse] ([None] when it throws) and [a == b]. *)
Variable JSON_parse : string -> option value.
Variable loose_eq : value -> value -> bool.

(** The [then] of the initialization. *)
Definition initialization_then (response : value) (c : Bridge.state)
  : completion Bridge.state Bridge.state :=
  bind (if loose_eq response (VStr "Unrecognized message.") then Returns c
        else if is_method_of legacy_methods "set" (gadget c) then set response VUndef c
        else Throws (NotAFunction "set") c)
       (fun c1 =>
          let c2 := set_gadget (<["isReady" := VBool true]> (gadget c1)) c1 in
          trigger_of legacy_methods "ready" VUndef c2).

(** [deferred.resolve(payload)] *)
Definition resolve (d : nat) (payload : value) (s : state) : completion state state :=
  let s1 := State (emit (EResolve d payload) (core s)) (listeners s) (awaiting s) in
  match deferreds (core s1) !! d with
  | Some Pending =>
      let s2 := State (mark d (Resolved payload) (core s1)) (listeners s1) (awaiting s1) in
      if bool_decide (awaiting s2 = Some d)
      then on_core (initialization_then payload) s2
      else Returns s2
  | _ => Returns s1
  end.

(** [_messageHandler(event)] of the request that drew [msgid] and created
    [deferred]. *)
Definition request_listener (msgid : string) (deferred : nat) (event : message_event)
    (s : state) : completion state state :=
  if negb (loose_eq (origin event) (field (gadget (core s)) "msghost")) then Returns s
  else
    let answer (message : value) :=
      match message with
      | VUndef | VNull => Throws (NoProperty "callback") s
      | _ =>
          if loose_eq (get_prop message "callback") (VStr msgid) then
            resolve deferred (get_prop message "payload")
              (State (core s) (filter (fun l => l <> (msgid, deferred)) (listeners s))
                     (awaiting s))
          else Returns s
      end in
    match data event with
    | VStr text =>
        match JSON_parse text with
        | Some message => answer message
        | None =>
            Returns (State (emit (ELog "Cannot parse message from OU Campus app : "
                                       [data event]) (core s))
                           (listeners s) (awaiting s))
        end
    | message => answer message
    end.

End Code.

(** The body of the script up to the [then]:
    [gadget.set(getDataFromUrl()); getEnvironment().then(...)]. *)
Definition initialize (href msgid : string) (thrown : option value)
  : completion state state :=
  bind (on_core (set (VObj (Legacy.getDataFromUrl href)) VUndef) initial) (fun s1 =>
  bind (sendMessageToTop "get-environment" VUndef msgid thrown s1) (fun r =>
  Returns (State (core r.1) (listeners r.1) (Some r.2)))).

End Gadgetlib.

(** ** Concrete inputs used by the examples below *)
Module Scenario.
Import CmsApi.

(** An Environment with and without an API host. *)
Definition env : gmap string value :=
  {[ "token" := VStr "t0"; "apihost" := VStr "https://cms.example.edu"; "site" := VStr "www" ]}.

Definition env_no_apihost : gmap string value :=
  {[ "token" := VStr "t0"; "site" := VStr "www" ]}.

Definition timeout_failure : ajax_result :=
  Failed (JqXHR (VObj {[ "code" := VStr "GATEWAY_TIMEOUT_504"; "error" := VStr "timed out" ]}) 504)
         "error" "Gateway Timeout".

Definition session_failure : ajax_result :=
  Failed (JqXHR (VObj {[ "code" := VStr "SESSION_NOT_FOUND"; "error" := VStr "no session" ]}) 401)
         "error" "Unauthorized".

Definition denied_failure : ajax_result :=
  Failed (JqXHR (VObj {[ "code" := VStr "ACCESS_DENIED"; "error" := VStr "denied" ]}) 403)
         "error" "Forbidden".

Definition always_timeout (count : Z) : ajax_result := timeout_failure.

Definition always_denied (count : Z) : ajax_result := denied_failure.

Definition session_lost_at_1 (count : Z) : ajax_result :=
  if count =? 1 then session_failure else timeout_failure.

(** [Math.random()] draws 0.8 for the first backoff and 0 afterwards:
    jitter 200 ms, then 0 ms. *)
Definition random_bits (attempt : Z) : Z :=
  if attempt =? 0 then 7205759403792794 else 0.

(** A store holding one request config [{ method: 'GET', endpoint:
    '/files/list', retries: 2, delay: 100 }]. *)
Definition store_config : heap :=
  {[ 0%nat := CConfig (CallConfig "GET" "/files/list" None (Some 2) (Some 100)) ]}.

(** The same request config with the default budget and base delay. *)
Definition store_default : heap :=
  {[ 0%nat := CConfig (CallConfig "GET" "/files/list" None None None) ]}.

(** A store holding the caller's object [{ path: '/index.pcf' }] at 0 and a
    request config around it at 1. *)
Definition caller_object : gmap string value := {[ "path" := VStr "/index.pcf" ]}.

Definition store_caller : heap :=
  {[ 0%nat := CParams caller_object;
     1%nat := CConfig (CallConfig "POST" "/files/publish" (Some 0%nat) None None) ]}.

(** Stand-ins for the platform, used to run the bridge on concrete inputs:
    an origin function for [http(s)://authority...] URLs, and a [JSON.parse]
    that knows two texts. *)
Definition url_origin_model (url : string) : option string :=
  let l := Bridge.lower url in
  let authority_of (n : nat) :=
    (Bridge.span Bridge.no_path_char (Bridge.drop_chars n l)).1 in
  if String.prefix "http://" l then
    if is_empty_string (authority_of 7%nat) then None
    else Some ("http://" +:+ authority_of 7%nat)
  else if String.prefix "https://" l then
    if is_empty_string (authority_of 8%nat) then None
    else Some ("https://" +:+ authority_of 8%nat)
  else None.

(** JSON texts: U+0022 delimits names and strings. *)
Definition quoted (text : string) : string :=
  String "034"%char (text +:+ String "034"%char EmptyString).

Definition json_pair (key text : string) : string := quoted key +:+ ":" +:+ text.

Definition unrecognized_text : string :=
  "{" +:+ json_pair "callback" (quoted "uuid-1") +:+ "," +:+
  json_pair "payload" (quoted "Unrecognized message.") +:+ "}".

Definition file_changed_text : string :=
  "{" +:+ json_pair "name" (quoted "file-changed") +:+ "," +:+
  json_pair "payload" "null" +:+ "}".

Definition json_parse_model (text : string) : option value :=
  if String.eqb text unrecognized_text
  then Some (VObj {[ "callback" := VStr "uuid-1"; "payload" := VStr "Unrecognized message." ]})
  else if String.eqb text file_changed_text
  then Some (VObj {[ "name" := VStr "file-changed"; "payload" := VNull ]})
  else None.

(** A gadget page and what the host sends it. *)
Definition page : Bridge.location :=
  Bridge.Location "https:" "https://gadgets.example.edu" "/gadgets/broken_links/index.html"
    [("msghost", " https://CMS.example.edu/11/ "); ("gid", "g1"); ("token", "t0"); ("b", "2")].

Definition page_wildcard : Bridge.location :=
  Bridge.Location "https:" "https://gadgets.example.edu" "/gadgets/broken_links/index.html"
    [("msghost", "*"); ("gid", "g1")].

Definition uuid (n : string) : Bridge.entropy := Bridge.Entropy (Some n) 0 "".

Definition host_environment : gmap string value :=
  {[ "b" := VStr "3"; "c" := VStr "4" ]}.

Definition response (callback : string) (payload : value) : Bridge.message_event :=
  Bridge.MessageEvent Bridge.Top (VStr "https://cms.example.edu")
    (VObj {[ "callback" := VStr callback; "payload" := payload ]}).

Definition forged_response (callback : string) (payload : value) : Bridge.message_event :=
  Bridge.MessageEvent (Bridge.Frame 7) (VStr "https://evil.example")
    (VObj {[ "callback" := VStr callback; "payload" := payload ]}).

(** A request sent with the timer disabled, [{ timeoutMs: 0 }], to a host
    that never answers it: a forged response and a broadcast arrive. *)
Definition silent_host : list Bridge.input :=
  [ Bridge.Send "get-location" VUndef (VObj {[ "timeoutMs" := VNum (Fin 0) ]})
      (uuid "uuid-2") None;
    Bridge.Message (forged_response "uuid-2" (VStr "/pages"));
    Bridge.Message
      (Bridge.MessageEvent Bridge.Top (VStr "https://cms.example.edu")
         (VStr file_changed_text)) ].

(** The same page with the host origin given exactly, as
    [src/_lib/gadget.js] needs it, and an answer of the host. *)
Definition page_exact : Bridge.location :=
  Bridge.Location "https:" "https://gadgets.example.edu" "/gadgets/broken_links/index.html"
    [("msghost", "https://cms.example.edu"); ("gid", "g1"); ("token", "t0"); ("b", "2")].

(** The request of the initialization times out and is answered afterwards. *)
Definition lib_late_answer : list Lib.input :=
  [ Lib.Timeout 1; Lib.Message (response "4721" (VStr "/pages")) ].

(** A request that times out and is answered afterwards. *)
Definition late_answer : list Bridge.input :=
  [ Bridge.Send "get-location" VUndef VUndef (uuid "uuid-2") None;
    Bridge.Timeout 2;
    Bridge.Message (response "uuid-2" (VStr "/pages")) ].

End Scenario.

(** ** Concrete inputs for the helpers *)
Module Sample.

Definition user (reverse_name : string) : gmap string value :=
  {[ "reverse_name" := VStr reverse_name ]}.

(** Stand-ins for the platform: a [localeCompare] that compares code units
    and a [<] on numbers. *)
Definition locale_model (a : string) (b : value) : Z :=
  match String.compare a (to_string b) with
  | Lt => -1
  | Eq => 0
  | Gt => 1
  end.

Definition less_than_model (a b : value) : bool :=
  match a, b with
  | VNum (Fin x), VNum (Fin y) => x <? y
  | _, _ => false
  end.

Definition row (name : string) (size : Z) : gmap string value :=
  {[ "name" := VStr name; "size" := VNum (Fin size) ]}.

Definition rows : list (gmap string value) :=
  [ row "b" 2; row "a" 2; row "c" 1 ].

End Sample.

(** ** Pages for the examples of the three scripts *)
Module Pages.

(** A page whose URL has a parameter named like the method [set]. *)
Definition page_set : Bridge.location :=
  Bridge.Location "https:" "https://gadgets.example.edu" "/gadgets/broken_links/index.html"
    [("msghost", "https://cms.example.edu"); ("b", "2"); ("set", "1")].

(** A page whose URL has a parameter named like the method
    [getEnvironment]. *)
Definition page_getEnvironment : Bridge.location :=
  Bridge.Location "https:" "https://gadgets.example.edu" "/gadgets/broken_links/index.html"
    [("msghost", "https://cms.example.edu"); ("getEnvironment", "1")].

(** A page configured with the wildcard as the host origin. *)
Definition page_star : Bridge.location :=
  Bridge.Location "https:" "https://gadgets.example.edu" "/gadgets/broken_links/index.html"
    [("msghost", "*"); ("gid", "g1"); ("token", "t0")].

(** The address of a page of the older [gadgetlib.js], and one whose
    [msghost] is no origin, which makes [postMessage] throw. *)
Definition href : string :=
  "https://gadgets.example.edu/gadgets/links/index.html?msghost=https://cms.example.edu&gid=g1".

Definition href_no_origin : string :=
  "https://gadgets.example.edu/gadgets/links/index.html?msghost=cms.example.edu&gid=g1".

Definition syntax_error : value :=
  VObj {[ "name" := VStr "SyntaxError";
          "message" := VStr "Invalid target origin 'cms.example.edu'" ]}.

(** A stand-in for [==] on the values of the examples: [null] and
    [undefined] equal each other, primitives of one type compare by
    value. *)
Definition loose_eq_model (a b : value) : bool :=
  match a, b with
  | (VUndef | VNull), (VUndef | VNull) => true
  | _, _ => Lib.strict_eq a b
  end.

(** The answer of the host to a request of the older [gadgetlib.js]. *)
Definition legacy_response (callback : string) (payload : value) : Bridge.message_event :=
  Bridge.MessageEvent Bridge.Top (VStr "https://cms.example.edu")
    (VObj {[ "callback" := VStr callback; "payload" := payload ]}).

End Pages.
(** * Properties

    ** Values *)
Module JSFacts.

Lemma str_strict_eq_true s v : str_strict_eq s v = true <-> v = VStr s.
Proof.
  destruct v; simpl; try (split; [discriminate | congruence]).
  rewrite String.eqb_eq. split; congruence.
Qed.

Lemma js_or_truthy a b : truthy a = true -> js_or a b = a.
Proof. unfold js_or. now intros ->. Qed.

Lemma js_or_falsy a b : truthy a = false -> js_or a b = b.
Proof. unfold js_or. now intros ->. Qed.

End JSFacts.
Import JSFacts.

(** ** The API client *)
Module CmsApiProofs.
Import CmsApi.

Lemma attempts_app t1 t2 : attempts (t1 ++ t2) = (attempts t1 + attempts t2)%nat.
Proof. induction t1 as [|e t1 IH]; simpl; [reflexivity | rewrite IH; lia]. Qed.

Lemma delays_app t1 t2 : delays (t1 ++ t2) = delays t1 ++ delays t2.
Proof.
  induction t1 as [|e t1 IH]; simpl; [reflexivity |].
  destruct e; simpl; rewrite IH; reflexivity.
Qed.

Section Ring.

Variable gadget : gmap string value.
Variable server : Z -> ajax_result.
Variable random : Z -> Z.
Variable cfg : call_config.
Variable params : gmap string value.
Variables retries delay : Z.

#[local] Abbreviation on_fail := (on_fail cfg params).
#[local] Abbreviation retriable := (retriable cfg params).
#[local] Abbreviation request := (request gadget cfg params).
#[local] Abbreviation ring_fuel f := (ring_fuel gadget server random f cfg params retries delay).
#[local] Abbreviation ring := (ring gadget server random cfg params retries delay).
#[local] Abbreviation backoff := (backoff random delay).

(** The [fail] callback issues no request and schedules nothing before its
    last statement. *)
Lemma attempts_on_fail x : attempts (snd (on_fail x)) = O.
Proof.
  unfold CmsApi.on_fail. destruct (negb (truthy (responseJSON x))); simpl; [reflexivity |].
  destruct (str_strict_eq _ _); reflexivity.
Qed.

Lemma delays_on_fail x : delays (snd (on_fail x)) = [].
Proof.
  unfold CmsApi.on_fail. destruct (negb (truthy (responseJSON x))); simpl; [reflexivity |].
  destruct (str_strict_eq _ _); reflexivity.
Qed.

(** [retriable] only looks at [response.code]. *)
Lemma retriable_code_of x :
  retriable x = retriable_code (get_prop (responseJSON x) "code").
Proof.
  unfold CmsApi.retriable, CmsApi.on_fail.
  destruct (responseJSON x) as [| |[]|[[]| | |]|[]|]; reflexivity.
Qed.

Lemma retriable_iff x :
  retriable x = true <->
  exists code token,
    get_prop (responseJSON x) "code" = VStr code /\
    In token retryCodes /\ includes code token = true.
Proof.
  rewrite retriable_code_of. unfold retriable_code. rewrite existsb_exists. split.
  - intros (token & Hin & H). destruct (get_prop _ _) eqn:E; try discriminate.
    eauto.
  - intros (code & token & -> & Hin & H). eauto.
Qed.

Lemma session_not_found_not_retriable x :
  get_prop (responseJSON x) "code" = VStr "SESSION_NOT_FOUND" -> retriable x = false.
Proof. intros H. rewrite retriable_code_of, H. reflexivity. Qed.

Lemma session_not_found_blanks x :
  get_prop (responseJSON x) "code" = VStr "SESSION_NOT_FOUND" ->
  In (ESetBody "<h3>Failed to connect</h3><p>Reload the page.</p>") (snd (on_fail x)).
Proof.
  intros H. unfold CmsApi.on_fail.
  destruct (responseJSON x) eqn:E; try discriminate H.
  simpl. simpl in H. rewrite H. simpl. tauto.
Qed.

(** One unfolding of [ring_fuel]. *)
Lemma ring_fuel_S f count :
  ring_fuel (S f) count =
  match server count with
  | Done body => Some [request; EResolve body]
  | Failed x status error =>
      if retriable x && (count <? retries) then
        rest ← ring_fuel f (count + 1);
        Some (request :: snd (on_fail x) ++ ESetTimeout (backoff count) :: rest)
      else Some (request :: snd (on_fail x) ++ [EReject x status error])
  end.
Proof.
  simpl. destruct (server count) as [body | x status error]; [reflexivity |].
  unfold CmsApi.retriable. destruct (on_fail x) as [r logged]. reflexivity.
Qed.

(** [ring] has the fuel it needs: it unfolds like the source. *)
Lemma ring_unfold count :
  ring count =
  match server count with
  | Done body => Some [request; EResolve body]
  | Failed x status error =>
      if retriable x && (count <? retries) then
        rest ← ring (count + 1);
        Some (request :: snd (on_fail x) ++ ESetTimeout (backoff count) :: rest)
      else Some (request :: snd (on_fail x) ++ [EReject x status error])
  end.
Proof.
  unfold CmsApi.ring. rewrite ring_fuel_S.
  destruct (server count) as [body | x status error]; [reflexivity |].
  destruct (retriable x); simpl; [| reflexivity].
  destruct (Z.ltb_spec count retries) as [Hlt | Hge]; [| reflexivity].
  replace (Z.to_nat (retries - count)) with (S (Z.to_nat (retries - (count + 1)))) by lia.
  reflexivity.
Qed.

Lemma ring_fuel_total f count :
  (Z.to_nat (retries - count) < f)%nat -> is_Some (ring_fuel f count).
Proof.
  revert count. induction f as [|f IH]; intros count Hf; [lia |].
  rewrite ring_fuel_S. destruct (server count) as [body | x status error]; [eauto |].
  destruct (retriable x); simpl; [| eauto].
  destruct (Z.ltb_spec count retries) as [Hlt | Hge]; [| eauto].
  destruct (IH (count + 1)) as [rest Hrest]; [lia |].
  rewrite Hrest. simpl. eauto.
Qed.

(** [ring(count)] always produces a trace. *)
Lemma ring_total count : is_Some (ring count).
Proof. apply ring_fuel_total. lia. Qed.

(** Attempt [k + 1] after [count] is only made when attempt [k] failed with
    a retriable code under the budget. *)
Lemma ring_fuel_retry_only f count t :
  ring_fuel f count = Some t ->
  forall k : nat, (S k < attempts t)%nat ->
    exists x status error,
      server (count + Z.of_nat k) = Failed x status error /\
      retriable x = true /\ count + Z.of_nat k < retries.
Proof.
  revert count t. induction f as [|f IH]; intros count t Ht k Hk; [discriminate |].
  rewrite ring_fuel_S in Ht.
  destruct (server count) as [body | x status error] eqn:Hsrv.
  - injection Ht as <-. simpl in Hk. lia.
  - destruct (retriable x && (count <? retries)) eqn:Hc.
    + destruct (ring_fuel f (count + 1)) as [rest|] eqn:Hrest; [| discriminate].
      simpl in Ht. injection Ht as <-.
      apply andb_true_iff in Hc as [Hr Hlt]. apply Z.ltb_lt in Hlt.
      simpl in Hk. rewrite attempts_app, attempts_on_fail in Hk. simpl in Hk.
      destruct k as [|k].
      * exists x, status, error. rewrite Z.add_0_r. auto.
      * destruct (IH _ _ Hrest k) as (x' & s' & e' & H1 & H2 & H3); [lia |].
        exists x', s', e'.
        replace (count + Z.of_nat (S k)) with (count + 1 + Z.of_nat k) by lia. auto.
    + injection Ht as <-. simpl in Hk.
      rewrite attempts_app, attempts_on_fail in Hk. simpl in Hk. lia.
Qed.

(** A failure that is not retried ends the call with a rejection. *)
Lemma ring_stop count x status error :
  server count = Failed x status error ->
  retriable x && (count <? retries) = false ->
  ring count = Some (request :: snd (on_fail x) ++ [EReject x status error]).
Proof. intros Hsrv Hc. rewrite ring_unfold, Hsrv, Hc. reflexivity. Qed.

Lemma attempts_stop x status error :
  attempts (request :: snd (on_fail x) ++ [EReject x status error]) = 1%nat.
Proof. simpl. rewrite attempts_app, attempts_on_fail. reflexivity. Qed.

Lemma last_stop x status error :
  last (request :: snd (on_fail x) ++ [EReject x status error])
  = Some (EReject x status error).
Proof. rewrite app_comm_cons. apply last_snoc. Qed.

(** When every attempt fails with a retriable code, the budget is used up. *)
Lemma ring_fuel_all_fail f count :
  (forall k, count <= k <= retries ->
     exists x status error, server k = Failed x status error /\ retriable x = true) ->
  count <= retries ->
  (Z.to_nat (retries - count) < f)%nat ->
  exists t x status error,
    ring_fuel f count = Some t /\
    attempts t = S (Z.to_nat (retries - count)) /\
    server retries = Failed x status error /\
    last t = Some (EReject x status error).
Proof.
  revert count. induction f as [|f IH]; intros count Hall Hle Hf; [lia |].
  rewrite ring_fuel_S.
  destruct (Hall count) as (x & status & error & Hsrv & Hr); [lia |].
  rewrite Hsrv, Hr. simpl.
  destruct (Z.ltb_spec count retries) as [Hlt | Hge].
  - destruct (IH (count + 1)) as (rest & x' & s' & e' & Hrest & Hn & Hs & Hl);
      [intros k Hk; apply Hall; lia | lia | lia |].
    rewrite Hrest. simpl. eexists _, x', s', e'. split; [reflexivity |].
    split; [| split; [exact Hs |]].
    + simpl. rewrite attempts_app, attempts_on_fail. simpl. rewrite Hn. lia.
    + rewrite app_comm_cons, last_app. simpl.
      destruct rest as [|e rest]; [discriminate Hl |].
      rewrite last_cons_cons. rewrite Hl. reflexivity.
  - assert (count = retries) as -> by lia.
    eexists _, x, status, error. split; [reflexivity |].
    split; [| split; [exact Hsrv |]].
    + rewrite attempts_stop. lia.
    + apply last_stop.
Qed.

(** The [k]-th scheduled delay is [backoff] of the attempt that failed. *)
Lemma ring_fuel_delays f count t :
  ring_fuel f count = Some t ->
  forall (k : nat) d, delays t !! k = Some d -> d = backoff (count + Z.of_nat k).
Proof.
  revert count t. induction f as [|f IH]; intros count t Ht k d Hd; [discriminate |].
  rewrite ring_fuel_S in Ht.
  destruct (server count) as [body | x status error] eqn:Hsrv.
  - injection Ht as <-. simpl in Hd. rewrite lookup_nil in Hd. discriminate.
  - destruct (retriable x && (count <? retries)) eqn:Hc.
    + destruct (ring_fuel f (count + 1)) as [rest|] eqn:Hrest; [| discriminate].
      simpl in Ht. injection Ht as <-.
      simpl in Hd. rewrite delays_app, delays_on_fail in Hd. simpl in Hd.
      destruct k as [|k]; simpl in Hd.
      * injection Hd as <-. rewrite Z.add_0_r. reflexivity.
      * rewrite (IH _ _ Hrest k d Hd). f_equal. lia.
    + injection Ht as <-. simpl in Hd.
      rewrite delays_app, delays_on_fail in Hd. simpl in Hd.
      rewrite lookup_nil in Hd. discriminate.
Qed.

(** One delay is scheduled between two consecutive attempts. *)
Lemma ring_fuel_delays_length f count t :
  ring_fuel f count = Some t -> S (length (delays t)) = attempts t.
Proof.
  revert count t. induction f as [|f IH]; intros count t Ht; [discriminate |].
  rewrite ring_fuel_S in Ht.
  destruct (server count) as [body | x status error].
  - injection Ht as <-. reflexivity.
  - destruct (retriable x && (count <? retries)).
    + destruct (ring_fuel f (count + 1)) as [rest|] eqn:Hrest; [| discriminate].
      simpl in Ht. injection Ht as <-. simpl.
      rewrite delays_app, delays_on_fail, attempts_app, attempts_on_fail. simpl.
      rewrite (IH _ _ Hrest). reflexivity.
    + injection Ht as <-. simpl.
      rewrite delays_app, delays_on_fail, attempts_app, attempts_on_fail. reflexivity.
Qed.

(** A [SESSION_NOT_FOUND] failure at any attempt blanks the page and is the
    last attempt: the promise rejects with that failure. *)
Lemma ring_fuel_session_not_found f count t :
  ring_fuel f count = Some t ->
  forall (k : nat) x status error,
    (k < attempts t)%nat ->
    server (count + Z.of_nat k) = Failed x status error ->
    get_prop (responseJSON x) "code" = VStr "SESSION_NOT_FOUND" ->
    In (ESetBody "<h3>Failed to connect</h3><p>Reload the page.</p>") t /\
    last t = Some (EReject x status error) /\
    attempts t = S k.
Proof.
  revert count t. induction f as [|f IH]; intros count t Ht k x status error Hk Hsrv Hcode;
    [discriminate |].
  rewrite ring_fuel_S in Ht.
  destruct (server count) as [body | x0 status0 error0] eqn:Hsrv0.
  - injection Ht as <-. simpl in Hk.
    assert (k = O) as -> by lia. rewrite Z.add_0_r, Hsrv0 in Hsrv. discriminate.
  - destruct (retriable x0 && (count <? retries)) eqn:Hc.
    + destruct (ring_fuel f (count + 1)) as [rest|] eqn:Hrest; [| discriminate].
      simpl in Ht. injection Ht as <-.
      apply andb_true_iff in Hc as [Hr Hlt].
      simpl in Hk. rewrite attempts_app, attempts_on_fail in Hk. simpl in Hk.
      destruct k as [|k].
      * rewrite Z.add_0_r, Hsrv0 in Hsrv. injection Hsrv as <- <- <-.
        rewrite (session_not_found_not_retriable _ Hcode) in Hr. discriminate.
      * replace (count + Z.of_nat (S k)) with (count + 1 + Z.of_nat k) in Hsrv by lia.
        destruct (IH _ _ Hrest k x status error) as (Hin & Hl & Hn); [lia | assumption.. |].
        split; [| split].
        -- right. apply in_or_app. right. right. exact Hin.
        -- rewrite app_comm_cons, last_app. simpl.
           destruct rest as [|e rest]; [discriminate Hl |].
           rewrite last_cons_cons, Hl. reflexivity.
        -- simpl. rewrite attempts_app, attempts_on_fail. simpl. rewrite Hn. reflexivity.
    + injection Ht as <-.
      rewrite attempts_stop in Hk. assert (k = O) as -> by lia.
      rewrite Z.add_0_r, Hsrv0 in Hsrv. injection Hsrv as <- <- <-.
      split; [| split].
      * right. apply in_or_app. left. apply session_not_found_blanks, Hcode.
      * apply last_stop.
      * apply attempts_stop.
Qed.

End Ring.

Section Call.

Variable gadget : gmap string value.
Variable server : Z -> ajax_result.
Variable random : Z -> Z.

#[local] Abbreviation call := (call gadget server random).
#[local] Abbreviation token := (field gadget "token").

Lemma jitter_range k : 0 <= jitter random k < 250.
Proof.
  unfold jitter.
  assert (0 <= random k mod 2 ^ 53 < 2 ^ 53) as H by (apply Z.mod_pos_bound; lia).
  split.
  - apply Z.div_pos; lia.
  - apply Z.div_lt_upper_bound; lia.
Qed.

Lemma backoff_le_cap delay k : backoff random delay k <= 15000.
Proof. unfold backoff. lia. Qed.

Lemma pow2_step a b : 0 <= a < b -> 2 * 2 ^ a <= 2 ^ b.
Proof.
  intros H. rewrite <- Z.pow_succ_r by lia.
  apply Z.pow_le_mono_r; lia.
Qed.

(** With a base delay of at least 249 ms the doubling outweighs the jitter. *)
Lemma backoff_mono delay a b :
  249 <= delay -> 0 <= a <= b -> backoff random delay a <= backoff random delay b.
Proof.
  intros Hd Hab. destruct (Z.eq_dec a b) as [-> | Hne]; [lia |].
  unfold backoff.
  pose proof (jitter_range a). pose proof (jitter_range b).
  assert (2 * 2 ^ a <= 2 ^ b) by (apply pow2_step; lia).
  assert (1 <= 2 ^ a) by (apply (Z.pow_le_mono_r 2 0 a); lia).
  apply Z.min_le_compat_r. nia.
Qed.

(** What [call] does to the store, and the trace it runs. *)
Lemma call_spec c h cfg :
  h !! c = Some (CConfig cfg) ->
  data_is_object h cfg ->
  exists d o t,
    (match data cfg with
     | Some d' => d = d' /\ h !! d = Some (CParams o)
     | None => d = fresh (dom h) /\ o = ∅
     end) /\
    let cfg' := CallConfig (method cfg) (endpoint cfg) (Some d) (retries cfg) (delay cfg) in
    let o' := <["authorization_token" := token]> o in
    ring gadget server random cfg' o' (default 3 (retries cfg)) (default 1000 (delay cfg)) 0
      = Some t /\
    call c h = Some (<[d := CParams o']> (<[c := CConfig cfg']> (<[d := CParams o]> h)), t).
Proof.
  intros Hc Hdata. unfold data_is_object in Hdata.
  destruct cfg as [m e dat r dl]. simpl in *.
  destruct dat as [d|].
  - destruct Hdata as [o Ho].
    destruct (ring_total gadget server random (CallConfig m e (Some d) r dl)
                (<["authorization_token" := token]> o) (default 3 r) (default 1000 dl) 0)
      as [t Ht].
    exists d, o, t. split; [auto |]. simpl. split; [exact Ht |].
    unfold CmsApi.call. rewrite Hc. simpl.
    assert (c <> d) as Hne by (intros ->; congruence).
    rewrite lookup_insert_ne, Ho by exact Hne.
    rewrite Ht. simpl. rewrite (insert_id h d) by exact Ho. reflexivity.
  - set (d := fresh (dom h)).
    assert (h !! d = None) as Hd by (apply not_elem_of_dom, is_fresh).
    destruct (ring_total gadget server random (CallConfig m e (Some d) r dl)
                (<["authorization_token" := token]> ∅) (default 3 r) (default 1000 dl) 0)
      as [t Ht].
    exists d, ∅, t. split; [auto |]. simpl. split; [exact Ht |].
    unfold CmsApi.call. rewrite Hc. simpl. fold d.
    assert (c <> d) as Hne by (intros ->; congruence).
    rewrite lookup_insert_ne, lookup_insert_eq by exact Hne.
    rewrite Ht. reflexivity.
Qed.

Lemma call_total c h cfg :
  h !! c = Some (CConfig cfg) -> data_is_object h cfg ->
  exists h' t, call c h = Some (h', t).
Proof.
  intros Hc Hd. destruct (call_spec c h cfg Hc Hd) as (d & o & t & _ & _ & H). eauto.
Qed.

(** The trace of a [call] that returned is the trace of [ring(0)]. *)
Lemma call_ring c h cfg h' t :
  h !! c = Some (CConfig cfg) ->
  call c h = Some (h', t) ->
  exists cfg' o',
    method cfg' = method cfg /\ endpoint cfg' = endpoint cfg /\
    ring gadget server random cfg' o' (default 3 (retries cfg)) (default 1000 (delay cfg)) 0
      = Some t.
Proof.
  intros Hc Hcall. unfold CmsApi.call in Hcall. rewrite Hc in Hcall.
  destruct (match data cfg with Some d => _ | None => _ end) as [h1 d].
  destruct (_ !! d) as [[o|]|]; try discriminate.
  match type of Hcall with context [CmsApi.ring _ _ _ ?cfg' ?o' _ _ _] =>
    exists cfg', o' end.
  destruct (CmsApi.ring _ _ _ _ _ _ _ _) as [t'|]; [| discriminate].
  simpl in Hcall. injection Hcall as _ <-. auto.
Qed.

(** Every HTTP request of a call is the same [request], so has the same URL. *)
Lemma ring_fuel_requests f cfg params retries delay count t :
  ring_fuel gadget server random f cfg params retries delay count = Some t ->
  (exists rest, t = request gadget cfg params :: rest) /\
  (forall e, In e t -> is_ajax e = true -> e = request gadget cfg params).
Proof.
  revert count t. induction f as [|f IH]; intros count t Ht; [discriminate |].
  rewrite ring_fuel_S in Ht.
  assert (forall x e, In e (snd (on_fail cfg params x)) -> is_ajax e = true -> False)
    as Hlog.
  { intros x e Hin He. unfold on_fail in Hin.
    destruct (negb (truthy (responseJSON x))); simpl in Hin.
    - repeat (destruct Hin as [<- | Hin]; [discriminate He |]). exact Hin.
    - repeat (destruct Hin as [<- | Hin]; [discriminate He |]).
      destruct (str_strict_eq _ _); simpl in Hin; [| exact Hin].
      destruct Hin as [<- | []]. discriminate He. }
  destruct (server count) as [body | x status error].
  - injection Ht as <-. split; [eauto |].
    intros e [<- | [<- | []]] He; [reflexivity | discriminate He].
  - destruct (retriable cfg params x && (count <? retries)).
    + destruct (CmsApi.ring_fuel _ _ _ f _ _ _ _ _) as [rest|] eqn:Hrest; [| discriminate].
      simpl in Ht. injection Ht as <-. split; [eauto |].
      intros e [<- | Hin] He; [reflexivity |].
      apply in_app_or in Hin as [Hin | [<- | Hin]].
      * destruct (Hlog _ _ Hin He).
      * discriminate He.
      * destruct (IH _ _ Hrest) as [_ H]. auto.
    + injection Ht as <-. split; [eauto |].
      intros e [<- | Hin] He; [reflexivity |].
      apply in_app_or in Hin as [Hin | [<- | []]].
      * destruct (Hlog _ _ Hin He).
      * discriminate He.
Qed.

(** A call on a request config that was just built around the caller's
    object [l] writes the token into [l] and touches nothing else the caller
    can reach. *)
Lemma call_fresh_config m e r dl l o h :
  h !! l = Some (CParams o) ->
  let c := fresh (dom h) in
  exists h' t,
    call c (<[c := CConfig (CallConfig m e (Some l) r dl)]> h) = Some (h', t) /\
    h' !! l = Some (CParams (<["authorization_token" := token]> o)).
Proof.
  intros Hl c.
  assert (h !! c = None) as Hc by (apply not_elem_of_dom, is_fresh).
  assert (c <> l) as Hne by (intros ->; congruence).
  set (cfg := CallConfig m e (Some l) r dl).
  destruct (call_spec c (<[c := CConfig cfg]> h) cfg) as (d & o0 & t & Hd & _ & Hcall).
  - apply lookup_insert_eq.
  - exists o. simpl. rewrite lookup_insert_ne by exact Hne. exact Hl.
  - simpl in Hd. destruct Hd as [-> Hd].
    rewrite lookup_insert_ne in Hd by exact Hne.
    assert (o0 = o) as -> by congruence.
    eexists _, t. split; [exact Hcall |]. apply lookup_insert_eq.
Qed.

Lemma endpoint_method_spec rules tgt l o h :
  h !! l = Some (CParams o) ->
  exists h' t,
    endpoint_method gadget server random rules tgt (Some l) h = Some (h', t) /\
    h' !! l = Some (CParams (<["authorization_token" := token]> (apply_rules rules o))).
Proof.
  intros Hl. unfold endpoint_method. rewrite Hl. simpl.
  set (o' := apply_rules rules o). set (h1 := <[l := CParams o']> h).
  assert (h1 !! l = Some (CParams o')) as Hl1 by apply lookup_insert_eq.
  destruct tgt as [path | path | r path | m path | m e]; simpl.
  - apply call_fresh_config, Hl1.
  - apply call_fresh_config, Hl1.
  - apply call_fresh_config, Hl1.
  - destruct (String.eqb _ _); apply call_fresh_config, Hl1.
  - apply call_fresh_config, Hl1.
Qed.

Lemma endpoint_method_token rules tgt l o h :
  h !! l = Some (CParams o) ->
  exists h' t o',
    endpoint_method gadget server random rules tgt (Some l) h = Some (h', t) /\
    h' !! l = Some (CParams o') /\
    o' !! "authorization_token" = Some token.
Proof.
  intros Hl. destruct (endpoint_method_spec rules tgt l o h Hl) as (h' & t & Hm & Hl').
  exists h', t. eexists. split; [exact Hm |]. split; [exact Hl' |]. apply lookup_insert_eq.
Qed.

End Call.

(** C4: a failure is retried only when the server-reported code contains
    one of the retriable tokens (only ["TIMEOUT"]); a call whose first
    failure has a non-retriable code makes exactly one HTTP attempt and
    rejects; a call that fails on every attempt with a retriable code makes
    exactly [retries + 1] attempts and then rejects. *)
Theorem call_retry_policy gadget server random c h cfg :
  h !! c = Some (CConfig cfg) ->
  data_is_object h cfg ->
  exists h' t,
    call gadget server random c h = Some (h', t) /\
    retryCodes = ["TIMEOUT"] /\
    (forall k : nat, (S k < attempts t)%nat ->
       exists x status error code token,
         server (Z.of_nat k) = Failed x status error /\
         get_prop (responseJSON x) "code" = VStr code /\
         In token retryCodes /\ includes code token = true) /\
    (forall x status error,
       server 0 = Failed x status error ->
       retriable_code (get_prop (responseJSON x) "code") = false ->
       attempts t = 1%nat /\ last t = Some (EReject x status error)) /\
    (0 <= default 3 (retries cfg) ->
     (forall k, 0 <= k <= default 3 (retries cfg) ->
        exists x status error,
          server k = Failed x status error /\
          retriable_code (get_prop (responseJSON x) "code") = true) ->
     attempts t = Z.to_nat (default 3 (retries cfg) + 1) /\
     exists x status error,
       server (default 3 (retries cfg)) = Failed x status error /\
       last t = Some (EReject x status error)).
Proof.
  intros Hc Hdata.
  destruct (call_total gadget server random c h cfg Hc Hdata) as (h' & t & Hcall).
  exists h', t. split; [exact Hcall |].
  destruct (call_ring _ _ _ _ _ _ _ _ Hc Hcall) as (cfg' & o' & _ & _ & Hring).
  split; [reflexivity |]. split; [| split].
  - intros k Hk.
    destruct (ring_fuel_retry_only _ _ _ _ _ _ _ _ _ _ Hring k Hk)
      as (x & status & error & Hsrv & Hr & _).
    apply retriable_iff in Hr as (code & token & H1 & H2 & H3).
    exists x, status, error, code, token. auto.
  - intros x status error Hsrv Hr.
    rewrite (ring_stop _ _ _ _ _ _ _ _ _ _ _ Hsrv) in Hring.
    + injection Hring as <-. split; [apply attempts_stop | apply last_stop].
    + rewrite retriable_code_of, Hr. reflexivity.
  - intros Hpos Hall.
    destruct (ring_fuel_all_fail gadget server random cfg' o' (default 3 (retries cfg))
                (default 1000 (delay cfg))
                (S (Z.to_nat (default 3 (retries cfg) - 0))) 0)
      as (t' & x & status & error & Ht' & Hn & Hsrv & Hl).
    + intros k Hk. destruct (Hall k Hk) as (x & status & error & Hsrv & Hr).
      exists x, status, error. rewrite retriable_code_of. auto.
    + exact Hpos.
    + lia.
    + unfold ring in Hring. rewrite Hring in Ht'. injection Ht' as <-.
      split; [rewrite Hn; lia | eauto].
Qed.

(** C6: whatever the retry budget, an attempt that fails with the code
    [SESSION_NOT_FOUND] replaces the page body with the reconnect
    instruction, is the last attempt, and the promise rejects with that
    failure's [jqXHR], [status] and [error]. *)
Theorem session_not_found_blanks_and_rejects gadget server random c h cfg :
  h !! c = Some (CConfig cfg) ->
  data_is_object h cfg ->
  exists h' t,
    call gadget server random c h = Some (h', t) /\
    forall (k : nat) x status error,
      (k < attempts t)%nat ->
      server (Z.of_nat k) = Failed x status error ->
      get_prop (responseJSON x) "code" = VStr "SESSION_NOT_FOUND" ->
      In (ESetBody "<h3>Failed to connect</h3><p>Reload the page.</p>") t /\
      last t = Some (EReject x status error) /\
      attempts t = S k.
Proof.
  intros Hc Hdata.
  destruct (call_total gadget server random c h cfg Hc Hdata) as (h' & t & Hcall).
  exists h', t. split; [exact Hcall |].
  destruct (call_ring _ _ _ _ _ _ _ _ Hc Hcall) as (cfg' & o' & _ & _ & Hring).
  intros k x status error Hk Hsrv Hcode.
  exact (ring_fuel_session_not_found _ _ _ _ _ _ _ _ _ _ Hring k x status error Hk Hsrv Hcode).
Qed.

Lemma call_retry_policy_witness :
  Scenario.store_config !! 0%nat
    = Some (CConfig (CallConfig "GET" "/files/list" None (Some 2) (Some 100))) /\
  exists h' t,
    call Scenario.env Scenario.always_timeout Scenario.random_bits 0%nat Scenario.store_config
      = Some (h', t) /\
    attempts t = 3%nat.
Proof.
  split; [reflexivity |].
  destruct (call_retry_policy Scenario.env Scenario.always_timeout Scenario.random_bits
              0%nat Scenario.store_config
              (CallConfig "GET" "/files/list" None (Some 2) (Some 100)) eq_refl I)
    as (h' & t & Hcall & _ & _ & _ & Hall).
  exists h', t. split; [exact Hcall |].
  apply Hall; simpl; [lia |].
  intros k _. eexists _, _, _. split; reflexivity.
Defined.

Lemma session_not_found_blanks_and_rejects_witness :
  Scenario.store_config !! 0%nat
    = Some (CConfig (CallConfig "GET" "/files/list" None (Some 2) (Some 100))) /\
  exists h' t,
    call Scenario.env Scenario.session_lost_at_1 Scenario.random_bits 0%nat
      Scenario.store_config = Some (h', t) /\
    In (ESetBody "<h3>Failed to connect</h3><p>Reload the page.</p>") t /\
    attempts t = 2%nat.
Proof.
  split; [reflexivity |].
  destruct (session_not_found_blanks_and_rejects Scenario.env Scenario.session_lost_at_1
              Scenario.random_bits 0%nat Scenario.store_config
              (CallConfig "GET" "/files/list" None (Some 2) (Some 100)) eq_refl I)
    as (h' & t & Hcall & H).
  exists h', t. split; [exact Hcall |].
  assert (attempts t = 2%nat) as Hn.
  { revert Hcall. vm_compute. intros [= _ <-]. reflexivity. }
  destruct (H 1%nat _ _ _ ltac:(lia) eq_refl eq_refl) as (Hin & _ & Hk).
  split; [exact Hin | exact Hk].
Defined.

(** C5 as stated fails: with a base delay of 100 ms and jitters of 200 ms
    and 0 ms, the first retry waits 300 ms and the second 200 ms. *)
Lemma backoff_schedule_not_monotone :
  exists h' t di dj,
    call Scenario.env Scenario.always_timeout Scenario.random_bits 0%nat Scenario.store_config
      = Some (h', t) /\
    delays t !! 0%nat = Some di /\ delays t !! 1%nat = Some dj /\
    di = 300 /\ dj = 200 /\ ~ di <= dj.
Proof.
  eexists _, _, _, _. split; [vm_compute; reflexivity |].
  split; [reflexivity |]. split; [reflexivity |].
  split; [reflexivity |]. split; [reflexivity |]. lia.
Qed.

(** C5, amended: the delay before attempt [k + 1] is
    [min(delay * 2^k + jitter, 15000)] with [0 <= jitter < 250] and [k]
    counted from 0; one delay is scheduled per retry; every delay is at
    most 15000 ms; and the delays of one call are non-decreasing when the
    base delay is at least 249 ms (the default is 1000 ms). *)
Theorem backoff_schedule gadget server random c h cfg :
  h !! c = Some (CConfig cfg) ->
  data_is_object h cfg ->
  exists h' t,
    call gadget server random c h = Some (h', t) /\
    S (length (delays t)) = attempts t /\
    (forall (k : nat) d, delays t !! k = Some d ->
       d = Z.min (default 1000 (delay cfg) * 2 ^ Z.of_nat k + jitter random (Z.of_nat k)) 15000
       /\ 0 <= jitter random (Z.of_nat k) < 250
       /\ d <= 15000) /\
    (249 <= default 1000 (delay cfg) ->
     forall (i j : nat) di dj,
       (i <= j)%nat -> delays t !! i = Some di -> delays t !! j = Some dj -> di <= dj).
Proof.
  intros Hc Hdata.
  destruct (call_total gadget server random c h cfg Hc Hdata) as (h' & t & Hcall).
  exists h', t. split; [exact Hcall |].
  destruct (call_ring _ _ _ _ _ _ _ _ Hc Hcall) as (cfg' & o' & _ & _ & Hring).
  split; [exact (ring_fuel_delays_length _ _ _ _ _ _ _ _ _ _ Hring) |]. split.
  - intros k d Hd.
    rewrite (ring_fuel_delays _ _ _ _ _ _ _ _ _ _ Hring k d Hd). simpl.
    split; [reflexivity |]. split; [apply jitter_range | apply backoff_le_cap].
  - intros Hbase i j di dj Hij Hi Hj.
    rewrite (ring_fuel_delays _ _ _ _ _ _ _ _ _ _ Hring i di Hi).
    rewrite (ring_fuel_delays _ _ _ _ _ _ _ _ _ _ Hring j dj Hj).
    apply backoff_mono; [exact Hbase | lia].
Qed.

Lemma backoff_schedule_witness :
  Scenario.store_default !! 0%nat
    = Some (CConfig (CallConfig "GET" "/files/list" None None None)) /\
  exists h' t,
    call Scenario.env Scenario.always_timeout Scenario.random_bits 0%nat Scenario.store_default
      = Some (h', t) /\
    delays t = [1200; 2000; 4000].
Proof.
  split; [reflexivity |].
  destruct (backoff_schedule Scenario.env Scenario.always_timeout Scenario.random_bits
              0%nat Scenario.store_default
              (CallConfig "GET" "/files/list" None None None) eq_refl I)
    as (h' & t & Hcall & _ & _ & _).
  exists h', t. split; [exact Hcall |].
  revert Hcall. vm_compute. intros [= _ <-]. reflexivity.
Defined.

(** C7 fails on the code: [call] builds the URL from [gadget.apihost] at
    request time, not from the instance's [apihost].  When the Environment
    has no [apihost], the constructor stores the default host in the
    instance, yet the request goes to ["undefined/assets/list"]. *)
Theorem request_url_ignores_default_apihost server random :
  apihost (constructor Scenario.env_no_apihost) = VStr "https://a.cms.omniupdate.com" /\
  exists h' t rest,
    assets_list Scenario.env_no_apihost server random
      (constructor Scenario.env_no_apihost) None ∅ = Some (h', t) /\
    t = EAjax "GET" "undefined/assets/list"
          {[ "authorization_token" := VStr "t0"; "site" := VStr "www" ]} (VStr "t0") :: rest.
Proof.
  split; [reflexivity |].
  unfold assets_list, endpoint_method. simpl.
  match goal with |- context [get _ _ _ _ (Some ?l') _ _] => set (l := l') end.
  match goal with |- context [get _ _ _ _ _ _ ?h] => set (h1 := h) end.
  unfold get. change (default 3 None) with 3. set (c := fresh (dom h1)).
  set (cfg := CallConfig "GET" "/assets/list" (Some l) (Some 3) None).
  destruct (call_spec Scenario.env_no_apihost server random c (<[c := CConfig cfg]> h1) cfg)
    as (d & o0 & t & Hd & Hring & Hcall).
  - apply lookup_insert_eq.
  - unfold data_is_object. simpl. eexists. vm_compute. reflexivity.
  - simpl in Hd. destruct Hd as [-> Hd].
    vm_compute in Hd. injection Hd as <-.
    rewrite Hcall.
    destruct (ring_fuel_requests _ _ _ _ _ _ _ _ _ _ Hring) as [[rest ->] _].
    eexists _, _, rest. split; [reflexivity |]. f_equal.
Qed.



End CmsApiProofs.
(** ** The host bridge *)
Module BridgeProofs.
Import Bridge.

#[local] Open Scope nat_scope.

Lemma calls_on_app d t1 t2 : calls_on d (t1 ++ t2) = calls_on d t1 + calls_on d t2.
Proof. induction t1 as [|e t1 IH]; simpl; [reflexivity | rewrite IH; lia]. Qed.

Lemma calls_on_snoc d t e :
  calls_on d (t ++ [e]) = calls_on d t + (if is_call_on d e then 1 else 0).
Proof. rewrite calls_on_app. simpl. lia. Qed.

Lemma ready_triggers_app t1 t2 :
  ready_triggers (t1 ++ t2) = ready_triggers t1 + ready_triggers t2.
Proof. induction t1 as [|e t1 IH]; simpl; [reflexivity | rewrite IH; lia]. Qed.

(** *** The invariant is preserved by every operation of the bridge *)

(** [Inv] only reads the registry, the timers, the counters, the [ready]
    handlers and the effects. *)
Lemma Inv_ext s s' :
  pendingRequests s' = pendingRequests s ->
  timers s' = timers s ->
  next_timer s' = next_timer s ->
  next_deferred s' = next_deferred s ->
  ready_waiters s' = ready_waiters s ->
  effects s' = effects s ->
  Inv s -> Inv s'.
Proof.
  intros Hp Ht Hnt Hnd Hw He [].
  unfold held, holds_entry, holds_timer, holds_waiter in *.
  split; unfold held, holds_entry, holds_timer, holds_waiter;
    rewrite ?Hp, ?Ht, ?Hnt, ?Hnd, ?Hw, ?He; assumption.
Qed.

Lemma Inv_set_gadget g s : Inv s -> Inv (set_gadget g s).
Proof. apply Inv_ext; reflexivity. Qed.

Lemma Inv_set_deferreds m s : Inv s -> Inv (set_deferreds m s).
Proof. apply Inv_ext; reflexivity. Qed.

Lemma Inv_set_chains m s : Inv s -> Inv (set_chains m s).
Proof. apply Inv_ext; reflexivity. Qed.

Lemma Inv_mark d o s : Inv s -> Inv (mark d o s).
Proof.
  unfold mark. destruct (deferreds s !! d) as [[]|]; auto using Inv_set_deferreds.
Qed.

Lemma Inv_set a0 a1 s : Inv s -> Inv (set a0 a1 s).
Proof. unfold set. destruct a0; auto using Inv_set_gadget. Qed.

(** Removing holders keeps the invariant. *)
Lemma Inv_shrink s s' :
  pendingRequests s' ⊆ pendingRequests s ->
  timers s' ⊆ timers s ->
  next_timer s' = next_timer s ->
  next_deferred s' = next_deferred s ->
  (ready_waiters s' = ready_waiters s \/ ready_waiters s' = []) ->
  effects s' = effects s ->
  Inv s -> Inv s'.
Proof.
  intros Hp Ht Hnt Hnd Hw He [].
  assert (forall m en, pendingRequests s' !! m = Some en -> pendingRequests s !! m = Some en)
    as Hp' by (intros m en H; eapply lookup_weaken; eauto).
  assert (forall t c, timers s' !! t = Some c -> timers s !! t = Some c)
    as Ht' by (intros t c H; eapply lookup_weaken; eauto).
  assert (forall d, holds_entry s' d -> holds_entry s d) as He1
    by (intros d (m & en & H1 & H2); exists m, en; auto).
  assert (forall d, holds_timer s' d -> holds_timer s d) as He2
    by (intros d (t & c & H1 & H2); exists t, c; auto).
  assert (forall d, holds_waiter s' d -> holds_waiter s d) as He3.
  { intros d. unfold holds_waiter. destruct Hw as [-> | ->]; [auto |].
    simpl. intros H. apply elem_of_nil in H. destruct H. }
  split; rewrite ?Hnt, ?Hnd, ?He; eauto.
  - intros d [H | [H | H]]; apply inv_held0; unfold held; auto.
  - destruct Hw as [-> | ->]; [assumption | constructor].
  - intros d H. destruct (inv_waiter_sep0 d (He3 d H)). split; auto.
Qed.

Lemma Inv_delete_entry k s :
  Inv s -> Inv (set_pending (delete k (pendingRequests s)) s).
Proof.
  apply Inv_shrink; simpl; auto. apply delete_subseteq.
Qed.

Lemma Inv_clearTimeout t s : Inv s -> Inv (clearTimeout t s).
Proof.
  apply Inv_shrink; simpl; auto. apply delete_subseteq.
Qed.

Lemma Inv_clearPending v s : Inv s -> Inv (clearPending v s).
Proof.
  intros H. unfold clearPending.
  destruct v; auto. destruct (pending_get s (VStr s0)); auto.
  destruct (timerId e) as [[|t]|]; auto using Inv_delete_entry, Inv_clearTimeout.
Qed.

Lemma Inv_emit_other e s :
  (forall d, is_call_on d e = false) -> Inv s -> Inv (emit e s).
Proof.
  intros He [].
  assert (forall d, calls_on d (effects s ++ [e]) = calls_on d (effects s)) as Hc
    by (intros d; rewrite calls_on_snoc, He; lia).
  split; simpl; unfold held, holds_entry, holds_timer, holds_waiter in *; simpl;
    try setoid_rewrite Hc; assumption.
Qed.

(** A call on [d] is allowed once nothing holds [d] and nothing was called
    on it. *)
Lemma Inv_emit_call e d s :
  is_call_on d e = true ->
  (forall d', d' <> d -> is_call_on d' e = false) ->
  ~ held s d -> calls_on d (effects s) = 0 -> d < next_deferred s ->
  Inv s -> Inv (emit e s).
Proof.
  intros He Hne Hheld Hzero Hlt [].
  assert (forall d', d' <> d -> calls_on d' (effects s ++ [e]) = calls_on d' (effects s))
    as Hc by (intros d' Hd; rewrite calls_on_snoc, Hne by exact Hd; lia).
  assert (calls_on d (effects s ++ [e]) = 1) as Hd
    by (rewrite calls_on_snoc, He, Hzero; reflexivity).
  split; simpl; try assumption.
  - intros d' Hh. destruct (Nat.eq_dec d' d) as [-> | Hn]; [destruct (Hheld Hh) |].
    rewrite Hc by exact Hn. apply inv_held0. exact Hh.
  - intros d'. destruct (Nat.eq_dec d' d) as [-> | Hn]; [lia |].
    rewrite Hc by exact Hn. apply inv_once0.
  - intros d' Hge. rewrite Hc by lia. apply inv_fresh0. exact Hge.
Qed.

Lemma Inv_new_deferred s : Inv s -> Inv (new_deferred s).1.
Proof.
  intros []. split; simpl; try assumption.
  - intros d Hh. destruct (inv_held0 d Hh). split; [assumption | lia].
  - intros d Hge. apply inv_fresh0. lia.
Qed.

Lemma same_registry_refl s : same_registry s s.
Proof. repeat split. Qed.

Lemma same_registry_trans s1 s2 s3 :
  same_registry s1 s2 -> same_registry s2 s3 -> same_registry s1 s3.
Proof.
  intros (?&?&?&?) (?&?&?&?). repeat split; congruence.
Qed.

Lemma mark_registry d o s : same_registry s (mark d o s).
Proof. unfold mark. destruct (deferreds s !! d) as [[]|]; repeat split. Qed.

Lemma mark_effects d o s : effects (mark d o s) = effects s.
Proof. unfold mark. destruct (deferreds s !! d) as [[]|]; reflexivity. Qed.

Lemma mark_waiters d o s : ready_waiters (mark d o s) = ready_waiters s.
Proof. unfold mark. destruct (deferreds s !! d) as [[]|]; reflexivity. Qed.

Lemma mark_gadget d o s : gadget (mark d o s) = gadget s.
Proof. unfold mark. destruct (deferreds s !! d) as [[]|]; reflexivity. Qed.

Lemma mark_chains d o s : chains (mark d o s) = chains s.
Proof. unfold mark. destruct (deferreds s !! d) as [[]|]; reflexivity. Qed.

Lemma set_registry a0 a1 s : same_registry s (set a0 a1 s).
Proof. unfold set. destruct a0; repeat split. Qed.

Lemma set_effects a0 a1 s : effects (set a0 a1 s) = effects s.
Proof. unfold set. destruct a0; reflexivity. Qed.

Lemma set_waiters' a0 a1 s : ready_waiters (set a0 a1 s) = ready_waiters s.
Proof. unfold set. destruct a0; reflexivity. Qed.

(** The [ready] handlers. *)
Lemma run_waiter_registry s w : same_registry s (run_waiter s w).
Proof.
  unfold run_waiter. eapply same_registry_trans; [| apply mark_registry].
  destruct w.1; repeat split.
Qed.

Lemma run_waiter_waiters s w : ready_waiters (run_waiter s w) = ready_waiters s.
Proof. unfold run_waiter. rewrite mark_waiters. destruct w.1; reflexivity. Qed.

Lemma run_waiter_gadget s w : gadget (run_waiter s w) = gadget s.
Proof. unfold run_waiter. rewrite mark_gadget. destruct w.1; reflexivity. Qed.

Lemma run_waiter_calls d s w :
  calls_on d (effects (run_waiter s w))
  = calls_on d (effects s) + (if Nat.eqb d w.2 then 1 else 0).
Proof.
  unfold run_waiter. rewrite mark_effects. destruct w.1; simpl;
    rewrite ?calls_on_snoc; simpl; lia.
Qed.

Lemma run_waiter_triggers s w :
  ready_triggers (effects (run_waiter s w)) = ready_triggers (effects s).
Proof.
  unfold run_waiter. rewrite mark_effects. destruct w.1; simpl;
    rewrite ?ready_triggers_app; simpl; lia.
Qed.

Lemma held_same s s' d :
  same_registry s s' -> ready_waiters s' = ready_waiters s -> held s' d -> held s d.
Proof.
  intros (Hp & Ht & _ & _) Hw. unfold held, holds_entry, holds_timer, holds_waiter.
  rewrite Hp, Ht, Hw. auto.
Qed.

Lemma Inv_run_waiter s w :
  Inv s -> ~ held s w.2 -> calls_on w.2 (effects s) = 0 -> w.2 < next_deferred s ->
  Inv (run_waiter s w).
Proof.
  intros HI Hh Hz Hlt. unfold run_waiter. apply Inv_mark.
  destruct w.1 as [cb|].
  - apply (Inv_emit_call _ w.2); simpl; auto.
    + apply Nat.eqb_refl.
    + intros d' Hd. apply Nat.eqb_neq. exact Hd.
    + rewrite calls_on_snoc. simpl. lia.
    + apply Inv_emit_other; [reflexivity | exact HI].
  - apply (Inv_emit_call _ w.2); simpl; auto.
    + apply Nat.eqb_refl.
    + intros d' Hd. apply Nat.eqb_neq. exact Hd.
Qed.

Lemma Inv_run_waiters ws s :
  Inv s -> NoDup ws.*2 ->
  (forall w, w ∈ ws ->
     ~ held s w.2 /\ calls_on w.2 (effects s) = 0 /\ w.2 < next_deferred s) ->
  Inv (foldl run_waiter s ws).
Proof.
  revert s. induction ws as [|w ws IH]; intros s HI Hnd Hws; simpl; [exact HI |].
  apply NoDup_cons in Hnd as [Hw Hnd].
  destruct (Hws w) as (H1 & H2 & H3); [left |].
  apply IH; [apply Inv_run_waiter; assumption | exact Hnd |].
  intros w' Hin. destruct (Hws w') as (H1' & H2' & H3'); [right; exact Hin |].
  destruct (run_waiter_registry s w) as (Hp & Ht & Hnt & Hnd').
  split; [| split].
  - intros Hh. apply H1'. eapply held_same; [apply run_waiter_registry | | exact Hh].
    apply run_waiter_waiters.
  - rewrite run_waiter_calls, H2'.
    destruct (Nat.eqb_spec w'.2 w.2) as [Heq | _]; [| reflexivity].
    destruct Hw. rewrite <- Heq. apply list_elem_of_fmap. exists w'. auto.
  - rewrite Hnd'. exact H3'.
Qed.

Lemma run_waiters_registry ws s : same_registry s (foldl run_waiter s ws).
Proof.
  revert s. induction ws as [|w ws IH]; intros s; simpl; [apply same_registry_refl |].
  eapply same_registry_trans; [apply run_waiter_registry | apply IH].
Qed.

Lemma run_waiters_waiters ws s :
  ready_waiters (foldl run_waiter s ws) = ready_waiters s.
Proof.
  revert s. induction ws as [|w ws IH]; intros s; simpl; [reflexivity |].
  rewrite IH. apply run_waiter_waiters.
Qed.

Lemma run_waiters_gadget ws s : gadget (foldl run_waiter s ws) = gadget s.
Proof.
  revert s. induction ws as [|w ws IH]; intros s; simpl; [reflexivity |].
  rewrite IH. apply run_waiter_gadget.
Qed.

Lemma run_waiters_triggers ws s :
  ready_triggers (effects (foldl run_waiter s ws)) = ready_triggers (effects s).
Proof.
  revert s. induction ws as [|w ws IH]; intros s; simpl; [reflexivity |].
  rewrite IH. apply run_waiter_triggers.
Qed.

Lemma run_waiters_calls d ws s :
  d ∉ ws.*2 -> calls_on d (effects (foldl run_waiter s ws)) = calls_on d (effects s).
Proof.
  revert s. induction ws as [|w ws IH]; intros s Hd; simpl; [reflexivity |].
  simpl in Hd. apply not_elem_of_cons in Hd as [Hne Hd].
  rewrite IH by exact Hd. rewrite run_waiter_calls.
  destruct (Nat.eqb_spec d w.2); [contradiction | lia].
Qed.

(** Every callback of a [ready] handler that was waiting is called. *)
Lemma run_waiters_run cb d ws s :
  (Some cb, d) ∈ ws -> In (ERun cb) (effects (foldl run_waiter s ws)).
Proof.
  assert (forall ws s e, In e (effects s) -> In e (effects (foldl run_waiter s ws))) as Hkeep.
  { clear. induction ws as [|w ws IH]; intros s e He; simpl; [exact He |].
    apply IH. unfold run_waiter. rewrite mark_effects.
    destruct w.1; simpl; repeat (apply in_or_app; left); exact He. }
  revert s. induction ws as [|w ws IH]; intros s Hin; [apply elem_of_nil in Hin as [] |].
  apply elem_of_cons in Hin as [<- | Hin]; simpl; [| apply IH, Hin].
  apply Hkeep. unfold run_waiter. rewrite mark_effects. simpl.
  apply in_or_app. left. apply in_or_app. right. left. reflexivity.
Qed.

(** [$(gadget).trigger(...)] *)
Lemma trigger_registry n p s : same_registry s (trigger n p s).
Proof.
  unfold trigger. destruct (String.eqb n "ready"); [| repeat split].
  eapply same_registry_trans; [| apply run_waiters_registry]. repeat split.
Qed.

Lemma trigger_gadget n p s : gadget (trigger n p s) = gadget s.
Proof.
  unfold trigger. destruct (String.eqb n "ready"); [| reflexivity].
  rewrite run_waiters_gadget. reflexivity.
Qed.

Lemma trigger_waiters n p s :
  ready_waiters (trigger n p s) = ready_waiters s \/ ready_waiters (trigger n p s) = [].
Proof.
  unfold trigger. destruct (String.eqb n "ready"); [| left; reflexivity].
  right. rewrite run_waiters_waiters. reflexivity.
Qed.

Lemma trigger_calls d n p s :
  d ∉ (ready_waiters s).*2 ->
  calls_on d (effects (trigger n p s)) = calls_on d (effects s).
Proof.
  intros Hd. unfold trigger. destruct (String.eqb n "ready"); simpl.
  - rewrite run_waiters_calls by exact Hd. simpl. rewrite calls_on_snoc. simpl. lia.
  - rewrite calls_on_snoc. simpl. lia.
Qed.

Lemma trigger_ready_triggers p s :
  ready_triggers (effects (trigger "ready" p s)) = S (ready_triggers (effects s)).
Proof.
  unfold trigger. simpl. rewrite run_waiters_triggers. simpl.
  rewrite ready_triggers_app. simpl. lia.
Qed.

Lemma Inv_trigger n p s : Inv s -> Inv (trigger n p s).
Proof.
  intros HI. unfold trigger.
  assert (Inv (emit (ETrigger n p) s)) as HI1 by (apply Inv_emit_other; auto).
  destruct (String.eqb n "ready"); [| exact HI1].
  simpl. apply Inv_run_waiters.
  - revert HI1. apply Inv_shrink; simpl; auto.
  - apply (inv_waiter_nodup _ HI).
  - intros w Hw.
    assert (holds_waiter s w.2) as Hh by (apply list_elem_of_fmap; exists w; auto).
    destruct (inv_held _ HI w.2) as [Hz Hlt]; [right; right; exact Hh |].
    destruct (inv_waiter_sep _ HI _ Hh) as [Hne Hnt].
    split; [| split]; simpl.
    + intros [H | [H | H]]; [apply Hne, H | apply Hnt, H |].
      unfold holds_waiter in H. simpl in H. apply elem_of_nil in H. exact H.
    + rewrite calls_on_snoc. simpl. lia.
    + exact Hlt.
Qed.

(** The callbacks of the initialization. *)
Lemma collectData_then_registry u data s : same_registry s (collectData_then u data s).1.
Proof. unfold collectData_then. simpl. destruct (truthy data); [apply set_registry | repeat split]. Qed.

Lemma collectData_then_effects u data s : effects (collectData_then u data s).1 = effects s.
Proof. unfold collectData_then. simpl. destruct (truthy data); [apply set_effects | reflexivity]. Qed.

Lemma collectData_then_waiters u data s :
  ready_waiters (collectData_then u data s).1 = ready_waiters s.
Proof. unfold collectData_then. simpl. destruct (truthy data); [apply set_waiters' | reflexivity]. Qed.

Lemma Inv_collectData_then u data s : Inv s -> Inv (collectData_then u data s).1.
Proof. unfold collectData_then. simpl. destruct (truthy data); auto using Inv_set. Qed.

Lemma Inv_initialization_then data s : Inv s -> Inv (initialization_then data s).
Proof.
  intros HI. unfold initialization_then.
  apply Inv_trigger, Inv_set_gadget, Inv_emit_other; auto.
Qed.

Lemma Inv_initialization_fail err s : Inv s -> Inv (initialization_fail err s).
Proof.
  intros HI. unfold initialization_fail.
  apply Inv_trigger, Inv_set_gadget, Inv_emit_other; auto.
Qed.

Lemma run_chain_resolved u payload s :
  run_chain (Initialization u) (Resolved payload) s
  = initialization_then (collectData_then u (getEnvironment_then payload) s).2
      (collectData_then u (getEnvironment_then payload) s).1.
Proof.
  unfold run_chain. destruct (collectData_then u (getEnvironment_then payload) s).
  reflexivity.
Qed.

Lemma run_chain_rejected u err s :
  run_chain (Initialization u) (Rejected err) s = initialization_fail err s.
Proof. reflexivity. Qed.

Lemma Inv_run_chain c o s : Inv s -> Inv (run_chain c o s).
Proof.
  intros HI. destruct c as [u], o as [|payload|err]; [exact HI | |].
  - rewrite run_chain_resolved.
    apply Inv_initialization_then, Inv_collectData_then, HI.
  - apply Inv_initialization_fail, HI.
Qed.

Lemma run_chain_registry c o s : same_registry s (run_chain c o s).
Proof.
  destruct c as [u], o as [|payload|err]; [apply same_registry_refl | |].
  - rewrite run_chain_resolved. unfold initialization_then.
    eapply same_registry_trans;
      [apply (collectData_then_registry u (getEnvironment_then payload) s) |].
    eapply same_registry_trans; [| apply trigger_registry]. repeat split.
  - rewrite run_chain_rejected. unfold initialization_fail.
    eapply same_registry_trans; [| apply trigger_registry]. repeat split.
Qed.

Lemma run_chain_waiters c o s :
  ready_waiters (run_chain c o s) = ready_waiters s \/ ready_waiters (run_chain c o s) = [].
Proof.
  destruct c as [u], o as [|payload|err]; [left; reflexivity | |].
  - rewrite run_chain_resolved. unfold initialization_then.
    match goal with |- context [trigger ?n ?p ?s0] =>
      destruct (trigger_waiters n p s0) as [H | H]; rewrite H; simpl; auto end.
    left. exact (collectData_then_waiters u (getEnvironment_then payload) s).
  - rewrite run_chain_rejected. unfold initialization_fail.
    match goal with |- context [trigger ?n ?p ?s0] =>
      destruct (trigger_waiters n p s0) as [H | H]; rewrite H; simpl; auto end.
Qed.

Lemma initialization_then_calls d data s :
  d ∉ (ready_waiters s).*2 ->
  calls_on d (effects (initialization_then data s)) = calls_on d (effects s).
Proof.
  intros Hd. unfold initialization_then. rewrite trigger_calls; simpl; [| exact Hd].
  rewrite calls_on_snoc. simpl. lia.
Qed.

Lemma initialization_fail_calls d err s :
  d ∉ (ready_waiters s).*2 ->
  calls_on d (effects (initialization_fail err s)) = calls_on d (effects s).
Proof.
  intros Hd. unfold initialization_fail. rewrite trigger_calls; simpl; [| exact Hd].
  rewrite calls_on_snoc. simpl. lia.
Qed.

Lemma run_chain_calls d c o s :
  d ∉ (ready_waiters s).*2 ->
  calls_on d (effects (run_chain c o s)) = calls_on d (effects s).
Proof.
  intros Hd. destruct c as [u], o as [|payload|err]; [reflexivity | |].
  - rewrite run_chain_resolved, initialization_then_calls.
    + apply f_equal, collectData_then_effects.
    + rewrite collectData_then_waiters. exact Hd.
  - rewrite run_chain_rejected. apply initialization_fail_calls, Hd.
Qed.

(** [resolve] and [reject] *)
Lemma Inv_settle d o s : Inv s -> Inv (settle d o s).
Proof.
  intros HI. unfold settle. destruct (deferreds s !! d) as [[]|]; auto.
  destruct (chains s !! d); auto using Inv_run_chain, Inv_mark.
Qed.

Lemma settle_registry d o s : same_registry s (settle d o s).
Proof.
  unfold settle. destruct (deferreds s !! d) as [[]|]; try apply same_registry_refl.
  destruct (chains s !! d); [| apply mark_registry].
  eapply same_registry_trans; [apply mark_registry | apply run_chain_registry].
Qed.

Lemma settle_waiters d o s :
  ready_waiters (settle d o s) = ready_waiters s \/ ready_waiters (settle d o s) = [].
Proof.
  unfold settle. destruct (deferreds s !! d) as [[]|]; auto.
  destruct (chains s !! d); [| left; apply mark_waiters].
  destruct (run_chain_waiters c o (mark d o s)) as [H | H]; rewrite H; auto.
  left. apply mark_waiters.
Qed.

Lemma settle_calls d' d o s :
  d' ∉ (ready_waiters s).*2 ->
  calls_on d' (effects (settle d o s)) = calls_on d' (effects s).
Proof.
  intros Hd. unfold settle. destruct (deferreds s !! d) as [[]|]; auto.
  destruct (chains s !! d); [| rewrite mark_effects; reflexivity].
  rewrite run_chain_calls; rewrite ?mark_waiters, ?mark_effects; auto.
Qed.

Lemma Inv_resolve d v s :
  ~ held s d -> calls_on d (effects s) = 0 -> d < next_deferred s ->
  Inv s -> Inv (resolve d v s).
Proof.
  intros Hh Hz Hlt HI. unfold resolve. apply Inv_settle.
  apply (Inv_emit_call _ d); simpl; auto.
  - apply Nat.eqb_refl.
  - intros d' Hd. apply Nat.eqb_neq. exact Hd.
Qed.

Lemma Inv_reject d v s :
  ~ held s d -> calls_on d (effects s) = 0 -> d < next_deferred s ->
  Inv s -> Inv (reject d v s).
Proof.
  intros Hh Hz Hlt HI. unfold reject. apply Inv_settle.
  apply (Inv_emit_call _ d); simpl; auto.
  - apply Nat.eqb_refl.
  - intros d' Hd. apply Nat.eqb_neq. exact Hd.
Qed.

Lemma resolve_registry d v s : same_registry s (resolve d v s).
Proof.
  unfold resolve. eapply same_registry_trans; [| apply settle_registry]. repeat split.
Qed.

Lemma reject_registry d v s : same_registry s (reject d v s).
Proof.
  unfold reject. eapply same_registry_trans; [| apply settle_registry]. repeat split.
Qed.

Lemma resolve_calls d' d v s :
  d' ∉ (ready_waiters s).*2 ->
  calls_on d' (effects (resolve d v s))
  = calls_on d' (effects s) + (if Nat.eqb d' d then 1 else 0).
Proof.
  intros Hd. unfold resolve. rewrite settle_calls by exact Hd.
  simpl. rewrite calls_on_snoc. reflexivity.
Qed.

Lemma reject_calls d' d v s :
  d' ∉ (ready_waiters s).*2 ->
  calls_on d' (effects (reject d v s))
  = calls_on d' (effects s) + (if Nat.eqb d' d then 1 else 0).
Proof.
  intros Hd. unfold reject. rewrite settle_calls by exact Hd.
  simpl. rewrite calls_on_snoc. reflexivity.
Qed.

(** Effects are only ever added. *)
Lemma trigger_keeps e n p s : In e (effects s) -> In e (effects (trigger n p s)).
Proof.
  intros He. unfold trigger.
  assert (forall ws s, In e (effects s) -> In e (effects (foldl run_waiter s ws))) as Hkeep.
  { clear. induction ws as [|w ws IH]; intros s He; simpl; [exact He |].
    apply IH. unfold run_waiter. rewrite mark_effects.
    destruct w.1; simpl; repeat (apply in_or_app; left); exact He. }
  destruct (String.eqb n "ready"); [apply Hkeep |]; simpl; apply in_or_app; auto.
Qed.

Lemma initialization_then_keeps e data s :
  In e (effects s) -> In e (effects (initialization_then data s)).
Proof.
  intros He. unfold initialization_then. apply trigger_keeps. simpl.
  apply in_or_app. auto.
Qed.

Lemma initialization_fail_keeps e err s :
  In e (effects s) -> In e (effects (initialization_fail err s)).
Proof.
  intros He. unfold initialization_fail. apply trigger_keeps. simpl.
  apply in_or_app. auto.
Qed.

Lemma run_chain_keeps e c o s : In e (effects s) -> In e (effects (run_chain c o s)).
Proof.
  intros He. destruct c as [u], o as [|payload|err]; [exact He | |].
  - rewrite run_chain_resolved. apply initialization_then_keeps.
    rewrite collectData_then_effects. exact He.
  - rewrite run_chain_rejected. apply initialization_fail_keeps, He.
Qed.

Lemma settle_keeps e d o s : In e (effects s) -> In e (effects (settle d o s)).
Proof.
  intros He. unfold settle. destruct (deferreds s !! d) as [[]|]; auto.
  destruct (chains s !! d); [apply run_chain_keeps |]; rewrite mark_effects; exact He.
Qed.

Lemma resolve_emits d v s : In (EResolve d v) (effects (resolve d v s)).
Proof. unfold resolve. apply settle_keeps. simpl. apply in_or_app. right. left. reflexivity. Qed.

Lemma reject_emits d v s : In (EReject d v) (effects (reject d v s)).
Proof. unfold reject. apply settle_keeps. simpl. apply in_or_app. right. left. reflexivity. Qed.

(** *** Closing a request *)

Lemma clearPending_effects v s : effects (clearPending v s) = effects s.
Proof.
  unfold clearPending. destruct v; auto. destruct (pending_get s (VStr s0)); auto.
  destruct (timerId e) as [[|t]|]; reflexivity.
Qed.

Lemma clearPending_waiters v s : ready_waiters (clearPending v s) = ready_waiters s.
Proof.
  unfold clearPending. destruct v; auto. destruct (pending_get s (VStr s0)); auto.
  destruct (timerId e) as [[|t]|]; reflexivity.
Qed.

Lemma clearPending_gadget v s : gadget (clearPending v s) = gadget s.
Proof.
  unfold clearPending. destruct v; auto. destruct (pending_get s (VStr s0)); auto.
  destruct (timerId e) as [[|t]|]; reflexivity.
Qed.

Lemma clearPending_deferreds v s :
  deferreds (clearPending v s) = deferreds s /\ chains (clearPending v s) = chains s /\
  next_deferred (clearPending v s) = next_deferred s /\
  next_timer (clearPending v s) = next_timer s.
Proof.
  unfold clearPending. destruct v; auto. destruct (pending_get s (VStr s0)); auto.
  destruct (timerId e) as [[|t]|]; auto.
Qed.

Lemma clearPending_pending k s :
  pendingRequests (clearPending (VStr k) s) = delete k (pendingRequests s).
Proof.
  unfold clearPending. simpl. destruct (pendingRequests s !! k) as [en|] eqn:E.
  - destruct (timerId en) as [[|t]|]; reflexivity.
  - symmetry. apply delete_id. exact E.
Qed.

Lemma clearPending_timers_subseteq v s : timers (clearPending v s) ⊆ timers s.
Proof.
  unfold clearPending. destruct v; auto. destruct (pending_get s (VStr s0)); auto.
  destruct (timerId e) as [[|t]|]; simpl; auto. apply delete_subseteq.
Qed.

(** Double cleanup is a no-op. *)
Lemma clearPending_idempotent v s : clearPending v (clearPending v s) = clearPending v s.
Proof.
  destruct v; try reflexivity. rename s0 into k.
  unfold clearPending at 1. unfold pending_get.
  rewrite clearPending_pending, lookup_delete_eq. reflexivity.
Qed.

(** When the callback is not in the registry, cleanup does nothing. *)
Lemma clearPending_unknown v s : pending_get s v = None -> clearPending v s = s.
Proof. intros H. unfold clearPending. destruct v; try reflexivity. rewrite H. reflexivity. Qed.

(** After the cleanup of the entry of [d], nothing holds [d]. *)
Lemma clearPending_closes k en s :
  Inv s -> pendingRequests s !! k = Some en ->
  ~ held (clearPending (VStr k) s) (deferred en) /\
  calls_on (deferred en) (effects (clearPending (VStr k) s)) = 0 /\
  deferred en < next_deferred (clearPending (VStr k) s).
Proof.
  intros HI Hk.
  assert (holds_entry s (deferred en)) as Hheld by (exists k, en; auto).
  destruct (inv_held _ HI (deferred en)) as [Hz Hlt]; [left; exact Hheld |].
  destruct (clearPending_deferreds (VStr k) s) as (_ & _ & Hnd & _).
  rewrite clearPending_effects, Hnd. split; [| auto].
  intros [(m & en' & Hm & Hd) | [(t & c & Ht & Hd) | Hw]].
  - rewrite clearPending_pending in Hm. apply lookup_delete_Some in Hm as [Hne Hm].
    apply Hne. symmetry. exact (inv_entry_inj _ HI _ _ _ _ Hm Hk Hd).
  - assert (timers s !! t = Some c) as Ht'
      by (eapply lookup_weaken; [exact Ht | apply clearPending_timers_subseteq]).
    destruct (inv_link _ HI _ _ _ _ Hk Ht' Hd) as [Htid _].
    destruct (inv_timer_id _ HI _ _ Ht') as [Hpos _].
    destruct t as [|t]; [lia |].
    revert Ht. unfold clearPending. simpl. rewrite Hk, Htid. simpl.
    rewrite lookup_delete_eq. discriminate.
  - unfold holds_waiter in Hw. rewrite clearPending_waiters in Hw.
    destruct (inv_waiter_sep _ HI _ Hw) as [Hne _]. apply Hne, Hheld.
Qed.

(** After a timer fired and cleaned up, nothing holds its Deferred. *)
Lemma timeout_closes t c s :
  Inv s -> timers s !! t = Some c ->
  let s1 := clearPending (VStr (c_msgid c)) (set_timers (delete t (timers s)) s) in
  Inv s1 /\ ~ held s1 (c_deferred c) /\
  calls_on (c_deferred c) (effects s1) = 0 /\ c_deferred c < next_deferred s1.
Proof.
  intros HI Ht s1.
  assert (holds_timer s (c_deferred c)) as Hheld by (exists t, c; auto).
  destruct (inv_held _ HI (c_deferred c)) as [Hz Hlt]; [right; left; exact Hheld |].
  set (s0 := set_timers (delete t (timers s)) s) in *.
  assert (Inv s0) as HI0 by (revert HI; apply Inv_shrink; simpl; auto; apply delete_subseteq).
  split; [apply Inv_clearPending, HI0 |].
  destruct (clearPending_deferreds (VStr (c_msgid c)) s0) as (_ & _ & Hnd & _).
  unfold s1. rewrite clearPending_effects, Hnd. split; [| auto].
  intros [(m & en' & Hm & Hd) | [(t' & c' & Ht' & Hd) | Hw]].
  - rewrite clearPending_pending in Hm. apply lookup_delete_Some in Hm as [Hne Hm].
    simpl in Hm. destruct (inv_link _ HI _ _ _ _ Hm Ht (eq_sym Hd)) as [_ Hmsg].
    apply Hne. exact Hmsg.
  - assert (timers s0 !! t' = Some c') as Ht0
      by (eapply lookup_weaken; [exact Ht' | apply clearPending_timers_subseteq]).
    simpl in Ht0. apply lookup_delete_Some in Ht0 as [Hne Ht0].
    apply Hne. exact (inv_timer_inj _ HI _ _ _ _ Ht Ht0 (eq_sym Hd)).
  - unfold holds_waiter in Hw. rewrite clearPending_waiters in Hw. simpl in Hw.
    destruct (inv_waiter_sep _ HI _ Hw) as [_ Hne]. apply Hne, Hheld.
Qed.

Lemma Inv_timeout t s : Inv s -> Inv (timeout t s).
Proof.
  intros HI. unfold timeout. destruct (timers s !! t) as [c|] eqn:Ht; [| exact HI].
  destruct (timeout_closes t c s HI Ht) as (HI1 & Hh & Hz & Hlt).
  apply Inv_reject; assumption.
Qed.

Lemma parseMessageData_Inv JSON_parse raw s :
  Inv s -> Inv (parseMessageData JSON_parse raw s).1.
Proof.
  intros HI. unfold parseMessageData. destruct raw; simpl; auto.
  destruct (JSON_parse s0); simpl; auto. apply Inv_emit_other; auto.
Qed.

Lemma pending_get_Some s v en :
  pending_get s v = Some en -> exists k, v = VStr k /\ pendingRequests s !! k = Some en.
Proof. destruct v; simpl; try discriminate. eauto. Qed.

Lemma Inv_messageHandler JSON_parse event s :
  Inv s -> Inv (messageHandler JSON_parse event s).
Proof.
  intros HI. unfold messageHandler.
  destruct (negb (isTrustedEvent event s)); [exact HI |].
  pose proof (parseMessageData_Inv JSON_parse (data event) s HI) as HI1.
  destruct (parseMessageData JSON_parse (data event) s) as [s1 message]. simpl in HI1.
  destruct (negb (truthy message)); [exact HI1 |].
  destruct (truthy (get_prop message "callback")).
  - destruct (pending_get s1 (get_prop message "callback")) as [en|] eqn:E; [| exact HI1].
    apply pending_get_Some in E as (k & -> & Hk).
    destruct (clearPending_closes k en s1 HI1 Hk) as (Hh & Hz & Hlt).
    apply Inv_resolve; auto using Inv_clearPending.
  - destruct (get_prop message "name"); auto.
    destruct (negb (is_empty_string s0)); auto using Inv_trigger.
Qed.

(** A Deferred that was just created is held by nothing. *)
Lemma fresh_not_held s d : Inv s -> next_deferred s <= d -> ~ held s d.
Proof. intros HI Hge Hh. destruct (inv_held _ HI d Hh). lia. Qed.

Lemma Inv_ready callback s : Inv s -> Inv (ready callback s).1.
Proof.
  intros HI. unfold ready.
  pose proof (Inv_new_deferred s HI) as HI1.
  assert (~ held (new_deferred s).1 (next_deferred s)) as Hh
    by (intros H; apply (fresh_not_held s (next_deferred s) HI); [lia | exact H]).
  assert (calls_on (next_deferred s) (effects s) = 0) as Hz
    by (apply (inv_fresh _ HI); lia).
  simpl. destruct (truthy (field (gadget s) "isReady")); simpl.
  - apply Inv_resolve.
    + destruct callback; exact Hh.
    + destruct callback; simpl; [rewrite calls_on_snoc; simpl; lia | exact Hz].
    + destruct callback; simpl; lia.
    + destruct callback; [apply Inv_emit_other; auto | exact HI1].
  - destruct HI1. split; simpl in *; try assumption.
    + intros d [H | [H | H]].
      * apply inv_held0. left. exact H.
      * apply inv_held0. right. left. exact H.
      * unfold holds_waiter in H. simpl in H. rewrite fmap_app in H.
        apply elem_of_app in H as [H | H].
        -- apply inv_held0. right. right. exact H.
        -- simpl in H. apply list_elem_of_singleton in H as ->. split; [exact Hz | lia].
    + rewrite fmap_app. apply NoDup_app. split; [exact inv_waiter_nodup0 |].
      split; [| apply NoDup_singleton].
      intros d Hd Hd'. simpl in Hd'. apply list_elem_of_singleton in Hd' as ->.
      apply Hh. right. right. exact Hd.
    + intros d H. unfold holds_waiter in H. simpl in H. rewrite fmap_app in H.
      apply elem_of_app in H as [H | H]; [apply inv_waiter_sep0, H |].
      simpl in H. apply list_elem_of_singleton in H as ->.
      split; intros H; apply Hh; [left | right; left]; exact H.
Qed.

(** *** Sending *)

Lemma register_spec msgid name ms s :
  register msgid name ms s =
  (if is_finite_positive ms then
     State (gadget s)
       (<[msgid := Entry (next_deferred s) (Some (next_timer s)) name]> (pendingRequests s))
       (<[next_timer s := TimeoutClosure msgid (next_deferred s) name ms]> (timers s))
       (S (next_timer s)) (<[next_deferred s := Pending]> (deferreds s))
       (S (next_deferred s)) (chains s) (ready_waiters s) (effects s)
   else
     State (gadget s)
       (<[msgid := Entry (next_deferred s) None name]> (pendingRequests s))
       (timers s) (next_timer s) (<[next_deferred s := Pending]> (deferreds s))
       (S (next_deferred s)) (chains s) (ready_waiters s) (effects s),
   next_deferred s).
Proof.
  unfold register. simpl. destruct (is_finite_positive ms); simpl; [| reflexivity].
  rewrite alter_insert_eq. reflexivity.
Qed.

Lemma held_lt s d : Inv s -> held s d -> d < next_deferred s.
Proof. intros HI Hh. apply (inv_held _ HI d Hh). Qed.

Lemma Inv_register msgid name ms s : Inv s -> Inv (register msgid name ms s).1.
Proof.
  intros HI. rewrite register_spec.
  pose proof (inv_fresh _ HI (next_deferred s) (Nat.le_refl _)) as Hz.
  pose proof (inv_next_timer _ HI) as Hnt.
  assert (forall m en, pendingRequests s !! m = Some en -> deferred en < next_deferred s)
    as Hen by (intros m en H; apply (held_lt s _ HI); left; exists m, en; auto).
  assert (forall t c, timers s !! t = Some c -> c_deferred c < next_deferred s)
    as Htm by (intros t c H; apply (held_lt s _ HI); right; left; exists t, c; auto).
  assert (forall d, holds_waiter s d -> d < next_deferred s)
    as Hwt by (intros d H; apply (held_lt s _ HI); right; right; exact H).
  destruct (is_finite_positive ms); simpl; split;
    unfold held, holds_entry, holds_timer, holds_waiter; simpl;
    try exact (inv_once _ HI); try exact (inv_waiter_nodup _ HI); try lia.
  - intros d [(m & en & Hm & <-) | [(t & c & Ht & <-) | Hw]].
    + apply lookup_insert_Some in Hm as [[<- <-] | [_ Hm]]; simpl; [auto |].
      specialize (Hen _ _ Hm). destruct (inv_held _ HI (deferred en)); [| auto].
      left. exists m, en. auto.
    + apply lookup_insert_Some in Ht as [[<- <-] | [_ Ht]]; simpl; [auto |].
      destruct (inv_held _ HI (c_deferred c)); [| auto]. right. left. exists t, c. auto.
    + destruct (inv_held _ HI d); [| auto]. right. right. exact Hw.
  - intros d Hd. apply (inv_fresh _ HI). lia.
  - intros t c Ht. apply lookup_insert_Some in Ht as [[<- <-] | [_ Ht]]; [lia |].
    destruct (inv_timer_id _ HI _ _ Ht). lia.
  - intros m en t c Hm Ht Hd.
    apply lookup_insert_Some in Hm as [[<- <-] | [Hm' Hm]];
      apply lookup_insert_Some in Ht as [[<- <-] | [Ht' Ht]]; simpl in *; auto.
    + specialize (Htm _ _ Ht). lia.
    + specialize (Hen _ _ Hm). lia.
    + exact (inv_link _ HI _ _ _ _ Hm Ht Hd).
  - intros m m' en en' Hm Hm' Hd.
    apply lookup_insert_Some in Hm as [[<- <-] | [Hn Hm]];
      apply lookup_insert_Some in Hm' as [[<- <-] | [Hn' Hm']]; simpl in *; auto.
    + specialize (Hen _ _ Hm'). lia.
    + specialize (Hen _ _ Hm). lia.
    + exact (inv_entry_inj _ HI _ _ _ _ Hm Hm' Hd).
  - intros t t' c c' Ht Ht' Hd.
    apply lookup_insert_Some in Ht as [[<- <-] | [Hn Ht]];
      apply lookup_insert_Some in Ht' as [[<- <-] | [Hn' Ht']]; simpl in *; auto.
    + specialize (Htm _ _ Ht'). lia.
    + specialize (Htm _ _ Ht). lia.
    + exact (inv_timer_inj _ HI _ _ _ _ Ht Ht' Hd).
  - intros d Hw. specialize (Hwt _ Hw). destruct (inv_waiter_sep _ HI _ Hw) as [H1 H2].
    split.
    + intros (m & en & Hm & Hd).
      apply lookup_insert_Some in Hm as [[<- <-] | [_ Hm]]; simpl in *; [lia |].
      apply H1. exists m, en. auto.
    + intros (t & c & Ht & Hd).
      apply lookup_insert_Some in Ht as [[<- <-] | [_ Ht]]; simpl in *; [lia |].
      apply H2. exists t, c. auto.
  - intros d [(m & en & Hm & <-) | [(t & c & Ht & <-) | Hw]].
    + apply lookup_insert_Some in Hm as [[<- <-] | [_ Hm]]; simpl; [auto |].
      specialize (Hen _ _ Hm). destruct (inv_held _ HI (deferred en)); [| auto].
      left. exists m, en. auto.
    + destruct (inv_held _ HI (c_deferred c)); [| auto]. right. left. exists t, c. auto.
    + destruct (inv_held _ HI d); [| auto]. right. right. exact Hw.
  - intros d Hd. apply (inv_fresh _ HI). lia.
  - exact (inv_timer_id _ HI).
  - intros m en t c Hm Ht Hd.
    apply lookup_insert_Some in Hm as [[<- <-] | [Hm' Hm]]; simpl in *.
    + specialize (Htm _ _ Ht). lia.
    + exact (inv_link _ HI _ _ _ _ Hm Ht Hd).
  - intros m m' en en' Hm Hm' Hd.
    apply lookup_insert_Some in Hm as [[<- <-] | [Hn Hm]];
      apply lookup_insert_Some in Hm' as [[<- <-] | [Hn' Hm']]; simpl in *; auto.
    + specialize (Hen _ _ Hm'). lia.
    + specialize (Hen _ _ Hm). lia.
    + exact (inv_entry_inj _ HI _ _ _ _ Hm Hm' Hd).
  - exact (inv_timer_inj _ HI).
  - intros d Hw. specialize (Hwt _ Hw). destruct (inv_waiter_sep _ HI _ Hw) as [H1 H2].
    split; [| exact H2].
    intros (m & en & Hm & Hd).
    apply lookup_insert_Some in Hm as [[<- <-] | [_ Hm]]; simpl in *; [lia |].
    apply H1. exists m, en. auto.
Qed.

Lemma register_entry msgid name ms s :
  exists tid,
    pendingRequests (register msgid name ms s).1 !! msgid
    = Some (Entry (next_deferred s) tid name) /\
    (register msgid name ms s).2 = next_deferred s /\
    (is_finite_positive ms = false -> tid = None /\
       timers (register msgid name ms s).1 = timers s) /\
    (is_finite_positive ms = true -> tid = Some (next_timer s) /\
       timers (register msgid name ms s).1 !! next_timer s
       = Some (TimeoutClosure msgid (next_deferred s) name ms)).
Proof.
  rewrite register_spec. destruct (is_finite_positive ms); simpl.
  - exists (Some (next_timer s)). rewrite !lookup_insert_eq.
    repeat split; auto; discriminate.
  - exists None. rewrite lookup_insert_eq. repeat split; auto; discriminate.
Qed.

Lemma Inv_sendMessageToTop name payload options e thrown s :
  Inv s -> Inv (sendMessageToTop name payload options e thrown s).1.
Proof.
  intros HI. unfold sendMessageToTop.
  destruct (negb (truthy (field (gadget s) "msghostOrigin"))).
  - simpl. apply Inv_reject.
    + intros H. apply (fresh_not_held s (next_deferred s) HI); [lia | exact H].
    + apply (inv_fresh _ HI). simpl. lia.
    + simpl. lia.
    + apply (Inv_new_deferred s HI).
  - pose proof (Inv_register (makeCallbackId e) name (request_timeout options s) s HI) as HI3.
    destruct (register_entry (makeCallbackId e) name (request_timeout options s) s)
      as (tid & Hentry & Hd & _).
    destruct (register _ _ _ s) as [s3 d]. cbn [fst snd] in *. subst d.
    destruct thrown as [exn|]; cbn [fst].
    + destruct (clearPending_closes _ _ s3 HI3 Hentry) as (Hh & Hz & Hlt).
      apply Inv_reject; auto using Inv_clearPending.
    + apply Inv_emit_other; auto.
Qed.

Lemma Inv_step JSON_parse s i : Inv s -> Inv (step JSON_parse s i).
Proof.
  intros HI. destruct i; simpl.
  - apply Inv_sendMessageToTop, HI.
  - apply Inv_messageHandler, HI.
  - apply Inv_timeout, HI.
  - apply Inv_set, HI.
  - apply Inv_ready, HI.
Qed.

Lemma Inv_run JSON_parse inputs s : Inv s -> Inv (run JSON_parse s inputs).
Proof.
  revert s. induction inputs as [|i inputs IH]; intros s HI; simpl; [exact HI |].
  apply IH, Inv_step, HI.
Qed.

Lemma Inv_initial : Inv initial.
Proof.
  split; simpl; unfold held, holds_entry, holds_timer, holds_waiter; simpl.
  - intros d [(m & en & H & _) | [(t & c & H & _) | H]].
    + rewrite lookup_empty in H. discriminate.
    + rewrite lookup_empty in H. discriminate.
    + apply elem_of_nil in H. destruct H.
  - intros d. lia.
  - reflexivity.
  - intros t c H. rewrite lookup_empty in H. discriminate.
  - lia.
  - intros m en t c H. rewrite lookup_empty in H. discriminate.
  - intros m m' en en' H. rewrite lookup_empty in H. discriminate.
  - intros t t' c c' H. rewrite lookup_empty in H. discriminate.
  - apply NoDup_nil_2.
  - intros d H. apply elem_of_nil in H. destruct H.
Qed.

Lemma Inv_attach d c s : Inv s -> Inv (attach d c s).
Proof.
  intros HI. unfold attach. destruct (deferreds s !! d) as [[]|];
    auto using Inv_set_chains, Inv_run_chain.
Qed.

Lemma Inv_collectData URL_origin page e thrown s :
  Inv s -> Inv (collectData URL_origin page e thrown s).1.1.
Proof.
  intros HI. unfold collectData, getEnvironment.
  match goal with |- context [sendMessageToTop ?n ?p ?o e thrown ?s2] =>
    pose proof (Inv_sendMessageToTop n p o e thrown s2) as H;
    destruct (sendMessageToTop n p o e thrown s2) as [s3 d] end.
  simpl in *. apply H, Inv_set_gadget, Inv_set_gadget, HI.
Qed.

Lemma Inv_initialize URL_origin page e thrown : Inv (initialize URL_origin page e thrown).
Proof.
  unfold initialize.
  pose proof (Inv_collectData URL_origin page e thrown initial Inv_initial) as H.
  destruct (collectData URL_origin page e thrown initial) as [[s d] u]. simpl in H.
  apply Inv_attach, H.
Qed.

(** Every state the page can reach satisfies the invariant. *)
Lemma Inv_reachable JSON_parse URL_origin page e thrown inputs :
  Inv (run JSON_parse (initialize URL_origin page e thrown) inputs).
Proof. apply Inv_run, Inv_initialize. Qed.

(** *** Origin normalization *)

Lemma lower_app a b : lower (a +:+ b) = lower a +:+ lower b.
Proof. induction a as [|c a IH]; simpl; [reflexivity | rewrite IH; reflexivity]. Qed.

Lemma all_chars_app p a b : all_chars p (a +:+ b) = all_chars p a && all_chars p b.
Proof.
  induction a as [|c a IH]; simpl; [reflexivity |].
  rewrite IH. apply andb_assoc.
Qed.

Lemma span_all p a : all_chars p a = true -> span p a = (a, EmptyString).
Proof.
  induction a as [|c a IH]; simpl; [reflexivity |].
  intros H. apply andb_true_iff in H as [-> H]. rewrite (IH H). reflexivity.
Qed.

Lemma span_app p a c r :
  all_chars p a = true -> p c = false -> span p (a +:+ String c r) = (a, String c r).
Proof.
  intros Ha Hc. induction a as [|c' a IH]; simpl.
  - rewrite Hc. reflexivity.
  - simpl in Ha. apply andb_true_iff in Ha as [-> Ha]. rewrite (IH Ha). reflexivity.
Qed.

Lemma span_fst_all p s : all_chars p (span p s).1 = true.
Proof.
  induction s as [|c s IH]; simpl; [reflexivity |].
  destruct (p c) eqn:Hc; [| reflexivity].
  destruct (span p s) as [a b]. simpl in *. rewrite Hc, IH. reflexivity.
Qed.

Lemma is_empty_string_false s : s <> "" -> is_empty_string s = false.
Proof. destruct s; [congruence | reflexivity]. Qed.

(** The characters of a bare host with port are not slashes, also after
    lower-casing. *)
Lemma host_or_port_char_not_slash c :
  host_or_port_char c = true -> Ascii.eqb (to_lower c) "/" = false.
Proof.
  destruct c as [[] [] [] [] [] [] [] []]; vm_compute; intros H;
    first [reflexivity | discriminate H].
Qed.

Lemma host_or_port_char_not_slash' c :
  host_or_port_char c = true -> Ascii.eqb c "/" = false.
Proof.
  destruct c as [[] [] [] [] [] [] [] []]; vm_compute; intros H;
    first [reflexivity | discriminate H].
Qed.

Lemma prefix_cons a p b s :
  String.prefix (String a p) (String b s) = true -> a = b /\ String.prefix p s = true.
Proof. simpl. destruct (ascii_dec a b); [auto | discriminate]. Qed.

Ltac no_slash_at H Hall :=
  repeat match type of H with
    | String.prefix (String _ _) (lower ?v) = true =>
        destruct v; simpl in H; [discriminate H |];
        simpl in Hall; apply andb_true_iff in Hall as [?Hc Hall];
        apply prefix_cons in H as [?Heq H]
    end.

Lemma bare_not_absolute v :
  all_chars host_or_port_char v = true -> is_absolute_http v = false.
Proof.
  intros Hall. unfold is_absolute_http. apply orb_false_iff. split.
  - destruct (String.prefix "http://" (lower v)) eqn:H; [| reflexivity].
    exfalso. no_slash_at H Hall.
    apply host_or_port_char_not_slash in Hc4. rewrite <- Heq4 in Hc4. discriminate.
  - destruct (String.prefix "https://" (lower v)) eqn:H; [| reflexivity].
    exfalso. no_slash_at H Hall.
    apply host_or_port_char_not_slash in Hc5. rewrite <- Heq5 in Hc5. discriminate.
Qed.

Lemma bare_not_protocol_relative v :
  all_chars host_or_port_char v = true -> is_protocol_relative v = false.
Proof.
  intros Hall. unfold is_protocol_relative.
  destruct (String.prefix "//" v) eqn:H; [| reflexivity].
  exfalso. destruct v; simpl in H; [discriminate H |].
  simpl in Hall. apply andb_true_iff in Hall as [Hc Hall].
  apply prefix_cons in H as [<- _].
  apply host_or_port_char_not_slash' in Hc. discriminate.
Qed.

Lemma protocol_relative_inv v :
  is_protocol_relative v = true -> exists rest, v = "//" +:+ rest.
Proof.
  unfold is_protocol_relative. intros H.
  destruct v as [|c1 v]; [discriminate H |].
  apply prefix_cons in H as [<- H].
  destruct v as [|c2 v]; [discriminate H |].
  apply prefix_cons in H as [<- H]. exists v. reflexivity.
Qed.

Lemma all_chars_impl (p q : ascii -> bool) s :
  (forall c, p c = true -> q c = true) -> all_chars p s = true -> all_chars q s = true.
Proof.
  intros Hpq. induction s as [|c s IH]; simpl; [reflexivity |].
  intros H. apply andb_true_iff in H as [Hc H]. rewrite (Hpq _ Hc), (IH H). reflexivity.
Qed.

Lemma absolute_not_trivial v :
  is_absolute_http v = true -> is_empty_string v = false /\ String.eqb v "*" = false.
Proof.
  intros H. split.
  - destruct v; [discriminate H | reflexivity].
  - destruct (String.eqb_spec v "*") as [-> | _]; [discriminate H | reflexivity].
Qed.

Lemma prefix_nil s : String.prefix "" s = true.
Proof. destruct s; reflexivity. Qed.

Ltac solve_absolute :=
  unfold is_absolute_http; simpl; rewrite ?prefix_nil; reflexivity.

Lemma scheme_is_absolute scheme rest :
  lower scheme = "http" \/ lower scheme = "https" ->
  is_absolute_http (scheme +:+ "://" +:+ rest) = true.
Proof.
  intros H. unfold is_absolute_http. rewrite lower_app.
  destruct H as [-> | ->]; simpl; rewrite ?prefix_nil; reflexivity.
Qed.

(** The three tests of [normalizeOrigin] pick the form the input has, and
    the URL handed to the platform is an absolute [http(s)] URL. *)
Lemma normalizeOrigin_accepted URL_origin page raw abs :
  protocol page = "http:" \/ protocol page = "https:" ->
  accepted_form (protocol page) (trim raw) abs ->
  normalizeOrigin URL_origin page (VStr raw) = URL_origin abs /\
  is_absolute_http abs = true.
Proof.
  intros Hpage Hform. unfold normalizeOrigin.
  assert (is_empty_string (protocol page) = false) as Hpp
    by (destruct Hpage as [-> | ->]; reflexivity).
  rewrite Hpp.
  destruct Hform as [scheme rest Hs | rest | host Hne Hhost | host port Hne Hhost Hpne Hport].
  - pose proof (scheme_is_absolute scheme rest Hs) as Habs.
    destruct (absolute_not_trivial _ Habs) as [-> ->]. rewrite Habs. auto.
  - assert (is_absolute_http ("//" +:+ rest) = false) as -> by reflexivity.
    assert (is_protocol_relative ("//" +:+ rest) = true) as ->
      by (unfold is_protocol_relative; simpl; apply prefix_nil).
    split; [reflexivity |]. destruct Hpage as [-> | ->]; solve_absolute.
  - assert (all_chars host_or_port_char host = true) as Hall.
    { revert Hhost. apply all_chars_impl. intros c Hc. unfold host_or_port_char.
      rewrite Hc. reflexivity. }
    rewrite (is_empty_string_false _ Hne).
    rewrite (bare_not_absolute _ Hall), (bare_not_protocol_relative _ Hall).
    assert (String.eqb host "*" = false) as ->.
    { destruct (String.eqb_spec host "*") as [-> | _]; [discriminate Hhost | reflexivity]. }
    assert (is_host_port host = true) as ->.
    { unfold is_host_port. rewrite (span_all _ _ Hhost).
      rewrite (is_empty_string_false _ Hne). reflexivity. }
    split; [reflexivity |]. destruct Hpage as [-> | ->]; solve_absolute.
  - set (v := host +:+ ":" +:+ port).
    assert (all_chars host_or_port_char v = true) as Hall.
    { unfold v. rewrite all_chars_app. apply andb_true_iff. split.
      - revert Hhost. apply all_chars_impl. intros c Hc. unfold host_or_port_char.
        rewrite Hc. reflexivity.
      - change (all_chars host_or_port_char (String ":" port) = true).
        apply andb_true_iff. split; [reflexivity |].
        revert Hport. apply all_chars_impl. intros c Hc. unfold host_or_port_char.
        rewrite Hc. apply orb_true_r. }
    assert (is_empty_string v = false) as ->
      by (unfold v; destruct host; [congruence | reflexivity]).
    assert (String.eqb v "*" = false) as ->.
    { destruct (String.eqb_spec v "*") as [E | _]; [| reflexivity].
      rewrite E in Hall. discriminate Hall. }
    rewrite (bare_not_absolute _ Hall), (bare_not_protocol_relative _ Hall).
    assert (is_host_port v = true) as ->.
    { unfold is_host_port, v. change (":" +:+ port) with (String ":" port).
      rewrite (span_app _ _ _ _ Hhost) by reflexivity. simpl.
      rewrite (is_empty_string_false _ Hne), (is_empty_string_false _ Hpne), Hport.
      reflexivity. }
    split; [reflexivity |]. destruct Hpage as [-> | ->]; solve_absolute.
Qed.

(** Whatever the input, a usable result is a strict origin. *)
Lemma normalizeOrigin_strict URL_origin page v o :
  origin_contract URL_origin ->
  protocol page = "http:" \/ protocol page = "https:" ->
  normalizeOrigin URL_origin page v = Some o -> strict_origin o = true.
Proof.
  intros Hc Hpage. unfold normalizeOrigin. destruct v; try discriminate.
  destruct (is_empty_string (trim s)); [discriminate |].
  destruct (String.eqb (trim s) "*"); [discriminate |].
  assert (is_empty_string (protocol page) = false) as ->
    by (destruct Hpage as [-> | ->]; reflexivity).
  destruct (is_absolute_http (trim s)) eqn:Habs; [apply Hc, Habs |].
  destruct (is_protocol_relative (trim s)) eqn:Hrel.
  - apply Hc. apply protocol_relative_inv in Hrel as [rest ->].
    destruct Hpage as [-> | ->]; solve_absolute.
  - destruct (is_host_port (trim s)); [| discriminate].
    apply Hc. destruct Hpage as [-> | ->]; solve_absolute.
Qed.

(** The wildcard, a string in none of the three forms, a string the
    platform cannot parse and a non-string are all unusable. *)
Lemma normalizeOrigin_wildcard URL_origin page raw :
  trim raw = "*" -> normalizeOrigin URL_origin page (VStr raw) = None.
Proof. intros H. unfold normalizeOrigin. rewrite H. reflexivity. Qed.

Lemma normalizeOrigin_other URL_origin page raw :
  is_absolute_http (trim raw) = false ->
  is_protocol_relative (trim raw) = false ->
  is_host_port (trim raw) = false ->
  normalizeOrigin URL_origin page (VStr raw) = None.
Proof.
  intros H1 H2 H3. unfold normalizeOrigin. rewrite H1, H2, H3.
  destruct (is_empty_string _); [reflexivity |]. destruct (String.eqb _ _); reflexivity.
Qed.

Lemma normalizeOrigin_throws URL_origin page v :
  (forall url, URL_origin url = None) -> normalizeOrigin URL_origin page v = None.
Proof.
  intros H. unfold normalizeOrigin. destruct v; try reflexivity.
  repeat match goal with |- context [if ?b then _ else _] => destruct b end; auto.
Qed.

Lemma normalizeOrigin_not_string URL_origin page v :
  typeof v <> "string" -> normalizeOrigin URL_origin page v = None.
Proof. destruct v; simpl; congruence. Qed.

(** *** Callbacks stay where the initialization attached them *)

Lemma run_waiters_chains ws s : chains (foldl run_waiter s ws) = chains s.
Proof.
  revert s. induction ws as [|w ws IH]; intros s; simpl; [reflexivity |].
  rewrite IH. unfold run_waiter. rewrite mark_chains. destruct w.1; reflexivity.
Qed.

Lemma trigger_chains n p s : chains (trigger n p s) = chains s.
Proof.
  unfold trigger. destruct (String.eqb n "ready"); [| reflexivity].
  rewrite run_waiters_chains. reflexivity.
Qed.

Lemma set_chains' a0 a1 s : chains (set a0 a1 s) = chains s.
Proof. unfold set. destruct a0; reflexivity. Qed.

Lemma run_chain_chains c o s : chains (run_chain c o s) = chains s.
Proof.
  destruct c as [u], o as [|payload|err]; [reflexivity | |].
  - rewrite run_chain_resolved. unfold initialization_then.
    rewrite trigger_chains. simpl. unfold collectData_then. simpl.
    destruct (truthy _); [apply set_chains' | reflexivity].
  - rewrite run_chain_rejected. unfold initialization_fail.
    rewrite trigger_chains. reflexivity.
Qed.

Lemma settle_chains d o s : chains (settle d o s) = chains s.
Proof.
  unfold settle. destruct (deferreds s !! d) as [[]|]; auto.
  destruct (chains s !! d); rewrite ?run_chain_chains, mark_chains; reflexivity.
Qed.

Lemma resolve_chains d v s : chains (resolve d v s) = chains s.
Proof. unfold resolve. rewrite settle_chains. reflexivity. Qed.

Lemma reject_chains d v s : chains (reject d v s) = chains s.
Proof. unfold reject. rewrite settle_chains. reflexivity. Qed.

Lemma reject_next_deferred d v s : next_deferred (reject d v s) = next_deferred s.
Proof. apply (reject_registry d v s). Qed.

Lemma resolve_next_deferred d v s : next_deferred (resolve d v s) = next_deferred s.
Proof. apply (resolve_registry d v s). Qed.

Lemma clearPending_next_deferred v s :
  next_deferred (clearPending v s) = next_deferred s.
Proof. apply (clearPending_deferreds v s). Qed.

Lemma clearPending_chains v s : chains (clearPending v s) = chains s.
Proof. apply (clearPending_deferreds v s). Qed.

Lemma trigger_next_deferred n p s : next_deferred (trigger n p s) = next_deferred s.
Proof. apply (trigger_registry n p s). Qed.

Lemma set_next_deferred a0 a1 s : next_deferred (set a0 a1 s) = next_deferred s.
Proof. apply (set_registry a0 a1 s). Qed.

Lemma register_chains msgid name ms s :
  chains (register msgid name ms s).1 = chains s /\
  next_deferred (register msgid name ms s).1 = S (next_deferred s) /\
  (register msgid name ms s).2 = next_deferred s.
Proof. rewrite register_spec. destruct (is_finite_positive ms); auto. Qed.

Lemma sendMessageToTop_chains name payload options e thrown s :
  chains (sendMessageToTop name payload options e thrown s).1 = chains s /\
  next_deferred (sendMessageToTop name payload options e thrown s).1 = S (next_deferred s) /\
  (sendMessageToTop name payload options e thrown s).2 = next_deferred s.
Proof.
  unfold sendMessageToTop.
  destruct (negb (truthy (field (gadget s) "msghostOrigin"))).
  - cbn [fst snd new_deferred]. rewrite reject_chains, reject_next_deferred. auto.
  - destruct (register_chains (makeCallbackId e) name (request_timeout options s) s)
      as (H1 & H2 & H3).
    destruct (register _ _ _ s) as [s3 d]. cbn [fst snd] in *.
    destruct thrown as [exn|]; cbn [fst snd].
    + rewrite reject_chains, reject_next_deferred, clearPending_chains,
        clearPending_next_deferred. auto.
    + auto.
Qed.

Lemma parseMessageData_chains JSON_parse raw s :
  chains (parseMessageData JSON_parse raw s).1 = chains s /\
  next_deferred (parseMessageData JSON_parse raw s).1 = next_deferred s.
Proof.
  unfold parseMessageData. destruct raw; auto. destruct (JSON_parse s0); auto.
Qed.

Lemma messageHandler_chains JSON_parse event s :
  chains (messageHandler JSON_parse event s) = chains s /\
  next_deferred (messageHandler JSON_parse event s) = next_deferred s.
Proof.
  unfold messageHandler. destruct (negb (isTrustedEvent event s)); [auto |].
  destruct (parseMessageData_chains JSON_parse (data event) s) as [H1 H2].
  destruct (parseMessageData JSON_parse (data event) s) as [s1 message].
  cbn [fst] in *. rewrite <- H1, <- H2.
  destruct (negb (truthy message)); [auto |].
  destruct (truthy (get_prop message "callback")).
  - destruct (pending_get s1 (get_prop message "callback")); [| auto].
    rewrite resolve_chains, resolve_next_deferred, clearPending_chains,
      clearPending_next_deferred. auto.
  - destruct (get_prop message "name"); auto.
    destruct (negb (is_empty_string s0)); auto.
    rewrite trigger_chains, trigger_next_deferred. auto.
Qed.

Lemma timeout_chains t s :
  chains (timeout t s) = chains s /\ next_deferred (timeout t s) = next_deferred s.
Proof.
  unfold timeout. destruct (timers s !! t); [| auto].
  rewrite reject_chains, reject_next_deferred, clearPending_chains,
    clearPending_next_deferred. auto.
Qed.

Lemma ready_chains callback s :
  chains (ready callback s).1 = chains s /\
  next_deferred (ready callback s).1 = S (next_deferred s).
Proof.
  unfold ready. cbn [new_deferred gadget].
  destruct (truthy (field (gadget s) "isReady")); cbn [fst]; [| auto].
  rewrite resolve_chains, resolve_next_deferred. destruct callback; auto.
Qed.

Lemma step_chains JSON_parse s i :
  chains (step JSON_parse s i) = chains s /\
  next_deferred s <= next_deferred (step JSON_parse s i).
Proof.
  destruct i as [n payload options e thrown | event | t | arg0 arg1 | callback];
    cbn [step].
  - destruct (sendMessageToTop_chains n payload options e thrown s) as (-> & -> & _).
    auto.
  - destruct (messageHandler_chains JSON_parse event s) as [-> ->]. auto.
  - destruct (timeout_chains t s) as [-> ->]. auto.
  - rewrite set_chains', set_next_deferred. auto.
  - destruct (ready_chains callback s) as [-> ->]. auto.
Qed.

Lemma Fresh_step JSON_parse s i : Fresh s -> Fresh (step JSON_parse s i).
Proof.
  intros HF d Hd. destruct (step_chains JSON_parse s i) as [-> Hle]. apply HF. lia.
Qed.

Lemma Fresh_run JSON_parse inputs s : Fresh s -> Fresh (run JSON_parse s inputs).
Proof.
  revert s. induction inputs as [|i inputs IH]; intros s HF; simpl; [exact HF |].
  apply IH, Fresh_step, HF.
Qed.

Lemma attach_chains d c s d' :
  d' <> d -> chains (attach d c s) !! d' = chains s !! d'.
Proof.
  intros Hne. unfold attach. destruct (deferreds s !! d) as [[]|]; simpl;
    rewrite ?run_chain_chains; auto.
  apply lookup_insert_ne. congruence.
Qed.

Lemma attach_next_deferred d c s : next_deferred (attach d c s) = next_deferred s.
Proof.
  unfold attach. destruct (deferreds s !! d) as [[]|]; simpl; auto;
    match goal with |- context [run_chain ?c ?o ?s0] =>
      destruct (run_chain_registry c o s0) as (_ & _ & _ & ->) end; reflexivity.
Qed.

Lemma collectData_deferred URL_origin page e thrown s :
  (collectData URL_origin page e thrown s).1.2 = next_deferred s /\
  next_deferred (collectData URL_origin page e thrown s).1.1 = S (next_deferred s) /\
  chains (collectData URL_origin page e thrown s).1.1 = chains s /\
  (collectData URL_origin page e thrown s).2 = getUrlData page.
Proof.
  unfold collectData, getEnvironment.
  match goal with |- context [sendMessageToTop ?n ?p ?o e thrown ?s2] =>
    destruct (sendMessageToTop_chains n p o e thrown s2) as (H1 & H2 & H3);
    destruct (sendMessageToTop n p o e thrown s2) as [s3 d] end.
  cbn [fst snd] in *. rewrite H1, H2, H3. unfold set. auto.
Qed.

Lemma Fresh_initialize URL_origin page e thrown :
  Fresh (initialize URL_origin page e thrown).
Proof.
  unfold initialize.
  destruct (collectData_deferred URL_origin page e thrown initial) as (H1 & H2 & H3 & _).
  destruct (collectData URL_origin page e thrown initial) as [[s d] u]. simpl in *.
  intros d' Hd'. rewrite attach_next_deferred, H2 in Hd'.
  rewrite attach_chains by lia. rewrite H3. apply lookup_empty.
Qed.

Lemma Fresh_reachable JSON_parse URL_origin page e thrown inputs :
  Fresh (run JSON_parse (initialize URL_origin page e thrown) inputs).
Proof. apply Fresh_run, Fresh_initialize. Qed.

(** *** The initialization, step by step *)

Lemma getUrlData_not_number page k n : getUrlData page !! k <> Some (VNum n).
Proof.
  unfold getUrlData.
  set (data := <["name" := _]> _).
  assert (forall k n, data !! k <> Some (VNum n)) as Hbase.
  { intros k' n'. unfold data. rewrite lookup_insert. case_decide.
    - unfold at_minus_2. destruct (_ <? _); [discriminate |].
      destruct (_ !! _); discriminate.
    - rewrite lookup_insert. case_decide; [discriminate |].
      rewrite lookup_empty. discriminate. }
  clearbody data. revert data Hbase k n.
  induction (searchParams page) as [|kv l IH]; intros data Hbase k n; simpl; [apply Hbase |].
  apply IH. intros k' n'. rewrite lookup_insert. case_decide; [discriminate | apply Hbase].
Qed.

Ltac norm_state :=
  cbn [gadget pendingRequests timers next_timer deferreds next_deferred chains
       ready_waiters effects set_gadget set_pending set_timers set_deferreds
       set_chains set_waiters emit new_deferred setTimeout clearTimeout initial
       fst snd deferred timerId name].

Lemma request_timeout_at_start URL_origin page s :
  gadget s = environment_at_start URL_origin page ->
  request_timeout VUndef s = Fin 15000.
Proof.
  intros Hg. unfold request_timeout, field. simpl. rewrite Hg.
  unfold environment_at_start. rewrite lookup_insert_ne by discriminate.
  destruct (getUrlData page !! "requestTimeoutMs") as [[]|] eqn:E; try reflexivity.
  destruct (getUrlData_not_number _ _ _ E).
Qed.

(** With a usable origin and a transmission that does not throw, the
    script leaves one request pending, with its timer and its callbacks. *)
Lemma initialize_pending URL_origin page e :
  truthy (field (environment_at_start URL_origin page) "msghostOrigin") = true ->
  initialize URL_origin page e None =
  State (environment_at_start URL_origin page)
    {[ makeCallbackId e := Entry 0 (Some 1) "get-environment" ]}
    {[ 1 := TimeoutClosure (makeCallbackId e) 0 "get-environment" (Fin 15000) ]} 2
    {[ 0 := Pending ]} 1
    {[ 0 := Initialization (getUrlData page) ]} []
    [ EPostMessage
        (envelope "get-environment" VUndef (makeCallbackId e)
           (set_gadget (environment_at_start URL_origin page) initial))
        (field (environment_at_start URL_origin page) "msghostOrigin") ].
Proof.
  intros Hok. unfold initialize, collectData, getEnvironment, sendMessageToTop.
  cbn [set set_gadget gadget initial].
  rewrite (right_id_L ∅ (∪)).
  change (<["msghostOrigin" := _]> (getUrlData page))
    with (environment_at_start URL_origin page).
  rewrite Hok. cbn [negb].
  rewrite (request_timeout_at_start URL_origin page) by reflexivity.
  rewrite register_spec. reflexivity.
Qed.

(** Without a usable origin the request is rejected at once and the [fail]
    callback runs. *)
Lemma initialize_missing URL_origin page e thrown :
  truthy (field (environment_at_start URL_origin page) "msghostOrigin") = false ->
  initialize URL_origin page e thrown =
  State (<["isReady" := VBool true]> (environment_at_start URL_origin page))
    ∅ ∅ 1 {[ 0 := Rejected (missing_msghost "get-environment") ]} 1 ∅ []
    [ EReject 0 (missing_msghost "get-environment");
      EWarn (ready_banner (set_gadget (environment_at_start URL_origin page) initial)
               +:+ " host env unavailable; continuing without env.")
            [missing_msghost "get-environment"];
      ETrigger "ready" VUndef ].
Proof.
  intros Hno. unfold initialize, collectData, getEnvironment, sendMessageToTop.
  cbn [set set_gadget gadget initial].
  rewrite (right_id_L ∅ (∪)).
  change (<["msghostOrigin" := _]> (getUrlData page))
    with (environment_at_start URL_origin page).
  rewrite Hno. cbn [negb]. reflexivity.
Qed.

(** When the transmission throws, the request is cleaned up and rejected
    with what was thrown, and the [fail] callback runs. *)
Lemma initialize_thrown URL_origin page e exn :
  truthy (field (environment_at_start URL_origin page) "msghostOrigin") = true ->
  initialize URL_origin page e (Some exn) =
  State (<["isReady" := VBool true]> (environment_at_start URL_origin page))
    ∅ ∅ 2 {[ 0 := Rejected exn ]} 1 ∅ []
    [ EReject 0 exn;
      EWarn (ready_banner (set_gadget (environment_at_start URL_origin page) initial)
               +:+ " host env unavailable; continuing without env.")
            [exn];
      ETrigger "ready" VUndef ].
Proof.
  intros Hok. unfold initialize, collectData, getEnvironment, sendMessageToTop.
  cbn [set set_gadget gadget initial].
  rewrite (right_id_L ∅ (∪)).
  change (<["msghostOrigin" := _]> (getUrlData page))
    with (environment_at_start URL_origin page).
  rewrite Hok. cbn [negb].
  rewrite (request_timeout_at_start URL_origin page) by reflexivity.
  rewrite register_spec. cbn [is_finite_positive Z.ltb Z.compare]. norm_state.
  unfold clearPending, pending_get. norm_state.
  rewrite lookup_insert_eq. norm_state.
  rewrite !delete_insert_eq, !delete_empty.
  unfold reject, settle. norm_state.
  rewrite lookup_insert_eq, lookup_empty.
  unfold mark. norm_state. rewrite lookup_insert_eq. norm_state.
  unfold attach. norm_state. rewrite insert_insert_eq, lookup_insert_eq.
  reflexivity.
Qed.

(** *** Readiness *)

Lemma mark_settled d' o' d o s :
  deferreds s !! d = Some o -> o <> Pending -> deferreds (mark d' o' s) !! d = Some o.
Proof.
  intros Hd Ho. unfold mark. destruct (deferreds s !! d') as [[]|] eqn:E; auto.
  simpl. rewrite lookup_insert_ne; [exact Hd |]. intros ->. congruence.
Qed.

Lemma mark_pending d o s :
  deferreds s !! d = Some Pending -> deferreds (mark d o s) !! d = Some o.
Proof. intros Hd. unfold mark. rewrite Hd. simpl. apply lookup_insert_eq. Qed.

Lemma run_waiters_settled ws d o s :
  deferreds s !! d = Some o -> o <> Pending ->
  deferreds (foldl run_waiter s ws) !! d = Some o.
Proof.
  revert s. induction ws as [|w ws IH]; intros s Hd Ho; simpl; [exact Hd |].
  apply IH; [| exact Ho]. unfold run_waiter. apply mark_settled; [| exact Ho].
  destruct w.1; exact Hd.
Qed.

Lemma trigger_ready_spec p s :
  gadget (trigger "ready" p s) = gadget s /\
  ready_triggers (effects (trigger "ready" p s)) = S (ready_triggers (effects s)) /\
  ready_waiters (trigger "ready" p s) = [] /\
  (forall cb w, (Some cb, w) ∈ ready_waiters s -> In (ERun cb) (effects (trigger "ready" p s))) /\
  (forall d o, deferreds s !! d = Some o -> o <> Pending ->
     deferreds (trigger "ready" p s) !! d = Some o).
Proof.
  split; [apply trigger_gadget |]. split; [apply trigger_ready_triggers |].
  unfold trigger. simpl. split; [apply run_waiters_waiters |]. split.
  - intros cb w Hw. apply run_waiters_run with (d := w). exact Hw.
  - intros d o Hd Ho. apply run_waiters_settled; assumption.
Qed.

Lemma set_deferreds' a0 a1 s : deferreds (set a0 a1 s) = deferreds s.
Proof. unfold set. destruct a0; reflexivity. Qed.

Lemma collectData_then_deferreds u data s :
  deferreds (collectData_then u data s).1 = deferreds s.
Proof.
  unfold collectData_then. cbn [fst]. destruct (truthy data); [apply set_deferreds' | reflexivity].
Qed.

(** Whichever way the environment request ends, the page becomes ready:
    the flag is set, one [ready] event is emitted, and every handler waiting
    in [gadget.ready] runs. *)
Lemma settle_initialization d u o s :
  deferreds s !! d = Some Pending ->
  chains s !! d = Some (Initialization u) ->
  o <> Pending ->
  field (gadget (settle d o s)) "isReady" = VBool true /\
  ready_triggers (effects (settle d o s)) = S (ready_triggers (effects s)) /\
  ready_waiters (settle d o s) = [] /\
  (forall cb w, (Some cb, w) ∈ ready_waiters s -> In (ERun cb) (effects (settle d o s))) /\
  deferreds (settle d o s) !! d = Some o.
Proof.
  intros Hd Hc Ho. unfold settle. rewrite Hd, Hc.
  pose proof (mark_pending d o s Hd) as Hm.
  destruct o as [|payload|err]; [congruence | |].
  - rewrite run_chain_resolved. unfold initialization_then.
    set (r := collectData_then u (getEnvironment_then payload) (mark d (Resolved payload) s)).
    match goal with |- context [trigger "ready" ?p ?s0] =>
      destruct (trigger_ready_spec p s0) as (Hg & Ht & Hw & Hr & Hs) end.
    rewrite Hg, Ht, Hw. norm_state. unfold field. rewrite lookup_insert_eq.
    rewrite ready_triggers_app.
    unfold r. rewrite collectData_then_effects, mark_effects. simpl.
    split; [reflexivity |]. split; [lia |]. split; [reflexivity |]. split.
    + intros cb w Hin. apply (Hr cb w). norm_state.
      unfold r. rewrite collectData_then_waiters, mark_waiters. exact Hin.
    + apply Hs; [| discriminate]. norm_state.
      unfold r. rewrite collectData_then_deferreds. exact Hm.
  - rewrite run_chain_rejected. unfold initialization_fail.
    match goal with |- context [trigger "ready" ?p ?s0] =>
      destruct (trigger_ready_spec p s0) as (Hg & Ht & Hw & Hr & Hs) end.
    rewrite Hg, Ht, Hw. norm_state. unfold field. rewrite lookup_insert_eq.
    rewrite ready_triggers_app. simpl. rewrite mark_effects.
    split; [reflexivity |]. split; [lia |]. split; [reflexivity |]. split.
    + intros cb w Hin. apply (Hr cb w). norm_state. rewrite mark_waiters. exact Hin.
    + apply Hs; [| discriminate]. norm_state. exact Hm.
Qed.

Lemma reject_initialization d u reason s :
  deferreds s !! d = Some Pending ->
  chains s !! d = Some (Initialization u) ->
  field (gadget (reject d reason s)) "isReady" = VBool true /\
  ready_triggers (effects (reject d reason s)) = S (ready_triggers (effects s)) /\
  (forall cb w, (Some cb, w) ∈ ready_waiters s ->
     In (ERun cb) (effects (reject d reason s))) /\
  deferreds (reject d reason s) !! d = Some (Rejected reason).
Proof.
  intros Hd Hc. unfold reject.
  destruct (settle_initialization d u (Rejected reason) (emit (EReject d reason) s)
              Hd Hc ltac:(discriminate)) as (H1 & H2 & _ & H4 & H5).
  rewrite H1, H2. norm_state. rewrite ready_triggers_app. simpl.
  repeat split; auto; lia.
Qed.

Lemma resolve_initialization d u payload s :
  deferreds s !! d = Some Pending ->
  chains s !! d = Some (Initialization u) ->
  field (gadget (resolve d payload s)) "isReady" = VBool true /\
  ready_triggers (effects (resolve d payload s)) = S (ready_triggers (effects s)) /\
  (forall cb w, (Some cb, w) ∈ ready_waiters s ->
     In (ERun cb) (effects (resolve d payload s))) /\
  deferreds (resolve d payload s) !! d = Some (Resolved payload).
Proof.
  intros Hd Hc. unfold resolve.
  destruct (settle_initialization d u (Resolved payload) (emit (EResolve d payload) s)
              Hd Hc ltac:(discriminate)) as (H1 & H2 & _ & H4 & H5).
  rewrite H1, H2. norm_state. rewrite ready_triggers_app. simpl.
  repeat split; auto; lia.
Qed.

Lemma callback_is_object message k :
  get_prop message "callback" = VStr k -> truthy message = true.
Proof. destruct message; simpl; try discriminate. reflexivity. Qed.

Lemma truthy_nonempty k : k <> "" -> truthy (VStr k) = true.
Proof. destruct k; [congruence | reflexivity]. Qed.

(** *** Trust *)

Lemma untrusted event s :
  origin event <> field (gadget s) "msghostOrigin" \/ source event <> Top ->
  isTrustedEvent event s = false.
Proof.
  intros H. unfold isTrustedEvent.
  destruct (source event); try reflexivity.
  destruct (origin event) eqn:Ho; try reflexivity.
  destruct (str_strict_eq s0 _) eqn:E; [| reflexivity].
  apply JSFacts.str_strict_eq_true in E. destruct H as [H | H]; congruence.
Qed.

Lemma initialize_msghostOrigin URL_origin page e thrown :
  field (gadget (initialize URL_origin page e thrown)) "msghostOrigin"
  = origin_value (normalizeOrigin URL_origin page (field (getUrlData page) "msghost")).
Proof.
  assert (field (environment_at_start URL_origin page) "msghostOrigin"
          = origin_value (normalizeOrigin URL_origin page (field (getUrlData page) "msghost")))
    as Henv by (unfold environment_at_start, field; rewrite lookup_insert_eq; reflexivity).
  destruct (truthy (field (environment_at_start URL_origin page) "msghostOrigin")) eqn:Hok.
  - destruct thrown as [exn|].
    + rewrite (initialize_thrown _ _ _ _ Hok). norm_state. rewrite <- Henv.
      unfold field. rewrite lookup_insert_ne by discriminate. reflexivity.
    + rewrite (initialize_pending _ _ _ Hok). exact Henv.
  - rewrite (initialize_missing _ _ _ _ Hok). norm_state. rewrite <- Henv.
    unfold field. rewrite lookup_insert_ne by discriminate. reflexivity.
Qed.

(** *** Sending without a usable origin *)

Lemma sendMessageToTop_missing name payload options e thrown s :
  Fresh s ->
  truthy (field (gadget s) "msghostOrigin") = false ->
  sendMessageToTop name payload options e thrown s =
  (State (gadget s) (pendingRequests s) (timers s) (next_timer s)
     (<[next_deferred s := Rejected (missing_msghost name)]>
        (<[next_deferred s := Pending]> (deferreds s)))
     (S (next_deferred s)) (chains s) (ready_waiters s)
     (effects s ++ [EReject (next_deferred s) (missing_msghost name)]),
   next_deferred s).
Proof.
  intros HF Hno. unfold sendMessageToTop. rewrite Hno. cbn [negb]. norm_state.
  unfold reject, settle. norm_state.
  rewrite lookup_insert_eq, (HF (next_deferred s)) by lia.
  unfold mark. norm_state. rewrite lookup_insert_eq. reflexivity.
Qed.

(** The stand-in origin function honours the platform's contract. *)
Lemma url_origin_model_contract : origin_contract Scenario.url_origin_model.
Proof.
  intros url o _. unfold Scenario.url_origin_model.
  set (l := lower url).
  destruct (String.prefix "http://" l).
  - set (a := (span no_path_char (drop_chars 7 l)).1).
    assert (all_chars no_path_char a = true) as Hall by apply span_fst_all.
    clearbody a. destruct (is_empty_string a) eqn:Ha; [discriminate |].
    intros [= <-]. unfold strict_origin. apply orb_true_iff. left.
    simpl. rewrite prefix_nil. unfold is_authority. change ("" +:+ a) with a.
    rewrite Ha, Hall. reflexivity.
  - destruct (String.prefix "https://" l); [| discriminate].
    set (a := (span no_path_char (drop_chars 8 l)).1).
    assert (all_chars no_path_char a = true) as Hall by apply span_fst_all.
    clearbody a. destruct (is_empty_string a) eqn:Ha; [discriminate |].
    intros [= <-]. unfold strict_origin. apply orb_true_iff. right.
    simpl. rewrite prefix_nil. unfold is_authority. change ("" +:+ a) with a.
    rewrite Ha, Hall. reflexivity.
Qed.

(** *** The Environment *)

Lemma resolve_initialization_gadget d u payload s :
  deferreds s !! d = Some Pending ->
  chains s !! d = Some (Initialization u) ->
  gadget (resolve d payload s)
  = <["isReady" := VBool true]>
      (gadget (collectData_then u (getEnvironment_then payload) s).1) /\
  exists banner,
    In (ELog banner [VObj (collectData_then u (getEnvironment_then payload) s).2])
       (effects (resolve d payload s)).
Proof.
  intros Hd Hc. unfold resolve, settle. norm_state. rewrite Hd, Hc.
  rewrite run_chain_resolved. unfold initialization_then. split.
  - rewrite trigger_gadget. norm_state. f_equal.
    unfold collectData_then. cbn [fst]. destruct (truthy _).
    + unfold set. destruct (getEnvironment_then payload); norm_state;
        rewrite ?mark_gadget; reflexivity.
    + rewrite mark_gadget. reflexivity.
  - eexists. apply trigger_keeps. norm_state. apply in_or_app. right. left.
    unfold collectData_then. cbn [snd]. reflexivity.
Qed.

(** *** At most one settlement *)

Lemma not_waiter_of_entry s k en :
  Inv s -> pendingRequests s !! k = Some en -> deferred en ∉ (ready_waiters s).*2.
Proof.
  intros HI Hk Hw. destruct (inv_waiter_sep _ HI _ Hw) as [H _].
  apply H. exists k, en. auto.
Qed.

Lemma not_waiter_of_timer s t c :
  Inv s -> timers s !! t = Some c -> c_deferred c ∉ (ready_waiters s).*2.
Proof.
  intros HI Ht Hw. destruct (inv_waiter_sep _ HI _ Hw) as [_ H].
  apply H. exists t, c. auto.
Qed.

(** A trusted response resolves the request it names, once, and removes
    it from the registry. *)
Lemma response_resolves JSON_parse event message k en s :
  Inv s ->
  pendingRequests s !! k = Some en ->
  isTrustedEvent event s = true ->
  parseMessageData JSON_parse (data event) s = (s, message) ->
  get_prop message "callback" = VStr k -> k <> "" ->
  calls_on (deferred en) (effects (messageHandler JSON_parse event s)) = 1 /\
  In (EResolve (deferred en) (get_prop message "payload"))
     (effects (messageHandler JSON_parse event s)) /\
  pendingRequests (messageHandler JSON_parse event s) !! k = None /\
  (forall t c, timers (messageHandler JSON_parse event s) !! t = Some c ->
     c_deferred c <> deferred en).
Proof.
  intros HI Hk Htrust Hparse Hcb Hne.
  unfold messageHandler. rewrite Htrust, Hparse. cbn [negb].
  rewrite (callback_is_object _ _ Hcb), Hcb, (truthy_nonempty _ Hne). cbn [negb].
  unfold pending_get. rewrite Hk.
  destruct (inv_held _ HI (deferred en)) as [Hz _]; [left; exists k, en; auto |].
  destruct (resolve_registry (deferred en) (get_prop message "payload")
              (clearPending (VStr k) s)) as (Hp & Ht & _).
  split; [| split; [| split]].
  - rewrite resolve_calls, clearPending_effects, Hz, Nat.eqb_refl; [reflexivity |].
    rewrite clearPending_waiters. eapply not_waiter_of_entry; eauto.
  - apply resolve_emits.
  - rewrite Hp, clearPending_pending. apply lookup_delete_eq.
  - intros t c Htc Hd. rewrite Ht in Htc.
    destruct (clearPending_closes k en s HI Hk) as (Hnh & _).
    apply Hnh. right; left. exists t, c. auto.
Qed.

(** An expiring timer rejects its request, once, and removes it from the
    registry. *)
Lemma timeout_rejects t c s :
  Inv s -> timers s !! t = Some c ->
  calls_on (c_deferred c) (effects (timeout t s)) = 1 /\
  In (EReject (c_deferred c) (timed_out c)) (effects (timeout t s)) /\
  pendingRequests (timeout t s) !! c_msgid c = None /\
  timers (timeout t s) !! t = None.
Proof.
  intros HI Ht. unfold timeout. rewrite Ht.
  destruct (inv_held _ HI (c_deferred c)) as [Hz _]; [right; left; exists t, c; auto |].
  set (s1 := clearPending _ _).
  destruct (reject_registry (c_deferred c) (timed_out c) s1) as (Hp & Htm & _).
  split; [| split; [| split]].
  - rewrite reject_calls; unfold s1.
    + rewrite clearPending_effects. norm_state. rewrite Hz, Nat.eqb_refl. reflexivity.
    + rewrite clearPending_waiters. norm_state. eapply not_waiter_of_timer; eauto.
  - apply reject_emits.
  - rewrite Hp. unfold s1. rewrite clearPending_pending. apply lookup_delete_eq.
  - rewrite Htm.
    pose proof (clearPending_timers_subseteq (VStr (c_msgid c))
                  (set_timers (delete t (timers s)) s)) as Hsub.
    fold s1 in Hsub.
    destruct (timers s1 !! t) eqn:E; [| reflexivity].
    eapply lookup_weaken in E; [| exact Hsub].
    cbn [timers set_timers] in E. rewrite lookup_delete_eq in E. discriminate.
Qed.

(** A response whose callback is not in the registry changes nothing. *)
Lemma late_response_ignored JSON_parse event message k s :
  pendingRequests s !! k = None ->
  parseMessageData JSON_parse (data event) s = (s, message) ->
  get_prop message "callback" = VStr k -> k <> "" ->
  messageHandler JSON_parse event s = s.
Proof.
  intros Hk Hparse Hcb Hne. unfold messageHandler.
  destruct (negb (isTrustedEvent event s)); [reflexivity |].
  rewrite Hparse, (callback_is_object _ _ Hcb), Hcb, (truthy_nonempty _ Hne). cbn [negb].
  unfold pending_get. rewrite Hk. reflexivity.
Qed.

(** What has happened to a request when [sendMessageToTop] returns. *)
Lemma send_outcome name payload options e thrown s :
  Inv s ->
  let r := sendMessageToTop name payload options e thrown s in
  (calls_on r.2 (effects r.1) = 1 /\
   (truthy (field (gadget s) "msghostOrigin") = false \/ thrown <> None))
  \/
  (calls_on r.2 (effects r.1) = 0 /\
   exists tid, pendingRequests r.1 !! makeCallbackId e = Some (Entry r.2 tid name) /\
     (is_finite_positive (request_timeout options s) = true ->
      exists t, tid = Some t /\
        timers r.1 !! t
        = Some (TimeoutClosure (makeCallbackId e) r.2 name (request_timeout options s)))).
Proof.
  intros HI r. subst r. unfold sendMessageToTop.
  pose proof (inv_fresh _ HI (next_deferred s) (Nat.le_refl _)) as Hz.
  assert (next_deferred s ∉ (ready_waiters s).*2) as Hnw.
  { intros Hw. apply (fresh_not_held s (next_deferred s) HI); [lia |]. right. right. exact Hw. }
  destruct (truthy (field (gadget s) "msghostOrigin")); cbn [negb].
  - destruct (register_entry (makeCallbackId e) name (request_timeout options s) s)
      as (tid & Hentry & Hd & Hoff & Hon).
    pose proof (register_spec (makeCallbackId e) name (request_timeout options s) s) as Hspec.
    destruct (register _ _ _ s) as [s3 d]. cbn [fst snd] in *. subst d.
    assert (effects s3 = effects s /\ ready_waiters s3 = ready_waiters s) as [He Hw].
    { injection Hspec as ->. destruct (is_finite_positive _); auto. }
    destruct thrown as [exn|]; cbn [fst snd].
    + left. split; [| right; discriminate].
      rewrite reject_calls, clearPending_effects, He, Hz, Nat.eqb_refl; [reflexivity |].
      rewrite clearPending_waiters, Hw. exact Hnw.
    + right. norm_state. rewrite calls_on_snoc, He, Hz. split; [reflexivity |].
      exists tid. split; [exact Hentry |]. intros Hfp.
      destruct (Hon Hfp) as [-> Ht]. eauto.
  - left. norm_state. split; [| left; reflexivity].
    rewrite reject_calls; norm_state; [rewrite Hz, Nat.eqb_refl; reflexivity | exact Hnw].
Qed.

(** *** A request nobody answers *)

Lemma unanswered_settle_other d d' o e s :
  is_call_on d e = false -> d ∉ (ready_waiters s).*2 ->
  calls_on d (effects (settle d' o (emit e s))) = calls_on d (effects s) /\
  (d ∈ (ready_waiters (settle d' o (emit e s))).*2 -> d ∈ (ready_waiters s).*2).
Proof.
  intros He Hw. split.
  - rewrite settle_calls by exact Hw. cbn [effects emit]. rewrite calls_on_snoc, He. lia.
  - destruct (settle_waiters d' o (emit e s)) as [-> | ->]; [auto |].
    intros H. apply elem_of_nil in H. destruct H.
Qed.

Lemma unanswered_step JSON_parse d s i :
  host_silent i = true -> unanswered d s -> unanswered d (step JSON_parse s i).
Proof.
  intros Hsilent (Hz & Hlt & Hnt & Hnw).
  destruct i as [n payload options e thrown | event | t | arg0 arg1 | callback];
    cbn [step].
  - assert (Nat.eqb d (next_deferred s) = false) as Hne by (apply Nat.eqb_neq; lia).
    unfold sendMessageToTop.
    destruct (negb (truthy (field (gadget s) "msghostOrigin"))); cbn [fst].
    + norm_state. unfold reject.
      match goal with |- context [settle ?d0 ?o (emit ?e0 ?s0)] =>
        destruct (unanswered_settle_other d d0 o e0 s0 Hne Hnw) as [Hc Hw'];
        destruct (settle_registry d0 o (emit e0 s0)) as (_ & Ht & _ & Hn)
      end.
      split; [| split; [| split]].
      * rewrite Hc. exact Hz.
      * rewrite Hn. norm_state. lia.
      * rewrite Ht. exact Hnt.
      * intros H. exact (Hnw (Hw' H)).
    + pose proof (register_spec (makeCallbackId e) n (request_timeout options s) s) as Hspec.
      destruct (register (makeCallbackId e) n (request_timeout options s) s) as [s3 d3].
      assert (d3 = next_deferred s /\ effects s3 = effects s /\
              ready_waiters s3 = ready_waiters s /\
              next_deferred s3 = S (next_deferred s) /\
              (forall t c, timers s3 !! t = Some c -> c_deferred c <> d))
        as (-> & He & Hw3 & Hn3 & Ht3).
      { injection Hspec as -> ->. destruct (is_finite_positive _); norm_state;
          repeat split; auto.
        intros t c Ht. apply lookup_insert_Some in Ht as [[_ <-] | [_ Ht]];
          [cbn [c_deferred]; lia | eauto]. }
      destruct thrown as [exn|]; cbn [fst].
      * unfold reject.
        set (s4 := clearPending (VStr (makeCallbackId e)) s3).
        assert (d ∉ (ready_waiters s4).*2) as Hnw4
          by (unfold s4; rewrite clearPending_waiters, Hw3; exact Hnw).
        destruct (unanswered_settle_other d (next_deferred s) (Rejected exn)
                    (EReject (next_deferred s) exn) s4 Hne Hnw4) as [Hc Hw'].
        destruct (settle_registry (next_deferred s) (Rejected exn)
                    (emit (EReject (next_deferred s) exn) s4)) as (_ & Ht & _ & Hn).
        split; [| split; [| split]].
        -- rewrite Hc. unfold s4. rewrite clearPending_effects, He. exact Hz.
        -- rewrite Hn. norm_state. unfold s4. rewrite clearPending_next_deferred, Hn3. lia.
        -- rewrite Ht. norm_state. intros t c Htc. apply (Ht3 t c).
           eapply lookup_weaken; [exact Htc | apply clearPending_timers_subseteq].
        -- intros H. exact (Hnw4 (Hw' H)).
      * split; [| split; [| split]]; norm_state.
        -- rewrite calls_on_snoc, He. cbn [is_call_on]. lia.
        -- lia.
        -- exact Ht3.
        -- rewrite Hw3. exact Hnw.
  - cbn [host_silent] in Hsilent. unfold messageHandler, isTrustedEvent.
    destruct (source event); [discriminate | |]; repeat split; auto.
  - unfold timeout. destruct (timers s !! t) as [c|] eqn:Et; [| repeat split; auto].
    assert (Nat.eqb d (c_deferred c) = false) as Hne
      by (apply Nat.eqb_neq; intros ->; exact (Hnt t c Et eq_refl)).
    unfold reject.
    set (s1 := clearPending (VStr (c_msgid c)) (set_timers (delete t (timers s)) s)).
    assert (d ∉ (ready_waiters s1).*2) as Hnw1
      by (unfold s1; rewrite clearPending_waiters; exact Hnw).
    destruct (unanswered_settle_other d (c_deferred c) (Rejected (timed_out c))
                (EReject (c_deferred c) (timed_out c)) s1 Hne Hnw1) as [Hc Hw'].
    destruct (settle_registry (c_deferred c) (Rejected (timed_out c))
                (emit (EReject (c_deferred c) (timed_out c)) s1)) as (_ & Ht & _ & Hn).
    split; [| split; [| split]].
    + rewrite Hc. unfold s1. rewrite clearPending_effects. exact Hz.
    + rewrite Hn. norm_state. unfold s1. rewrite clearPending_next_deferred. exact Hlt.
    + rewrite Ht. norm_state. intros t' c' Htc. apply (Hnt t' c').
      eapply lookup_weaken; [exact Htc |].
      etransitivity; [apply clearPending_timers_subseteq | apply delete_subseteq].
    + intros H. exact (Hnw1 (Hw' H)).
  - destruct (set_registry arg0 arg1 s) as (_ & Ht & _ & Hn).
    split; [| split; [| split]].
    + rewrite set_effects. exact Hz.
    + rewrite Hn. exact Hlt.
    + rewrite Ht. exact Hnt.
    + rewrite set_waiters'. exact Hnw.
  - assert (Nat.eqb d (next_deferred s) = false) as Hne by (apply Nat.eqb_neq; lia).
    unfold ready. norm_state.
    destruct (truthy (field (gadget s) "isReady")); cbn [fst].
    + unfold resolve.
      match goal with |- context [settle _ _ (emit _ ?s0)] => set (s1 := s0) end.
      assert (calls_on d (effects s1) = 0 /\ ready_waiters s1 = ready_waiters s /\
              timers s1 = timers s /\ next_deferred s1 = S (next_deferred s))
        as (Hz1 & Hw1 & Ht1 & Hn1).
      { unfold s1. destruct callback; norm_state; repeat split; auto.
        rewrite calls_on_snoc. cbn [is_call_on]. lia. }
      assert (d ∉ (ready_waiters s1).*2) as Hnw1 by (rewrite Hw1; exact Hnw).
      destruct (unanswered_settle_other d (next_deferred s) (Resolved VUndef)
                  (EResolve (next_deferred s) VUndef) s1 Hne Hnw1) as [Hc Hw'].
      destruct (settle_registry (next_deferred s) (Resolved VUndef)
                  (emit (EResolve (next_deferred s) VUndef) s1)) as (_ & Ht & _ & Hn).
      split; [| split; [| split]].
      * rewrite Hc. exact Hz1.
      * rewrite Hn. norm_state. lia.
      * rewrite Ht. norm_state. rewrite Ht1. exact Hnt.
      * intros H. exact (Hnw1 (Hw' H)).
    + split; [| split; [| split]]; norm_state; auto.
      rewrite fmap_app. intros H. apply elem_of_app in H as [H | H]; [exact (Hnw H) |].
      apply list_elem_of_singleton in H. cbn in H. lia.
Qed.

(** While the host is silent, a request that has no timer stays unsettled. *)
Lemma unanswered_run JSON_parse d inputs s :
  forallb host_silent inputs = true -> unanswered d s ->
  unanswered d (run JSON_parse s inputs).
Proof.
  revert s. induction inputs as [|i inputs IH]; intros s Hs Hu; [exact Hu |].
  simpl in Hs. apply andb_true_iff in Hs as [Hi Hs].
  apply IH; [exact Hs |]. apply unanswered_step; assumption.
Qed.

(** A request sent with its timer disabled has nothing but the host's
    answer to settle it. *)
Lemma send_unanswered name payload options e s :
  Inv s ->
  truthy (field (gadget s) "msghostOrigin") = true ->
  is_finite_positive (request_timeout options s) = false ->
  unanswered (sendMessageToTop name payload options e None s).2
             (sendMessageToTop name payload options e None s).1.
Proof.
  intros HI Hok Hoff. unfold sendMessageToTop. rewrite Hok. cbn [negb].
  rewrite register_spec, Hoff. norm_state.
  split; [| split; [| split]]; norm_state.
  - rewrite calls_on_snoc. cbn [is_call_on].
    rewrite (inv_fresh _ HI (next_deferred s)); auto.
  - lia.
  - intros t c Ht.
    assert (c_deferred c < next_deferred s); [| lia].
    apply (held_lt s _ HI). right; left. exists t, c. auto.
  - intros H. apply (fresh_not_held s (next_deferred s) HI); [lia |]. right; right. exact H.
Qed.

End BridgeProofs.
(** ** The host bridge with one listener per request *)
Module LibProofs.
Import Bridge BridgeProofs Lib.

#[local] Open Scope nat_scope.

Ltac norm_lib := cbn [core closures listeners on_core]; norm_state.

Ltac norm_pair :=
  cbn [core closures listeners on_core gadget pendingRequests timers next_timer
       deferreds next_deferred chains ready_waiters effects fst snd].

Ltac norm_lib_in H :=
  cbn [core closures listeners on_core gadget pendingRequests timers next_timer
       deferreds next_deferred chains ready_waiters effects set_gadget set_pending
       set_timers set_deferreds set_chains set_waiters emit new_deferred setTimeout
       clearTimeout fst snd] in H.

(** *** The invariant is preserved by every operation *)

Lemma Inv_setTimeout c s :
  pendingRequests s = ∅ ->
  ~ held s (c_deferred c) -> calls_on (c_deferred c) (effects s) = 0 ->
  c_deferred c < next_deferred s ->
  Bridge.Inv s -> Bridge.Inv (setTimeout c s).1.
Proof.
  intros Hp Hh Hz Hlt [].
  split; norm_state; try assumption.
  - intros d [H | [(t & c' & Ht & Hd) | H]].
    + apply inv_held0. left. exact H.
    + cbn [timers setTimeout fst] in Ht. apply lookup_insert_Some in Ht as [[<- <-] | [Hne Ht]].
      * subst d. auto.
      * apply inv_held0. right; left. exists t, c'. auto.
    + apply inv_held0. right; right. exact H.
  - intros t c' Ht. apply lookup_insert_Some in Ht as [[<- <-] | [Hne Ht]]; [lia |].
    destruct (inv_timer_id0 t c' Ht). lia.
  - lia.
  - intros m en t c' Hm. rewrite Hp, lookup_empty in Hm. discriminate.
  - intros t t' c1 c2 H1 H2 Heq.
    apply lookup_insert_Some in H1 as [[<- <-] | [Hn1 H1]];
      apply lookup_insert_Some in H2 as [[<- <-] | [Hn2 H2]]; auto.
    + exfalso. apply Hh. right; left. exists t', c2. auto.
    + exfalso. apply Hh. right; left. exists t, c1. auto.
    + eapply inv_timer_inj0; eauto.
  - intros d H. destruct (inv_waiter_sep0 d H) as [H1 H2]. split; [exact H1 |].
    intros (t & c' & Ht & Hd). cbn [timers setTimeout fst] in Ht.
    apply lookup_insert_Some in Ht as [[<- <-] | [Hne Ht]].
    + apply Hh. subst d. right; right. exact H.
    + apply H2. exists t, c'. auto.
Qed.

(** A change of the page that leaves the timers, or removes some, and
    calls nothing on a Deferred that is still listened for. *)
Lemma lib_Inv_frame c' s :
  Inv s -> Bridge.Inv c' ->
  pendingRequests c' = ∅ ->
  timers c' ⊆ timers (core s) ->
  next_deferred (core s) <= next_deferred c' ->
  (forall d, d ∈ (ready_waiters c').*2 ->
     d ∈ (ready_waiters (core s)).*2 \/ next_deferred (core s) <= d) ->
  (forall d, PerRequest d ∈ listeners s -> calls_on d (effects c') = 0) ->
  Inv (State c' (closures s) (listeners s)).
Proof.
  intros [] HI Hp Ht Hn Hw Hc. split; norm_lib; auto.
  - intros d Hd. split; [auto |]. apply inv_listener0, Hd.
  - intros d r Hr. destruct (inv_closure0 d r Hr) as [Hlt Hnw]. split; [lia |].
    intros H. destruct (Hw d H); [auto | lia].
  - intros t c Htc. apply inv_timer0. eapply lookup_weaken; eauto.
Qed.

(** *** [cleanup] *)

Lemma cleanup_spec d s :
  cleanup d s =
  match closures s !! d with
  | Some r =>
      if r_cleanedUp r then s
      else
        State (match r_timerId r with
               | Some t => clearTimeout t (core s)
               | None => core s
               end)
              (<[d := Closure (r_msgid r) (r_name r) (r_timeoutMs r) (r_timerId r) true]>
                 (closures s))
              (filter (fun l => l <> PerRequest d) (listeners s))
  | None => s
  end.
Proof.
  unfold cleanup. destruct (closures s !! d) as [r|]; [| reflexivity].
  destruct (r_cleanedUp r); [reflexivity |]. destruct (r_timerId r); reflexivity.
Qed.

Ltac by_cleanup_spec d s :=
  rewrite cleanup_spec; destruct (closures s !! d) as [[? ? ? [?|] []]|]; reflexivity.

Lemma cleanup_effects d s : effects (core (cleanup d s)) = effects (core s).
Proof. by_cleanup_spec d s. Qed.

Lemma cleanup_waiters d s : ready_waiters (core (cleanup d s)) = ready_waiters (core s).
Proof. by_cleanup_spec d s. Qed.

Lemma cleanup_next_deferred d s : next_deferred (core (cleanup d s)) = next_deferred (core s).
Proof. by_cleanup_spec d s. Qed.

Lemma cleanup_pending d s : pendingRequests (core (cleanup d s)) = pendingRequests (core s).
Proof. by_cleanup_spec d s. Qed.

Lemma cleanup_gadget d s : gadget (core (cleanup d s)) = gadget (core s).
Proof. by_cleanup_spec d s. Qed.

Lemma cleanup_deferreds d s : deferreds (core (cleanup d s)) = deferreds (core s).
Proof. by_cleanup_spec d s. Qed.

Lemma cleanup_chains d s : chains (core (cleanup d s)) = chains (core s).
Proof. by_cleanup_spec d s. Qed.

Lemma cleanup_timers d s : timers (core (cleanup d s)) ⊆ timers (core s).
Proof.
  rewrite cleanup_spec. destruct (closures s !! d) as [[? ? ? [t|] []]|]; norm_lib;
    try reflexivity.
  apply delete_subseteq.
Qed.

(** Running [cleanup] again changes nothing. *)
Lemma cleanup_idempotent d s : cleanup d (cleanup d s) = cleanup d s.
Proof.
  rewrite (cleanup_spec d s). destruct (closures s !! d) as [r|] eqn:E.
  - destruct (r_cleanedUp r) eqn:Ec.
    + rewrite cleanup_spec, E, Ec. reflexivity.
    + rewrite cleanup_spec. norm_lib. rewrite lookup_insert_eq. reflexivity.
  - rewrite cleanup_spec, E. reflexivity.
Qed.

Lemma cleanup_listeners d s l :
  l ∈ listeners (cleanup d s) -> l ∈ listeners s.
Proof.
  rewrite cleanup_spec. destruct (closures s !! d) as [r|]; [| auto].
  destruct (r_cleanedUp r); [auto |]. norm_lib. intros H.
  apply list_elem_of_filter in H as [_ H]. exact H.
Qed.

Lemma cleanup_unlistens d s : Inv s -> PerRequest d ∉ listeners (cleanup d s).
Proof.
  intros HI H. pose proof (cleanup_listeners _ _ _ H) as H0.
  destruct (inv_listener _ HI d H0) as (_ & r & Hr & Hc).
  rewrite cleanup_spec, Hr, Hc in H. norm_lib_in H.
  apply list_elem_of_filter in H as [H _]. congruence.
Qed.

Lemma lib_Inv_cleanup d s : Inv s -> Inv (cleanup d s).
Proof.
  intros HI. rewrite cleanup_spec. destruct (closures s !! d) as [r|] eqn:Er; [| exact HI].
  destruct (r_cleanedUp r) eqn:Ec; [exact HI |].
  assert (Bridge.Inv (match r_timerId r with
                      | Some t => clearTimeout t (core s)
                      | None => core s
                      end)) as HIc
    by (destruct (r_timerId r); [apply Inv_clearTimeout |]; apply (inv_core _ HI)).
  destruct HI. split; norm_lib.
  - exact HIc.
  - destruct (r_timerId r); assumption.
  - intros d' H. apply list_elem_of_filter in H as [Hne H].
    destruct (inv_listener0 d' H) as (Hz & r' & Hr' & Hc').
    split; [destruct (r_timerId r); exact Hz |].
    exists r'. rewrite lookup_insert_ne by congruence. auto.
  - intros d' r' H. apply lookup_insert_Some in H as [[<- _] | [_ H]];
      [destruct (inv_closure0 d r Er) | destruct (inv_closure0 d' r' H)];
      destruct (r_timerId r); auto.
  - intros t c H.
    assert (timers (core s) !! t = Some c /\ r_timerId r <> Some t) as [Ht Hne].
    { destruct (r_timerId r) as [t0|]; norm_lib_in H; [| split; [exact H | discriminate]].
      apply lookup_delete_Some in H as [Hne H]. split; [exact H | congruence]. }
    destruct (inv_timer0 t c Ht) as (Hl & r' & Hr' & Ht').
    assert (c_deferred c <> d) as Hd by congruence.
    split.
    + apply list_elem_of_filter. split; [congruence | exact Hl].
    + exists r'. rewrite lookup_insert_ne by congruence. auto.
Qed.

(** After [cleanup] no timer is left for the request. *)
Lemma cleanup_no_timer d s t c :
  Inv s -> timers (core (cleanup d s)) !! t = Some c -> c_deferred c <> d.
Proof.
  intros HI Ht Heq. subst d. apply (cleanup_unlistens (c_deferred c) s HI).
  apply (inv_timer _ (lib_Inv_cleanup _ _ HI) t c Ht).
Qed.

(** *** Settling a request *)

Lemma resolve_waiters d v s :
  ready_waiters (resolve d v s) = ready_waiters s \/ ready_waiters (resolve d v s) = [].
Proof. unfold resolve. apply (settle_waiters d (Resolved v) (emit (EResolve d v) s)). Qed.

Lemma reject_waiters d v s :
  ready_waiters (reject d v s) = ready_waiters s \/ ready_waiters (reject d v s) = [].
Proof. unfold reject. apply (settle_waiters d (Rejected v) (emit (EReject d v) s)). Qed.

Lemma shrunk_waiters (w w' : list (option nat * nat)) (n d : nat) :
  w' = w \/ w' = [] -> d ∈ w'.*2 -> d ∈ w.*2 \/ n <= d.
Proof.
  intros [-> | ->] H; [left; exact H |]. apply elem_of_nil in H. destruct H.
Qed.

Lemma lib_not_held d s :
  Inv s -> PerRequest d ∉ listeners s -> d ∉ (ready_waiters (core s)).*2 ->
  ~ held (core s) d.
Proof.
  intros HI Hl Hw [(m & en & Hm & _) | [(t & c & Ht & Hd) | H]].
  - rewrite (inv_no_registry _ HI), lookup_empty in Hm. discriminate.
  - apply Hl. subst d. apply (inv_timer _ HI t c Ht).
  - exact (Hw H).
Qed.

Lemma listener_not_waiter d s :
  Inv s -> PerRequest d ∈ listeners s -> d ∉ (ready_waiters (core s)).*2.
Proof.
  intros HI Hd. destruct (inv_listener _ HI d Hd) as (_ & r & Hr & _).
  apply (inv_closure _ HI d r Hr).
Qed.

Lemma lib_Inv_resolve d v s :
  Inv s -> PerRequest d ∉ listeners s -> d ∉ (ready_waiters (core s)).*2 ->
  calls_on d (effects (core s)) = 0 -> d < next_deferred (core s) ->
  Inv (on_core (resolve d v) s).
Proof.
  intros HI Hl Hw Hz Hlt. unfold on_core.
  destruct (resolve_registry d v (core s)) as (Hp & Ht & _ & Hn).
  apply lib_Inv_frame; auto.
  - apply Inv_resolve; auto using lib_not_held, inv_core.
  - rewrite Hp. apply (inv_no_registry _ HI).
  - rewrite Ht. reflexivity.
  - rewrite Hn. reflexivity.
  - intros d'. apply shrunk_waiters, resolve_waiters.
  - intros d' Hd'. rewrite resolve_calls by (apply listener_not_waiter; auto).
    destruct (inv_listener _ HI d' Hd') as (-> & _).
    destruct (Nat.eqb_spec d' d) as [-> | _]; [destruct (Hl Hd') | reflexivity].
Qed.

Lemma lib_Inv_reject d v s :
  Inv s -> PerRequest d ∉ listeners s -> d ∉ (ready_waiters (core s)).*2 ->
  calls_on d (effects (core s)) = 0 -> d < next_deferred (core s) ->
  Inv (on_core (reject d v) s).
Proof.
  intros HI Hl Hw Hz Hlt. unfold on_core.
  destruct (reject_registry d v (core s)) as (Hp & Ht & _ & Hn).
  apply lib_Inv_frame; auto.
  - apply Inv_reject; auto using lib_not_held, inv_core.
  - rewrite Hp. apply (inv_no_registry _ HI).
  - rewrite Ht. reflexivity.
  - rewrite Hn. reflexivity.
  - intros d'. apply shrunk_waiters, reject_waiters.
  - intros d' Hd'. rewrite reject_calls by (apply listener_not_waiter; auto).
    destruct (inv_listener _ HI d' Hd') as (-> & _).
    destruct (Nat.eqb_spec d' d) as [-> | _]; [destruct (Hl Hd') | reflexivity].
Qed.

Lemma lib_Inv_emit e s :
  (forall d, is_call_on d e = false) -> Inv s -> Inv (on_core (emit e) s).
Proof.
  intros He HI. unfold on_core. apply lib_Inv_frame; auto.
  - apply Inv_emit_other; auto using inv_core.
  - apply (inv_no_registry _ HI).
  - intros d' Hd'. cbn [effects emit]. rewrite calls_on_snoc, He.
    destruct (inv_listener _ HI d' Hd') as (-> & _). reflexivity.
Qed.

Lemma lib_Inv_trigger n p s : Inv s -> Inv (on_core (trigger n p) s).
Proof.
  intros HI. unfold on_core.
  destruct (trigger_registry n p (core s)) as (Hp & Ht & _ & Hn).
  apply lib_Inv_frame; auto.
  - apply Inv_trigger, inv_core, HI.
  - rewrite Hp. apply (inv_no_registry _ HI).
  - rewrite Ht. reflexivity.
  - rewrite Hn. reflexivity.
  - intros d'. apply shrunk_waiters, trigger_waiters.
  - intros d' Hd'. rewrite trigger_calls by (apply listener_not_waiter; auto).
    apply (inv_listener _ HI d' Hd').
Qed.

Lemma lib_Inv_set a0 a1 s : Inv s -> Inv (on_core (set a0 a1) s).
Proof.
  intros HI. unfold on_core.
  destruct (set_registry a0 a1 (core s)) as (Hp & Ht & _ & Hn).
  apply lib_Inv_frame; auto.
  - apply Inv_set, inv_core, HI.
  - rewrite Hp. apply (inv_no_registry _ HI).
  - rewrite Ht. reflexivity.
  - rewrite Hn. reflexivity.
  - intros d'. rewrite set_waiters'. auto.
  - intros d' Hd'. rewrite set_effects. apply (inv_listener _ HI d' Hd').
Qed.

(** *** Messages *)

Lemma lib_Inv_parse JSON_parse raw s :
  Inv s -> Inv (State (parseMessageData JSON_parse raw (core s)).1 (closures s) (listeners s)).
Proof.
  intros HI. unfold parseMessageData.
  destruct raw; try (destruct s; exact HI).
  destruct (JSON_parse s0); [destruct s; exact HI |].
  apply (lib_Inv_emit (ELog "Cannot parse message:" [VStr s0]) s); auto.
Qed.

Lemma lib_Inv_request_listener JSON_parse d event s :
  PerRequest d ∈ listeners s -> Inv s -> Inv (request_listener JSON_parse d event s).
Proof.
  intros Hl HI. unfold request_listener.
  destruct (closures s !! d) as [r|] eqn:Er; [| exact HI].
  destruct (negb (isTrustedEvent event (core s))); [exact HI |].
  pose proof (lib_Inv_parse JSON_parse (data event) s HI) as HI1.
  destruct (parseMessageData JSON_parse (data event) (core s)) as [c1 parsed].
  cbn [fst] in HI1.
  destruct (negb (truthy parsed)); [exact HI1 |].
  destruct (str_strict_eq (r_msgid r) (get_prop parsed "callback")); [| exact HI1].
  set (s1 := State c1 (closures s) (listeners s)) in *.
  apply lib_Inv_resolve.
  - apply lib_Inv_cleanup, HI1.
  - apply cleanup_unlistens, HI1.
  - rewrite cleanup_waiters. apply (inv_closure _ HI1 d r Er).
  - rewrite cleanup_effects. apply (inv_listener _ HI1 d Hl).
  - rewrite cleanup_next_deferred. apply (inv_closure _ HI1 d r Er).
Qed.

Lemma lib_Inv_messageHandler JSON_parse jQuery_type event s :
  Inv s -> Inv (on_core (messageHandler JSON_parse jQuery_type event) s).
Proof.
  intros HI. unfold on_core, messageHandler.
  destruct (negb (isTrustedEvent event (core s))); [destruct s; exact HI |].
  pose proof (lib_Inv_parse JSON_parse (data event) s HI) as HI1.
  destruct (parseMessageData JSON_parse (data event) (core s)) as [c1 message].
  cbn [fst] in HI1.
  destruct (negb (truthy message)); [exact HI1 |].
  destruct (truthy (get_prop message "callback")); [exact HI1 |].
  destruct (event_type jQuery_type (get_prop message "name")) as [type|]; [| exact HI1].
  apply (lib_Inv_trigger type (get_prop message "payload") _ HI1).
Qed.

Lemma lib_Inv_call_listener JSON_parse jQuery_type event s l :
  Inv s -> Inv (call_listener JSON_parse jQuery_type event s l).
Proof.
  intros HI. unfold call_listener.
  destruct (bool_decide_reflect (l ∈ listeners s)) as [Hl |]; [| exact HI].
  destruct l; [apply lib_Inv_request_listener | apply lib_Inv_messageHandler]; auto.
Qed.

Lemma lib_Inv_calls JSON_parse jQuery_type event ls s :
  Inv s -> Inv (foldl (call_listener JSON_parse jQuery_type event) s ls).
Proof.
  revert s. induction ls as [|l ls IH]; intros s HI; [exact HI |].
  simpl. apply IH, lib_Inv_call_listener, HI.
Qed.

Lemma lib_Inv_dispatch JSON_parse jQuery_type event s :
  Inv s -> Inv (dispatch JSON_parse jQuery_type event s).
Proof. apply lib_Inv_calls. Qed.

(** *** Timers *)

Lemma lib_Inv_expire t s :
  Inv s -> Inv (on_core (set_timers (delete t (timers (core s)))) s).
Proof.
  intros HI. unfold on_core. apply lib_Inv_frame; auto.
  - apply (Inv_clearTimeout t (core s)), inv_core, HI.
  - apply (inv_no_registry _ HI).
  - apply delete_subseteq.
  - intros d' Hd'. apply (inv_listener _ HI d' Hd').
Qed.

Lemma lib_Inv_timeout t s : Inv s -> Inv (timeout t s).
Proof.
  intros HI. unfold timeout. destruct (timers (core s) !! t) as [c|] eqn:Et; [| exact HI].
  pose proof (lib_Inv_expire t s HI) as HI1.
  set (s1 := on_core _ s) in *.
  destruct (inv_timer _ HI t c Et) as (Hl & r & Hr & _).
  destruct (inv_closure _ HI _ r Hr) as [Hlt Hnw].
  apply lib_Inv_reject.
  - apply lib_Inv_cleanup, HI1.
  - apply cleanup_unlistens, HI1.
  - rewrite cleanup_waiters. exact Hnw.
  - rewrite cleanup_effects. apply (inv_listener _ HI _ Hl).
  - rewrite cleanup_next_deferred. exact Hlt.
Qed.

(** *** Sending *)

Lemma lib_Inv_new_deferred s :
  Inv s -> Inv (State (new_deferred (core s)).1 (closures s) (listeners s)).
Proof.
  intros HI. apply lib_Inv_frame; norm_state; auto.
  - apply Inv_new_deferred, inv_core, HI.
  - apply (inv_no_registry _ HI).
  - intros d' Hd'. apply (inv_listener _ HI d' Hd').
Qed.

Lemma fresh_not_listening s d :
  Inv s -> next_deferred (core s) <= d -> PerRequest d ∉ listeners s.
Proof.
  intros HI Hge Hl. destruct (inv_listener _ HI d Hl) as (_ & r & Hr & _).
  destruct (inv_closure _ HI d r Hr). lia.
Qed.

Lemma fresh_not_waiting s d :
  Bridge.Inv s -> next_deferred s <= d -> d ∉ (ready_waiters s).*2.
Proof.
  intros HI Hge Hw. apply (fresh_not_held s d HI Hge). right; right. exact Hw.
Qed.

Lemma timer_below s t c :
  Inv s -> timers (core s) !! t = Some c -> c_deferred c < next_deferred (core s).
Proof.
  intros HI Ht. destruct (inv_timer _ HI t c Ht) as (_ & r & Hr & _).
  apply (inv_closure _ HI _ r Hr).
Qed.

(** The listener of a new request. *)
Lemma lib_Inv_listen r s :
  r_cleanedUp r = false -> Inv s ->
  Inv (State (new_deferred (core s)).1
             (<[next_deferred (core s) := r]> (closures s))
             (listeners s ++ [PerRequest (next_deferred (core s))])).
Proof.
  intros Hc HI. pose proof (lib_Inv_new_deferred s HI) as [].
  norm_lib_in inv_listener0. norm_lib_in inv_closure0. norm_lib_in inv_timer0.
  split; norm_lib; auto.
  - intros d H. apply elem_of_app in H as [H | H].
    + destruct (inv_listener0 d H) as (Hz & r' & Hr' & Hc'). split; [exact Hz |].
      exists r'. rewrite lookup_insert_ne; [auto |].
      intros <-. apply (fresh_not_listening s (next_deferred (core s)) HI); auto.
    + apply list_elem_of_singleton in H. injection H as ->. split.
      * apply (inv_fresh _ (inv_core _ HI)). lia.
      * exists r. rewrite lookup_insert_eq. auto.
  - intros d r' H. apply lookup_insert_Some in H as [[<- _] | [_ H]].
    + split; [lia |]. apply fresh_not_waiting; [apply (inv_core _ HI) | lia].
    + apply (inv_closure0 d r' H).
  - intros t c Ht. destruct (inv_timer0 t c Ht) as (Hl & r' & Hr' & Ht'). split.
    + apply elem_of_app. left. exact Hl.
    + exists r'. rewrite lookup_insert_ne; [auto |].
      pose proof (timer_below s t c HI Ht). lia.
Qed.

(** The timer of a request that listens and has none. *)
Lemma lib_Inv_arm d r m n ms s :
  closures s !! d = Some r -> PerRequest d ∈ listeners s ->
  (forall t c, timers (core s) !! t = Some c -> c_deferred c <> d) ->
  Inv s ->
  Inv (State (setTimeout (TimeoutClosure m d n ms) (core s)).1
             (<[d := Closure m n ms (Some (next_timer (core s))) false]> (closures s))
             (listeners s)).
Proof.
  intros Hr Hl Hnone HI.
  destruct (inv_closure _ HI d r Hr) as [Hlt Hnw].
  destruct (inv_listener _ HI d Hl) as (Hz & _).
  assert (Bridge.Inv (setTimeout (TimeoutClosure m d n ms) (core s)).1) as HIc.
  { apply Inv_setTimeout; cbn [c_deferred]; auto.
    - apply (inv_no_registry _ HI).
    - intros [(k & en & Hk & _) | [(t & c & Ht & Hd) | H]].
      + rewrite (inv_no_registry _ HI), lookup_empty in Hk. discriminate.
      + exact (Hnone t c Ht Hd).
      + exact (Hnw H).
    - apply (inv_core _ HI). }
  destruct HI. split; norm_lib; auto.
  - intros d' H. destruct (inv_listener0 d' H) as (Hz' & r' & Hr' & Hc'). split; [exact Hz' |].
    destruct (decide (d' = d)) as [-> | Hne].
    + eexists. rewrite lookup_insert_eq. split; reflexivity.
    + exists r'. rewrite lookup_insert_ne by congruence. auto.
  - intros d' r' H. apply lookup_insert_Some in H as [[<- _] | [_ H]]; [auto |].
    apply (inv_closure0 d' r' H).
  - intros t c Ht. apply lookup_insert_Some in Ht as [[<- <-] | [Hne Ht]]; cbn [c_deferred].
    + split; [exact Hl |]. eexists. rewrite lookup_insert_eq. split; reflexivity.
    + destruct (inv_timer0 t c Ht) as (Hl' & r' & Hr' & Ht'). split; [exact Hl' |].
      exists r'. rewrite lookup_insert_ne; [auto |]. intros Heq. exact (Hnone t c Ht (eq_sym Heq)).
Qed.

Lemma listen_core d msgid name ms s :
  gadget (core (listen d msgid name ms s)) = gadget (core s) /\
  effects (core (listen d msgid name ms s)) = effects (core s) /\
  next_deferred (core (listen d msgid name ms s)) = next_deferred (core s) /\
  ready_waiters (core (listen d msgid name ms s)) = ready_waiters (core s).
Proof. unfold listen. destruct (is_finite_positive ms); repeat split. Qed.

Lemma listen_listens d msgid name ms s : PerRequest d ∈ listeners (listen d msgid name ms s).
Proof.
  unfold listen. destruct (is_finite_positive ms); norm_lib;
    apply elem_of_app; right; apply list_elem_of_singleton; reflexivity.
Qed.

Lemma listen_closure d msgid name ms s :
  closures (listen d msgid name ms s) !! d
  = Some (Closure msgid name ms
            (if is_finite_positive ms then Some (next_timer (core s)) else None) false) /\
  (is_finite_positive ms = true ->
   timers (core (listen d msgid name ms s)) !! next_timer (core s)
   = Some (TimeoutClosure msgid d name ms)).
Proof.
  unfold listen. destruct (is_finite_positive ms); norm_lib;
    (split; [apply lookup_insert_eq |]); [intros _; apply lookup_insert_eq | discriminate].
Qed.

Lemma lib_Inv_listen_new msgid name ms s :
  Inv s ->
  Inv (listen (next_deferred (core s)) msgid name ms
              (State (new_deferred (core s)).1 (closures s) (listeners s))).
Proof.
  intros HI. unfold listen. norm_lib.
  pose proof (lib_Inv_listen (Closure msgid name ms None false) s eq_refl HI) as HI1.
  destruct (is_finite_positive ms); [| exact HI1].
  set (s1 := State _ _ _) in HI1.
  pose proof (lib_Inv_arm (next_deferred (core s)) (Closure msgid name ms None false)
                msgid name ms s1 (lookup_insert_eq _ _ _)) as H.
  unfold s1 in H. norm_lib_in H. apply H; [| | exact HI1].
  - apply elem_of_app. right. apply list_elem_of_singleton. reflexivity.
  - intros t c Ht Hd. pose proof (timer_below s t c HI Ht). lia.
Qed.

Lemma lib_Inv_sendMessageToTop name payload options msgid thrown s :
  Inv s -> Inv (sendMessageToTop name payload options msgid thrown s).1.
Proof.
  intros HI. unfold sendMessageToTop. norm_lib.
  destruct (negb (truthy (field (gadget (core s)) "msghost"))); cbn [fst].
  - apply lib_Inv_reject; norm_lib.
    + apply lib_Inv_new_deferred, HI.
    + apply fresh_not_listening; auto.
    + apply fresh_not_waiting; [apply (inv_core _ HI) | lia].
    + apply (inv_fresh _ (inv_core _ HI)). lia.
    + lia.
  - pose proof (lib_Inv_listen_new msgid name (request_timeout options (core s)) s HI) as HI2.
    pose proof (listen_listens (next_deferred (core s)) msgid name
                  (request_timeout options (core s))
                  (State (new_deferred (core s)).1 (closures s) (listeners s))) as Hl.
    destruct (listen_closure (next_deferred (core s)) msgid name
                (request_timeout options (core s))
                (State (new_deferred (core s)).1 (closures s) (listeners s))) as [Hr _].
    set (s2 := listen _ _ _ _ _) in *.
    destruct thrown as [exn|]; cbn [fst].
    + apply lib_Inv_reject.
      * apply lib_Inv_cleanup, HI2.
      * apply cleanup_unlistens, HI2.
      * rewrite cleanup_waiters. apply (inv_closure _ HI2 _ _ Hr).
      * rewrite cleanup_effects. apply (inv_listener _ HI2 _ Hl).
      * rewrite cleanup_next_deferred. apply (inv_closure _ HI2 _ _ Hr).
    + apply lib_Inv_emit; auto.
Qed.

(** *** [ready] and the initialization *)

Lemma lib_Inv_ready callback s :
  Inv s -> Inv (on_core (fun c => (ready callback c).1) s).
Proof.
  intros HI. unfold on_core.
  pose proof (Inv_ready callback (core s) (inv_core _ HI)) as HIc.
  pose proof (lib_Inv_new_deferred s HI) as HI1.
  assert (PerRequest (next_deferred (core s)) ∉ listeners s) as Hnl
    by (apply fresh_not_listening; auto).
  assert (next_deferred (core s) ∉ (ready_waiters (core s)).*2) as Hnw
    by (apply fresh_not_waiting; [apply (inv_core _ HI) | lia]).
  revert HIc. unfold ready. norm_state.
  destruct (truthy (field (gadget (core s)) "isReady")); cbn [fst]; intros HIc.
  - set (c1 := match callback with
               | Some cb => emit (ERun cb) (new_deferred (core s)).1
               | None => (new_deferred (core s)).1
               end) in *.
    assert (Inv (State c1 (closures s) (listeners s))) as HI2.
    { unfold c1. destruct callback as [cb|]; [| exact HI1].
      apply (lib_Inv_emit (ERun cb) _ (fun _ => eq_refl) HI1). }
    assert (ready_waiters c1 = ready_waiters (core s) /\
            next_deferred c1 = S (next_deferred (core s)) /\
            calls_on (next_deferred (core s)) (effects c1) = 0) as (Hw & Hn & Hz).
    { unfold c1. destruct callback; norm_state; repeat split;
        rewrite ?calls_on_snoc; cbn [is_call_on];
        rewrite (inv_fresh _ (inv_core _ HI) (next_deferred (core s))); auto. }
    apply (lib_Inv_resolve (next_deferred (core s)) VUndef _ HI2); norm_lib; auto.
    + rewrite Hw. exact Hnw.
    + rewrite Hn. lia.
  - apply lib_Inv_frame; norm_state; auto.
    + apply (inv_no_registry _ HI).
    + intros d H. rewrite fmap_app in H. apply elem_of_app in H as [H | H]; [auto |].
      right. apply list_elem_of_singleton in H as ->. cbn. lia.
    + intros d' Hd'. apply (inv_listener _ HI d' Hd').
Qed.

Lemma attach_registry d c s : same_registry s (attach d c s).
Proof.
  unfold attach. destruct (deferreds s !! d) as [[]|];
    try apply same_registry_refl; try apply run_chain_registry. repeat split.
Qed.

Lemma lib_Inv_attach d c s : Inv s -> Inv (on_core (attach d c) s).
Proof.
  intros HI. unfold on_core.
  destruct (attach_registry d c (core s)) as (Hp & Ht & _ & Hn).
  apply lib_Inv_frame; auto.
  - apply Inv_attach, inv_core, HI.
  - rewrite Hp. apply (inv_no_registry _ HI).
  - rewrite Ht. reflexivity.
  - rewrite Hn. reflexivity.
  - intros d'. apply shrunk_waiters. unfold attach.
    destruct (deferreds (core s) !! d) as [[]|]; auto; apply run_chain_waiters.
  - intros d' Hd'. destruct (inv_listener _ HI d' Hd') as (Hz & _).
    unfold attach. destruct (deferreds (core s) !! d) as [[]|]; auto;
      rewrite run_chain_calls; auto; apply listener_not_waiter; auto.
Qed.

Lemma lib_Inv_initial : Inv initial.
Proof.
  split; cbn [core closures listeners initial].
  - apply Inv_initial.
  - reflexivity.
  - intros d H. apply elem_of_nil in H. destruct H.
  - intros d r H. rewrite lookup_empty in H. discriminate.
  - intros t c H. cbn in H. rewrite lookup_empty in H. discriminate.
Qed.

Lemma lib_Inv_global s :
  Inv s -> Inv (State (core s) (closures s) (listeners s ++ [Global])).
Proof.
  intros []. split; norm_lib; auto.
  - intros d H. apply elem_of_app in H as [H | H]; [auto |].
    apply list_elem_of_singleton in H. discriminate.
  - intros t c H. destruct (inv_timer0 t c H) as [Hl Hr]. split; [| exact Hr].
    apply elem_of_app. left. exact Hl.
Qed.

Lemma lib_Inv_initialize page msgid thrown : Inv (initialize page msgid thrown).
Proof.
  unfold initialize, collectData.
  pose proof (lib_Inv_sendMessageToTop "get-environment" VUndef VUndef msgid thrown
                _ (lib_Inv_set (VObj (getUrlData page)) VUndef _ lib_Inv_initial)) as HI.
  destruct (sendMessageToTop "get-environment" VUndef VUndef msgid thrown _) as [s2 d].
  cbn [fst] in HI.
  apply (lib_Inv_global _ (lib_Inv_attach d (Initialization (getUrlData page)) s2 HI)).
Qed.

Lemma lib_Inv_step JSON_parse jQuery_type s i :
  Inv s -> Inv (step JSON_parse jQuery_type s i).
Proof.
  intros HI.
  destruct i as [n payload options msgid thrown | event | t | arg0 arg1 | callback];
    cbn [step].
  - apply lib_Inv_sendMessageToTop, HI.
  - apply lib_Inv_dispatch, HI.
  - apply lib_Inv_timeout, HI.
  - apply lib_Inv_set, HI.
  - apply lib_Inv_ready, HI.
Qed.

Lemma lib_Inv_run JSON_parse jQuery_type inputs s :
  Inv s -> Inv (run JSON_parse jQuery_type s inputs).
Proof.
  revert s. induction inputs as [|i inputs IH]; intros s HI; [exact HI |].
  apply IH, lib_Inv_step, HI.
Qed.

(** The invariant holds in every state the page reaches. *)
Lemma lib_Inv_reachable JSON_parse jQuery_type page msgid thrown inputs :
  Inv (run JSON_parse jQuery_type (initialize page msgid thrown) inputs).
Proof. apply lib_Inv_run, lib_Inv_initialize. Qed.

(** *** A response and the listeners it passes *)

Lemma state_eta s : State (core s) (closures s) (listeners s) = s.
Proof. destruct s; reflexivity. Qed.

(** A parse that logs nothing gives the same result in every state. *)
Lemma parse_pure JSON_parse raw c v :
  parseMessageData JSON_parse raw c = (c, v) ->
  forall c', parseMessageData JSON_parse raw c' = (c', v).
Proof.
  unfold parseMessageData. intros H c'.
  destruct raw; try (injection H as <-; reflexivity).
  destruct (JSON_parse s); [injection H as <-; reflexivity |].
  injection H as He _. apply (f_equal effects) in He. cbn [effects emit] in He.
  apply (f_equal length) in He. rewrite length_app in He. simpl in He. lia.
Qed.

Lemma request_listener_other JSON_parse d event parsed k r s :
  closures s !! d = Some r -> r_msgid r <> k ->
  parseMessageData JSON_parse (data event) (core s) = (core s, parsed) ->
  get_prop parsed "callback" = VStr k ->
  request_listener JSON_parse d event s = s.
Proof.
  intros Hr Hne Hparse Hcb. unfold request_listener. rewrite Hr.
  destruct (negb (isTrustedEvent event (core s))); [reflexivity |].
  rewrite Hparse, (callback_is_object _ _ Hcb), Hcb. cbn [negb str_strict_eq].
  destruct (String.eqb_spec (r_msgid r) k) as [H | _]; [destruct (Hne H) |].
  apply state_eta.
Qed.

Lemma request_listener_match JSON_parse d event parsed r s :
  closures s !! d = Some r ->
  isTrustedEvent event (core s) = true ->
  parseMessageData JSON_parse (data event) (core s) = (core s, parsed) ->
  get_prop parsed "callback" = VStr (r_msgid r) ->
  request_listener JSON_parse d event s
  = on_core (resolve d (get_prop parsed "payload")) (cleanup d s).
Proof.
  intros Hr Htrust Hparse Hcb. unfold request_listener.
  rewrite Hr, Htrust, Hparse, (callback_is_object _ _ Hcb), Hcb.
  cbn [negb str_strict_eq]. rewrite String.eqb_refl, state_eta. reflexivity.
Qed.

Lemma messageHandler_callback JSON_parse jQuery_type event parsed k c :
  parseMessageData JSON_parse (data event) c = (c, parsed) ->
  get_prop parsed "callback" = VStr k -> k <> "" ->
  messageHandler JSON_parse jQuery_type event c = c.
Proof.
  intros Hparse Hcb Hne. unfold messageHandler.
  destruct (negb (isTrustedEvent event c)); [reflexivity |].
  rewrite Hparse, (callback_is_object _ _ Hcb), Hcb, (truthy_nonempty _ Hne).
  reflexivity.
Qed.

(** A listener other than the one the response is for leaves the state as
    it is. *)
Lemma call_listener_other JSON_parse jQuery_type event parsed k s l :
  Inv s ->
  parseMessageData JSON_parse (data event) (core s) = (core s, parsed) ->
  get_prop parsed "callback" = VStr k -> k <> "" ->
  (forall d r, l = PerRequest d -> closures s !! d = Some r -> r_msgid r <> k) ->
  call_listener JSON_parse jQuery_type event s l = s.
Proof.
  intros HI Hparse Hcb Hne Hother. unfold call_listener.
  destruct (bool_decide_reflect (l ∈ listeners s)) as [Hl |]; [| reflexivity].
  destruct l as [d |].
  - destruct (inv_listener _ HI d Hl) as (_ & r & Hr & _).
    apply (request_listener_other _ _ _ parsed k r); auto. apply (Hother d r); auto.
  - unfold on_core. rewrite (messageHandler_callback _ _ _ parsed k); auto.
    apply state_eta.
Qed.

Lemma calls_fixed JSON_parse jQuery_type event s ls :
  (forall l, call_listener JSON_parse jQuery_type event s l = s) ->
  foldl (call_listener JSON_parse jQuery_type event) s ls = s.
Proof.
  intros H. induction ls as [|l ls IH]; [reflexivity |]. simpl. rewrite H. exact IH.
Qed.

(** A trusted response whose callback identifier only one listening
    request has is handled by the listener of that request alone. *)
Lemma dispatch_response JSON_parse jQuery_type event parsed d r s :
  Inv s ->
  PerRequest d ∈ listeners s -> closures s !! d = Some r -> r_msgid r <> "" ->
  (forall d' r', PerRequest d' ∈ listeners s -> closures s !! d' = Some r' ->
     r_msgid r' = r_msgid r -> d' = d) ->
  isTrustedEvent event (core s) = true ->
  parseMessageData JSON_parse (data event) (core s) = (core s, parsed) ->
  get_prop parsed "callback" = VStr (r_msgid r) ->
  dispatch JSON_parse jQuery_type event s
  = on_core (resolve d (get_prop parsed "payload")) (cleanup d s).
Proof.
  intros HI Hl Hr Hne Huniq Htrust Hparse Hcb.
  assert (r_cleanedUp r = false) as Hclean
    by (destruct (inv_listener _ HI d Hl) as (_ & r1 & Hr1 & Hc1); congruence).
  set (s' := on_core (resolve d (get_prop parsed "payload")) (cleanup d s)).
  assert (Inv s') as HI'.
  { apply lib_Inv_resolve.
    - apply lib_Inv_cleanup, HI.
    - apply cleanup_unlistens, HI.
    - rewrite cleanup_waiters. apply (inv_closure _ HI d r Hr).
    - rewrite cleanup_effects. apply (inv_listener _ HI d Hl).
    - rewrite cleanup_next_deferred. apply (inv_closure _ HI d r Hr). }
  assert (forall l, l <> PerRequest d ->
            call_listener JSON_parse jQuery_type event s l = s) as Hbefore.
  { intros l Hnl. destruct (bool_decide_reflect (l ∈ listeners s)) as [Hin | Hout].
    - apply (call_listener_other _ _ _ parsed (r_msgid r)); auto.
      intros d' r' -> Hr' Heq. apply Hnl. f_equal. apply (Huniq d' r'); auto.
    - unfold call_listener. rewrite bool_decide_false by exact Hout. reflexivity. }
  assert (call_listener JSON_parse jQuery_type event s (PerRequest d) = s') as Hat.
  { unfold call_listener. rewrite bool_decide_true by exact Hl.
    apply (request_listener_match _ _ _ _ r); auto. }
  assert (forall l, call_listener JSON_parse jQuery_type event s' l = s') as Hafter.
  { intros l. destruct (bool_decide_reflect (l ∈ listeners s')) as [Hin | Hout].
    - apply (call_listener_other _ _ _ parsed (r_msgid r)); auto.
      + apply (parse_pure _ _ _ _ Hparse).
      + intros d' r' -> Hr' Heq.
        assert (PerRequest d' ∈ listeners s) as Hin' by (apply (cleanup_listeners d), Hin).
        assert (d' <> d) as Hd' by (intros ->; apply (cleanup_unlistens d s HI), Hin).
        destruct (inv_listener _ HI d' Hin') as (_ & r0 & Hr0 & _).
        apply Hd', (Huniq d' r0); auto.
        revert Hr'. unfold s'. rewrite cleanup_spec, Hr, Hclean.
        norm_lib. rewrite lookup_insert_ne by congruence. congruence.
    - unfold call_listener. rewrite bool_decide_false by exact Hout. reflexivity. }
  unfold dispatch.
  assert (forall ls,
            foldl (call_listener JSON_parse jQuery_type event) s ls
            = if bool_decide (PerRequest d ∈ ls) then s' else s) as Hfold.
  { induction ls as [|l ls IH]; [reflexivity |]. simpl.
    destruct (decide (l = PerRequest d)) as [-> | Hnl].
    - rewrite Hat, bool_decide_true by left. apply calls_fixed, Hafter.
    - rewrite (Hbefore l Hnl), IH.
      rewrite (bool_decide_ext (PerRequest d ∈ l :: ls) (PerRequest d ∈ ls)); [reflexivity |].
      rewrite elem_of_cons. split; [intros [H | H]; congruence | auto]. }
  rewrite Hfold, bool_decide_true by exact Hl. reflexivity.
Qed.

Lemma lib_response_resolves JSON_parse jQuery_type event parsed d r s :
  Inv s ->
  PerRequest d ∈ listeners s -> closures s !! d = Some r -> r_msgid r <> "" ->
  (forall d' r', PerRequest d' ∈ listeners s -> closures s !! d' = Some r' ->
     r_msgid r' = r_msgid r -> d' = d) ->
  isTrustedEvent event (core s) = true ->
  parseMessageData JSON_parse (data event) (core s) = (core s, parsed) ->
  get_prop parsed "callback" = VStr (r_msgid r) ->
  calls_on d (effects (core (dispatch JSON_parse jQuery_type event s))) = 1 /\
  In (EResolve d (get_prop parsed "payload"))
     (effects (core (dispatch JSON_parse jQuery_type event s))) /\
  (PerRequest d ∉ listeners (dispatch JSON_parse jQuery_type event s)) /\
  (forall t c, timers (core (dispatch JSON_parse jQuery_type event s)) !! t = Some c ->
     c_deferred c <> d).
Proof.
  intros HI Hl Hr Hne Huniq Htrust Hparse Hcb.
  rewrite (dispatch_response _ _ _ parsed d r); auto. norm_lib.
  destruct (inv_closure _ HI d r Hr) as [Hlt Hnw].
  destruct (inv_listener _ HI d Hl) as (Hz & _).
  split; [| split; [| split]].
  - rewrite resolve_calls, cleanup_effects, Hz, Nat.eqb_refl; [reflexivity |].
    rewrite cleanup_waiters. exact Hnw.
  - apply resolve_emits.
  - apply cleanup_unlistens, HI.
  - intros t c. destruct (resolve_registry d (get_prop parsed "payload")
                            (core (cleanup d s))) as (_ & -> & _).
    apply cleanup_no_timer, HI.
Qed.

Lemma lib_timeout_rejects t c s :
  Inv s -> timers (core s) !! t = Some c ->
  calls_on (c_deferred c) (effects (core (timeout t s))) = 1 /\
  In (EReject (c_deferred c) (timed_out c)) (effects (core (timeout t s))) /\
  (PerRequest (c_deferred c) ∉ listeners (timeout t s)) /\
  timers (core (timeout t s)) !! t = None.
Proof.
  intros HI Ht. unfold timeout. rewrite Ht.
  pose proof (lib_Inv_expire t s HI) as HI1.
  set (s1 := on_core (set_timers _) s) in *.
  destruct (inv_timer _ HI t c Ht) as (Hl & r & Hr & _).
  destruct (inv_closure _ HI _ r Hr) as [Hlt Hnw].
  destruct (inv_listener _ HI _ Hl) as (Hz & _).
  norm_lib. split; [| split; [| split]].
  - rewrite reject_calls, cleanup_effects; [| rewrite cleanup_waiters; exact Hnw].
    unfold s1. norm_lib. rewrite Hz, Nat.eqb_refl. reflexivity.
  - apply reject_emits.
  - apply cleanup_unlistens, HI1.
  - destruct (reject_registry (c_deferred c) (timed_out c)
                (core (cleanup (c_deferred c) s1))) as (_ & -> & _).
    pose proof (cleanup_timers (c_deferred c) s1) as Hsub.
    destruct (timers (core (cleanup (c_deferred c) s1)) !! t) eqn:E; [| reflexivity].
    eapply lookup_weaken in E; [| exact Hsub].
    unfold s1 in E. norm_lib_in E. rewrite lookup_delete_eq in E. discriminate.
Qed.

(** What has happened to a request when [sendMessageToTop] returns. *)
Lemma lib_send_outcome name payload options msgid thrown s :
  Inv s ->
  let r := sendMessageToTop name payload options msgid thrown s in
  (calls_on r.2 (effects (core r.1)) = 1 /\
   (truthy (field (gadget (core s)) "msghost") = false \/ thrown <> None))
  \/
  (calls_on r.2 (effects (core r.1)) = 0 /\
   PerRequest r.2 ∈ listeners r.1 /\
   exists tid,
     closures r.1 !! r.2
     = Some (Closure msgid name (request_timeout options (core s)) tid false) /\
     (is_finite_positive (request_timeout options (core s)) = true ->
      exists t, tid = Some t /\
        timers (core r.1) !! t
        = Some (TimeoutClosure msgid r.2 name (request_timeout options (core s))))).
Proof.
  intros HI r. subst r. unfold sendMessageToTop. norm_lib.
  pose proof (inv_fresh _ (inv_core _ HI) (next_deferred (core s)) (Nat.le_refl _)) as Hz.
  assert (next_deferred (core s) ∉ (ready_waiters (core s)).*2) as Hnw
    by (apply fresh_not_waiting; [apply (inv_core _ HI) | lia]).
  destruct (truthy (field (gadget (core s)) "msghost")); cbn [negb].
  - match goal with |- context [listen _ _ _ _ ?s0] => set (s1 := s0) end.
    destruct (listen_core (next_deferred (core s)) msgid name
                (request_timeout options (core s)) s1) as (Hg & He & Hn & Hw).
    destruct (listen_closure (next_deferred (core s)) msgid name
                (request_timeout options (core s)) s1) as [Hr Ht].
    pose proof (listen_listens (next_deferred (core s)) msgid name
                  (request_timeout options (core s)) s1) as Hl.
    set (s2 := listen _ _ _ _ s1) in *.
    destruct thrown as [exn|]; cbn [fst snd].
    + left. split; [| right; discriminate]. norm_lib.
      rewrite reject_calls, cleanup_effects, He; [| rewrite cleanup_waiters, Hw; exact Hnw].
      unfold s1. norm_lib. rewrite Hz, Nat.eqb_refl. reflexivity.
    + right. norm_lib. rewrite calls_on_snoc, He. unfold s1 at 1. norm_lib.
      split; [rewrite Hz; reflexivity |]. split; [exact Hl |].
      eexists. split; [exact Hr |]. intros Hfp. rewrite Hfp. eexists. split; [reflexivity |].
      apply Ht, Hfp.
  - left. cbn [fst snd]. norm_lib. split; [| left; reflexivity].
    rewrite reject_calls; norm_state; [rewrite Hz, Nat.eqb_refl; reflexivity | exact Hnw].
Qed.

(** *** A request that no longer listens *)

Lemma parse_calls JSON_parse raw c d :
  calls_on d (effects (parseMessageData JSON_parse raw c).1) = calls_on d (effects c).
Proof.
  unfold parseMessageData. destruct raw; try reflexivity.
  destruct (JSON_parse s); [reflexivity |]. cbn [fst effects emit].
  rewrite calls_on_snoc. cbn [is_call_on]. lia.
Qed.

Lemma call_listener_keeps JSON_parse jQuery_type event d s l :
  Inv s -> is_Some (closures s !! d) -> PerRequest d ∉ listeners s ->
  is_Some (closures (call_listener JSON_parse jQuery_type event s l) !! d) /\
  (PerRequest d ∉ listeners (call_listener JSON_parse jQuery_type event s l)) /\
  calls_on d (effects (core (call_listener JSON_parse jQuery_type event s l)))
  = calls_on d (effects (core s)).
Proof.
  intros HI Hc Hl. unfold call_listener.
  destruct (bool_decide_reflect (l ∈ listeners s)) as [Hin |]; [| auto].
  pose proof (lib_Inv_parse JSON_parse (data event) s HI) as HI1.
  pose proof (parse_calls JSON_parse (data event) (core s) d) as Hpc.
  destruct l as [d' |].
  - unfold request_listener. destruct (closures s !! d') as [r'|] eqn:Er'; [| auto].
    destruct (negb (isTrustedEvent event (core s))); [auto |].
    destruct (parseMessageData JSON_parse (data event) (core s)) as [c1 parsed].
    cbn [fst] in HI1, Hpc.
    destruct (negb (truthy parsed)); [auto |].
    destruct (str_strict_eq (r_msgid r') (get_prop parsed "callback")); [| auto].
    set (s1 := State c1 (closures s) (listeners s)) in *.
    assert (d <> d') as Hne by (intros ->; exact (Hl Hin)).
    split; [| split].
    + norm_lib. rewrite cleanup_spec. change (closures s1) with (closures s).
      rewrite Er'. destruct (r_cleanedUp r'); [exact Hc |].
      norm_lib. rewrite lookup_insert_ne by congruence. exact Hc.
    + norm_lib. intros H. apply Hl, (cleanup_listeners d' s1), H.
    + norm_lib. destruct Hc as [r Hr].
      rewrite resolve_calls, cleanup_effects.
      * destruct (Nat.eqb_spec d d') as [H | _]; [destruct (Hne H) |].
        unfold s1. norm_lib. lia.
      * rewrite cleanup_waiters. apply (inv_closure _ HI1 d r Hr).
  - norm_lib. split; [exact Hc |]. split; [exact Hl |].
    unfold messageHandler. destruct (negb (isTrustedEvent event (core s))); [reflexivity |].
    destruct (parseMessageData JSON_parse (data event) (core s)) as [c1 message].
    cbn [fst] in HI1, Hpc.
    destruct (negb (truthy message)); [exact Hpc |].
    destruct (truthy (get_prop message "callback")); [exact Hpc |].
    destruct (event_type jQuery_type (get_prop message "name")); [| exact Hpc].
    destruct Hc as [r Hr]. rewrite trigger_calls; [exact Hpc |].
    apply (inv_closure _ HI1 d r Hr).
Qed.

(** No message settles a request that no longer listens. *)
Lemma dispatch_keeps_settled JSON_parse jQuery_type event d s :
  Inv s -> is_Some (closures s !! d) -> PerRequest d ∉ listeners s ->
  calls_on d (effects (core (dispatch JSON_parse jQuery_type event s)))
  = calls_on d (effects (core s)).
Proof.
  intros HI Hc Hl. unfold dispatch. generalize (listeners s) at 1. intros ls.
  revert s HI Hc Hl. induction ls as [|l ls IH]; intros s HI Hc Hl; [reflexivity |].
  simpl. destruct (call_listener_keeps JSON_parse jQuery_type event d s l HI Hc Hl)
    as (Hc' & Hl' & <-).
  apply IH; auto. apply lib_Inv_call_listener, HI.
Qed.

(** *** Trust *)

Lemma strict_eq_true a b : strict_eq a b = true -> a = b.
Proof.
  destruct a as [| | x | [x | | |] | x | x], b as [| | y | [y | | |] | y | y];
    simpl; try discriminate; try reflexivity; intros H.
  - apply Bool.eqb_prop in H. congruence.
  - apply Z.eqb_eq in H. congruence.
  - apply String.eqb_eq in H. congruence.
Qed.

Lemma lib_untrusted event c :
  origin event <> field (gadget c) "msghost" \/ source event <> Top ->
  isTrustedEvent event c = false.
Proof.
  intros H. unfold isTrustedEvent. destruct (source event); try reflexivity.
  destruct (strict_eq (origin event) (field (gadget c) "msghost")) eqn:E; [| reflexivity].
  apply strict_eq_true in E. destruct H as [H | H]; congruence.
Qed.

(** Every listener returns at once on a message that is not trusted. *)
Lemma dispatch_untrusted JSON_parse jQuery_type event s :
  isTrustedEvent event (core s) = false -> dispatch JSON_parse jQuery_type event s = s.
Proof.
  intros Hno. unfold dispatch. apply calls_fixed. intros l. unfold call_listener.
  destruct (bool_decide (l ∈ listeners s)); [| reflexivity]. destruct l as [d |].
  - unfold request_listener. rewrite Hno. destruct (closures s !! d); reflexivity.
  - unfold on_core, messageHandler. rewrite Hno. apply state_eta.
Qed.

(** *** Callbacks are only attached to Deferreds that exist *)

Lemma lib_parse_chains JSON_parse raw c :
  chains (parseMessageData JSON_parse raw c).1 = chains c /\
  next_deferred (parseMessageData JSON_parse raw c).1 = next_deferred c.
Proof.
  unfold parseMessageData. destruct raw; auto. destruct (JSON_parse s); auto.
Qed.

Lemma request_listener_chains JSON_parse d event s :
  chains (core (request_listener JSON_parse d event s)) = chains (core s) /\
  next_deferred (core (request_listener JSON_parse d event s)) = next_deferred (core s).
Proof.
  unfold request_listener. destruct (closures s !! d); [| auto].
  destruct (negb (isTrustedEvent event (core s))); [auto |].
  destruct (lib_parse_chains JSON_parse (data event) (core s)) as [Hc Hn].
  destruct (parseMessageData JSON_parse (data event) (core s)) as [c1 parsed].
  cbn [fst] in Hc, Hn.
  destruct (negb (truthy parsed)); [auto |].
  destruct (str_strict_eq _ _); [| auto]. norm_lib.
  rewrite resolve_chains, resolve_next_deferred, cleanup_chains, cleanup_next_deferred.
  auto.
Qed.

Lemma lib_messageHandler_chains JSON_parse jQuery_type event c :
  chains (messageHandler JSON_parse jQuery_type event c) = chains c /\
  next_deferred (messageHandler JSON_parse jQuery_type event c) = next_deferred c.
Proof.
  unfold messageHandler. destruct (negb (isTrustedEvent event c)); [auto |].
  destruct (lib_parse_chains JSON_parse (data event) c) as [Hc Hn].
  destruct (parseMessageData JSON_parse (data event) c) as [c1 message].
  cbn [fst] in Hc, Hn.
  destruct (negb (truthy message)); [auto |].
  destruct (truthy (get_prop message "callback")); [auto |].
  destruct (event_type jQuery_type (get_prop message "name")); [| auto].
  rewrite trigger_chains, trigger_next_deferred. auto.
Qed.

Lemma calls_chains JSON_parse jQuery_type event ls s :
  chains (core (foldl (call_listener JSON_parse jQuery_type event) s ls)) = chains (core s) /\
  next_deferred (core (foldl (call_listener JSON_parse jQuery_type event) s ls))
  = next_deferred (core s).
Proof.
  revert s. induction ls as [|l ls IH]; intros s; [auto |]. simpl.
  destruct (IH (call_listener JSON_parse jQuery_type event s l)) as [-> ->].
  unfold call_listener. destruct (bool_decide (l ∈ listeners s)); [| auto].
  destruct l; [apply request_listener_chains |].
  apply lib_messageHandler_chains.
Qed.

Lemma dispatch_chains JSON_parse jQuery_type event s :
  chains (core (dispatch JSON_parse jQuery_type event s)) = chains (core s) /\
  next_deferred (core (dispatch JSON_parse jQuery_type event s)) = next_deferred (core s).
Proof. apply calls_chains. Qed.

Lemma lib_timeout_chains t s :
  chains (core (timeout t s)) = chains (core s) /\
  next_deferred (core (timeout t s)) = next_deferred (core s).
Proof.
  unfold timeout. destruct (timers (core s) !! t); [| auto]. norm_lib.
  rewrite reject_chains, reject_next_deferred, cleanup_chains, cleanup_next_deferred.
  auto.
Qed.

Lemma listen_chains d msgid name ms s :
  chains (core (listen d msgid name ms s)) = chains (core s) /\
  deferreds (core (listen d msgid name ms s)) = deferreds (core s).
Proof. unfold listen. destruct (is_finite_positive ms); auto. Qed.

Lemma lib_sendMessageToTop_chains name payload options msgid thrown s :
  (sendMessageToTop name payload options msgid thrown s).2 = next_deferred (core s) /\
  chains (core (sendMessageToTop name payload options msgid thrown s).1) = chains (core s) /\
  next_deferred (core (sendMessageToTop name payload options msgid thrown s).1)
  = S (next_deferred (core s)).
Proof.
  unfold sendMessageToTop. norm_lib.
  destruct (negb (truthy (field (gadget (core s)) "msghost"))); cbn [fst snd]; norm_lib.
  - rewrite reject_chains, reject_next_deferred. auto.
  - match goal with |- context [listen ?d ?m ?n ?ms ?s0] =>
      destruct (listen_chains d m n ms s0) as [Hc _];
      destruct (listen_core d m n ms s0) as (_ & _ & Hn & _) end.
    destruct thrown; cbn [fst snd]; norm_lib;
      rewrite ?reject_chains, ?reject_next_deferred, ?cleanup_chains,
        ?cleanup_next_deferred, Hc, Hn; auto.
Qed.

Lemma lib_step_chains JSON_parse jQuery_type s i :
  chains (core (step JSON_parse jQuery_type s i)) = chains (core s) /\
  next_deferred (core s) <= next_deferred (core (step JSON_parse jQuery_type s i)).
Proof.
  destruct i as [n payload options msgid thrown | event | t | arg0 arg1 | callback];
    cbn [step].
  - destruct (lib_sendMessageToTop_chains n payload options msgid thrown s) as (_ & -> & ->).
    auto.
  - destruct (dispatch_chains JSON_parse jQuery_type event s) as [-> ->]. auto.
  - destruct (lib_timeout_chains t s) as [-> ->]. auto.
  - norm_lib. rewrite set_chains', set_next_deferred. auto.
  - norm_lib. destruct (ready_chains callback (core s)) as [-> ->]. auto.
Qed.

Lemma lib_Fresh_run JSON_parse jQuery_type inputs s :
  Fresh (core s) -> Fresh (core (run JSON_parse jQuery_type s inputs)).
Proof.
  revert s. induction inputs as [|i inputs IH]; intros s HF; [exact HF |].
  apply IH. intros d Hd.
  destruct (lib_step_chains JSON_parse jQuery_type s i) as [-> Hle]. apply HF. lia.
Qed.

Lemma lib_Fresh_initialize page msgid thrown : Fresh (core (initialize page msgid thrown)).
Proof.
  unfold initialize, collectData.
  match goal with |- context [sendMessageToTop ?n ?p ?o msgid thrown ?s1] =>
    destruct (lib_sendMessageToTop_chains n p o msgid thrown s1) as (Hd & Hc & Hn);
    destruct (sendMessageToTop n p o msgid thrown s1) as [s2 d] end.
  cbn [fst snd] in Hd, Hc, Hn. norm_lib_in Hc. norm_lib_in Hn. norm_lib_in Hd.
  rewrite set_chains' in Hc. rewrite set_next_deferred in Hn, Hd.
  norm_lib. intros d' Hd'. rewrite attach_next_deferred, Hn in Hd'.
  rewrite attach_chains by (rewrite Hd; cbn [next_deferred Bridge.initial]; lia).
  rewrite Hc. apply lookup_empty.
Qed.

Lemma lib_Fresh_reachable JSON_parse jQuery_type page msgid thrown inputs :
  Fresh (core (run JSON_parse jQuery_type (initialize page msgid thrown) inputs)).
Proof. apply lib_Fresh_run, lib_Fresh_initialize. Qed.

(** *** Sending without [gadget.msghost] *)

Lemma lib_sendMessageToTop_missing name payload options msgid thrown s :
  Fresh (core s) ->
  truthy (field (gadget (core s)) "msghost") = false ->
  sendMessageToTop name payload options msgid thrown s =
  (State
     (Bridge.State (gadget (core s)) (pendingRequests (core s)) (timers (core s))
        (next_timer (core s))
        (<[next_deferred (core s) := Rejected (missing_msghost name msgid)]>
           (<[next_deferred (core s) := Pending]> (deferreds (core s))))
        (S (next_deferred (core s))) (chains (core s)) (ready_waiters (core s))
        (effects (core s) ++ [EReject (next_deferred (core s)) (missing_msghost name msgid)]))
     (closures s) (listeners s),
   next_deferred (core s)).
Proof.
  intros HF Hno. unfold sendMessageToTop. norm_lib. rewrite Hno. cbn [negb]. norm_lib.
  unfold on_core, reject, settle. norm_lib.
  rewrite lookup_insert_eq, (HF (next_deferred (core s))) by lia.
  unfold mark. norm_state. rewrite lookup_insert_eq. reflexivity.
Qed.

(** *** The initialization, step by step *)

Lemma lib_request_timeout_at_start page c :
  gadget c = getUrlData page -> request_timeout VUndef c = Fin 15000.
Proof.
  intros Hg. unfold request_timeout, field. simpl. rewrite Hg.
  destruct (getUrlData page !! "requestTimeoutMs") as [[]|] eqn:E; try reflexivity.
  destruct (getUrlData_not_number _ _ _ E).
Qed.

(** With [msghost] in the URL and a transmission that does not throw, the
    script leaves one request listening, with its timer and its callbacks. *)
Lemma lib_initialize_pending page msgid :
  truthy (field (getUrlData page) "msghost") = true ->
  initialize page msgid None =
  State
    (Bridge.State (getUrlData page) ∅
       {[ 1 := TimeoutClosure msgid 0 "get-environment" (Fin 15000) ]} 2
       {[ 0 := Pending ]} 1
       {[ 0 := Initialization (getUrlData page) ]} []
       [ EPostMessage
           (envelope "get-environment" VUndef msgid
              (set_gadget (getUrlData page) Bridge.initial))
           (field (getUrlData page) "msghost") ])
    {[ 0 := Closure msgid "get-environment" (Fin 15000) (Some 1) false ]}
    [PerRequest 0; Global].
Proof.
  intros Hok. unfold initialize, collectData, sendMessageToTop, initial.
  cbn [on_core core closures listeners set set_gadget gadget Bridge.initial].
  rewrite (right_id_L ∅ (∪)). norm_lib. rewrite Hok. cbn [negb].
  rewrite (lib_request_timeout_at_start page) by reflexivity.
  unfold listen. cbn [is_finite_positive Z.ltb Z.compare]. norm_lib.
  rewrite insert_insert_eq. cbn [fst]. norm_lib.
  unfold attach. norm_state. rewrite lookup_insert_eq. reflexivity.
Qed.

(** Without [msghost] the request is rejected at once and the [fail]
    callback runs. *)
Lemma lib_initialize_missing page msgid thrown :
  truthy (field (getUrlData page) "msghost") = false ->
  initialize page msgid thrown =
  State
    (Bridge.State (<["isReady" := VBool true]> (getUrlData page))
       ∅ ∅ 1 {[ 0 := Rejected (missing_msghost "get-environment" msgid) ]} 1 ∅ []
       [ EReject 0 (missing_msghost "get-environment" msgid);
         EWarn (ready_banner (set_gadget (getUrlData page) Bridge.initial)
                  +:+ " host env unavailable; continuing without env.")
               [missing_msghost "get-environment" msgid];
         ETrigger "ready" VUndef ])
    ∅ [Global].
Proof.
  intros Hno. unfold initialize, collectData, sendMessageToTop, initial.
  cbn [on_core core closures listeners set set_gadget gadget Bridge.initial].
  rewrite (right_id_L ∅ (∪)). norm_lib. rewrite Hno. cbn [negb]. reflexivity.
Qed.

(** When the transmission throws, the request is cleaned up and rejected
    with what was thrown, and the [fail] callback runs. *)
Lemma lib_initialize_thrown page msgid exn :
  truthy (field (getUrlData page) "msghost") = true ->
  initialize page msgid (Some exn) =
  State
    (Bridge.State (<["isReady" := VBool true]> (getUrlData page))
       ∅ ∅ 2 {[ 0 := Rejected exn ]} 1 ∅ []
       [ EReject 0 exn;
         EWarn (ready_banner (set_gadget (getUrlData page) Bridge.initial)
                  +:+ " host env unavailable; continuing without env.")
               [exn];
         ETrigger "ready" VUndef ])
    {[ 0 := Closure msgid "get-environment" (Fin 15000) (Some 1) true ]}
    [Global].
Proof.
  intros Hok. unfold initialize, collectData, sendMessageToTop, initial.
  cbn [on_core core closures listeners set set_gadget gadget Bridge.initial].
  rewrite (right_id_L ∅ (∪)). norm_lib. rewrite Hok. cbn [negb].
  rewrite (lib_request_timeout_at_start page) by reflexivity.
  unfold listen. cbn [is_finite_positive Z.ltb Z.compare]. norm_lib.
  rewrite insert_insert_eq. cbn [fst]. rewrite cleanup_spec. norm_lib.
  rewrite lookup_insert_eq. cbn [r_cleanedUp r_timerId r_msgid r_name r_timeoutMs].
  unfold on_core, clearTimeout. norm_lib.
  rewrite insert_insert_eq, delete_insert_eq, delete_empty.
  unfold reject, settle. norm_state.
  rewrite lookup_insert_eq, lookup_empty.
  unfold mark. norm_state. rewrite lookup_insert_eq. norm_state.
  unfold attach. norm_state. rewrite insert_insert_eq, lookup_insert_eq.
  reflexivity.
Qed.

(** The answer to the request of the initialization is handled by its
    listener. *)
Lemma lib_initialization_answered JSON_parse jQuery_type page msgid event parsed :
  truthy (field (getUrlData page) "msghost") = true -> msgid <> "" ->
  isTrustedEvent event (core (initialize page msgid None)) = true ->
  parseMessageData JSON_parse (data event) (core (initialize page msgid None))
  = (core (initialize page msgid None), parsed) ->
  get_prop parsed "callback" = VStr msgid ->
  dispatch JSON_parse jQuery_type event (initialize page msgid None)
  = on_core (resolve 0 (get_prop parsed "payload")) (cleanup 0 (initialize page msgid None)) /\
  deferreds (core (cleanup 0 (initialize page msgid None))) !! 0 = Some Pending /\
  chains (core (cleanup 0 (initialize page msgid None))) !! 0
  = Some (Initialization (getUrlData page)) /\
  effects (core (cleanup 0 (initialize page msgid None)))
  = effects (core (initialize page msgid None)) /\
  gadget (core (cleanup 0 (initialize page msgid None))) = getUrlData page.
Proof.
  intros Hok Hne Htrust Hparse Hcb.
  pose proof (lib_Inv_initialize page msgid None) as HI.
  rewrite cleanup_deferreds, cleanup_chains, cleanup_effects, cleanup_gadget.
  revert HI Htrust Hparse. rewrite (lib_initialize_pending page msgid Hok).
  set (s0 := State _ _ _). intros HI Htrust Hparse.
  split; [| repeat split; apply lookup_insert_eq].
  assert (PerRequest 0 ∈ listeners s0) as Hl by left.
  assert (closures s0 !! 0
          = Some (Closure msgid "get-environment" (Fin 15000) (Some 1) false)) as Hr
    by apply lookup_insert_eq.
  apply (dispatch_response _ _ _ parsed 0 _ s0 HI Hl Hr Hne); auto.
  intros d' r' Hin _ _. unfold s0 in Hin. cbn [listeners] in Hin.
  rewrite elem_of_cons in Hin. destruct Hin as [Hin | Hin]; [congruence |].
  apply list_elem_of_singleton in Hin. discriminate.
Qed.

(** This file hands [gadget.msghost] to [postMessage] as it is: with the
    wildcard configured, a request is posted to any origin. *)
Lemma lib_wildcard_is_posted name payload options msgid s :
  field (gadget (core s)) "msghost" = VStr "*" ->
  In (EPostMessage (envelope name payload msgid (core s)) (VStr "*"))
     (effects (core (sendMessageToTop name payload options msgid None s).1)).
Proof.
  intros Hw. unfold sendMessageToTop. norm_lib. rewrite Hw. cbn [truthy is_empty_string negb fst].
  match goal with |- context [listen ?d ?m ?n ?ms ?s0] =>
    destruct (listen_core d m n ms s0) as (Hg & He & _) end.
  norm_lib. rewrite Hg. norm_lib. rewrite Hw. apply in_or_app. right. left. reflexivity.
Qed.

(** *** A request nobody answers *)

Lemma lib_unanswered_step JSON_parse jQuery_type d s i :
  host_silent i = true -> unanswered d (core s) ->
  unanswered d (core (step JSON_parse jQuery_type s i)).
Proof.
  intros Hsilent Hu.
  destruct i as [n payload options msgid thrown | event | t | arg0 arg1 | callback];
    cbn [step].
  - destruct Hu as (Hz & Hlt & Hnt & Hnw).
    assert (Nat.eqb d (next_deferred (core s)) = false) as Hne by (apply Nat.eqb_neq; lia).
    unfold sendMessageToTop. norm_lib.
    destruct (negb (truthy (field (gadget (core s)) "msghost"))); cbn [fst]; norm_lib.
    + unfold reject.
      match goal with |- context [settle ?d0 ?o (emit ?e0 ?s0)] =>
        destruct (unanswered_settle_other d d0 o e0 s0 Hne Hnw) as [Hc Hw'];
        destruct (settle_registry d0 o (emit e0 s0)) as (_ & Ht & _ & Hn)
      end.
      split; [| split; [| split]].
      * rewrite Hc. exact Hz.
      * rewrite Hn. norm_state. lia.
      * rewrite Ht. exact Hnt.
      * intros H. exact (Hnw (Hw' H)).
    + match goal with |- context [listen ?d0 ?m ?n0 ?ms ?s0] =>
        destruct (listen_core d0 m n0 ms s0) as (_ & He & Hn & Hw);
        assert (forall t c, timers (core (listen d0 m n0 ms s0)) !! t = Some c ->
                  c_deferred c <> d) as Ht2;
        [| set (s2 := listen d0 m n0 ms s0) in * ]
      end.
      { unfold listen. destruct (is_finite_positive _); norm_lib; [| exact Hnt].
        intros t c Ht. norm_lib_in Ht.
        apply lookup_insert_Some in Ht as [[_ <-] | [_ Ht]];
          [cbn [c_deferred]; lia | eauto]. }
      norm_lib_in He. norm_lib_in Hn. norm_lib_in Hw.
      destruct thrown as [exn|]; cbn [fst]; norm_lib.
      * unfold reject.
        assert (d ∉ (ready_waiters (core (cleanup (next_deferred (core s)) s2))).*2) as Hnw4
          by (rewrite cleanup_waiters, Hw; exact Hnw).
        match goal with |- context [settle ?d0 ?o (emit ?e0 ?s0)] =>
          destruct (unanswered_settle_other d d0 o e0 s0 Hne Hnw4) as [Hc Hw'];
          destruct (settle_registry d0 o (emit e0 s0)) as (_ & Ht & _ & Hn')
        end.
        split; [| split; [| split]].
        -- rewrite Hc, cleanup_effects, He. exact Hz.
        -- rewrite Hn'. norm_state. rewrite cleanup_next_deferred, Hn. lia.
        -- rewrite Ht. norm_state. intros t c Htc. apply (Ht2 t c).
           eapply lookup_weaken; [exact Htc | apply cleanup_timers].
        -- intros H. exact (Hnw4 (Hw' H)).
      * split; [| split; [| split]]; norm_lib.
        -- rewrite calls_on_snoc, He. cbn [is_call_on]. lia.
        -- rewrite Hn. lia.
        -- exact Ht2.
        -- rewrite Hw. exact Hnw.
  - rewrite dispatch_untrusted; [exact Hu |].
    cbn [host_silent] in Hsilent. unfold isTrustedEvent.
    destruct (source event); [discriminate | reflexivity | reflexivity].
  - destruct Hu as (Hz & Hlt & Hnt & Hnw).
    unfold timeout. destruct (timers (core s) !! t) as [c|] eqn:Et; [| repeat split; auto].
    assert (Nat.eqb d (c_deferred c) = false) as Hne
      by (apply Nat.eqb_neq; intros ->; exact (Hnt t c Et eq_refl)).
    norm_lib. unfold reject.
    match goal with |- context [settle _ _ (emit _ (core ?s0))] => set (s1 := s0) end.
    assert (d ∉ (ready_waiters (core s1)).*2) as Hnw1
      by (unfold s1; rewrite cleanup_waiters; exact Hnw).
    destruct (unanswered_settle_other d (c_deferred c) (Rejected (timed_out c))
                (EReject (c_deferred c) (timed_out c)) (core s1) Hne Hnw1) as [Hc Hw'].
    destruct (settle_registry (c_deferred c) (Rejected (timed_out c))
                (emit (EReject (c_deferred c) (timed_out c)) (core s1))) as (_ & Ht & _ & Hn).
    split; [| split; [| split]].
    + rewrite Hc. unfold s1. rewrite cleanup_effects. exact Hz.
    + rewrite Hn. norm_state. unfold s1. rewrite cleanup_next_deferred. exact Hlt.
    + rewrite Ht. norm_state. intros t' c' Htc. apply (Hnt t' c').
      eapply lookup_weaken; [exact Htc |].
      etransitivity; [apply cleanup_timers | apply delete_subseteq].
    + intros H. exact (Hnw1 (Hw' H)).
  - apply (unanswered_step JSON_parse d (core s) (Bridge.SetProperty arg0 arg1) eq_refl Hu).
  - apply (unanswered_step JSON_parse d (core s) (Bridge.Ready callback) eq_refl Hu).
Qed.

(** While the host is silent, a request that has no timer stays unsettled. *)
Lemma lib_unanswered_run JSON_parse jQuery_type d inputs s :
  forallb host_silent inputs = true -> unanswered d (core s) ->
  unanswered d (core (run JSON_parse jQuery_type s inputs)).
Proof.
  revert s. induction inputs as [|i inputs IH]; intros s Hs Hu; [exact Hu |].
  simpl in Hs. apply andb_true_iff in Hs as [Hi Hs].
  apply IH; [exact Hs |]. apply lib_unanswered_step; assumption.
Qed.

(** A request sent with its timer disabled has nothing but the host's
    answer to settle it. *)
Lemma lib_send_unanswered name payload options msgid s :
  Inv s ->
  truthy (field (gadget (core s)) "msghost") = true ->
  is_finite_positive (request_timeout options (core s)) = false ->
  unanswered (sendMessageToTop name payload options msgid None s).2
             (core (sendMessageToTop name payload options msgid None s).1).
Proof.
  intros HI Hok Hoff. unfold sendMessageToTop. norm_lib. rewrite Hok. cbn [negb fst snd].
  unfold listen. rewrite Hoff. norm_lib.
  split; [| split; [| split]]; norm_lib.
  - rewrite calls_on_snoc. cbn [is_call_on].
    rewrite (inv_fresh _ (inv_core _ HI) (next_deferred (core s))); auto.
  - lia.
  - intros t c Ht. pose proof (timer_below s t c HI Ht). lia.
  - apply fresh_not_waiting; [apply (inv_core _ HI) | lia].
Qed.

(** The request of the initialization times out and is answered
    afterwards: it is rejected once, its listener is gone, and the answer
    changes nothing. *)
Example lib_late_answer_settles_once :
  let s1 := timeout 1 (initialize Scenario.page_exact "4721" None) in
  let s2 := run Scenario.json_parse_model (fun _ => None)
              (initialize Scenario.page_exact "4721" None) Scenario.lib_late_answer in
  calls_on 0 (effects (core s1)) = 1 /\
  listeners s1 = [Global] /\
  isTrustedEvent (Scenario.response "4721" (VStr "/pages")) (core s1) = true /\
  s2 = s1.
Proof.
  intros s1 s2. split; [vm_compute; reflexivity |]. split; [vm_compute; reflexivity |].
  split; [vm_compute; reflexivity |].
  unfold s2, Scenario.lib_late_answer, run. cbn [foldl step]. fold s1.
  unfold dispatch. change (listeners s1) with [Global]. cbn [foldl].
  unfold call_listener. rewrite bool_decide_true by (change (listeners s1) with [Global]; left).
  unfold on_core.
  rewrite (messageHandler_callback Scenario.json_parse_model (fun _ => None) _
             (VObj {[ "callback" := VStr "4721"; "payload" := VStr "/pages" ]}) "4721");
    [apply state_eta | reflexivity | reflexivity | discriminate].
Qed.

End LibProofs.
(** ** The host bridge: what both versions of [gadget.js] guarantee *)
Module HostBridge.
Import Bridge BridgeProofs LibProofs.

#[local] Open Scope nat_scope.

(** C3: a message whose origin is not the trusted origin, or whose source
    is not the top window, leaves the whole state as it was: no request is
    resolved, no event is dispatched, nothing is logged, and the registry,
    the listeners and the Environment are unchanged.  In the file with the
    registry the origin it is compared with is the one the initialization
    normalized; in [src/_lib/gadget.js] it is [gadget.msghost] as
    configured, and every listener of the window returns at once. *)
Theorem untrusted_message_ignored JSON_parse jQuery_type URL_origin page e thrown :
  (forall event s,
     origin event <> field (gadget s) "msghostOrigin" \/ source event <> Top ->
     messageHandler JSON_parse event s = s) /\
  field (gadget (initialize URL_origin page e thrown)) "msghostOrigin"
  = origin_value (normalizeOrigin URL_origin page (field (getUrlData page) "msghost")) /\
  (forall event s,
     origin event <> field (gadget (Lib.core s)) "msghost" \/ source event <> Top ->
     Lib.dispatch JSON_parse jQuery_type event s = s).
Proof.
  split; [| split; [apply initialize_msghostOrigin |]].
  - intros event s H. unfold messageHandler. rewrite (untrusted event s H). reflexivity.
  - intros event s H. apply dispatch_untrusted, lib_untrusted, H.
Qed.

Lemma untrusted_message_ignored_witness :
  let s0 := initialize Scenario.url_origin_model Scenario.page (Scenario.uuid "uuid-1") None in
  origin (Scenario.forged_response "uuid-1" VNull) <> field (gadget s0) "msghostOrigin" /\
  messageHandler Scenario.json_parse_model (Scenario.forged_response "uuid-1" VNull) s0 = s0.
Proof.
  intros s0.
  assert (origin (Scenario.forged_response "uuid-1" VNull)
          <> field (gadget s0) "msghostOrigin") as H by (vm_compute; discriminate).
  split; [exact H |].
  apply (untrusted_message_ignored Scenario.json_parse_model (fun _ => None)
           Scenario.url_origin_model Scenario.page (Scenario.uuid "uuid-1") None).
  left. exact H.
Defined.

(** Normalization in the file with the registry: a configuration string
    in an accepted form is normalized to the origin of the absolute
    [http(s)] URL it stands for; whatever the input, a usable result is a
    strict [scheme://host[:port]] origin; the wildcard, a string in none of
    the accepted forms, a string the platform cannot parse and a non-string
    are unusable; the initialization stores the result in
    [gadget.msghostOrigin]; and while the stored origin is unusable every
    [sendMessageToTop] rejects at once with the code ["missing_msghost"]:
    the rejection is its only effect, nothing is posted and nothing is
    registered.  [src/_lib/gadget.js], which does not normalize, rejects in
    the same way while [gadget.msghost] is not set. *)
Theorem normalization_and_missing_msghost JSON_parse jQuery_type URL_origin page :
  origin_contract URL_origin ->
  protocol page = "http:" \/ protocol page = "https:" ->
  (forall raw abs,
     accepted_form (protocol page) (trim raw) abs ->
     normalizeOrigin URL_origin page (VStr raw) = URL_origin abs /\
     is_absolute_http abs = true) /\
  (forall v o, normalizeOrigin URL_origin page v = Some o -> strict_origin o = true) /\
  (forall raw, trim raw = "*" -> normalizeOrigin URL_origin page (VStr raw) = None) /\
  (forall raw,
     is_absolute_http (trim raw) = false ->
     is_protocol_relative (trim raw) = false ->
     is_host_port (trim raw) = false ->
     normalizeOrigin URL_origin page (VStr raw) = None) /\
  (forall v, typeof v <> "string" -> normalizeOrigin URL_origin page v = None) /\
  (forall e thrown,
     field (gadget (initialize URL_origin page e thrown)) "msghostOrigin"
     = origin_value (normalizeOrigin URL_origin page (field (getUrlData page) "msghost"))) /\
  (forall e thrown inputs name payload options e' thrown',
     let s := run JSON_parse (initialize URL_origin page e thrown) inputs in
     truthy (field (gadget s) "msghostOrigin") = false ->
     let r := sendMessageToTop name payload options e' thrown' s in
     effects r.1 = effects s ++ [EReject r.2 (missing_msghost name)] /\
     get_prop (missing_msghost name) "code" = VStr "missing_msghost" /\
     deferreds r.1 !! r.2 = Some (Rejected (missing_msghost name)) /\
     pendingRequests r.1 = pendingRequests s /\
     timers r.1 = timers s /\
     gadget r.1 = gadget s) /\
  (forall msgid thrown inputs name payload options msgid' thrown',
     let s := Lib.run JSON_parse jQuery_type (Lib.initialize page msgid thrown) inputs in
     truthy (field (gadget (Lib.core s)) "msghost") = false ->
     let r := Lib.sendMessageToTop name payload options msgid' thrown' s in
     effects (Lib.core r.1)
     = effects (Lib.core s) ++ [EReject r.2 (Lib.missing_msghost name msgid')] /\
     get_prop (Lib.missing_msghost name msgid') "code" = VStr "missing_msghost" /\
     deferreds (Lib.core r.1) !! r.2 = Some (Rejected (Lib.missing_msghost name msgid')) /\
     Lib.listeners r.1 = Lib.listeners s /\
     timers (Lib.core r.1) = timers (Lib.core s) /\
     gadget (Lib.core r.1) = gadget (Lib.core s)).
Proof.
  intros Hcontract Hpage.
  split; [intros raw abs; apply normalizeOrigin_accepted, Hpage |].
  split; [intros v o; apply normalizeOrigin_strict; assumption |].
  split; [intros raw; apply normalizeOrigin_wildcard |].
  split; [intros raw; apply normalizeOrigin_other |].
  split; [intros v; apply normalizeOrigin_not_string |].
  split; [intros e thrown; apply initialize_msghostOrigin |].
  split.
  - intros e thrown inputs name payload options e' thrown' s Hno r. subst r.
    rewrite sendMessageToTop_missing.
    + norm_state. rewrite lookup_insert_eq. repeat split.
    + apply Fresh_reachable.
    + exact Hno.
  - intros msgid thrown inputs name payload options msgid' thrown' s Hno r. subst r.
    rewrite lib_sendMessageToTop_missing.
    + norm_pair. rewrite lookup_insert_eq. repeat split.
    + apply lib_Fresh_reachable.
    + exact Hno.
Qed.

Lemma normalization_and_missing_msghost_witness :
  origin_contract Scenario.url_origin_model /\
  protocol Scenario.page = "https:" /\
  normalizeOrigin Scenario.url_origin_model Scenario.page (VStr " https://CMS.example.edu/11/ ")
  = Some "https://cms.example.edu" /\
  normalizeOrigin Scenario.url_origin_model Scenario.page (VStr "*") = None.
Proof.
  split; [exact url_origin_model_contract |]. split; [reflexivity |].
  destruct (normalization_and_missing_msghost Scenario.json_parse_model (fun _ => None)
              Scenario.url_origin_model Scenario.page url_origin_model_contract
              (or_intror eq_refl)) as (Hacc & _ & Hwild & _).
  split.
  - destruct (Hacc " https://CMS.example.edu/11/ " "https://CMS.example.edu/11/") as [-> _].
    + exact (AbsoluteUrl "https:" "https" "CMS.example.edu/11/" (or_intror eq_refl)).
    + reflexivity.
  - apply Hwild. reflexivity.
Defined.

(** C1 as stated fails: a request sent with [{ timeoutMs: 0 }] has no
    timer, so when the host does not answer it neither [resolve] nor
    [reject] is ever called on its Deferred, whatever else the page does. *)
Lemma silent_request_never_settles :
  let s := run Scenario.json_parse_model
             (initialize Scenario.url_origin_model Scenario.page (Scenario.uuid "uuid-1") None)
             Scenario.silent_host in
  pendingRequests s !! "uuid-2" = Some (Entry 1 None "get-location") /\
  deferreds s !! 1 = Some Pending /\
  (forall inputs,
     forallb host_silent inputs = true ->
     calls_on 1 (effects (run Scenario.json_parse_model s inputs)) = 0).
Proof.
  intros s.
  assert (timers s = {[ 1 := TimeoutClosure "uuid-1" 0 "get-environment" (Fin 15000) ]})
    as Ht by (apply map_eq; intros k; vm_compute; destruct k as [|[|k]]; reflexivity).
  split; [vm_compute; reflexivity |]. split; [vm_compute; reflexivity |].
  intros inputs Hsilent.
  apply (unanswered_run Scenario.json_parse_model 1 inputs s Hsilent).
  split; [vm_compute; reflexivity |]. split; [vm_compute; lia |]. split.
  - intros t c. rewrite Ht. intros H.
    apply lookup_singleton_Some in H as [_ <-]. discriminate.
  - vm_compute. intros H. apply elem_of_nil in H. exact H.
Qed.

(** C1, amended: on every Deferred the code calls [resolve] or [reject] at
    most once in total; when [sendMessageToTop] returns, the request has
    either been rejected already or is registered with nothing called on
    it; a registered request is settled exactly once by whichever comes
    first of a trusted response carrying its callback identifier (resolve)
    and, when a finite positive timeout applies, the expiry of its timer
    (reject), either of which unregisters it; a request sent with its timer
    disabled is not settled as long as the host is silent; a response that
    arrives after the settlement settles nothing; and cleaning up twice
    equals cleaning up once.
    This holds for the registry of [pendingRequests] and [clearPending] and
    for the listeners of [src/_lib/gadget.js] and their [cleanup]. *)
Theorem settled_at_most_once JSON_parse jQuery_type URL_origin page e msgid thrown
    inputs lib_inputs :
  (let s := run JSON_parse (initialize URL_origin page e thrown) inputs in
   (forall d, calls_on d (effects s) <= 1) /\
   (forall name payload options e' thrown',
      let r := sendMessageToTop name payload options e' thrown' s in
      (calls_on r.2 (effects r.1) = 1 /\
       (truthy (field (gadget s) "msghostOrigin") = false \/ thrown' <> None))
      \/
      (calls_on r.2 (effects r.1) = 0 /\
       exists tid, pendingRequests r.1 !! makeCallbackId e' = Some (Entry r.2 tid name) /\
         (is_finite_positive (request_timeout options s) = true ->
          exists t, tid = Some t /\
            timers r.1 !! t
            = Some (TimeoutClosure (makeCallbackId e') r.2 name (request_timeout options s))))) /\
   (forall name payload options e' inputs',
      truthy (field (gadget s) "msghostOrigin") = true ->
      is_finite_positive (request_timeout options s) = false ->
      forallb host_silent inputs' = true ->
      let r := sendMessageToTop name payload options e' None s in
      calls_on r.2 (effects (run JSON_parse r.1 inputs')) = 0) /\
   (forall k en,
      pendingRequests s !! k = Some en ->
      calls_on (deferred en) (effects s) = 0 /\
      forall event message,
        isTrustedEvent event s = true ->
        parseMessageData JSON_parse (data event) s = (s, message) ->
        get_prop message "callback" = VStr k -> k <> "" ->
        calls_on (deferred en) (effects (messageHandler JSON_parse event s)) = 1 /\
        In (EResolve (deferred en) (get_prop message "payload"))
           (effects (messageHandler JSON_parse event s)) /\
        pendingRequests (messageHandler JSON_parse event s) !! k = None /\
        (forall t c, timers (messageHandler JSON_parse event s) !! t = Some c ->
           c_deferred c <> deferred en)) /\
   (forall t c,
      timers s !! t = Some c ->
      calls_on (c_deferred c) (effects s) = 0 /\
      calls_on (c_deferred c) (effects (timeout t s)) = 1 /\
      In (EReject (c_deferred c) (timed_out c)) (effects (timeout t s)) /\
      pendingRequests (timeout t s) !! c_msgid c = None /\
      timers (timeout t s) !! t = None) /\
   (forall k event message,
      pendingRequests s !! k = None ->
      parseMessageData JSON_parse (data event) s = (s, message) ->
      get_prop message "callback" = VStr k -> k <> "" ->
      messageHandler JSON_parse event s = s) /\
   (forall v s', clearPending v (clearPending v s') = clearPending v s')) /\
  (let s := Lib.run JSON_parse jQuery_type (Lib.initialize page msgid thrown) lib_inputs in
   (forall d, calls_on d (effects (Lib.core s)) <= 1) /\
   (forall name payload options msgid' thrown',
      let r := Lib.sendMessageToTop name payload options msgid' thrown' s in
      (calls_on r.2 (effects (Lib.core r.1)) = 1 /\
       (truthy (field (gadget (Lib.core s)) "msghost") = false \/ thrown' <> None))
      \/
      (calls_on r.2 (effects (Lib.core r.1)) = 0 /\
       Lib.PerRequest r.2 ∈ Lib.listeners r.1 /\
       exists tid,
         Lib.closures r.1 !! r.2
         = Some (Lib.Closure msgid' name (request_timeout options (Lib.core s)) tid false) /\
         (is_finite_positive (request_timeout options (Lib.core s)) = true ->
          exists t, tid = Some t /\
            timers (Lib.core r.1) !! t
            = Some (TimeoutClosure msgid' r.2 name (request_timeout options (Lib.core s)))))) /\
   (forall name payload options msgid' inputs',
      truthy (field (gadget (Lib.core s)) "msghost") = true ->
      is_finite_positive (request_timeout options (Lib.core s)) = false ->
      forallb Lib.host_silent inputs' = true ->
      let r := Lib.sendMessageToTop name payload options msgid' None s in
      calls_on r.2 (effects (Lib.core (Lib.run JSON_parse jQuery_type r.1 inputs'))) = 0) /\
   (forall d r,
      Lib.PerRequest d ∈ Lib.listeners s -> Lib.closures s !! d = Some r ->
      calls_on d (effects (Lib.core s)) = 0 /\
      forall event message,
        Lib.r_msgid r <> "" ->
        (forall d' r', Lib.PerRequest d' ∈ Lib.listeners s -> Lib.closures s !! d' = Some r' ->
           Lib.r_msgid r' = Lib.r_msgid r -> d' = d) ->
        Lib.isTrustedEvent event (Lib.core s) = true ->
        Lib.parseMessageData JSON_parse (data event) (Lib.core s) = (Lib.core s, message) ->
        get_prop message "callback" = VStr (Lib.r_msgid r) ->
        calls_on d (effects (Lib.core (Lib.dispatch JSON_parse jQuery_type event s))) = 1 /\
        In (EResolve d (get_prop message "payload"))
           (effects (Lib.core (Lib.dispatch JSON_parse jQuery_type event s))) /\
        (Lib.PerRequest d ∉ Lib.listeners (Lib.dispatch JSON_parse jQuery_type event s)) /\
        (forall t c,
           timers (Lib.core (Lib.dispatch JSON_parse jQuery_type event s)) !! t = Some c ->
           c_deferred c <> d)) /\
   (forall t c,
      timers (Lib.core s) !! t = Some c ->
      calls_on (c_deferred c) (effects (Lib.core s)) = 0 /\
      calls_on (c_deferred c) (effects (Lib.core (Lib.timeout t s))) = 1 /\
      In (EReject (c_deferred c) (timed_out c)) (effects (Lib.core (Lib.timeout t s))) /\
      (Lib.PerRequest (c_deferred c) ∉ Lib.listeners (Lib.timeout t s)) /\
      timers (Lib.core (Lib.timeout t s)) !! t = None) /\
   (forall d event,
      is_Some (Lib.closures s !! d) -> Lib.PerRequest d ∉ Lib.listeners s ->
      calls_on d (effects (Lib.core (Lib.dispatch JSON_parse jQuery_type event s)))
      = calls_on d (effects (Lib.core s))) /\
   (forall d s', Lib.cleanup d (Lib.cleanup d s') = Lib.cleanup d s')).
Proof.
  split.
  - intros s.
    pose proof (Inv_reachable JSON_parse URL_origin page e thrown inputs) as HI. fold s in HI.
    split; [exact (inv_once _ HI) |].
    split; [intros name payload options e' thrown'; apply send_outcome, HI |].
    split.
    { intros name payload options e' inputs' Hok Hoff Hsilent r.
      apply (unanswered_run JSON_parse r.2 inputs' r.1 Hsilent).
      apply send_unanswered; assumption. }
    split; [| split; [| split]].
    + intros k en Hk. split.
      * apply (inv_held _ HI). left. exists k, en. auto.
      * intros event message. apply response_resolves; assumption.
    + intros t c Ht. split.
      * apply (inv_held _ HI). right. left. exists t, c. auto.
      * apply timeout_rejects; assumption.
    + intros k event message. apply late_response_ignored.
    + intros v s'. apply clearPending_idempotent.
  - intros s.
    pose proof (lib_Inv_reachable JSON_parse jQuery_type page msgid thrown lib_inputs) as HI.
    fold s in HI.
    split; [exact (inv_once _ (Lib.inv_core _ HI)) |].
    split; [intros name payload options msgid' thrown'; apply lib_send_outcome, HI |].
    split.
    { intros name payload options msgid' inputs' Hok Hoff Hsilent r.
      apply (lib_unanswered_run JSON_parse jQuery_type r.2 inputs' r.1 Hsilent).
      apply lib_send_unanswered; assumption. }
    split; [| split; [| split]].
    + intros d r Hl Hr. split; [apply (Lib.inv_listener _ HI d Hl) |].
      intros event message Hne Huniq Htrust Hparse Hcb.
      apply (lib_response_resolves _ _ _ _ d r); assumption.
    + intros t c Ht. split.
      * destruct (Lib.inv_timer _ HI t c Ht) as [Hl _]. apply (Lib.inv_listener _ HI _ Hl).
      * apply lib_timeout_rejects; assumption.
    + intros d event Hc Hl. apply dispatch_keeps_settled; assumption.
    + intros d s'. apply cleanup_idempotent.
Qed.

Lemma settled_at_most_once_witness :
  let s := run Scenario.json_parse_model
             (initialize Scenario.url_origin_model Scenario.page (Scenario.uuid "uuid-1") None)
             Scenario.late_answer in
  pendingRequests s !! "uuid-2" = None /\
  calls_on 1 (effects s) = 1 /\
  messageHandler Scenario.json_parse_model (Scenario.response "uuid-2" (VStr "again")) s = s.
Proof.
  intros s.
  assert (pendingRequests s !! "uuid-2" = None) as Hk by (vm_compute; reflexivity).
  split; [exact Hk |]. split; [vm_compute; reflexivity |].
  destruct (settled_at_most_once Scenario.json_parse_model (fun _ => None)
              Scenario.url_origin_model Scenario.page (Scenario.uuid "uuid-1") "7" None
              Scenario.late_answer [])
    as ((_ & _ & _ & _ & _ & Hlate & _) & _).
  apply (Hlate "uuid-2" (Scenario.response "uuid-2" (VStr "again"))
           (VObj {[ "callback" := VStr "uuid-2"; "payload" := VStr "again" ]}));
    [exact Hk | reflexivity | reflexivity | discriminate].
Defined.

End HostBridge.

(** ** The API client: the shape of a call *)
Module CallProps.
Import CmsApi CallTrace CmsApiProofs.

Lemma settlements_app t1 t2 :
  settlements (t1 ++ t2) = (settlements t1 + settlements t2)%nat.
Proof. induction t1 as [|e t1 IH]; simpl; [reflexivity | rewrite IH; lia]. Qed.

Lemma total_delay_bound t bound :
  0 <= bound ->
  Forall (fun d => d <= bound) (delays t) ->
  total_delay t <= bound * Z.of_nat (length (delays t)).
Proof.
  intros Hb. unfold total_delay. induction (delays t) as [|d l IH]; intros H; simpl.
  - lia.
  - inversion H as [|? ? Hd Hl]; subst. specialize (IH Hl). lia.
Qed.

Section Ring.

Variable gadget : gmap string value.
Variable server : Z -> ajax_result.
Variable random : Z -> Z.
Variable cfg : call_config.
Variable params : gmap string value.
Variables retries delay : Z.

#[local] Abbreviation on_fail := (on_fail cfg params).
#[local] Abbreviation retriable := (retriable cfg params).
#[local] Abbreviation request := (request gadget cfg params).
#[local] Abbreviation ring_fuel f := (ring_fuel gadget server random f cfg params retries delay).
#[local] Abbreviation ring := (ring gadget server random cfg params retries delay).
#[local] Abbreviation backoff := (backoff random delay).

(** The [fail] callback settles nothing before its last statement. *)
Lemma settlements_on_fail x : settlements (snd (on_fail x)) = O.
Proof.
  unfold CmsApi.on_fail. destruct (negb (truthy (responseJSON x))); simpl; [reflexivity |].
  destruct (str_strict_eq _ _); reflexivity.
Qed.

(** The promise is settled once, by the last thing a call does. *)
Lemma ring_fuel_settles f count t :
  ring_fuel f count = Some t ->
  exists t0 e, t = t0 ++ [e] /\ is_settlement e = true /\ settlements t0 = O.
Proof.
  revert count t. induction f as [|f IH]; intros count t Ht; [discriminate |].
  rewrite ring_fuel_S in Ht.
  destruct (server count) as [body | x status error].
  - injection Ht as <-. exists [request], (EResolve body). auto.
  - destruct (retriable x && (count <? retries)).
    + destruct (ring_fuel f (count + 1)) as [rest|] eqn:Hrest; [| discriminate].
      simpl in Ht. injection Ht as <-.
      destruct (IH _ _ Hrest) as (t0 & e & -> & He & Hn).
      exists (request :: snd (on_fail x) ++ ESetTimeout (backoff count) :: t0), e.
      split; [| split; [exact He |]].
      * simpl. rewrite <- app_assoc. reflexivity.
      * simpl. rewrite settlements_app, settlements_on_fail. simpl. exact Hn.
    + injection Ht as <-.
      exists (request :: snd (on_fail x)), (EReject x status error).
      split; [reflexivity | split; [reflexivity |]].
      simpl. apply settlements_on_fail.
Qed.

(** A call makes at most one attempt more than its budget. *)
Lemma ring_fuel_attempts_le f count t :
  ring_fuel f count = Some t ->
  (1 <= attempts t <= S (Z.to_nat (retries - count)))%nat.
Proof.
  revert count t. induction f as [|f IH]; intros count t Ht; [discriminate |].
  rewrite ring_fuel_S in Ht.
  destruct (server count) as [body | x status error].
  - injection Ht as <-. simpl. lia.
  - destruct (retriable x && (count <? retries)) eqn:Hc.
    + destruct (ring_fuel f (count + 1)) as [rest|] eqn:Hrest; [| discriminate].
      simpl in Ht. injection Ht as <-.
      apply andb_true_iff in Hc as [_ Hlt]. apply Z.ltb_lt in Hlt.
      specialize (IH _ _ Hrest).
      simpl. rewrite attempts_app, attempts_on_fail. simpl. lia.
    + injection Ht as <-. rewrite attempts_stop. lia.
Qed.

Lemma ring_fuel_delays_capped f count t :
  ring_fuel f count = Some t -> Forall (fun d => d <= 15000) (delays t).
Proof.
  intros Ht. apply Forall_lookup_2. intros k d Hd.
  rewrite (ring_fuel_delays _ _ _ _ _ _ _ _ _ _ Ht k d Hd). apply backoff_le_cap.
Qed.

(** The attempt that ends a call: the first one that succeeds, fails with
    a code that is not retriable, or has used up the budget. *)
Lemma ring_fuel_outcome f count t (n : nat) :
  ring_fuel f count = Some t ->
  (forall j : nat, (j < n)%nat ->
     retried retries (count + Z.of_nat j) (server (count + Z.of_nat j)) = true) ->
  retried retries (count + Z.of_nat n) (server (count + Z.of_nat n)) = false ->
  attempts t = S n /\ last t = Some (outcome (server (count + Z.of_nat n))).
Proof.
  revert count t n. induction f as [|f IH]; intros count t n Ht Hbefore Hn; [discriminate |].
  rewrite ring_fuel_S in Ht.
  destruct n as [|n].
  - rewrite Z.add_0_r in Hn |- *.
    destruct (server count) as [body | x status error].
    + injection Ht as <-. auto.
    + simpl in Hn. rewrite <- (retriable_code_of cfg params) in Hn. rewrite Hn in Ht.
      injection Ht as <-. split; [apply attempts_stop | apply last_stop].
  - pose proof (Hbefore O ltac:(lia)) as H0. rewrite Z.add_0_r in H0.
    destruct (server count) as [body | x status error]; [discriminate H0 |].
    simpl in H0. rewrite <- (retriable_code_of cfg params) in H0. rewrite H0 in Ht.
    destruct (ring_fuel f (count + 1)) as [rest|] eqn:Hrest; [| discriminate].
    simpl in Ht. injection Ht as <-.
    destruct (IH (count + 1) rest n Hrest) as [Ha Hl].
    + intros j Hj. specialize (Hbefore (S j) ltac:(lia)).
      replace (count + 1 + Z.of_nat j) with (count + Z.of_nat (S j)) by lia. exact Hbefore.
    + replace (count + 1 + Z.of_nat n) with (count + Z.of_nat (S n)) by lia. exact Hn.
    + replace (count + 1 + Z.of_nat n) with (count + Z.of_nat (S n)) in Hl by lia.
      split.
      * simpl. rewrite attempts_app, attempts_on_fail. simpl. rewrite Ha. reflexivity.
      * rewrite app_comm_cons, last_app. simpl.
        destruct rest as [|e rest]; [discriminate Hl |].
        rewrite last_cons_cons, Hl. reflexivity.
Qed.

(** Every failed attempt logs the request's parameters. *)
Lemma ring_fuel_logs_parameters f count t (k : nat) x status error :
  ring_fuel f count = Some t ->
  (k < attempts t)%nat ->
  server (count + Z.of_nat k) = Failed x status error ->
  In (ELog "%cParameters : " [VStr style; VObj params]) t.
Proof.
  revert count t k. induction f as [|f IH]; intros count t k Ht Hk Hsrv; [discriminate |].
  rewrite ring_fuel_S in Ht.
  assert (forall x0, In (ELog "%cParameters : " [VStr style; VObj params])
                        (snd (on_fail x0))) as Hlog.
  { intros x0. unfold CmsApi.on_fail.
    destruct (negb (truthy (responseJSON x0))); simpl; tauto. }
  destruct (server count) as [body | x0 status0 error0] eqn:Hsrv0.
  - injection Ht as <-. simpl in Hk. assert (k = O) as -> by lia.
    rewrite Z.add_0_r, Hsrv0 in Hsrv. discriminate.
  - destruct (retriable x0 && (count <? retries)).
    + destruct (ring_fuel f (count + 1)) as [rest|] eqn:Hrest; [| discriminate].
      simpl in Ht. injection Ht as <-.
      right. apply in_or_app. left. apply Hlog.
    + injection Ht as <-. right. apply in_or_app. left. apply Hlog.
Qed.

(** The attempt that ends a call is the first one that is not retried. *)
Lemma ring_fuel_stops f count t :
  ring_fuel f count = Some t ->
  exists n : nat,
    attempts t = S n /\
    (forall j : nat, (j < n)%nat ->
       retried retries (count + Z.of_nat j) (server (count + Z.of_nat j)) = true) /\
    retried retries (count + Z.of_nat n) (server (count + Z.of_nat n)) = false /\
    last t = Some (outcome (server (count + Z.of_nat n))).
Proof.
  revert count t. induction f as [|f IH]; intros count t Ht; [discriminate |].
  rewrite ring_fuel_S in Ht.
  destruct (server count) as [body | x status error] eqn:Hsrv.
  - injection Ht as <-. exists O. rewrite Z.add_0_r, Hsrv.
    split; [reflexivity |]. split; [intros j Hj; lia |]. auto.
  - destruct (retriable x && (count <? retries)) eqn:Hc.
    + destruct (ring_fuel f (count + 1)) as [rest|] eqn:Hrest; [| discriminate].
      simpl in Ht. injection Ht as <-.
      destruct (IH _ _ Hrest) as (n & Ha & Hbefore & Hn & Hl).
      exists (S n).
      replace (count + Z.of_nat (S n)) with (count + 1 + Z.of_nat n) by lia.
      split; [| split; [| split; [exact Hn |]]].
      * simpl. rewrite attempts_app, attempts_on_fail. simpl. rewrite Ha. reflexivity.
      * intros [|j] Hj.
        -- rewrite Z.add_0_r, Hsrv. simpl.
           rewrite <- (retriable_code_of cfg params). exact Hc.
        -- replace (count + Z.of_nat (S j)) with (count + 1 + Z.of_nat j) by lia.
           apply Hbefore. lia.
      * rewrite app_comm_cons, last_app. simpl.
        destruct rest as [|e rest]; [discriminate Hl |].
        rewrite last_cons_cons, Hl. reflexivity.
    + injection Ht as <-. exists O. rewrite Z.add_0_r, Hsrv.
      split; [apply attempts_stop |]. split; [intros j Hj; lia |].
      split; [| apply last_stop].
      simpl. rewrite <- (retriable_code_of cfg params). exact Hc.
Qed.

End Ring.

Section Call.

Variable gadget : gmap string value.
Variable server : Z -> ajax_result.
Variable random : Z -> Z.

#[local] Abbreviation call := (call gadget server random).
#[local] Abbreviation token := (field gadget "token").

(** A call on a request config that was just built around the caller's
    object [l]: the trace it runs and what it leaves in the store. *)
Lemma call_fresh_ring m e r dl l o h :
  h !! l = Some (CParams o) ->
  let c := fresh (dom h) in
  let cfg := CallConfig m e (Some l) r dl in
  let o' := <["authorization_token" := token]> o in
  exists h' t,
    call c (<[c := CConfig cfg]> h) = Some (h', t) /\
    CmsApi.ring gadget server random cfg o' (default 3 r) (default 1000 dl) 0 = Some t /\
    h' !! l = Some (CParams o') /\
    (forall l' v, l' <> l -> h !! l' = Some v -> h' !! l' = Some v).
Proof.
  intros Hl c cfg o'.
  assert (h !! c = None) as Hc by (apply not_elem_of_dom, is_fresh).
  assert (c <> l) as Hne by (intros Heq; rewrite Heq in Hc; congruence).
  destruct (call_spec gadget server random c (<[c := CConfig cfg]> h) cfg)
    as (d & o0 & t & Hd & Hring & Hcall).
  - apply lookup_insert_eq.
  - exists o. simpl. rewrite lookup_insert_ne by exact Hne. exact Hl.
  - simpl in Hd. destruct Hd as [-> Hd].
    rewrite lookup_insert_ne in Hd by exact Hne.
    assert (o0 = o) as -> by congruence.
    eexists _, t. split; [exact Hcall |]. split; [exact Hring |].
    split; [apply lookup_insert_eq |].
    intros l' v Hl' Hv.
    assert (l' <> c) as Hc' by (intros Heq; rewrite Heq in Hv; congruence).
    rewrite !lookup_insert_ne by congruence. exact Hv.
Qed.

(** An endpoint method runs [ring(0)] with the method, path and budget of
    its target, on the caller's object after the defaults and the token. *)
Lemma endpoint_method_ring rules tgt l o h :
  h !! l = Some (CParams o) ->
  let o' := apply_rules rules o in
  let params := <["authorization_token" := token]> o' in
  exists h' t cfg,
    endpoint_method gadget server random rules tgt (Some l) h = Some (h', t) /\
    method cfg = target_method tgt /\
    endpoint cfg = target_path tgt o' /\
    CmsApi.ring gadget server random cfg params (target_retries tgt) 1000 0 = Some t /\
    h' !! l = Some (CParams params) /\
    (forall l' v, l' <> l -> h !! l' = Some v -> h' !! l' = Some v).
Proof.
  intros Hl o' params. unfold endpoint_method. rewrite Hl. simpl. fold o'.
  set (h1 := <[l := CParams o']> h).
  assert (h1 !! l = Some (CParams o')) as Hl1 by apply lookup_insert_eq.
  assert (forall h' : heap,
            (forall l' v, l' <> l -> h1 !! l' = Some v -> h' !! l' = Some v) ->
            forall l' v, l' <> l -> h !! l' = Some v -> h' !! l' = Some v) as Hframe.
  { intros h' H l' v Hne Hv. apply H; [exact Hne |].
    unfold h1. rewrite lookup_insert_ne by congruence. exact Hv. }
  destruct tgt as [path | path | r path | m path | m e]; simpl.
  - destruct (call_fresh_ring "GET" (path o') (Some 3) None l o' h1 Hl1)
      as (h' & t & Hcall & Hring & Hl' & Hf).
    match type of Hring with CmsApi.ring _ _ _ ?cfg _ _ _ _ = _ => exists h', t, cfg end.
    split; [exact Hcall |]. split; [reflexivity |].
    split; [reflexivity |]. split; [exact Hring |]. split; [exact Hl' |].
    apply Hframe, Hf.
  - destruct (call_fresh_ring "POST" (path o') (Some 3) None l o' h1 Hl1)
      as (h' & t & Hcall & Hring & Hl' & Hf).
    match type of Hring with CmsApi.ring _ _ _ ?cfg _ _ _ _ = _ => exists h', t, cfg end.
    split; [exact Hcall |]. split; [reflexivity |].
    split; [reflexivity |]. split; [exact Hring |]. split; [exact Hl' |].
    apply Hframe, Hf.
  - destruct (call_fresh_ring "POST" (path o') (Some (default 0 r)) None l o' h1 Hl1)
      as (h' & t & Hcall & Hring & Hl' & Hf).
    match type of Hring with CmsApi.ring _ _ _ ?cfg _ _ _ _ = _ => exists h', t, cfg end.
    split; [exact Hcall |]. split; [reflexivity |].
    split; [reflexivity |]. split; [exact Hring |]. split; [exact Hl' |].
    apply Hframe, Hf.
  - destruct (String.eqb _ _).
    + destruct (call_fresh_ring "POST" (path o') (Some 3) None l o' h1 Hl1)
        as (h' & t & Hcall & Hring & Hl' & Hf).
      match type of Hring with CmsApi.ring _ _ _ ?cfg _ _ _ _ = _ => exists h', t, cfg end.
    split; [exact Hcall |]. split; [reflexivity |].
    split; [reflexivity |]. split; [exact Hring |]. split; [exact Hl' |].
    apply Hframe, Hf.
    + destruct (call_fresh_ring "GET" (path o') (Some 3) None l o' h1 Hl1)
        as (h' & t & Hcall & Hring & Hl' & Hf).
      match type of Hring with CmsApi.ring _ _ _ ?cfg _ _ _ _ = _ => exists h', t, cfg end.
    split; [exact Hcall |]. split; [reflexivity |].
    split; [reflexivity |]. split; [exact Hring |]. split; [exact Hl' |].
    apply Hframe, Hf.
  - destruct (call_fresh_ring m e None None l o' h1 Hl1)
      as (h' & t & Hcall & Hring & Hl' & Hf).
    match type of Hring with CmsApi.ring _ _ _ ?cfg _ _ _ _ = _ => exists h', t, cfg end.
    split; [exact Hcall |]. split; [reflexivity |].
    split; [reflexivity |]. split; [exact Hring |]. split; [exact Hl' |].
    apply Hframe, Hf.
Qed.

End Call.

(** The defaults of an endpoint method leave alone what the caller set to
    a truthy value, and remove nothing. *)
Lemma apply_rule_keeps config r k v :
  config !! k = Some v -> truthy v = true -> apply_rule config r !! k = Some v.
Proof.
  intros Hk Hv. destruct r as [key f | key d]; simpl.
  - destruct (decide (key = k)) as [-> | Hne].
    + unfold field. rewrite Hk. simpl. rewrite Hv. simpl. exact Hk.
    + destruct (negb _); [rewrite lookup_insert_ne by exact Hne |]; exact Hk.
  - destruct (decide (key = k)) as [-> | Hne].
    + unfold field. rewrite Hk. simpl. destruct v; try exact Hk. discriminate Hv.
    + destruct (field config key); try exact Hk;
        rewrite lookup_insert_ne by exact Hne; exact Hk.
Qed.

Lemma apply_rules_keeps rules config k v :
  config !! k = Some v -> truthy v = true -> apply_rules rules config !! k = Some v.
Proof.
  unfold apply_rules. revert config.
  induction rules as [|r rules IH]; intros config Hk Hv; simpl; [exact Hk |].
  apply IH; [apply apply_rule_keeps; assumption | exact Hv].
Qed.

Lemma apply_rule_other config r k :
  k <> rule_key r -> apply_rule config r !! k = config !! k.
Proof.
  intros Hne. destruct r as [key f | key d]; simpl in *.
  - destruct (negb _); [rewrite lookup_insert_ne by congruence |]; reflexivity.
  - destruct (field config key); try reflexivity;
      rewrite lookup_insert_ne by congruence; reflexivity.
Qed.

Lemma apply_rules_other rules config k :
  k ∉ map rule_key rules -> apply_rules rules config !! k = config !! k.
Proof.
  unfold apply_rules. revert config.
  induction rules as [|r rules IH]; intros config Hk; simpl; [reflexivity |].
  simpl in Hk. rewrite not_elem_of_cons in Hk. destruct Hk as [Hne Hk].
  rewrite IH by exact Hk. apply apply_rule_other, Hne.
Qed.

Lemma apply_rule_some config r k :
  is_Some (config !! k) -> is_Some (apply_rule config r !! k).
Proof.
  intros Hk. destruct r as [key f | key d]; simpl.
  - destruct (negb _); [| exact Hk].
    destruct (decide (key = k)) as [-> | Hne];
      [rewrite lookup_insert_eq; eauto | rewrite lookup_insert_ne by exact Hne; exact Hk].
  - destruct (field config key); try exact Hk.
    destruct (decide (key = k)) as [-> | Hne];
      [rewrite lookup_insert_eq; eauto | rewrite lookup_insert_ne by exact Hne; exact Hk].
Qed.

Lemma apply_rules_some rules config k :
  is_Some (config !! k) -> is_Some (apply_rules rules config !! k).
Proof.
  unfold apply_rules. revert config.
  induction rules as [|r rules IH]; intros config Hk; simpl; [exact Hk |].
  apply IH, apply_rule_some, Hk.
Qed.

End CallProps.

(** ** The API client: what a call does *)
Module CallFacts.
Import CmsApi CallTrace CmsApiProofs CallProps.

(** X1: the promise returned by [call] is settled exactly once, by the last
    thing the call does: nothing is resolved or rejected before, and no
    request, log line or timer follows the settlement. *)
Theorem call_settles_once gadget server random c h cfg :
  h !! c = Some (CConfig cfg) ->
  data_is_object h cfg ->
  exists h' t t0 e,
    call gadget server random c h = Some (h', t) /\
    t = t0 ++ [e] /\ is_settlement e = true /\ settlements t0 = O /\
    settlements t = 1%nat.
Proof.
  intros Hc Hdata.
  destruct (call_total gadget server random c h cfg Hc Hdata) as (h' & t & Hcall).
  destruct (call_ring _ _ _ _ _ _ _ _ Hc Hcall) as (cfg' & o' & _ & _ & Hring).
  destruct (ring_fuel_settles _ _ _ _ _ _ _ _ _ _ Hring) as (t0 & e & -> & He & Hn).
  exists h', (t0 ++ [e]), t0, e. repeat split; try assumption.
  rewrite settlements_app, Hn. simpl. rewrite He. reflexivity.
Qed.

Lemma call_settles_once_witness :
  exists h' t t0 e,
    call Scenario.env Scenario.session_lost_at_1 Scenario.random_bits 0%nat
      Scenario.store_config = Some (h', t) /\
    t = t0 ++ [e] /\ is_settlement e = true /\ settlements t0 = O /\
    settlements t = 1%nat.
Proof.
  apply (call_settles_once _ _ _ 0%nat Scenario.store_config
           (CallConfig "GET" "/files/list" None (Some 2) (Some 100))).
  - reflexivity.
  - exact I.
Defined.

(** X2: a call makes at least one HTTP attempt and at most one more than
    its retry budget ([config.retries], 3 when absent); it schedules one
    timer between two consecutive attempts, none longer than 15 s, so the
    scheduled delays add up to at most 15 s per retry.  A budget of zero or
    less means a single attempt and no timer. *)
Theorem call_budget gadget server random c h cfg :
  h !! c = Some (CConfig cfg) ->
  data_is_object h cfg ->
  exists h' t,
    call gadget server random c h = Some (h', t) /\
    (1 <= attempts t <= S (Z.to_nat (default 3%Z (retries cfg))))%nat /\
    S (length (delays t)) = attempts t /\
    Forall (fun d => d <= 15000) (delays t) /\
    total_delay t <= 15000 * Z.max 0 (default 3 (retries cfg)) /\
    (default 3 (retries cfg) <= 0 -> attempts t = 1%nat /\ delays t = []).
Proof.
  intros Hc Hdata.
  destruct (call_total gadget server random c h cfg Hc Hdata) as (h' & t & Hcall).
  destruct (call_ring _ _ _ _ _ _ _ _ Hc Hcall) as (cfg' & o' & _ & _ & Hring).
  pose proof (ring_fuel_attempts_le _ _ _ _ _ _ _ _ _ _ Hring) as Ha.
  pose proof (ring_fuel_delays_length _ _ _ _ _ _ _ _ _ _ Hring) as Hlen.
  pose proof (ring_fuel_delays_capped _ _ _ _ _ _ _ _ _ _ Hring) as Hcap.
  rewrite Z.sub_0_r in Ha.
  exists h', t. split; [exact Hcall |]. split; [exact Ha |]. split; [exact Hlen |].
  split; [exact Hcap |]. split.
  - pose proof (total_delay_bound t 15000 ltac:(lia) Hcap). lia.
  - intros Hle. assert (attempts t = 1%nat) as H1 by lia. split; [exact H1 |].
    rewrite H1 in Hlen. destruct (delays t); [reflexivity | discriminate Hlen].
Qed.

Lemma call_budget_witness :
  exists h' t,
    call Scenario.env Scenario.always_timeout Scenario.random_bits 0%nat
      Scenario.store_config = Some (h', t) /\
    (1 <= attempts t <= 3)%nat /\
    S (length (delays t)) = attempts t /\
    Forall (fun d => d <= 15000) (delays t) /\
    total_delay t <= 30000 /\
    (2 <= 0 -> attempts t = 1%nat /\ delays t = []).
Proof.
  apply (call_budget Scenario.env Scenario.always_timeout Scenario.random_bits 0%nat
           Scenario.store_config (CallConfig "GET" "/files/list" None (Some 2) (Some 100))).
  - reflexivity.
  - exact I.
Defined.

(** X3: the attempt that settles the promise is the first one that is not
    retried: the first that succeeds, or fails without a retriable code, or
    fails when [count] has reached the budget.  The promise resolves with
    that attempt's response, or rejects with its failure. *)
Theorem call_outcome gadget server random c h cfg :
  h !! c = Some (CConfig cfg) ->
  data_is_object h cfg ->
  exists h' t (n : nat),
    call gadget server random c h = Some (h', t) /\
    attempts t = S n /\
    (forall j : nat, (j < n)%nat ->
       retried (default 3 (retries cfg)) (Z.of_nat j) (server (Z.of_nat j)) = true) /\
    retried (default 3 (retries cfg)) (Z.of_nat n) (server (Z.of_nat n)) = false /\
    last t = Some (outcome (server (Z.of_nat n))).
Proof.
  intros Hc Hdata.
  destruct (call_total gadget server random c h cfg Hc Hdata) as (h' & t & Hcall).
  destruct (call_ring _ _ _ _ _ _ _ _ Hc Hcall) as (cfg' & o' & _ & _ & Hring).
  destruct (ring_fuel_stops _ _ _ _ _ _ _ _ _ _ Hring) as (n & Ha & Hbefore & Hn & Hl).
  exists h', t, n. split; [exact Hcall |]. split; [exact Ha |].
  split; [| split]; [intros j Hj; apply (Hbefore j Hj) | exact Hn | exact Hl].
Qed.

Lemma call_outcome_witness :
  exists h' t (n : nat),
    call Scenario.env Scenario.session_lost_at_1 Scenario.random_bits 0%nat
      Scenario.store_config = Some (h', t) /\
    attempts t = S n /\
    (forall j : nat, (j < n)%nat ->
       retried 2 (Z.of_nat j) (Scenario.session_lost_at_1 (Z.of_nat j)) = true) /\
    retried 2 (Z.of_nat n) (Scenario.session_lost_at_1 (Z.of_nat n)) = false /\
    last t = Some (outcome (Scenario.session_lost_at_1 (Z.of_nat n))).
Proof.
  apply (call_outcome Scenario.env Scenario.session_lost_at_1 Scenario.random_bits 0%nat
           Scenario.store_config (CallConfig "GET" "/files/list" None (Some 2) (Some 100))).
  - reflexivity.
  - exact I.
Defined.

(** X4: when an attempt fails, the call logs the request's parameters to
    the console, and these hold the authorization token. *)
Theorem failed_call_logs_token gadget server random c h cfg x status error :
  h !! c = Some (CConfig cfg) ->
  data_is_object h cfg ->
  server 0 = Failed x status error ->
  exists h' t params,
    call gadget server random c h = Some (h', t) /\
    In (ELog "%cParameters : " [VStr style; VObj params]) t /\
    params !! "authorization_token" = Some (field gadget "token").
Proof.
  intros Hc Hdata Hsrv.
  destruct (call_spec gadget server random c h cfg Hc Hdata)
    as (d & o & t & _ & Hring & Hcall).
  simpl in Hring.
  eexists _, t, _. split; [exact Hcall |]. split.
  - apply (ring_fuel_logs_parameters _ _ _ _ _ _ _ _ _ _ O x status error Hring).
    + pose proof (ring_fuel_attempts_le _ _ _ _ _ _ _ _ _ _ Hring). lia.
    + exact Hsrv.
  - apply lookup_insert_eq.
Qed.

Lemma failed_call_logs_token_witness :
  exists h' t params,
    call Scenario.env Scenario.always_denied Scenario.random_bits 0%nat
      Scenario.store_config = Some (h', t) /\
    In (ELog "%cParameters : " [VStr style; VObj params]) t /\
    params !! "authorization_token" = Some (field Scenario.env "token").
Proof.
  apply (failed_call_logs_token Scenario.env Scenario.always_denied Scenario.random_bits
           0%nat Scenario.store_config
           (CallConfig "GET" "/files/list" None (Some 2) (Some 100))
           (JqXHR (VObj {[ "code" := VStr "ACCESS_DENIED"; "error" := VStr "denied" ]}) 403)
           "error" "Forbidden").
  - reflexivity.
  - exact I.
  - reflexivity.
Defined.

(** X5: [call] changes nothing its caller can reach except [config.data]
    and the [authorization_token] of that object: the other fields of
    [config], the other keys of [config.data] and every other object are as
    before. *)
Theorem call_frame gadget server random c h cfg :
  h !! c = Some (CConfig cfg) ->
  data_is_object h cfg ->
  exists h' t d,
    call gadget server random c h = Some (h', t) /\
    h' !! c = Some (CConfig (CallConfig (method cfg) (endpoint cfg) (Some d)
                               (retries cfg) (delay cfg))) /\
    (forall d0, data cfg = Some d0 -> d = d0) /\
    (forall o, h !! d = Some (CParams o) ->
       exists o', h' !! d = Some (CParams o') /\
         forall k, k <> "authorization_token" -> o' !! k = o !! k) /\
    (forall l v, l <> c -> l <> d -> h !! l = Some v -> h' !! l = Some v).
Proof.
  intros Hc Hdata.
  destruct (call_spec gadget server random c h cfg Hc Hdata)
    as (d & o & t & Hd & _ & Hcall).
  assert (c <> d) as Hne.
  { destruct (data cfg) as [d'|].
    - destruct Hd as [-> Hd]. intros Heq. rewrite Heq in Hc. congruence.
    - destruct Hd as [-> _]. intros Heq.
      assert (h !! fresh (dom h) = None) as Hf by (apply not_elem_of_dom, is_fresh).
      rewrite <- Heq in Hf. congruence. }
  eexists _, t, d. split; [exact Hcall |]. split; [| split; [| split]].
  - rewrite lookup_insert_ne, lookup_insert_eq by congruence. reflexivity.
  - intros d0 Hd0. rewrite Hd0 in Hd. destruct Hd as [-> _]. reflexivity.
  - intros o1 Ho1.
    assert (o = o1) as <-.
    { destruct (data cfg) as [d'|].
      - destruct Hd as [_ Hd]. congruence.
      - destruct Hd as [-> _].
        assert (h !! fresh (dom h) = None) as Hf by (apply not_elem_of_dom, is_fresh).
        congruence. }
    eexists. split; [apply lookup_insert_eq |].
    intros k Hk. rewrite lookup_insert_ne by congruence. reflexivity.
  - intros l v Hlc Hld Hv. rewrite !lookup_insert_ne by congruence. exact Hv.
Qed.

Lemma call_frame_witness :
  exists h' t d,
    call Scenario.env Scenario.always_denied Scenario.random_bits 1%nat
      Scenario.store_caller = Some (h', t) /\
    h' !! 1%nat = Some (CConfig (CallConfig "POST" "/files/publish" (Some d) None None)) /\
    (forall d0, Some 0%nat = Some d0 -> d = d0) /\
    (forall o, Scenario.store_caller !! d = Some (CParams o) ->
       exists o', h' !! d = Some (CParams o') /\
         forall k, k <> "authorization_token" -> o' !! k = o !! k) /\
    (forall l v, l <> 1%nat -> l <> d -> Scenario.store_caller !! l = Some v ->
       h' !! l = Some v).
Proof.
  apply (call_frame Scenario.env Scenario.always_denied Scenario.random_bits 1%nat
           Scenario.store_caller
           (CallConfig "POST" "/files/publish" (Some 0%nat) None None)).
  - reflexivity.
  - exists Scenario.caller_object. reflexivity.
Defined.

Section Endpoints.

Variable gadget : gmap string value.
Variable server : Z -> ajax_result.
Variable random : Z -> Z.

#[local] Abbreviation token := (field gadget "token").
#[local] Abbreviation endpoint_method := (endpoint_method gadget server random).

Lemma endpoint_method_keeps rules tgt l o h :
  h !! l = Some (CParams o) ->
  exists h' t o',
    endpoint_method rules tgt (Some l) h = Some (h', t) /\
    h' !! l = Some (CParams o') /\
    (forall k v, k <> "authorization_token" -> o !! k = Some v -> truthy v = true ->
       o' !! k = Some v) /\
    (forall k, is_Some (o !! k) -> is_Some (o' !! k)) /\
    (forall l' v, l' <> l -> h !! l' = Some v -> h' !! l' = Some v).
Proof.
  intros Hl.
  destruct (endpoint_method_ring gadget server random rules tgt l o h Hl)
    as (h' & t & cfg & Hm & _ & _ & _ & Hl' & Hf).
  eexists h', t, _. split; [exact Hm |]. split; [exact Hl' |]. split; [| split; [| exact Hf]].
  - intros k v Hk Hv Ht. rewrite lookup_insert_ne by congruence.
    apply apply_rules_keeps; assumption.
  - intros k [v Hv].
    destruct (decide (k = "authorization_token")) as [-> | Hk].
    + rewrite lookup_insert_eq. eauto.
    + rewrite lookup_insert_ne by congruence.
      apply apply_rules_some. eauto.
Qed.

Lemma endpoint_method_shape rules tgt l o h :
  (target_method tgt = "GET" \/ target_method tgt = "POST") ->
  (forall config, String.prefix "/" (target_path tgt config) = true) ->
  h !! l = Some (CParams o) ->
  exists h' t type path params rest,
    endpoint_method rules tgt (Some l) h = Some (h', t) /\
    t = EAjax type (to_string (field gadget "apihost") +:+ path) params token :: rest /\
    (type = "GET" \/ type = "POST") /\
    String.prefix "/" path = true /\
    params !! "authorization_token" = Some token /\
    h' !! l = Some (CParams params) /\
    (forall e, In e rest -> is_ajax e = true ->
       e = EAjax type (to_string (field gadget "apihost") +:+ path) params token).
Proof.
  intros Htype Hpath Hl.
  destruct (endpoint_method_ring gadget server random rules tgt l o h Hl)
    as (h' & t & cfg & Hm & Hmeth & Hend & Hring & Hl' & _).
  destruct (ring_fuel_requests _ _ _ _ _ _ _ _ _ _ Hring) as [[rest ->] Hall].
  eexists h', _, (method cfg), (endpoint cfg), _, rest.
  split; [exact Hm |]. split; [reflexivity |]. split; [| split; [| split; [| split]]].
  - rewrite Hmeth. exact Htype.
  - rewrite Hend. apply Hpath.
  - apply lookup_insert_eq.
  - exact Hl'.
  - intros e Hin He. apply Hall; [right; exact Hin | exact He].
Qed.

Lemma endpoint_method_attempts rules tgt l o h :
  h !! l = Some (CParams o) ->
  exists h' t,
    endpoint_method rules tgt (Some l) h = Some (h', t) /\
    (1 <= attempts t <= S (Z.to_nat (target_retries tgt)))%nat /\
    S (length (delays t)) = attempts t.
Proof.
  intros Hl.
  destruct (endpoint_method_ring gadget server random rules tgt l o h Hl)
    as (h' & t & cfg & Hm & _ & _ & Hring & _).
  pose proof (ring_fuel_attempts_le _ _ _ _ _ _ _ _ _ _ Hring) as Ha.
  rewrite Z.sub_0_r in Ha.
  exists h', t. split; [exact Hm |]. split; [exact Ha |].
  apply (ring_fuel_delays_length _ _ _ _ _ _ _ _ _ _ Hring).
Qed.

Lemma endpoint_method_default_budget rules tgt l o h :
  target_retries tgt <= 3 ->
  h !! l = Some (CParams o) ->
  exists h' t,
    endpoint_method rules tgt (Some l) h = Some (h', t) /\ (1 <= attempts t <= 4)%nat.
Proof.
  intros Hr Hl.
  destruct (endpoint_method_attempts rules tgt l o h Hl) as (h' & t & Hm & Ha & _).
  exists h', t. split; [exact Hm | lia].
Qed.

End Endpoints.

(** X6: the defaults an endpoint method writes into its caller's object
    never replace a value the caller set to something truthy, and never
    remove a key; apart from the token and these defaults, the method
    changes nothing in the store. *)
Theorem endpoint_defaults_keep gadget server random this m r :
  Forall (fun meth : option loc -> heap -> option (heap * list effect) =>
            forall l o h, h !! l = Some (CParams o) ->
              exists h' t o',
                meth (Some l) h = Some (h', t) /\
                h' !! l = Some (CParams o') /\
                (forall k v, k <> "authorization_token" -> o !! k = Some v ->
                   truthy v = true -> o' !! k = Some v) /\
                (forall k, is_Some (o !! k) -> is_Some (o' !! k)) /\
                (forall l' v, l' <> l -> h !! l' = Some v -> h' !! l' = Some v))
         (all_endpoints gadget server random this m r).
Proof.
  unfold all_endpoints.
  repeat (apply Forall_cons; split;
          [intros l o h Hl; exact (endpoint_method_keeps _ _ _ _ _ _ _ _ Hl) |]).
  apply Forall_nil_2.
Qed.

(** X7: every endpoint method starts with one request whose verb is GET or
    POST and whose URL is [gadget.apihost] followed by a path that starts
    with a slash; the request carries the token both as the
    [X-Auth-Token] header and as the [authorization_token] parameter, its
    parameters are the caller's object as the method leaves it, and every
    retry repeats that same request. *)
Theorem endpoint_request_shape gadget server random this m r :
  Forall (fun meth : option loc -> heap -> option (heap * list effect) =>
            forall l o h, h !! l = Some (CParams o) ->
              exists h' t type path params rest,
                meth (Some l) h = Some (h', t) /\
                t = EAjax type (to_string (field gadget "apihost") +:+ path) params
                      (field gadget "token") :: rest /\
                (type = "GET" \/ type = "POST") /\
                String.prefix "/" path = true /\
                params !! "authorization_token" = Some (field gadget "token") /\
                h' !! l = Some (CParams params) /\
                (forall e, In e rest -> is_ajax e = true ->
                   e = EAjax type (to_string (field gadget "apihost") +:+ path) params
                         (field gadget "token")))
         (all_endpoints gadget server random this m r).
Proof.
  unfold all_endpoints.
  repeat (apply Forall_cons; split;
          [intros l o h Hl;
           refine (endpoint_method_shape _ _ _ _ _ _ _ _ _ _ Hl);
           [simpl; try destruct (String.eqb _ _); auto | intros config; reflexivity] |]).
  apply Forall_nil_2.
Qed.

(** X8: called without a [retries] argument, every endpoint method makes
    between one and four HTTP attempts, and [files_copy] makes exactly one:
    it schedules no retry, and the promise is settled with the outcome of
    that attempt. *)
Theorem endpoint_attempts gadget server random this m :
  Forall (fun meth : option loc -> heap -> option (heap * list effect) =>
            forall l o h, h !! l = Some (CParams o) ->
              exists h' t,
                meth (Some l) h = Some (h', t) /\ (1 <= attempts t <= 4)%nat)
         (all_endpoints gadget server random this m None) /\
  (forall l o h, h !! l = Some (CParams o) ->
     exists h' t,
       files_copy gadget server random this None (Some l) h = Some (h', t) /\
       attempts t = 1%nat /\ delays t = [] /\
       last t = Some (outcome (server 0))).
Proof.
  split.
  - unfold all_endpoints.
    repeat (apply Forall_cons; split;
            [intros l o h Hl;
             refine (endpoint_method_default_budget _ _ _ _ _ _ _ _ _ Hl); simpl; lia |]).
    apply Forall_nil_2.
  - intros l o h Hl. unfold files_copy.
    destruct (endpoint_method_ring gadget server random
                [IfFalsy "site" (fun _ => site this)]
                (ViaPostRetries None (fun _ => "/files/copy")) l o h Hl)
      as (h' & t & cfg & Hm & _ & _ & Hring & _).
    exists h', t. split; [exact Hm |].
    pose proof (ring_fuel_attempts_le _ _ _ _ _ _ _ _ _ _ Hring) as Ha.
    pose proof (ring_fuel_delays_length _ _ _ _ _ _ _ _ _ _ Hring) as Hlen.
    simpl in Ha.
    assert (attempts t = 1%nat) as H1 by lia.
    destruct (ring_fuel_stops _ _ _ _ _ _ _ _ _ _ Hring) as (n & Hn & _ & _ & Hlast).
    assert (n = O) as -> by lia.
    split; [exact H1 |]. split; [| exact Hlast].
    rewrite H1 in Hlen. destruct (delays t); [reflexivity | discriminate Hlen].
Qed.

End CallFacts.

(** ** The URL data of [getUrlData] *)
Module UrlData.
Import Bridge.

Lemma split_slash_nonempty s : split_slash s <> [].
Proof.
  destruct s as [|c s]; simpl; [discriminate |].
  destruct (Ascii.eqb c "/"); [discriminate |].
  destruct (split_slash s); discriminate.
Qed.

(** [(a + "/" + b).split("/")] is [a.split("/")] followed by [b.split("/")]. *)
Lemma split_slash_app a b :
  split_slash (a +:+ "/" +:+ b) = split_slash a ++ split_slash b.
Proof.
  induction a as [|c a IH]; simpl; [reflexivity |].
  destruct (Ascii.eqb c "/"); simpl.
  - rewrite <- IH. reflexivity.
  - change (String.append a (String "/" b)) with (a +:+ "/" +:+ b). rewrite IH.
    pose proof (split_slash_nonempty a).
    destruct (split_slash a) as [|x r]; [congruence | reflexivity].
Qed.

Lemma split_slash_segment s :
  all_chars (fun c => negb (Ascii.eqb c "/")) s = true -> split_slash s = [s].
Proof.
  induction s as [|c s IH]; simpl; [reflexivity |].
  intros H. apply andb_true_iff in H as [Hc Hs].
  apply negb_true_iff in Hc. rewrite Hc, (IH Hs). reflexivity.
Qed.

Lemma at_minus_2_two l a b : at_minus_2 (l ++ [a; b]) = VStr a.
Proof.
  unfold at_minus_2. rewrite length_app. simpl.
  destruct (Nat.ltb_spec (length l + 2) 2) as [H | H]; [lia |].
  replace (length l + 2 - 2)%nat with (length l + 0)%nat by lia.
  rewrite lookup_app_r by lia.
  replace (length l + 0 - length l)%nat with O by lia. reflexivity.
Qed.

(** The query parameters are copied in order over the two derived fields. *)
Lemma copy_params_last (d : gmap string value) l1 k v l2 :
  k ∉ l2.*1 ->
  foldl (fun d kv => <[kv.1 := VStr kv.2]> d) d (l1 ++ (k, v) :: l2) !! k = Some (VStr v).
Proof.
  intros Hk. rewrite foldl_app. simpl.
  generalize (foldl (fun d kv => <[kv.1 := VStr kv.2]> d) d l1). intros d1.
  assert (forall d0 : gmap string value, d0 !! k = Some (VStr v) ->
            foldl (fun d kv => <[kv.1 := VStr kv.2]> d) d0 l2 !! k = Some (VStr v)) as H.
  { induction l2 as [|[k' v'] l2 IH]; intros d0 Hd0; simpl; [exact Hd0 |].
    rewrite fmap_cons, not_elem_of_cons in Hk. destruct Hk as [Hne Hk].
    apply IH; [exact Hk |]. rewrite lookup_insert_ne by (simpl in Hne; congruence).
    exact Hd0. }
  apply H, lookup_insert_eq.
Qed.

Lemma copy_params_other (d : gmap string value) l k :
  k ∉ l.*1 ->
  foldl (fun d kv => <[kv.1 := VStr kv.2]> d) d l !! k = d !! k.
Proof.
  revert d. induction l as [|[k' v'] l IH]; intros d Hk; simpl; [reflexivity |].
  rewrite fmap_cons, not_elem_of_cons in Hk. destruct Hk as [Hne Hk].
  rewrite IH by exact Hk. apply lookup_insert_ne. simpl in Hne. congruence.
Qed.

(** X9: what [getUrlData] returns.  A query parameter is copied under its
    name (any name but [__proto__], which an assignment does not store),
    and the last one wins when the name is repeated; [url] is the
    origin followed by the path and [name] is the second-to-last segment of
    the path, unless a query parameter has that name; and nothing else is
    in the object. *)
Theorem getUrlData_fields page :
  (forall k v l1 l2,
     k <> "__proto__" ->
     searchParams page = l1 ++ (k, v) :: l2 -> k ∉ l2.*1 ->
     getUrlData page !! k = Some (VStr v)) /\
  ("url" ∉ (searchParams page).*1 ->
   getUrlData page !! "url" = Some (VStr (href_origin page +:+ pathname page))) /\
  (forall dir name file,
     "name" ∉ (searchParams page).*1 ->
     pathname page = dir +:+ "/" +:+ name +:+ "/" +:+ file ->
     all_chars (fun c => negb (Ascii.eqb c "/")) name = true ->
     all_chars (fun c => negb (Ascii.eqb c "/")) file = true ->
     getUrlData page !! "name" = Some (VStr name)) /\
  (forall k,
     k ∉ (searchParams page).*1 -> k <> "url" -> k <> "name" ->
     getUrlData page !! k = None).
Proof.
  unfold getUrlData. split; [| split; [| split]].
  - intros k v l1 l2 _ -> Hk. apply copy_params_last, Hk.
  - intros Hk. rewrite copy_params_other by exact Hk.
    rewrite lookup_insert_ne by discriminate. apply lookup_insert_eq.
  - intros dir name file Hk -> Hname Hfile. rewrite copy_params_other by exact Hk.
    rewrite lookup_insert_eq. f_equal.
    rewrite split_slash_app, split_slash_app.
    rewrite (split_slash_segment name Hname), (split_slash_segment file Hfile).
    apply at_minus_2_two.
  - intros k Hk Hurl Hname. rewrite copy_params_other by exact Hk.
    rewrite !lookup_insert_ne by congruence. apply lookup_empty.
Qed.

End UrlData.

(** ** The host bridge: what is posted, and the callbacks of [ready] *)
Module BridgeFlow.
Import Bridge BridgeTrace BridgeProofs.

Lemma posted_app t1 t2 : posted (t1 ++ t2) = posted t1 ++ posted t2.
Proof.
  induction t1 as [|e t1 IH]; simpl; [reflexivity |].
  destruct (is_postMessage e); simpl; rewrite IH; reflexivity.
Qed.

Lemma runs_app cb t1 t2 : runs cb (t1 ++ t2) = (runs cb t1 + runs cb t2)%nat.
Proof. induction t1 as [|e t1 IH]; simpl; [reflexivity | rewrite IH; lia]. Qed.

Lemma waiting_app cb w1 w2 : waiting cb (w1 ++ w2) = (waiting cb w1 + waiting cb w2)%nat.
Proof.
  induction w1 as [|[[cb'|] d] w1 IH]; simpl; [reflexivity | rewrite IH; lia | exact IH].
Qed.

Lemma quiet_refl s : quiet s s.
Proof. split; reflexivity. Qed.

Lemma quiet_trans s1 s2 s3 : quiet s1 s2 -> quiet s2 s3 -> quiet s1 s3.
Proof.
  intros [H1 H2] [H3 H4]. split; [congruence |]. intros cb. rewrite H4. apply H2.
Qed.

Lemma quiet_same s s' :
  effects s' = effects s -> ready_waiters s' = ready_waiters s -> quiet s s'.
Proof. intros He Hw. unfold quiet, account. rewrite He, Hw. auto. Qed.

Lemma quiet_emit e s :
  is_postMessage e = false -> (forall cb, is_run cb e = false) -> quiet s (emit e s).
Proof.
  intros Hp Hr. unfold quiet, account. simpl. split.
  - rewrite posted_app. simpl. rewrite Hp. apply app_nil_r.
  - intros cb. rewrite runs_app. simpl. rewrite Hr. lia.
Qed.

Lemma quiet_mark d o s : quiet s (mark d o s).
Proof. apply quiet_same; [apply mark_effects | apply mark_waiters]. Qed.

Lemma quiet_set a0 a1 s : quiet s (set a0 a1 s).
Proof. apply quiet_same; [apply set_effects | apply set_waiters']. Qed.

Lemma quiet_clearPending v s : quiet s (clearPending v s).
Proof. apply quiet_same; [apply clearPending_effects | apply clearPending_waiters]. Qed.

(** The handlers of [ready] post nothing and run their callbacks. *)
Lemma run_waiters_flow ws s :
  posted (effects (foldl run_waiter s ws)) = posted (effects s) /\
  forall cb, runs cb (effects (foldl run_waiter s ws))
             = (runs cb (effects s) + waiting cb ws)%nat.
Proof.
  revert s. induction ws as [|[cb' d] ws IH]; intros s; simpl.
  - split; [reflexivity | intros cb; lia].
  - destruct (IH (run_waiter s (cb', d))) as [Hp Hr]. rewrite Hp. split.
    + unfold run_waiter. rewrite mark_effects. simpl.
      destruct cb'; simpl; rewrite !posted_app; simpl; rewrite ?app_nil_r; reflexivity.
    + intros cb. rewrite Hr. unfold run_waiter. rewrite mark_effects. simpl.
      destruct cb' as [cb'|]; simpl; rewrite !runs_app; simpl; lia.
Qed.

Lemma quiet_trigger n p s : quiet s (trigger n p s).
Proof.
  unfold trigger. destruct (String.eqb n "ready"); [| apply quiet_emit; reflexivity].
  destruct (run_waiters_flow (ready_waiters (emit (ETrigger n p) s))
              (set_waiters [] (emit (ETrigger n p) s))) as [Hp Hr].
  unfold quiet, account. rewrite Hp, run_waiters_waiters. simpl. split.
  - rewrite posted_app. apply app_nil_r.
  - intros cb. rewrite Hr. simpl. rewrite runs_app. simpl. lia.
Qed.

Lemma quiet_set_gadget g s : quiet s (set_gadget g s).
Proof. apply quiet_same; reflexivity. Qed.

Lemma quiet_run_chain c o s : quiet s (run_chain c o s).
Proof.
  destruct c as [u]. destruct o as [| payload | err]; simpl; [apply quiet_refl | |].
  - unfold initialization_then.
    eapply quiet_trans; [| apply quiet_trigger].
    eapply quiet_trans; [| apply quiet_set_gadget].
    eapply quiet_trans; [| apply quiet_emit; reflexivity].
    destruct (truthy _); [apply quiet_set | apply quiet_refl].
  - unfold initialization_fail.
    eapply quiet_trans; [| apply quiet_trigger].
    eapply quiet_trans; [| apply quiet_set_gadget].
    apply quiet_emit; reflexivity.
Qed.

Lemma quiet_settle d o s : quiet s (settle d o s).
Proof.
  unfold settle. destruct (deferreds s !! d) as [[]|]; try apply quiet_refl.
  destruct (chains s !! d); [| apply quiet_mark].
  eapply quiet_trans; [apply quiet_mark | apply quiet_run_chain].
Qed.

Lemma quiet_resolve d v s : quiet s (resolve d v s).
Proof.
  unfold resolve. eapply quiet_trans; [| apply quiet_settle]. apply quiet_emit; reflexivity.
Qed.

Lemma quiet_reject d v s : quiet s (reject d v s).
Proof.
  unfold reject. eapply quiet_trans; [| apply quiet_settle]. apply quiet_emit; reflexivity.
Qed.

Lemma quiet_new_deferred s : quiet s (new_deferred s).1.
Proof. apply quiet_same; reflexivity. Qed.

Lemma quiet_register msgid name ms s : quiet s (register msgid name ms s).1.
Proof.
  unfold register. simpl. destruct (is_finite_positive ms); apply quiet_same; reflexivity.
Qed.

Lemma register_gadget msgid name ms s : gadget (register msgid name ms s).1 = gadget s.
Proof. unfold register. simpl. destruct (is_finite_positive ms); reflexivity. Qed.

Lemma quiet_timeout t s : quiet s (timeout t s).
Proof.
  unfold timeout. destruct (timers s !! t); [| apply quiet_refl].
  eapply quiet_trans; [| apply quiet_reject].
  eapply quiet_trans; [| apply quiet_clearPending]. apply quiet_same; reflexivity.
Qed.

Lemma quiet_parse JSON_parse raw s : quiet s (parseMessageData JSON_parse raw s).1.
Proof.
  unfold parseMessageData. destruct raw; try apply quiet_refl.
  destruct (JSON_parse _); [apply quiet_refl | apply quiet_emit; reflexivity].
Qed.

Lemma quiet_messageHandler JSON_parse event s : quiet s (messageHandler JSON_parse event s).
Proof.
  unfold messageHandler. destruct (negb (isTrustedEvent event s)); [apply quiet_refl |].
  pose proof (quiet_parse JSON_parse (data event) s) as Hq.
  destruct (parseMessageData JSON_parse (data event) s) as [s1 message]. simpl in Hq.
  destruct (negb (truthy message)); [exact Hq |].
  destruct (truthy (get_prop message "callback")).
  - destruct (pending_get s1 _); [| exact Hq].
    eapply quiet_trans; [exact Hq |].
    eapply quiet_trans; [apply quiet_clearPending | apply quiet_resolve].
  - destruct (get_prop message "name"); try exact Hq.
    destruct (negb (is_empty_string _)); [| exact Hq].
    eapply quiet_trans; [exact Hq | apply quiet_trigger].
Qed.

(** [sendMessageToTop] posts the envelope when the origin is usable and
    nothing throws, and is quiet otherwise. *)
Lemma sendMessageToTop_flow name payload options e thrown s :
  posted (effects (sendMessageToTop name payload options e thrown s).1)
  = posted (effects s) ++ sent (Send name payload options e thrown) s /\
  forall cb, account cb (sendMessageToTop name payload options e thrown s).1 = account cb s.
Proof.
  unfold sendMessageToTop, sent.
  destruct (truthy (field (gadget s) "msghostOrigin")) eqn:Ho; simpl.
  - pose proof (quiet_register (makeCallbackId e) name (request_timeout options s) s) as Hq.
    pose proof (register_gadget (makeCallbackId e) name (request_timeout options s) s) as Hg.
    destruct (register _ _ _ s) as [s3 d]. simpl in Hq, Hg.
    destruct thrown as [exn|]; simpl.
    + destruct (quiet_trans _ _ _ Hq
                  (quiet_trans _ _ _ (quiet_clearPending (VStr (makeCallbackId e)) s3)
                     (quiet_reject d exn _))) as [Hp Ha].
      rewrite app_nil_r. split; [exact Hp | exact Ha].
    + destruct Hq as [Hp Ha]. split.
      * rewrite posted_app, Hp, Hg. reflexivity.
      * intros cb. rewrite <- Ha. unfold account. simpl. rewrite runs_app. simpl. lia.
  - destruct (quiet_trans _ _ _ (quiet_new_deferred s)
                (quiet_reject (new_deferred s).2 (missing_msghost name) _)) as [Hp Ha].
    destruct thrown; rewrite app_nil_r; simpl; auto.
Qed.

(** [ready] hands its callback over: it runs at once or waits. *)
Lemma ready_flow callback s :
  posted (effects (ready callback s).1) = posted (effects s) /\
  forall cb, account cb (ready callback s).1
             = (account cb s +
                match callback with
                | Some cb' => if Nat.eqb cb cb' then 1 else 0
                | None => 0
                end)%nat.
Proof.
  unfold ready. simpl.
  destruct (truthy (field (gadget s) "isReady")); simpl.
  - match goal with |- context [resolve ?d ?v ?s0] =>
      destruct (quiet_resolve d v s0) as [Hp Ha] end.
    rewrite Hp. split.
    + destruct callback; simpl; rewrite ?posted_app; simpl; rewrite ?app_nil_r; reflexivity.
    + intros cb. rewrite Ha. unfold account.
      destruct callback; simpl; rewrite ?runs_app; simpl; lia.
  - split; [reflexivity |]. intros cb. unfold account. simpl.
    rewrite waiting_app. destruct callback; simpl; lia.
Qed.

Lemma step_flow JSON_parse s i :
  posted (effects (step JSON_parse s i)) = posted (effects s) ++ sent i s /\
  forall cb, account cb (step JSON_parse s i) = (account cb s + handed cb [i])%nat.
Proof.
  destruct i as [name payload options e thrown | event | t | a0 a1 | callback]; simpl.
  - destruct (sendMessageToTop_flow name payload options e thrown s) as [Hp Ha].
    split; [exact Hp |]. intros cb. rewrite Ha. lia.
  - destruct (quiet_messageHandler JSON_parse event s) as [Hp Ha].
    rewrite Hp, app_nil_r. split; [reflexivity |]. intros cb. rewrite Ha. lia.
  - destruct (quiet_timeout t s) as [Hp Ha].
    rewrite Hp, app_nil_r. split; [reflexivity |]. intros cb. rewrite Ha. lia.
  - destruct (quiet_set a0 a1 s) as [Hp Ha].
    rewrite Hp, app_nil_r. split; [reflexivity |]. intros cb. rewrite Ha. lia.
  - destruct (ready_flow callback s) as [Hp Ha].
    rewrite Hp, app_nil_r. split; [reflexivity |]. intros cb. rewrite Ha.
    destruct callback; simpl; lia.
Qed.

Lemma handed_app cb i1 i2 : handed cb (i1 ++ i2) = (handed cb i1 + handed cb i2)%nat.
Proof.
  induction i1 as [|i i1 IH]; simpl; [reflexivity |].
  destruct i as [| | | |[cb'|]]; simpl; rewrite ?IH; lia.
Qed.

Lemma run_account JSON_parse inputs s cb :
  account cb (run JSON_parse s inputs) = (account cb s + handed cb inputs)%nat.
Proof.
  revert s. induction inputs as [|i inputs IH]; intros s; [simpl; lia |].
  change (run JSON_parse s (i :: inputs)) with (run JSON_parse (step JSON_parse s i) inputs).
  rewrite IH. destruct (step_flow JSON_parse s i) as [_ Ha]. rewrite Ha.
  change (i :: inputs) with ([i] ++ inputs). rewrite handed_app. lia.
Qed.

End BridgeFlow.

(** ** [src/_lib/gadget.js]: what is posted, and the callbacks of [ready] *)
Module LibFlow.
Import Bridge BridgeTrace BridgeProofs Lib LibProofs BridgeFlow.

Lemma quiet_cleanup d s : quiet (core s) (core (cleanup d s)).
Proof. apply quiet_same; [apply cleanup_effects | apply cleanup_waiters]. Qed.

Lemma quiet_lib_parse JSON_parse raw s : quiet s (parseMessageData JSON_parse raw s).1.
Proof.
  unfold parseMessageData. destruct raw; try apply quiet_refl.
  destruct (JSON_parse _); [apply quiet_refl | apply quiet_emit; reflexivity].
Qed.

Lemma quiet_request_listener JSON_parse d event s :
  quiet (core s) (core (request_listener JSON_parse d event s)).
Proof.
  unfold request_listener. destruct (closures s !! d); [| apply quiet_refl].
  destruct (negb (isTrustedEvent event (core s))); [apply quiet_refl |].
  pose proof (quiet_lib_parse JSON_parse (data event) (core s)) as Hq.
  destruct (parseMessageData JSON_parse (data event) (core s)) as [c1 parsed].
  simpl in Hq.
  destruct (negb (truthy parsed)); [exact Hq |].
  destruct (str_strict_eq _ _); [| exact Hq].
  eapply quiet_trans; [exact Hq |].
  eapply quiet_trans; [apply (quiet_cleanup d (State c1 (closures s) (listeners s))) |].
  apply quiet_resolve.
Qed.

Lemma quiet_lib_messageHandler JSON_parse jQuery_type event s :
  quiet s (messageHandler JSON_parse jQuery_type event s).
Proof.
  unfold messageHandler. destruct (negb (isTrustedEvent event s)); [apply quiet_refl |].
  pose proof (quiet_lib_parse JSON_parse (data event) s) as Hq.
  destruct (parseMessageData JSON_parse (data event) s) as [s1 message]. simpl in Hq.
  destruct (negb (truthy message)); [exact Hq |].
  destruct (truthy (get_prop message "callback")); [exact Hq |].
  destruct (event_type jQuery_type _); [| exact Hq].
  eapply quiet_trans; [exact Hq | apply quiet_trigger].
Qed.

Lemma quiet_call_listener JSON_parse jQuery_type event s l :
  quiet (core s) (core (call_listener JSON_parse jQuery_type event s l)).
Proof.
  unfold call_listener. destruct (bool_decide _); [| apply quiet_refl].
  destruct l as [d|]; [apply quiet_request_listener | apply quiet_lib_messageHandler].
Qed.

Lemma quiet_calls JSON_parse jQuery_type event ls s :
  quiet (core s) (core (foldl (call_listener JSON_parse jQuery_type event) s ls)).
Proof.
  revert s. induction ls as [|l ls IH]; intros s; simpl; [apply quiet_refl |].
  eapply quiet_trans; [apply quiet_call_listener | apply IH].
Qed.

Lemma quiet_dispatch JSON_parse jQuery_type event s :
  quiet (core s) (core (dispatch JSON_parse jQuery_type event s)).
Proof. apply quiet_calls. Qed.

Lemma quiet_lib_timeout t s : quiet (core s) (core (timeout t s)).
Proof.
  unfold timeout. destruct (timers (core s) !! t) as [c|]; [| apply quiet_refl].
  eapply quiet_trans; [| apply quiet_reject].
  eapply quiet_trans; [| apply quiet_cleanup]. apply quiet_same; reflexivity.
Qed.

Lemma quiet_listen d msgid name ms s : quiet (core s) (core (listen d msgid name ms s)).
Proof.
  destruct (listen_core d msgid name ms s) as (_ & He & _ & Hw).
  apply quiet_same; assumption.
Qed.

Lemma lib_sendMessageToTop_flow name payload options msgid thrown s :
  posted (effects (core (sendMessageToTop name payload options msgid thrown s).1))
  = posted (effects (core s)) ++ lib_sent (Send name payload options msgid thrown) s /\
  forall cb, account cb (core (sendMessageToTop name payload options msgid thrown s).1)
             = account cb (core s).
Proof.
  unfold sendMessageToTop, lib_sent. cbn [new_deferred fst snd gadget].
  destruct (truthy (field (gadget (core s)) "msghost")) eqn:Ho; cbn [negb].
  - match goal with |- context [listen ?d _ _ ?ms ?s0] =>
      pose proof (quiet_listen d msgid name ms s0) as Hq;
      destruct (listen_core d msgid name ms s0) as (Hg & _);
      set (s2 := listen d msgid name ms s0) in *
    end.
    cbn [core gadget] in Hq, Hg.
    assert (quiet (core s) (core s2)) as Hq'.
    { eapply quiet_trans; [| exact Hq]. apply quiet_same; reflexivity. }
    destruct thrown as [exn|]; cbn [fst].
    + match goal with |- context [on_core (reject ?d0 exn) (cleanup ?d1 s2)] =>
        destruct (quiet_trans _ _ _ Hq'
                    (quiet_trans _ _ _ (quiet_cleanup d1 s2)
                       (quiet_reject d0 exn (core (cleanup d1 s2))))) as [Hp Ha]
      end.
      rewrite app_nil_r. split; [exact Hp | exact Ha].
    + destruct Hq' as [Hp Ha]. split.
      * cbn [on_core core emit effects]. rewrite posted_app, Hp, Hg. reflexivity.
      * intros cb. rewrite <- Ha. unfold account. cbn [on_core core emit effects ready_waiters].
        rewrite runs_app. simpl. lia.
  - match goal with |- context [on_core (reject ?d0 ?v) ?s0] =>
      destruct (quiet_trans (core s) (core s0) _ ltac:(apply quiet_same; reflexivity)
                  (quiet_reject d0 v (core s0))) as [Hp Ha]
    end.
    destruct thrown; rewrite app_nil_r; split; try exact Hp; exact Ha.
Qed.

Lemma lib_step_flow JSON_parse jQuery_type s i :
  posted (effects (core (step JSON_parse jQuery_type s i)))
  = posted (effects (core s)) ++ lib_sent i s /\
  forall cb, account cb (core (step JSON_parse jQuery_type s i))
             = (account cb (core s) + lib_handed cb [i])%nat.
Proof.
  destruct i as [name payload options msgid thrown | event | t | a0 a1 | callback];
    cbn [step].
  - destruct (lib_sendMessageToTop_flow name payload options msgid thrown s) as [Hp Ha].
    split; [exact Hp |]. intros cb. rewrite Ha. simpl. lia.
  - destruct (quiet_dispatch JSON_parse jQuery_type event s) as [Hp Ha].
    rewrite Hp. simpl. rewrite app_nil_r. split; [reflexivity |].
    intros cb. rewrite Ha. lia.
  - destruct (quiet_lib_timeout t s) as [Hp Ha].
    rewrite Hp. simpl. rewrite app_nil_r. split; [reflexivity |].
    intros cb. rewrite Ha. lia.
  - destruct (quiet_set a0 a1 (core s)) as [Hp Ha]. cbn [on_core core].
    rewrite Hp. simpl. rewrite app_nil_r. split; [reflexivity |].
    intros cb. rewrite Ha. lia.
  - destruct (ready_flow callback (core s)) as [Hp Ha]. cbn [on_core core].
    rewrite Hp. simpl. rewrite app_nil_r. split; [reflexivity |].
    intros cb. rewrite Ha. destruct callback; simpl; lia.
Qed.

Lemma lib_handed_app cb i1 i2 :
  lib_handed cb (i1 ++ i2) = (lib_handed cb i1 + lib_handed cb i2)%nat.
Proof.
  induction i1 as [|i i1 IH]; simpl; [reflexivity |].
  destruct i as [| | | |[cb'|]]; simpl; rewrite ?IH; lia.
Qed.

Lemma lib_run_account JSON_parse jQuery_type inputs s cb :
  account cb (core (run JSON_parse jQuery_type s inputs))
  = (account cb (core s) + lib_handed cb inputs)%nat.
Proof.
  revert s. induction inputs as [|i inputs IH]; intros s; [simpl; lia |].
  change (run JSON_parse jQuery_type s (i :: inputs))
    with (run JSON_parse jQuery_type (step JSON_parse jQuery_type s i) inputs).
  rewrite IH. destruct (lib_step_flow JSON_parse jQuery_type s i) as [_ Ha]. rewrite Ha.
  change (i :: inputs) with ([i] ++ inputs). rewrite lib_handed_app. lia.
Qed.

End LibFlow.

(** ** The host bridge: requests, callbacks and broadcasts *)
Module BridgeFacts.
Import Bridge BridgeTrace BridgeProofs LibProofs BridgeFlow LibFlow.

Lemma quiet_attach d c s : quiet s (attach d c s).
Proof.
  unfold attach. destruct (deferreds s !! d) as [[]|]; try apply quiet_refl.
  - apply quiet_same; reflexivity.
  - apply (quiet_run_chain c (Resolved payload) s).
  - apply (quiet_run_chain c (Rejected reason) s).
Qed.

Lemma sent_requests i s : Forall is_request (sent i s).
Proof.
  destruct i as [name payload options e [exn|] | | | |]; simpl; try apply Forall_nil_2.
  destruct (truthy (field (gadget s) "msghostOrigin")) eqn:Ho; [| apply Forall_nil_2].
  apply Forall_cons. split; [| apply Forall_nil_2].
  exists name, payload, (makeCallbackId e), s, (field (gadget s) "msghostOrigin"). auto.
Qed.

Lemma lib_sent_requests i s : Forall is_request (lib_sent i s).
Proof.
  destruct i as [name payload options msgid [exn|] | | | |]; simpl; try apply Forall_nil_2.
  destruct (truthy (field (gadget (Lib.core s)) "msghost")) eqn:Ho; [| apply Forall_nil_2].
  apply Forall_cons. split; [| apply Forall_nil_2].
  exists name, payload, msgid, (Lib.core s), (field (gadget (Lib.core s)) "msghost"). auto.
Qed.

(** What the script has posted and handed over when it has run. *)
Lemma initialize_flow URL_origin page e thrown :
  Forall is_request (posted (effects (initialize URL_origin page e thrown))) /\
  forall cb, account cb (initialize URL_origin page e thrown) = O.
Proof.
  unfold initialize, collectData, getEnvironment.
  match goal with |- context [sendMessageToTop _ _ _ e thrown ?s0'] =>
    set (s0 := s0') end.
  destruct (sendMessageToTop_flow "get-environment" VUndef VUndef e thrown s0) as [Hp Ha].
  pose proof (sent_requests (Send "get-environment" VUndef VUndef e thrown) s0) as Hs.
  assert (posted (effects s0) = []) as Hp0 by reflexivity.
  assert (forall cb, account cb s0 = O) as Ha0 by reflexivity.
  destruct (sendMessageToTop "get-environment" VUndef VUndef e thrown s0) as [s3 d].
  cbn [fst] in Hp, Ha.
  destruct (quiet_attach d (Initialization (getUrlData page)) s3) as [Hp' Ha'].
  rewrite Hp', Hp, Hp0. split; [exact Hs |].
  intros cb. rewrite Ha', Ha. apply Ha0.
Qed.

Lemma lib_initialize_flow page msgid thrown :
  Forall is_request (posted (effects (Lib.core (Lib.initialize page msgid thrown)))) /\
  forall cb, account cb (Lib.core (Lib.initialize page msgid thrown)) = O.
Proof.
  unfold Lib.initialize, Lib.collectData.
  match goal with |- context [Lib.sendMessageToTop _ _ _ msgid thrown ?s0'] =>
    set (s0 := s0') end.
  destruct (lib_sendMessageToTop_flow "get-environment" VUndef VUndef msgid thrown s0)
    as [Hp Ha].
  pose proof (lib_sent_requests (Lib.Send "get-environment" VUndef VUndef msgid thrown) s0)
    as Hs.
  assert (posted (effects (Lib.core s0)) = []) as Hp0 by reflexivity.
  assert (forall cb, account cb (Lib.core s0) = O) as Ha0 by reflexivity.
  destruct (Lib.sendMessageToTop "get-environment" VUndef VUndef msgid thrown s0)
    as [s3 d].
  cbn [fst] in Hp, Ha. cbn [Lib.core Lib.on_core].
  destruct (quiet_attach d (Initialization (getUrlData page)) (Lib.core s3)) as [Hp' Ha'].
  rewrite Hp', Hp, Hp0. split; [exact Hs |].
  intros cb. rewrite Ha', Ha. apply Ha0.
Qed.

Lemma run_requests JSON_parse inputs s :
  Forall is_request (posted (effects s)) ->
  Forall is_request (posted (effects (run JSON_parse s inputs))).
Proof.
  revert s. induction inputs as [|i inputs IH]; intros s Hs; [exact Hs |].
  change (run JSON_parse s (i :: inputs)) with (run JSON_parse (step JSON_parse s i) inputs).
  apply IH. destruct (step_flow JSON_parse s i) as [Hp _]. rewrite Hp.
  apply Forall_app. split; [exact Hs | apply sent_requests].
Qed.

Lemma lib_run_requests JSON_parse jQuery_type inputs s :
  Forall is_request (posted (effects (Lib.core s))) ->
  Forall is_request (posted (effects (Lib.core (Lib.run JSON_parse jQuery_type s inputs)))).
Proof.
  revert s. induction inputs as [|i inputs IH]; intros s Hs; [exact Hs |].
  change (Lib.run JSON_parse jQuery_type s (i :: inputs))
    with (Lib.run JSON_parse jQuery_type (Lib.step JSON_parse jQuery_type s i) inputs).
  apply IH. destruct (lib_step_flow JSON_parse jQuery_type s i) as [Hp _]. rewrite Hp.
  apply Forall_app. split; [exact Hs | apply lib_sent_requests].
Qed.

(** X10: the page posts to the host only when a request is sent: a call
    of [sendMessageToTop] posts one envelope, to the stored origin, when
    that origin is usable and nothing throws, and nothing otherwise; a
    message from the host, a timeout, [gadget.set] and [gadget.ready] post
    nothing.  Everything the page ever posts is a request envelope with a
    target that is not falsy.  The same holds in [src/_lib/gadget.js],
    whose target is [gadget.msghost] as configured.  The messages of the
    host are those whose event, namespaces apart, is not named like a
    method of [gadget]. *)
Theorem posted_only_by_requests JSON_parse jQuery_type URL_origin page e msgid thrown
    inputs lib_inputs :
  (forall s i,
     invokes_method JSON_parse i = false ->
     posted (effects (step JSON_parse s i)) = posted (effects s) ++ sent i s) /\
  (forall s i,
     lib_names_method JSON_parse jQuery_type i = false ->
     posted (effects (Lib.core (Lib.step JSON_parse jQuery_type s i)))
     = posted (effects (Lib.core s)) ++ lib_sent i s) /\
  (forallb (fun i => negb (invokes_method JSON_parse i)) inputs = true ->
   Forall is_request
     (posted (effects (run JSON_parse (initialize URL_origin page e thrown) inputs)))) /\
  (forallb (fun i => negb (lib_names_method JSON_parse jQuery_type i)) lib_inputs = true ->
   Forall is_request
     (posted (effects (Lib.core (Lib.run JSON_parse jQuery_type
                                   (Lib.initialize page msgid thrown) lib_inputs))))).
Proof.
  split; [| split; [| split]].
  - intros s i _. apply step_flow.
  - intros s i _. apply lib_step_flow.
  - intros _. apply run_requests, initialize_flow.
  - intros _. apply lib_run_requests, lib_initialize_flow.
Qed.


Lemma parse_frame JSON_parse raw s :
  same_registry s (parseMessageData JSON_parse raw s).1 /\
  gadget (parseMessageData JSON_parse raw s).1 = gadget s /\
  chains (parseMessageData JSON_parse raw s).1 = chains s /\
  ready_waiters (parseMessageData JSON_parse raw s).1 = ready_waiters s /\
  forall d, calls_on d (effects (parseMessageData JSON_parse raw s).1)
            = calls_on d (effects s).
Proof.
  unfold parseMessageData. destruct raw; try (repeat split; reflexivity).
  destruct (JSON_parse _); repeat split.
  intros d. simpl. rewrite calls_on_snoc. simpl. lia.
Qed.

(** X12: a trusted message without a callback identifier is a broadcast:
    when its event, namespaces apart, is not named like a method of
    [gadget], it settles no request,
    leaves the registry, the timers and the Environment as they were and
    posts nothing.  When its name is a non-empty string the event is put on
    the event bus with the payload; otherwise nothing happens beyond the
    parsing. *)
Theorem broadcast_only_triggers JSON_parse event s s1 message :
  isTrustedEvent event s = true ->
  parseMessageData JSON_parse (data event) s = (s1, message) ->
  truthy (get_prop message "callback") = false ->
  names_method (get_prop message "name") = false ->
  let s' := messageHandler JSON_parse event s in
  same_registry s s' /\ gadget s' = gadget s /\ chains s' = chains s /\
  posted (effects s') = posted (effects s) /\
  (forall d, d ∉ (ready_waiters s).*2 ->
     calls_on d (effects s') = calls_on d (effects s)) /\
  (forall name,
     truthy message = true -> get_prop message "name" = VStr name -> name <> "" ->
     s' = trigger name (get_prop message "payload") s1 /\
     In (ETrigger name (get_prop message "payload")) (effects s')) /\
  ((truthy message = false \/ typeof (get_prop message "name") <> "string" \/
    get_prop message "name" = VStr "") -> s' = s1).
Proof.
  intros Ht Hparse Hcb _ s'.
  destruct (parse_frame JSON_parse (data event) s) as (Hr & Hg & Hc & Hw & Hcalls).
  rewrite Hparse in Hr, Hg, Hc, Hw, Hcalls. simpl in Hr, Hg, Hc, Hw, Hcalls.
  destruct (quiet_messageHandler JSON_parse event s) as [Hp _].
  assert (s' = if negb (truthy message) then s1
               else match get_prop message "name" with
                    | VStr name =>
                        if negb (is_empty_string name)
                        then trigger name (get_prop message "payload") s1
                        else s1
                    | _ => s1
                    end) as Hs'.
  { unfold s', messageHandler. rewrite Ht, Hparse. cbn [negb]. rewrite Hcb. reflexivity. }
  assert (s' = s1 \/ exists name, s' = trigger name (get_prop message "payload") s1)
    as Hcase.
  { rewrite Hs'. destruct (negb (truthy message)); [auto |].
    destruct (get_prop message "name"); auto.
    destruct (negb (is_empty_string _)); eauto. }
  split; [| split; [| split; [| split; [| split; [| split]]]]].
  - destruct Hcase as [-> | [name ->]]; [exact Hr |].
    eapply same_registry_trans; [exact Hr | apply trigger_registry].
  - destruct Hcase as [-> | [name ->]]; [exact Hg |]. rewrite trigger_gadget. exact Hg.
  - destruct Hcase as [-> | [name ->]]; [exact Hc |]. rewrite trigger_chains. exact Hc.
  - exact Hp.
  - intros d Hd. destruct Hcase as [-> | [name ->]]; [apply Hcalls |].
    rewrite trigger_calls by (rewrite Hw; exact Hd). apply Hcalls.
  - intros name Hm Hname Hne. rewrite Hs', Hm, Hname. cbn [negb].
    rewrite (is_empty_string_false name Hne). cbn [negb]. split; [reflexivity |].
    unfold trigger. destruct (String.eqb name "ready").
    + assert (forall ws s0 e0, In e0 (effects s0) ->
                In e0 (effects (foldl run_waiter s0 ws))) as Hkeep.
      { induction ws as [|w ws IH]; intros s0 e0 He; simpl; [exact He |].
        apply IH. unfold run_waiter. rewrite mark_effects.
        destruct w.1; simpl; repeat (apply in_or_app; left); exact He. }
      apply Hkeep. simpl. apply in_or_app. right. left. reflexivity.
    + simpl. apply in_or_app. right. left. reflexivity.
  - intros H. rewrite Hs'. destruct (truthy message); [| reflexivity]. cbn [negb].
    destruct H as [H | [H | H]]; [discriminate | |].
    + destruct (get_prop message "name"); try reflexivity. destruct H. reflexivity.
    + rewrite H. reflexivity.
Qed.

Lemma broadcast_only_triggers_witness :
  let s := initialize Scenario.url_origin_model Scenario.page (Scenario.uuid "uuid-1") None in
  let event :=
    MessageEvent Top (VStr "https://cms.example.edu") (VStr Scenario.file_changed_text) in
  let message := VObj {[ "name" := VStr "file-changed"; "payload" := VNull ]} in
  let s' := messageHandler Scenario.json_parse_model event s in
  same_registry s s' /\ gadget s' = gadget s /\ chains s' = chains s /\
  posted (effects s') = posted (effects s) /\
  (forall d, d ∉ (ready_waiters s).*2 ->
     calls_on d (effects s') = calls_on d (effects s)) /\
  (forall name,
     truthy message = true -> get_prop message "name" = VStr name -> name <> "" ->
     s' = trigger name (get_prop message "payload") s /\
     In (ETrigger name (get_prop message "payload")) (effects s')) /\
  ((truthy message = false \/ typeof (get_prop message "name") <> "string" \/
    get_prop message "name" = VStr "") -> s' = s).
Proof.
  apply (broadcast_only_triggers Scenario.json_parse_model); vm_compute; reflexivity.
Defined.

End BridgeFacts.

(** ** The Environment once the initialization is over *)
Module EnvironmentFacts.
Import Bridge BridgeTrace BridgeProofs LibProofs.

Lemma calm_refl s : calm s s.
Proof. repeat split; auto. Qed.

Lemma calm_trans s1 s2 s3 : calm s1 s2 -> calm s2 s3 -> calm s1 s3.
Proof.
  intros (H1 & H2 & H3) (H4 & H5 & H6). repeat split; [congruence | congruence | auto].
Qed.

Lemma calm_same s s' :
  gadget s' = gadget s -> chains s' = chains s -> deferreds s' = deferreds s -> calm s s'.
Proof. intros Hg Hc Hd. unfold calm, initialization_over. rewrite Hg, Hc, Hd. auto. Qed.

Lemma calm_mark d o s : o <> Pending -> calm s (mark d o s).
Proof.
  intros Ho. split; [apply mark_gadget |]. split; [apply mark_chains |].
  unfold initialization_over, mark. intros Hover.
  destruct (deferreds s !! d) as [[]|] eqn:E; try exact Hover. simpl.
  destruct (decide (d = O)) as [-> | Hne].
  - rewrite lookup_insert_eq. congruence.
  - rewrite lookup_insert_ne by exact Hne. exact Hover.
Qed.

(** Settling a Deferred that has no callbacks, or is settled already,
    runs nothing. *)
Lemma settle_plain d o s :
  chains s !! d = None \/ deferreds s !! d <> Some Pending ->
  settle d o s = mark d o s.
Proof.
  intros H. unfold settle, mark.
  destruct (deferreds s !! d) as [[]|] eqn:E; try reflexivity.
  destruct H as [-> | H]; [reflexivity | congruence].
Qed.

Lemma calm_settle d o s :
  o <> Pending ->
  chains s !! d = None \/ deferreds s !! d <> Some Pending ->
  calm s (settle d o s).
Proof. intros Ho H. rewrite (settle_plain d o s H). apply calm_mark, Ho. Qed.

Lemma plain_or_over s d :
  only_initialization s -> initialization_over s ->
  chains s !! d = None \/ deferreds s !! d <> Some Pending.
Proof.
  intros Honly Hover. destruct (decide (d = O)) as [-> | Hne]; [right; exact Hover |].
  left. destruct (chains s !! d) as [c|] eqn:E; [| reflexivity].
  destruct (Hne (Honly d c E)).
Qed.

Lemma calm_resolve d v s :
  chains s !! d = None \/ deferreds s !! d <> Some Pending -> calm s (resolve d v s).
Proof.
  intros H. unfold resolve.
  eapply calm_trans; [| apply calm_settle; [discriminate | exact H]].
  apply calm_same; reflexivity.
Qed.

Lemma calm_reject d v s :
  chains s !! d = None \/ deferreds s !! d <> Some Pending -> calm s (reject d v s).
Proof.
  intros H. unfold reject.
  eapply calm_trans; [| apply calm_settle; [discriminate | exact H]].
  apply calm_same; reflexivity.
Qed.

Lemma calm_run_waiters ws s : calm s (foldl run_waiter s ws).
Proof.
  revert s. induction ws as [|w ws IH]; intros s; simpl; [apply calm_refl |].
  eapply calm_trans; [| apply IH]. unfold run_waiter.
  eapply calm_trans; [| apply calm_mark; discriminate].
  destruct w.1; apply calm_same; reflexivity.
Qed.

Lemma calm_trigger n p s : calm s (trigger n p s).
Proof.
  unfold trigger. destruct (String.eqb n "ready"); [| apply calm_same; reflexivity].
  eapply calm_trans; [| apply calm_run_waiters]. apply calm_same; reflexivity.
Qed.

Lemma calm_clearPending v s : calm s (clearPending v s).
Proof.
  destruct (clearPending_deferreds v s) as (Hd & Hc & _).
  apply calm_same; [apply clearPending_gadget | exact Hc | exact Hd].
Qed.

Lemma calm_parse JSON_parse raw s : calm s (parseMessageData JSON_parse raw s).1.
Proof.
  unfold parseMessageData. destruct raw; try apply calm_refl.
  destruct (JSON_parse _); [apply calm_refl | apply calm_same; reflexivity].
Qed.

Lemma only_initialization_calm s s' :
  calm s s' -> only_initialization s -> only_initialization s'.
Proof. intros (_ & Hc & _) H d c. rewrite Hc. apply H. Qed.

Lemma calm_messageHandler JSON_parse event s :
  only_initialization s -> initialization_over s ->
  calm s (messageHandler JSON_parse event s).
Proof.
  intros Honly Hover. unfold messageHandler.
  destruct (negb (isTrustedEvent event s)); [apply calm_refl |].
  pose proof (calm_parse JSON_parse (data event) s) as Hq.
  destruct (parseMessageData JSON_parse (data event) s) as [s1 message]. simpl in Hq.
  destruct (negb (truthy message)); [exact Hq |].
  destruct (truthy (get_prop message "callback")).
  - destruct (pending_get s1 _) as [en|]; [| exact Hq].
    pose proof (calm_trans _ _ _ Hq (calm_clearPending (get_prop message "callback") s1))
      as Hq'.
    eapply calm_trans; [exact Hq' |]. apply calm_resolve, plain_or_over.
    + exact (only_initialization_calm _ _ Hq' Honly).
    + destruct Hq' as (_ & _ & H). auto.
  - destruct (get_prop message "name"); try exact Hq.
    destruct (negb (is_empty_string _)); [| exact Hq].
    eapply calm_trans; [exact Hq | apply calm_trigger].
Qed.

Lemma calm_timeout t s :
  only_initialization s -> initialization_over s -> calm s (timeout t s).
Proof.
  intros Honly Hover. unfold timeout. destruct (timers s !! t) as [c|]; [| apply calm_refl].
  assert (calm s (clearPending (VStr (c_msgid c)) (set_timers (delete t (timers s)) s)))
    as Hq.
  { eapply calm_trans; [| apply calm_clearPending]. apply calm_same; reflexivity. }
  eapply calm_trans; [exact Hq |]. apply calm_reject, plain_or_over.
  - exact (only_initialization_calm _ _ Hq Honly).
  - destruct Hq as (_ & _ & H). auto.
Qed.

Lemma calm_new_deferred s :
  (0 < next_deferred s)%nat -> calm s (new_deferred s).1.
Proof.
  intros Hpos. repeat split. unfold initialization_over. simpl.
  rewrite lookup_insert_ne by lia. auto.
Qed.

Lemma calm_register msgid name ms s :
  (0 < next_deferred s)%nat -> calm s (register msgid name ms s).1.
Proof.
  intros Hpos. rewrite register_spec.
  destruct (is_finite_positive ms); cbn [fst]; (repeat split; try reflexivity);
    unfold initialization_over; simpl; rewrite lookup_insert_ne by lia; auto.
Qed.

Lemma calm_sendMessageToTop name payload options e thrown s :
  Fresh s -> (0 < next_deferred s)%nat ->
  calm s (sendMessageToTop name payload options e thrown s).1.
Proof.
  intros HF Hpos. unfold sendMessageToTop.
  destruct (negb (truthy (field (gadget s) "msghostOrigin"))).
  - cbn [new_deferred fst snd].
    eapply calm_trans; [apply (calm_new_deferred s Hpos) |].
    apply calm_reject. left. simpl. apply HF. lia.
  - pose proof (calm_register (makeCallbackId e) name (request_timeout options s) s Hpos)
      as Hq.
    destruct (register_chains (makeCallbackId e) name (request_timeout options s) s)
      as (Hc & _ & Hd).
    destruct (register _ _ _ s) as [s3 d]. cbn [fst snd] in *.
    destruct thrown as [exn|]; cbn [fst].
    + eapply calm_trans; [exact Hq |].
      eapply calm_trans; [apply calm_clearPending |].
      apply calm_reject. left. rewrite clearPending_chains, Hc, Hd. apply HF. lia.
    + eapply calm_trans; [exact Hq |]. apply calm_same; reflexivity.
Qed.

Lemma calm_ready callback s :
  Fresh s -> (0 < next_deferred s)%nat -> calm s (ready callback s).1.
Proof.
  intros HF Hpos. unfold ready. cbn [new_deferred gadget].
  destruct (truthy (field (gadget s) "isReady")); cbn [fst].
  - eapply calm_trans; [apply (calm_new_deferred s Hpos) |].
    eapply calm_trans; [| apply calm_resolve].
    + destruct callback; apply calm_same; reflexivity.
    + left. destruct callback; simpl; apply HF; lia.
  - eapply calm_trans; [apply (calm_new_deferred s Hpos) |]. apply calm_same; reflexivity.
Qed.

Lemma calm_step JSON_parse s i :
  Fresh s -> (0 < next_deferred s)%nat ->
  only_initialization s -> initialization_over s ->
  no_set i = true ->
  calm s (step JSON_parse s i).
Proof.
  intros HF Hpos Honly Hover Hi.
  destruct i as [name payload options e thrown | event | t | a0 a1 | callback];
    cbn [step]; [| | | discriminate Hi |].
  - apply calm_sendMessageToTop; assumption.
  - apply calm_messageHandler; assumption.
  - apply calm_timeout; assumption.
  - apply calm_ready; assumption.
Qed.

Lemma calm_run JSON_parse inputs s :
  Fresh s -> (0 < next_deferred s)%nat ->
  only_initialization s -> initialization_over s ->
  forallb no_set inputs = true ->
  calm s (run JSON_parse s inputs).
Proof.
  revert s. induction inputs as [|i inputs IH]; intros s HF Hpos Honly Hover Hi;
    [apply calm_refl |].
  simpl in Hi. apply andb_true_iff in Hi as [Hi Hrest].
  change (run JSON_parse s (i :: inputs)) with (run JSON_parse (step JSON_parse s i) inputs).
  pose proof (calm_step JSON_parse s i HF Hpos Honly Hover Hi) as Hq.
  eapply calm_trans; [exact Hq |]. apply IH.
  - apply Fresh_step, HF.
  - destruct (step_chains JSON_parse s i) as [_ Hle]. lia.
  - exact (only_initialization_calm _ _ Hq Honly).
  - destruct Hq as (_ & _ & H). auto.
  - exact Hrest.
Qed.

(** The script attaches callbacks to its first Deferred only. *)
Lemma initialize_only URL_origin page e thrown :
  only_initialization (initialize URL_origin page e thrown) /\
  (0 < next_deferred (initialize URL_origin page e thrown))%nat.
Proof.
  unfold initialize.
  destruct (collectData_deferred URL_origin page e thrown initial) as (H1 & H2 & H3 & _).
  destruct (collectData URL_origin page e thrown initial) as [[s d] u]. simpl in *.
  split.
  - intros d' c Hc. destruct (decide (d' = O)) as [-> | Hne]; [reflexivity |].
    rewrite attach_chains in Hc by (rewrite H1; exact Hne).
    rewrite H3, lookup_empty in Hc. discriminate.
  - rewrite attach_next_deferred, H2. lia.
Qed.

Lemma run_only JSON_parse inputs s :
  only_initialization s -> (0 < next_deferred s)%nat ->
  only_initialization (run JSON_parse s inputs) /\
  (0 < next_deferred (run JSON_parse s inputs))%nat.
Proof.
  revert s. induction inputs as [|i inputs IH]; intros s Honly Hpos; [auto |].
  change (run JSON_parse s (i :: inputs)) with (run JSON_parse (step JSON_parse s i) inputs).
  destruct (step_chains JSON_parse s i) as [Hc Hle].
  apply IH; [| lia]. intros d c. rewrite Hc. apply Honly.
Qed.

(** *** The same for [src/_lib/gadget.js] *)

Lemma calm_cleanup d s : calm (Lib.core s) (Lib.core (Lib.cleanup d s)).
Proof.
  apply calm_same; [apply cleanup_gadget | apply cleanup_chains | apply cleanup_deferreds].
Qed.

Lemma calm_lib_parse JSON_parse raw s : calm s (Lib.parseMessageData JSON_parse raw s).1.
Proof.
  unfold Lib.parseMessageData. destruct raw; try apply calm_refl.
  destruct (JSON_parse _); [apply calm_refl | apply calm_same; reflexivity].
Qed.

Lemma calm_request_listener JSON_parse d event s :
  only_initialization (Lib.core s) -> initialization_over (Lib.core s) ->
  calm (Lib.core s) (Lib.core (Lib.request_listener JSON_parse d event s)).
Proof.
  intros Honly Hover. unfold Lib.request_listener.
  destruct (Lib.closures s !! d); [| apply calm_refl].
  destruct (negb (Lib.isTrustedEvent event (Lib.core s))); [apply calm_refl |].
  pose proof (calm_lib_parse JSON_parse (data event) (Lib.core s)) as Hq.
  destruct (Lib.parseMessageData JSON_parse (data event) (Lib.core s)) as [c1 parsed].
  simpl in Hq.
  destruct (negb (truthy parsed)); [exact Hq |].
  destruct (str_strict_eq _ _); [| exact Hq].
  pose proof (calm_trans _ _ _ Hq
                (calm_cleanup d (Lib.State c1 (Lib.closures s) (Lib.listeners s)))) as Hq'.
  eapply calm_trans; [exact Hq' |]. cbn [Lib.on_core Lib.core].
  apply calm_resolve, plain_or_over.
  - exact (only_initialization_calm _ _ Hq' Honly).
  - destruct Hq' as (_ & _ & H). auto.
Qed.

Lemma calm_lib_messageHandler JSON_parse jQuery_type event s :
  calm s (Lib.messageHandler JSON_parse jQuery_type event s).
Proof.
  unfold Lib.messageHandler. destruct (negb (Lib.isTrustedEvent event s)); [apply calm_refl |].
  pose proof (calm_lib_parse JSON_parse (data event) s) as Hq.
  destruct (Lib.parseMessageData JSON_parse (data event) s) as [s1 message]. simpl in Hq.
  destruct (negb (truthy message)); [exact Hq |].
  destruct (truthy (get_prop message "callback")); [exact Hq |].
  destruct (Lib.event_type jQuery_type _); [| exact Hq].
  eapply calm_trans; [exact Hq | apply calm_trigger].
Qed.

Lemma calm_call_listener JSON_parse jQuery_type event s l :
  only_initialization (Lib.core s) -> initialization_over (Lib.core s) ->
  calm (Lib.core s) (Lib.core (Lib.call_listener JSON_parse jQuery_type event s l)).
Proof.
  intros Honly Hover. unfold Lib.call_listener.
  destruct (bool_decide _); [| apply calm_refl].
  destruct l as [d|]; [apply calm_request_listener; assumption |].
  apply calm_lib_messageHandler.
Qed.

Lemma calm_calls JSON_parse jQuery_type event ls s :
  only_initialization (Lib.core s) -> initialization_over (Lib.core s) ->
  calm (Lib.core s)
       (Lib.core (foldl (Lib.call_listener JSON_parse jQuery_type event) s ls)).
Proof.
  revert s. induction ls as [|l ls IH]; intros s Honly Hover; simpl; [apply calm_refl |].
  pose proof (calm_call_listener JSON_parse jQuery_type event s l Honly Hover) as Hq.
  eapply calm_trans; [exact Hq |]. apply IH.
  - exact (only_initialization_calm _ _ Hq Honly).
  - destruct Hq as (_ & _ & H). auto.
Qed.

Lemma calm_lib_timeout t s :
  only_initialization (Lib.core s) -> initialization_over (Lib.core s) ->
  calm (Lib.core s) (Lib.core (Lib.timeout t s)).
Proof.
  intros Honly Hover. unfold Lib.timeout.
  destruct (timers (Lib.core s) !! t) as [c|]; [| apply calm_refl].
  match goal with |- context [Lib.cleanup ?d ?s0] =>
    assert (calm (Lib.core s) (Lib.core (Lib.cleanup d s0))) as Hq
      by (eapply calm_trans; [| apply calm_cleanup]; apply calm_same; reflexivity)
  end.
  eapply calm_trans; [exact Hq |]. cbn [Lib.on_core Lib.core].
  apply calm_reject, plain_or_over.
  - exact (only_initialization_calm _ _ Hq Honly).
  - destruct Hq as (_ & _ & H). auto.
Qed.

Lemma calm_listen d msgid name ms s :
  calm (Lib.core s) (Lib.core (Lib.listen d msgid name ms s)).
Proof. unfold Lib.listen. destruct (is_finite_positive ms); apply calm_same; reflexivity. Qed.

Lemma calm_lib_sendMessageToTop name payload options msgid thrown s :
  Fresh (Lib.core s) -> (0 < next_deferred (Lib.core s))%nat ->
  calm (Lib.core s) (Lib.core (Lib.sendMessageToTop name payload options msgid thrown s).1).
Proof.
  intros HF Hpos. unfold Lib.sendMessageToTop. cbn [new_deferred fst snd gadget].
  pose proof (calm_new_deferred (Lib.core s) Hpos) as Hnew. cbn [new_deferred fst] in Hnew.
  destruct (negb (truthy (field (gadget (Lib.core s)) "msghost"))); cbn [fst].
  - cbn [Lib.on_core Lib.core].
    eapply calm_trans; [exact Hnew |]. apply calm_reject. left. simpl. apply HF. lia.
  - match goal with |- context [Lib.listen ?d _ _ ?ms ?s0] =>
      pose proof (calm_listen d msgid name ms s0) as Hq;
      set (s2 := Lib.listen d msgid name ms s0) in *
    end.
    cbn [Lib.core] in Hq.
    pose proof (calm_trans _ _ _ Hnew Hq) as Hq'.
    destruct thrown as [exn|]; cbn [fst].
    + pose proof (calm_trans _ _ _ Hq' (calm_cleanup (next_deferred (Lib.core s)) s2)) as Hq''.
      eapply calm_trans; [exact Hq'' |]. cbn [Lib.on_core Lib.core].
      apply calm_reject. left. destruct Hq'' as (_ & -> & _). apply HF. lia.
    + eapply calm_trans; [exact Hq' |]. apply calm_same; reflexivity.
Qed.

Lemma calm_lib_step JSON_parse jQuery_type s i :
  Fresh (Lib.core s) -> (0 < next_deferred (Lib.core s))%nat ->
  only_initialization (Lib.core s) -> initialization_over (Lib.core s) ->
  lib_no_set i = true ->
  calm (Lib.core s) (Lib.core (Lib.step JSON_parse jQuery_type s i)).
Proof.
  intros HF Hpos Honly Hover Hi.
  destruct i as [name payload options msgid thrown | event | t | a0 a1 | callback];
    cbn [Lib.step]; [| | | discriminate Hi |].
  - apply calm_lib_sendMessageToTop; assumption.
  - apply calm_calls; assumption.
  - apply calm_lib_timeout; assumption.
  - cbn [Lib.on_core Lib.core]. apply calm_ready; assumption.
Qed.

Lemma calm_lib_run JSON_parse jQuery_type inputs s :
  Fresh (Lib.core s) -> (0 < next_deferred (Lib.core s))%nat ->
  only_initialization (Lib.core s) -> initialization_over (Lib.core s) ->
  forallb lib_no_set inputs = true ->
  calm (Lib.core s) (Lib.core (Lib.run JSON_parse jQuery_type s inputs)).
Proof.
  revert s. induction inputs as [|i inputs IH]; intros s HF Hpos Honly Hover Hi;
    [apply calm_refl |].
  simpl in Hi. apply andb_true_iff in Hi as [Hi Hrest].
  change (Lib.run JSON_parse jQuery_type s (i :: inputs))
    with (Lib.run JSON_parse jQuery_type (Lib.step JSON_parse jQuery_type s i) inputs).
  pose proof (calm_lib_step JSON_parse jQuery_type s i HF Hpos Honly Hover Hi) as Hq.
  destruct (lib_step_chains JSON_parse jQuery_type s i) as [Hc Hle].
  eapply calm_trans; [exact Hq |]. apply IH.
  - intros d Hd. rewrite Hc. apply HF. lia.
  - lia.
  - exact (only_initialization_calm _ _ Hq Honly).
  - destruct Hq as (_ & _ & H). auto.
  - exact Hrest.
Qed.

Lemma lib_initialize_only page msgid thrown :
  only_initialization (Lib.core (Lib.initialize page msgid thrown)) /\
  (0 < next_deferred (Lib.core (Lib.initialize page msgid thrown)))%nat.
Proof.
  unfold Lib.initialize, Lib.collectData.
  match goal with |- context [Lib.sendMessageToTop ?n ?p ?o msgid thrown ?s1] =>
    destruct (lib_sendMessageToTop_chains n p o msgid thrown s1) as (Hd & Hc & Hn);
    destruct (Lib.sendMessageToTop n p o msgid thrown s1) as [s2 d] end.
  cbn [fst snd] in Hd, Hc, Hn. cbn [Lib.core Lib.on_core Lib.initial] in Hd, Hc, Hn.
  rewrite set_chains' in Hc. rewrite set_next_deferred in Hn, Hd.
  cbn [Lib.core Lib.on_core]. split.
  - intros d' c Hc'. destruct (decide (d' = O)) as [-> | Hne]; [reflexivity |].
    rewrite attach_chains in Hc' by (rewrite Hd; exact Hne).
    rewrite Hc in Hc'. cbn [chains Bridge.initial] in Hc'.
    rewrite lookup_empty in Hc'. discriminate.
  - rewrite attach_next_deferred, Hn. lia.
Qed.

Lemma lib_run_only JSON_parse jQuery_type inputs s :
  only_initialization (Lib.core s) -> (0 < next_deferred (Lib.core s))%nat ->
  only_initialization (Lib.core (Lib.run JSON_parse jQuery_type s inputs)) /\
  (0 < next_deferred (Lib.core (Lib.run JSON_parse jQuery_type s inputs)))%nat.
Proof.
  revert s. induction inputs as [|i inputs IH]; intros s Honly Hpos; [auto |].
  change (Lib.run JSON_parse jQuery_type s (i :: inputs))
    with (Lib.run JSON_parse jQuery_type (Lib.step JSON_parse jQuery_type s i) inputs).
  destruct (lib_step_chains JSON_parse jQuery_type s i) as [Hc Hle].
  apply IH; [| lia]. intros d c. rewrite Hc. apply Honly.
Qed.

(** X13: once the request of the initialization has been resolved or
    rejected, the Environment is changed by [gadget.set] only: whatever
    requests are sent, whatever messages arrive (trusted or not), whatever
    timers expire and however often [gadget.ready] is called, the
    properties of [gadget] stay as they are, in both versions of
    [gadget.js].  The messages, before and after, are those whose event,
    namespaces apart, is not named like a method of [gadget]. *)
Theorem environment_fixed_after_initialization JSON_parse jQuery_type URL_origin page e
    msgid thrown inputs lib_inputs :
  (forallb (fun i => negb (invokes_method JSON_parse i)) inputs = true ->
   let s := run JSON_parse (initialize URL_origin page e thrown) inputs in
   deferreds s !! O <> Some Pending ->
   forall inputs',
     forallb (fun i => no_set i && negb (invokes_method JSON_parse i)) inputs' = true ->
     gadget (run JSON_parse s inputs') = gadget s) /\
  (forallb (fun i => negb (lib_names_method JSON_parse jQuery_type i)) lib_inputs = true ->
   let s := Lib.run JSON_parse jQuery_type (Lib.initialize page msgid thrown) lib_inputs in
   deferreds (Lib.core s) !! O <> Some Pending ->
   forall inputs',
     forallb (fun i => lib_no_set i && negb (lib_names_method JSON_parse jQuery_type i))
             inputs' = true ->
     gadget (Lib.core (Lib.run JSON_parse jQuery_type s inputs')) = gadget (Lib.core s)).
Proof.
  split; intros _; cbv zeta.
  - intros Hover inputs' Hi.
    assert (forallb no_set inputs' = true) as Hi'.
    { rewrite forallb_forall in Hi |- *. intros i Hin.
      specialize (Hi i Hin). apply andb_true_iff in Hi as [Hi _]. exact Hi. }
    clear Hi. rename Hi' into Hi.
    destruct (initialize_only URL_origin page e thrown) as [Honly Hpos].
    destruct (run_only JSON_parse inputs _ Honly Hpos) as [Honly' Hpos'].
    apply (calm_run JSON_parse inputs' _
             (Fresh_reachable JSON_parse URL_origin page e thrown inputs)
             Hpos' Honly' Hover Hi).
  - intros Hover inputs' Hi.
    assert (forallb lib_no_set inputs' = true) as Hi'.
    { rewrite forallb_forall in Hi |- *. intros i Hin.
      specialize (Hi i Hin). apply andb_true_iff in Hi as [Hi _]. exact Hi. }
    clear Hi. rename Hi' into Hi.
    destruct (lib_initialize_only page msgid thrown) as [Honly Hpos].
    destruct (lib_run_only JSON_parse jQuery_type lib_inputs _ Honly Hpos) as [Honly' Hpos'].
    apply (calm_lib_run JSON_parse jQuery_type inputs' _
             (lib_Fresh_reachable JSON_parse jQuery_type page msgid thrown lib_inputs)
             Hpos' Honly' Hover Hi).
Qed.

Lemma environment_fixed_after_initialization_witness :
  let s := run Scenario.json_parse_model
             (initialize Scenario.url_origin_model Scenario.page (Scenario.uuid "uuid-1") None)
             [Timeout 1] in
  gadget (run Scenario.json_parse_model s Scenario.late_answer) = gadget s.
Proof.
  cbv zeta.
  apply (proj1 (environment_fixed_after_initialization Scenario.json_parse_model
                  (fun _ => None) Scenario.url_origin_model Scenario.page
                  (Scenario.uuid "uuid-1") "4721" None [Timeout 1] [])).
  - reflexivity.
  - vm_compute. discriminate.
  - reflexivity.
Defined.

End EnvironmentFacts.

(** ** The URL data of the older [gadgetlib.js] *)
Module LegacyFacts.
Import Bridge BridgeProofs Legacy.

Lemma split_at_nonempty sep s : split_at sep s <> [].
Proof.
  destruct s as [|c s]; simpl; [discriminate |].
  destruct (sep c); [discriminate |].
  destruct (split_at sep s); discriminate.
Qed.

(** [(a + c + b).split(sep)] is [a.split(sep)] followed by [b.split(sep)]
    when [c] is a separator. *)
Lemma split_at_app sep a c b :
  sep c = true ->
  split_at sep (a +:+ String c b) = split_at sep a ++ split_at sep b.
Proof.
  intros Hc. induction a as [|x a IH]; simpl; [rewrite Hc; reflexivity |].
  change (String.append a (String c b)) with (a +:+ String c b). rewrite IH.
  destruct (sep x); simpl; [reflexivity |].
  pose proof (split_at_nonempty sep a).
  destruct (split_at sep a) as [|y r]; [congruence | reflexivity].
Qed.

Lemma split_at_plain sep s :
  all_chars (fun c => negb (sep c)) s = true -> split_at sep s = [s].
Proof.
  induction s as [|c s IH]; simpl; [reflexivity |].
  intros H. apply andb_true_iff in H as [Hc Hs].
  apply negb_true_iff in Hc. rewrite Hc, (IH Hs). reflexivity.
Qed.

Lemma plain_parts text :
  plain text = true ->
  all_chars (fun c => negb (is_query_separator c)) text = true /\
  all_chars (fun c => negb (is_equals c)) text = true.
Proof.
  unfold plain. intros H. split; revert H; apply all_chars_impl; intros c Hc;
    apply negb_true_iff in Hc; apply orb_false_iff in Hc as [H1 H2];
    apply negb_true_iff; assumption.
Qed.

(** The text of one parameter. *)
Lemma assign_param_pair data k v :
  plain k = true -> plain v = true ->
  assign_param data (k +:+ "=" +:+ v)
  = if String.eqb k "__proto__" then data else <[k := VStr v]> data.
Proof.
  intros Hk Hv. unfold assign_param.
  change (k +:+ "=" +:+ v) with (k +:+ String "=" v).
  rewrite split_at_app by reflexivity.
  rewrite (split_at_plain _ k), (split_at_plain _ v) by (apply plain_parts; assumption).
  reflexivity.
Qed.

Lemma pair_no_separator k v :
  plain k = true -> plain v = true ->
  all_chars (fun c => negb (is_query_separator c)) (k +:+ "=" +:+ v) = true.
Proof.
  intros Hk Hv. change (k +:+ "=" +:+ v) with (k +:+ String "=" v).
  rewrite all_chars_app. apply andb_true_iff. split; [apply plain_parts, Hk |].
  simpl. apply plain_parts, Hv.
Qed.

Lemma split_query params :
  Forall (fun kv => plain kv.1 = true /\ plain kv.2 = true) params ->
  params <> [] ->
  split_at is_query_separator (query params)
  = map (fun kv => kv.1 +:+ "=" +:+ kv.2) params.
Proof.
  induction params as [|[k v] rest IH]; intros Hall Hne; [congruence |].
  apply Forall_cons in Hall as [[Hk Hv] Hrest]. simpl in Hk, Hv.
  destruct rest as [|kv rest].
  - simpl. apply split_at_plain, pair_no_separator; assumption.
  - change (query ((k, v) :: kv :: rest))
      with ((k +:+ "=" +:+ v) +:+ String "&" (query (kv :: rest))).
    rewrite split_at_app by reflexivity.
    rewrite (split_at_plain _ (k +:+ "=" +:+ v)) by (apply pair_no_separator; assumption).
    rewrite IH by (auto; discriminate). reflexivity.
Qed.

Lemma split_address base params :
  all_chars (fun c => negb (is_query_separator c)) base = true ->
  Forall (fun kv => plain kv.1 = true /\ plain kv.2 = true) params ->
  split_at is_query_separator (address base params)
  = base :: map (fun kv => kv.1 +:+ "=" +:+ kv.2) params.
Proof.
  intros Hbase Hall. destruct params as [|kv rest].
  - simpl. apply split_at_plain, Hbase.
  - change (address base (kv :: rest)) with (base +:+ String "?" (query (kv :: rest))).
    rewrite split_at_app by reflexivity.
    rewrite (split_at_plain _ base Hbase), split_query by (auto; discriminate).
    reflexivity.
Qed.

Lemma assign_params_last (d : gmap string value) l1 k v l2 :
  Forall (fun kv => plain kv.1 = true /\ plain kv.2 = true) (l1 ++ (k, v) :: l2) ->
  k <> "__proto__" -> k ∉ l2.*1 ->
  foldl assign_param d (map (fun kv => kv.1 +:+ "=" +:+ kv.2) (l1 ++ (k, v) :: l2)) !! k
  = Some (VStr v).
Proof.
  intros Hall Hk Hl2. rewrite map_app, foldl_app. simpl.
  apply Forall_app in Hall as [_ Hall]. apply Forall_cons in Hall as [[Hpk Hpv] Hall].
  simpl in Hpk, Hpv. rewrite assign_param_pair by assumption.
  apply String.eqb_neq in Hk. rewrite Hk.
  generalize (foldl assign_param d (map (fun kv => kv.1 +:+ "=" +:+ kv.2) l1)). intros d1.
  assert (forall d0 : gmap string value, d0 !! k = Some (VStr v) ->
            foldl assign_param d0 (map (fun kv => kv.1 +:+ "=" +:+ kv.2) l2) !! k
            = Some (VStr v)) as H.
  { clear d1. induction l2 as [|[k' v'] l2 IH]; intros d0 Hd0; simpl; [exact Hd0 |].
    rewrite fmap_cons, not_elem_of_cons in Hl2. destruct Hl2 as [Hne Hl2].
    apply Forall_cons in Hall as [[Hpk' Hpv'] Hall]. simpl in Hpk', Hpv', Hne.
    apply IH; [exact Hall | exact Hl2 |].
    rewrite assign_param_pair by assumption.
    destruct (String.eqb k' "__proto__"); [exact Hd0 |].
    rewrite lookup_insert_ne by congruence. exact Hd0. }
  apply H, lookup_insert_eq.
Qed.

Lemma assign_params_other (d : gmap string value) l k :
  Forall (fun kv => plain kv.1 = true /\ plain kv.2 = true) l ->
  k ∉ l.*1 ->
  foldl assign_param d (map (fun kv => kv.1 +:+ "=" +:+ kv.2) l) !! k = d !! k.
Proof.
  revert d. induction l as [|[k' v'] l IH]; intros d Hall Hk; simpl; [reflexivity |].
  rewrite fmap_cons, not_elem_of_cons in Hk. destruct Hk as [Hne Hk].
  apply Forall_cons in Hall as [[Hpk' Hpv'] Hall]. simpl in Hpk', Hpv', Hne.
  rewrite IH by assumption. rewrite assign_param_pair by assumption.
  destruct (String.eqb k' "__proto__"); [reflexivity |].
  apply lookup_insert_ne. congruence.
Qed.

(** X14: the older [getDataFromUrl] reads back the address of a page
    written out from its parts.  When the base has no [?] and [&] and the
    names and values of the query parameters have no [?], [&] and [=], the
    result holds every parameter under its name with its text as written
    (the last one wins when a name is repeated; [__proto__] is not stored),
    [url] is the base unless a parameter has that name, and nothing else is
    in the object.  A parameter written without [=] is stored with the
    value [undefined]. *)
Theorem getDataFromUrl_reads_address base params :
  all_chars (fun c => negb (is_query_separator c)) base = true ->
  Forall (fun kv => plain kv.1 = true /\ plain kv.2 = true) params ->
  (forall k v l1 l2,
     params = l1 ++ (k, v) :: l2 -> k ∉ l2.*1 -> k <> "__proto__" ->
     getDataFromUrl (address base params) !! k = Some (VStr v)) /\
  ("url" ∉ params.*1 -> getDataFromUrl (address base params) !! "url" = Some (VStr base)) /\
  (forall k, k ∉ params.*1 -> k <> "url" ->
     getDataFromUrl (address base params) !! k = None) /\
  (forall flag, plain flag = true -> flag <> "__proto__" ->
     getDataFromUrl (base +:+ "?" +:+ flag) = <[flag := VUndef]> {[ "url" := VStr base ]}).
Proof.
  intros Hbase Hall. unfold getDataFromUrl. rewrite (split_address base params Hbase Hall).
  split; [| split; [| split]].
  - intros k v l1 l2 -> Hk Hproto. apply assign_params_last; assumption.
  - intros Hk. rewrite assign_params_other by assumption. apply lookup_insert_eq.
  - intros k Hk Hurl. rewrite assign_params_other by assumption.
    rewrite lookup_insert_ne by congruence. apply lookup_empty.
  - intros flag Hflag Hproto.
    change (base +:+ "?" +:+ flag) with (base +:+ String "?" flag).
    rewrite split_at_app by reflexivity.
    rewrite (split_at_plain _ base Hbase).
    rewrite (split_at_plain _ flag) by (apply plain_parts, Hflag). simpl.
    unfold assign_param.
    rewrite (split_at_plain _ flag) by (apply plain_parts, Hflag).
    apply String.eqb_neq in Hproto. rewrite Hproto. reflexivity.
Qed.

Lemma getDataFromUrl_reads_address_witness :
  let base := "https://gadgets.example.edu/gadgets/broken_links/index.html" in
  let params := [("msghost", "https://cms.example.edu"); ("gid", "g1"); ("gid", "g2")] in
  (forall k v l1 l2,
     params = l1 ++ (k, v) :: l2 -> k ∉ l2.*1 -> k <> "__proto__" ->
     getDataFromUrl (address base params) !! k = Some (VStr v)) /\
  ("url" ∉ params.*1 -> getDataFromUrl (address base params) !! "url" = Some (VStr base)) /\
  (forall k, k ∉ params.*1 -> k <> "url" ->
     getDataFromUrl (address base params) !! k = None) /\
  (forall flag, plain flag = true -> flag <> "__proto__" ->
     getDataFromUrl (base +:+ "?" +:+ flag) = <[flag := VUndef]> {[ "url" := VStr base ]}).
Proof.
  apply getDataFromUrl_reads_address.
  - reflexivity.
  - repeat (apply Forall_cons; split; [split; reflexivity |]). apply Forall_nil_2.
Defined.

End LegacyFacts.

(** ** Helpers of [src/_lib/gadget-common.js] *)
Module CommonFacts.
Import Bridge Common.

(** *** [escapeDmTag] *)

(** The two passes amount to one: a brace gets a backslash in front. *)
Lemma escapeDmTag_cons a s :
  escapeDmTag (String a s)
  = if is_brace a then String "\" (String a (escapeDmTag s))
    else String a (escapeDmTag s).
Proof.
  unfold escapeDmTag, is_brace. simpl.
  destruct (Ascii.eqb_spec a "{") as [-> | Hopen]; [reflexivity |].
  destruct (Ascii.eqb_spec a "}") as [-> | Hclose]; simpl.
  - reflexivity.
  - apply Ascii.eqb_neq in Hclose. rewrite Hclose. reflexivity.
Qed.

Lemma escapeDmTag_head s c r : escapeDmTag s = String c r -> is_brace c = false.
Proof.
  destruct s as [|a s]; [discriminate |]. rewrite escapeDmTag_cons.
  destruct (is_brace a) eqn:E; intros [= <- _]; [reflexivity | exact E].
Qed.

Lemma escapeDmTag_empty s : escapeDmTag s = EmptyString -> s = EmptyString.
Proof.
  destruct s as [|a s]; [reflexivity |]. rewrite escapeDmTag_cons.
  destruct (is_brace a); discriminate.
Qed.

Lemma unescape_escapeDmTag s : unescape (escapeDmTag s) = s.
Proof.
  induction s as [|a s IH]; [reflexivity |]. rewrite escapeDmTag_cons.
  destruct (is_brace a) eqn:E.
  - cbn [unescape]. rewrite E. simpl. rewrite IH. reflexivity.
  - cbn [unescape]. destruct (escapeDmTag s) as [|c r] eqn:Es.
    + rewrite (escapeDmTag_empty s Es). reflexivity.
    + rewrite (escapeDmTag_head s c r Es), andb_false_r. rewrite IH. reflexivity.
Qed.

Lemma braces_escaped_escapeDmTag prev s : braces_escaped prev (escapeDmTag s) = true.
Proof.
  revert prev. induction s as [|a s IH]; intros prev; [reflexivity |].
  rewrite escapeDmTag_cons. destruct (is_brace a) eqn:E; simpl.
  - rewrite E, IH. reflexivity.
  - rewrite E, IH. reflexivity.
Qed.

Lemma escapeDmTag_plain s :
  all_chars (fun c => negb (is_brace c)) s = true -> escapeDmTag s = s.
Proof.
  induction s as [|a s IH]; [reflexivity |]. simpl. intros H.
  apply andb_true_iff in H as [Ha Hs]. apply negb_true_iff in Ha.
  rewrite escapeDmTag_cons, Ha, (IH Hs). reflexivity.
Qed.

(** X15: [escapeDmTag] puts a backslash before every brace and changes
    nothing else: in the result every brace stands directly after a
    backslash, dropping the backslash before each brace gives the tag back
    (so two tags are never escaped to the same text), and a tag without
    braces is returned as it is. *)
Theorem escapeDmTag_escapes_braces tag :
  (forall prev, braces_escaped prev (escapeDmTag tag) = true) /\
  unescape (escapeDmTag tag) = tag /\
  (forall other, escapeDmTag other = escapeDmTag tag -> other = tag) /\
  (all_chars (fun c => negb (is_brace c)) tag = true -> escapeDmTag tag = tag).
Proof.
  split; [| split; [| split]].
  - intros prev. apply braces_escaped_escapeDmTag.
  - apply unescape_escapeDmTag.
  - intros other H. rewrite <- (unescape_escapeDmTag other), H.
    apply unescape_escapeDmTag.
  - apply escapeDmTag_plain.
Qed.

(** *** [sortUsersByCase] *)

Lemma ascii_compare_lt_trans a b c :
  Ascii.compare a b = Lt -> Ascii.compare b c = Lt -> Ascii.compare a c = Lt.
Proof.
  unfold Ascii.compare. rewrite !N.compare_lt_iff. lia.
Qed.

Lemma string_compare_refl s : String.compare s s = Eq.
Proof.
  pose proof (String.compare_antisym s s) as H.
  destruct (String.compare s s); [reflexivity | discriminate | discriminate].
Qed.

Lemma string_compare_lt_trans a b c :
  String.compare a b = Lt -> String.compare b c = Lt -> String.compare a c = Lt.
Proof.
  revert b c. induction a as [|x a IH]; intros [|y b] [|z c]; simpl; try congruence.
  destruct (Ascii.compare x y) eqn:Exy; try discriminate;
    destruct (Ascii.compare y z) eqn:Eyz; try discriminate; intros H1 H2.
  - apply Ascii.compare_eq_iff in Exy, Eyz. subst.
    rewrite (proj2 (N.compare_eq_iff _ _) eq_refl : Ascii.compare z z = Eq).
    exact (IH _ _ H1 H2).
  - apply Ascii.compare_eq_iff in Exy. subst. rewrite Eyz. reflexivity.
  - apply Ascii.compare_eq_iff in Eyz. subst. rewrite Exy. reflexivity.
  - rewrite (ascii_compare_lt_trans _ _ _ Exy Eyz). reflexivity.
Qed.

Lemma ltb_lt a b : String.ltb a b = true <-> String.compare a b = Lt.
Proof. unfold String.ltb. destruct (String.compare a b); split; congruence. Qed.

Lemma ltb_antisym a b : String.ltb a b = true -> String.ltb b a = false.
Proof.
  unfold String.ltb. rewrite (String.compare_antisym a b).
  destruct (String.compare b a); simpl; congruence.
Qed.

Lemma ltb_irrefl a : String.ltb a a = false.
Proof. unfold String.ltb. rewrite string_compare_refl. reflexivity. Qed.

Lemma ltb_total a b : String.ltb a b = false -> String.ltb b a = false -> a = b.
Proof.
  unfold String.ltb. rewrite (String.compare_antisym a b).
  destruct (String.compare b a) eqn:E; simpl; try congruence.
  intros _ _. symmetry. apply String.compare_eq_iff, E.
Qed.

Lemma ltb_trans a b c : String.ltb a b = true -> String.ltb b c = true -> String.ltb a c = true.
Proof. rewrite !ltb_lt. apply string_compare_lt_trans. Qed.

(** X16: [sortUsersByCase] is a consistent comparator on users whose
    [reverse_name] is a string: it answers -1, 0 or 1; swapping the
    arguments negates the answer; the answer is 0 only for equal names;
    "goes before" is transitive; and names that differ beyond their case
    are ordered by their lower-case forms.  It throws when a [reverse_name]
    is not a string. *)
Theorem sortUsersByCase_consistent a b c x y z :
  field a "reverse_name" = VStr x ->
  field b "reverse_name" = VStr y ->
  field c "reverse_name" = VStr z ->
  (exists r, sortUsersByCase a b = Some r /\ (r = -1 \/ r = 0 \/ r = 1) /\
     sortUsersByCase b a = Some (- r) /\
     (r = 0 <-> x = y) /\
     (String.ltb (toLowerCase x) (toLowerCase y) = true -> r = -1)) /\
  (sortUsersByCase a b = Some (-1) -> sortUsersByCase b c = Some (-1) ->
   sortUsersByCase a c = Some (-1)) /\
  (forall u v, typeof (field u "reverse_name") <> "string" ->
     sortUsersByCase u v = None /\ sortUsersByCase v u = None).
Proof.
  intros Ha Hb Hc. unfold sortUsersByCase. rewrite Ha, Hb, Hc.
  split; [| split].
  - eexists. split; [reflexivity |].
    destruct (String.ltb (toLowerCase x) (toLowerCase y)) eqn:E1.
    { rewrite (ltb_antisym _ _ E1). repeat split; auto; try lia.
      intros ->. rewrite ltb_irrefl in E1. discriminate. }
    destruct (String.ltb (toLowerCase y) (toLowerCase x)) eqn:E2.
    { repeat split; auto; try lia; try discriminate.
      intros ->. rewrite ltb_irrefl in E2. discriminate. }
    destruct (String.ltb x y) eqn:E3.
    { rewrite (ltb_antisym _ _ E3). repeat split; auto; try lia; try discriminate.
      intros ->. rewrite ltb_irrefl in E3. discriminate. }
    destruct (String.ltb y x) eqn:E4.
    { repeat split; auto; try lia; try discriminate.
      intros ->. rewrite ltb_irrefl in E4. discriminate. }
    repeat split; auto; try discriminate. intros _. apply ltb_total; assumption.
  - destruct (String.ltb (toLowerCase x) (toLowerCase y)) eqn:E1.
    + intros _. destruct (String.ltb (toLowerCase y) (toLowerCase z)) eqn:F1.
      * intros _. rewrite (ltb_trans _ _ _ E1 F1). reflexivity.
      * destruct (String.ltb (toLowerCase z) (toLowerCase y)) eqn:F2; [discriminate |].
        rewrite <- (ltb_total _ _ F1 F2), E1. reflexivity.
    + destruct (String.ltb (toLowerCase y) (toLowerCase x)) eqn:E2; [discriminate |].
      rewrite (ltb_total _ _ E1 E2).
      destruct (String.ltb x y) eqn:E3;
        [| destruct (String.ltb y x); discriminate].
      intros _. destruct (String.ltb (toLowerCase y) (toLowerCase z)) eqn:F1;
        [reflexivity |].
      destruct (String.ltb (toLowerCase z) (toLowerCase y)) eqn:F2; [discriminate |].
      destruct (String.ltb y z) eqn:F3; [| destruct (String.ltb z y); discriminate].
      intros _. rewrite (ltb_trans _ _ _ E3 F3). reflexivity.
  - intros u v Hu. split.
    + destruct (field u "reverse_name"); try reflexivity. destruct Hu. reflexivity.
    + destruct (field v "reverse_name"); try reflexivity.
      destruct (field u "reverse_name"); try reflexivity. destruct Hu. reflexivity.
Qed.

Lemma sortUsersByCase_consistent_witness :
  (exists r, sortUsersByCase (Sample.user "Smith, al") (Sample.user "smith, Bo") = Some r /\
     (r = -1 \/ r = 0 \/ r = 1) /\
     sortUsersByCase (Sample.user "smith, Bo") (Sample.user "Smith, al") = Some (- r) /\
     (r = 0 <-> "Smith, al" = "smith, Bo") /\
     (String.ltb (toLowerCase "Smith, al") (toLowerCase "smith, Bo") = true -> r = -1)) /\
  (sortUsersByCase (Sample.user "Smith, al") (Sample.user "smith, Bo") = Some (-1) ->
   sortUsersByCase (Sample.user "smith, Bo") (Sample.user "smith, bo") = Some (-1) ->
   sortUsersByCase (Sample.user "Smith, al") (Sample.user "smith, bo") = Some (-1)) /\
  (forall u v, typeof (field u "reverse_name") <> "string" ->
     sortUsersByCase u v = None /\ sortUsersByCase v u = None).
Proof.
  apply (sortUsersByCase_consistent (Sample.user "Smith, al") (Sample.user "smith, Bo")
           (Sample.user "smith, bo") "Smith, al" "smith, Bo" "smith, bo"); reflexivity.
Defined.

(** *** [sortObjs] *)

Lemma strict_weak_spec {A} (lt : A -> A -> bool) (l : list A) :
  strict_weak lt l = true ->
  (forall a b, In a l -> In b l -> lt a b = true -> lt b a = false) /\
  (forall a b c, In a l -> In b l -> In c l -> lt a b = true ->
     lt a c = true \/ lt c b = true).
Proof.
  unfold strict_weak. rewrite forallb_forall. intros H. split.
  - intros a b Ha Hb Hab. specialize (H a Ha). rewrite forallb_forall in H.
    specialize (H b Hb). rewrite Hab in H. simpl in H.
    apply andb_true_iff in H as [H _]. apply negb_true_iff, H.
  - intros a b c Ha Hb Hc Hab. specialize (H a Ha). rewrite forallb_forall in H.
    specialize (H b Hb). rewrite Hab in H. simpl in H.
    apply andb_true_iff in H as [_ H]. rewrite forallb_forall in H.
    apply orb_true_iff, H, Hc.
Qed.

Section Sort.

Variable localeCompare : string -> value -> Z.
Variable less_than : value -> value -> bool.
Variable sortKey : string.

#[local] Abbreviation lt := (goes_before localeCompare less_than sortKey).
#[local] Abbreviation insert_item := (insert_item localeCompare less_than sortKey).

Lemma insert_item_perm item sorted : Permutation (insert_item item sorted) (item :: sorted).
Proof.
  induction sorted as [|x r IH]; simpl; [reflexivity |].
  destruct (lt item x); [reflexivity |].
  rewrite IH. apply perm_swap.
Qed.

Lemma insert_item_In item sorted y :
  In y (insert_item item sorted) <-> y = item \/ In y sorted.
Proof.
  split; intros H.
  - apply (Permutation_in _ (insert_item_perm item sorted)) in H.
    destruct H as [<- | H]; auto.
  - apply (Permutation_in _ (Permutation_sym (insert_item_perm item sorted))).
    destruct H as [-> | H]; [left; reflexivity | right; exact H].
Qed.

Variable l : list (gmap string value).
Hypothesis Hasym : forall a b, In a l -> In b l -> lt a b = true -> lt b a = false.
Hypothesis Hneg : forall a b c, In a l -> In b l -> In c l -> lt a b = true ->
  lt a c = true \/ lt c b = true.

Lemma insert_item_ordered item sorted :
  In item l -> (forall y, In y sorted -> In y l) ->
  ordered lt sorted = true -> ordered lt (insert_item item sorted) = true.
Proof.
  intros Hitem. induction sorted as [|x r IH]; intros Hsub Hord; [reflexivity |].
  simpl in Hord. apply andb_true_iff in Hord as [Hx Hr].
  rewrite forallb_forall in Hx. simpl.
  destruct (lt item x) eqn:E.
  - simpl. rewrite (Hasym item x Hitem (Hsub x (or_introl eq_refl)) E). simpl.
    apply andb_true_iff. split; [| apply andb_true_iff; split; [| exact Hr]].
    + apply forallb_forall. intros y Hy. apply negb_true_iff.
      destruct (lt y item) eqn:Ey; [| reflexivity].
      destruct (Hneg y item x (Hsub y (or_intror Hy)) Hitem
                  (Hsub x (or_introl eq_refl)) Ey) as [H | H].
      * specialize (Hx y Hy). rewrite H in Hx. discriminate.
      * rewrite (Hasym item x Hitem (Hsub x (or_introl eq_refl)) E) in H. discriminate.
    + apply forallb_forall. exact Hx.
  - simpl. apply andb_true_iff. split.
    + apply forallb_forall. intros y Hy. apply insert_item_In in Hy as [-> | Hy].
      * rewrite E. reflexivity.
      * apply Hx, Hy.
    + apply IH; [| exact Hr]. intros y Hy. apply Hsub. right. exact Hy.
Qed.

(** An element is placed after the elements it is tied with. *)
Lemma insert_item_stable a item sorted :
  In a l -> In item l -> (forall y, In y sorted -> In y l) ->
  ordered lt sorted = true ->
  List.filter (tied lt a) (insert_item item sorted)
  = List.filter (tied lt a) sorted ++ (if tied lt a item then [item] else []).
Proof.
  intros Ha Hitem. induction sorted as [|x r IH]; intros Hsub Hord; [reflexivity |].
  simpl in Hord. apply andb_true_iff in Hord as [Hx Hr].
  rewrite forallb_forall in Hx. cbn [Common.insert_item].
  destruct (lt item x) eqn:E.
  - change (List.filter (tied lt a) (item :: x :: r))
      with (if tied lt a item then item :: List.filter (tied lt a) (x :: r)
            else List.filter (tied lt a) (x :: r)).
    destruct (tied lt a item) eqn:Et; [| rewrite app_nil_r; reflexivity].
    assert (forall y, In y (x :: r) -> tied lt a y = false) as Hnone.
    { intros y Hy. destruct (tied lt a y) eqn:Ey; [| reflexivity]. exfalso.
      unfold tied in Et, Ey.
      apply andb_true_iff in Et as [Et1 Et2]. apply negb_true_iff in Et1, Et2.
      apply andb_true_iff in Ey as [Ey1 Ey2]. apply negb_true_iff in Ey1, Ey2.
      assert (lt item y = true) as Hiy.
      { destruct Hy as [<- | Hy]; [exact E |].
        destruct (Hneg item x y Hitem (Hsub x (or_introl eq_refl))
                    (Hsub y (or_intror Hy)) E) as [H | H]; [exact H |].
        specialize (Hx y Hy). rewrite H in Hx. discriminate. }
      destruct (Hneg item y a Hitem (Hsub y Hy) Ha Hiy) as [H | H]; congruence. }
    assert (List.filter (tied lt a) (x :: r) = []) as ->.
    { clear -Hnone. induction (x :: r) as [|y t IHt]; [reflexivity |].
      simpl. rewrite (Hnone y (or_introl eq_refl)). apply IHt.
      intros z Hz. apply Hnone. right. exact Hz. }
    reflexivity.
  - cbn [List.filter]. rewrite IH; [| intros y Hy; apply Hsub; right; exact Hy | exact Hr].
    destruct (tied lt a x); reflexivity.
Qed.

Lemma sort_from sorted arr :
  (forall y, In y sorted -> In y l) -> (forall y, In y arr -> In y l) ->
  ordered lt sorted = true ->
  let result := foldl (fun sorted item => insert_item item sorted) sorted arr in
  ordered lt result = true /\
  forall a, In a l ->
    List.filter (tied lt a) result
    = List.filter (tied lt a) sorted ++ List.filter (tied lt a) arr.
Proof.
  revert sorted. induction arr as [|item arr IH]; intros sorted Hs Ha Hord; simpl.
  - split; [exact Hord |]. intros a _. rewrite app_nil_r. reflexivity.
  - destruct (IH (insert_item item sorted)) as [Ho Hst].
    + intros y Hy. apply insert_item_In in Hy as [-> | Hy]; [apply Ha; left; reflexivity |].
      apply Hs, Hy.
    + intros y Hy. apply Ha. right. exact Hy.
    + apply insert_item_ordered; auto. apply Ha. left. reflexivity.
    + split; [exact Ho |]. intros a Hal. rewrite (Hst a Hal).
      rewrite insert_item_stable; auto; [| apply Ha; left; reflexivity].
      rewrite <- app_assoc. destruct (tied lt a item); reflexivity.
Qed.

End Sort.

Lemma sort_perm localeCompare less_than sortKey sorted arr :
  Permutation
    (foldl (fun sorted item => insert_item localeCompare less_than sortKey item sorted)
           sorted arr)
    (sorted ++ arr).
Proof.
  revert sorted. induction arr as [|item arr IH]; intros sorted; simpl.
  - rewrite app_nil_r. reflexivity.
  - rewrite IH, insert_item_perm. apply Permutation_middle.
Qed.

(** X17: [sortObjs] returns the elements of the array, each as often as
    it occurs there, whatever the keys are.  When the test it sorts by,
    [localeCompare(...) === -1] for a string key and [<] otherwise, is a
    strict weak order on the elements, the result is in order (no element
    goes before an earlier one) and the sort is stable: elements that are
    tied keep the order they had in the array. *)
Theorem sortObjs_sorts localeCompare less_than arr sortKey :
  Permutation (sortObjs localeCompare less_than arr sortKey) arr /\
  (strict_weak (goes_before localeCompare less_than sortKey) arr = true ->
   ordered (goes_before localeCompare less_than sortKey)
           (sortObjs localeCompare less_than arr sortKey) = true /\
   forall a, In a arr ->
     List.filter (tied (goes_before localeCompare less_than sortKey) a)
                 (sortObjs localeCompare less_than arr sortKey)
     = List.filter (tied (goes_before localeCompare less_than sortKey) a) arr).
Proof.
  split; [apply (sort_perm localeCompare less_than sortKey [] arr) |].
  intros Hsw. destruct (strict_weak_spec _ _ Hsw) as [Hasym Hneg].
  destruct (sort_from localeCompare less_than sortKey arr Hasym Hneg [] arr)
    as [Ho Hst]; auto.
  intros y [].
Qed.

Lemma sortObjs_sorts_witness :
  ordered (goes_before Sample.locale_model Sample.less_than_model "size")
          (sortObjs Sample.locale_model Sample.less_than_model Sample.rows "size") = true /\
  forall a, In a Sample.rows ->
    List.filter (tied (goes_before Sample.locale_model Sample.less_than_model "size") a)
                (sortObjs Sample.locale_model Sample.less_than_model Sample.rows "size")
    = List.filter (tied (goes_before Sample.locale_model Sample.less_than_model "size") a)
                  Sample.rows.
Proof.
  apply (proj2 (sortObjs_sorts Sample.locale_model Sample.less_than_model Sample.rows "size")).
  vm_compute. reflexivity.
Defined.

End CommonFacts.

(** ** Pending requests do not disturb each other *)
Module RegistryFacts.
Import Bridge BridgeTrace RegistryTrace BridgeProofs.

Lemma linked_shrink s s' :
  pendingRequests s' ⊆ pendingRequests s -> timers s' ⊆ timers s ->
  next_timer s' = next_timer s -> linked s -> linked s'.
Proof.
  intros Hp Ht Hn [Hpos H]. split; [rewrite Hn; exact Hpos |].
  intros k en t Hk Htid. rewrite Hn.
  destruct (H k en t (lookup_weaken _ _ _ _ Hk Hp) Htid) as [Hlt Hc].
  split; [exact Hlt |]. intros c Hc'. apply Hc. exact (lookup_weaken _ _ _ _ Hc' Ht).
Qed.

Lemma linked_same s s' : same_registry s s' -> linked s -> linked s'.
Proof.
  intros (Hp & Ht & Hn & _). apply linked_shrink; [rewrite Hp | rewrite Ht | exact Hn];
    reflexivity.
Qed.

Lemma linked_clearPending v s : linked s -> linked (clearPending v s).
Proof.
  apply linked_shrink.
  - destruct v; try reflexivity. rewrite clearPending_pending. apply delete_subseteq.
  - apply clearPending_timers_subseteq.
  - destruct (clearPending_deferreds v s) as (_ & _ & _ & H). exact H.
Qed.

Lemma linked_register msgid name ms s : linked s -> linked (register msgid name ms s).1.
Proof.
  intros [Hpos H]. rewrite register_spec.
  destruct (is_finite_positive ms); cbn [fst]; (split; [simpl; lia |]); simpl;
    intros k en t Hk Htid.
  - destruct (decide (k = msgid)) as [-> | Hne].
    + rewrite lookup_insert_eq in Hk. injection Hk as <-. simpl in Htid.
      injection Htid as <-. split; [lia |].
      intros c. rewrite lookup_insert_eq. intros [= <-]. reflexivity.
    + rewrite lookup_insert_ne in Hk by congruence.
      destruct (H k en t Hk Htid) as [Hlt Hc]. split; [lia |].
      intros c. rewrite lookup_insert_ne by lia. apply Hc.
  - destruct (decide (k = msgid)) as [-> | Hne].
    + rewrite lookup_insert_eq in Hk. injection Hk as <-. discriminate Htid.
    + rewrite lookup_insert_ne in Hk by congruence. exact (H k en t Hk Htid).
Qed.

Lemma new_deferred_registry s :
  pendingRequests (new_deferred s).1 = pendingRequests s /\
  timers (new_deferred s).1 = timers s /\
  next_timer (new_deferred s).1 = next_timer s.
Proof. repeat split. Qed.

Lemma linked_eq s s' :
  pendingRequests s' = pendingRequests s -> timers s' = timers s ->
  next_timer s' = next_timer s -> linked s -> linked s'.
Proof.
  intros Hp Ht Hn. apply linked_shrink; [rewrite Hp | rewrite Ht | exact Hn]; reflexivity.
Qed.

Lemma linked_sendMessageToTop name payload options e thrown s :
  linked s -> linked (sendMessageToTop name payload options e thrown s).1.
Proof.
  intros HL. unfold sendMessageToTop.
  destruct (negb (truthy (field (gadget s) "msghostOrigin"))).
  - cbn [new_deferred fst snd]. eapply linked_same; [apply reject_registry |].
    revert HL. apply linked_eq; reflexivity.
  - pose proof (linked_register (makeCallbackId e) name (request_timeout options s) s HL)
      as HL3.
    destruct (register _ _ _ s) as [s3 d]. cbn [fst] in HL3.
    destruct thrown as [exn|]; cbn [fst].
    + eapply linked_same; [apply reject_registry |]. apply linked_clearPending, HL3.
    + revert HL3. apply linked_eq; reflexivity.
Qed.

Lemma parse_registry JSON_parse raw s :
  same_registry s (parseMessageData JSON_parse raw s).1.
Proof.
  unfold parseMessageData. destruct raw; try apply same_registry_refl.
  destruct (JSON_parse _); repeat split.
Qed.

Lemma linked_messageHandler JSON_parse event s :
  linked s -> linked (messageHandler JSON_parse event s).
Proof.
  intros HL. unfold messageHandler.
  destruct (negb (isTrustedEvent event s)); [exact HL |].
  pose proof (linked_same _ _ (parse_registry JSON_parse (data event) s) HL) as HL1.
  destruct (parseMessageData JSON_parse (data event) s) as [s1 message]. simpl in HL1.
  destruct (negb (truthy message)); [exact HL1 |].
  destruct (truthy (get_prop message "callback")).
  - destruct (pending_get s1 _); [| exact HL1].
    eapply linked_same; [apply resolve_registry |]. apply linked_clearPending, HL1.
  - destruct (get_prop message "name"); try exact HL1.
    destruct (negb (is_empty_string _)); [| exact HL1].
    eapply linked_same; [apply trigger_registry | exact HL1].
Qed.

Lemma linked_timeout t s : linked s -> linked (timeout t s).
Proof.
  intros HL. unfold timeout. destruct (timers s !! t) as [c|]; [| exact HL].
  eapply linked_same; [apply reject_registry |]. apply linked_clearPending.
  revert HL. apply linked_shrink; simpl; [reflexivity | apply delete_subseteq | reflexivity].
Qed.

Lemma linked_ready callback s : linked s -> linked (ready callback s).1.
Proof.
  intros HL. unfold ready. cbn [new_deferred gadget].
  destruct (truthy (field (gadget s) "isReady")); cbn [fst].
  - eapply linked_same; [apply resolve_registry |].
    revert HL. destruct callback; apply linked_eq; reflexivity.
  - revert HL. apply linked_eq; reflexivity.
Qed.

Lemma linked_step JSON_parse s i : linked s -> linked (step JSON_parse s i).
Proof.
  intros HL. destruct i as [name payload options e thrown | event | t | a0 a1 | callback];
    cbn [step].
  - apply linked_sendMessageToTop, HL.
  - apply linked_messageHandler, HL.
  - apply linked_timeout, HL.
  - eapply linked_same; [apply set_registry | exact HL].
  - apply linked_ready, HL.
Qed.

Lemma linked_run JSON_parse inputs s : linked s -> linked (run JSON_parse s inputs).
Proof.
  revert s. induction inputs as [|i inputs IH]; intros s HL; [exact HL |].
  apply IH, linked_step, HL.
Qed.

Lemma linked_attach d c s : linked s -> linked (attach d c s).
Proof.
  intros HL. unfold attach. destruct (deferreds s !! d) as [[]|]; try exact HL.
  - eapply linked_same; [apply run_chain_registry | exact HL].
  - eapply linked_same; [apply run_chain_registry | exact HL].
Qed.

Lemma linked_initialize URL_origin page e thrown :
  linked (initialize URL_origin page e thrown).
Proof.
  unfold initialize, collectData, getEnvironment.
  match goal with |- context [sendMessageToTop _ _ _ e thrown ?s0'] =>
    set (s0 := s0') end.
  assert (linked s0) as HL0.
  { split; [simpl; lia |]. intros k en t Hk. simpl in Hk. rewrite lookup_empty in Hk.
    discriminate. }
  pose proof (linked_sendMessageToTop "get-environment" VUndef VUndef e thrown s0 HL0) as HL.
  destruct (sendMessageToTop "get-environment" VUndef VUndef e thrown s0) as [s3 d].
  apply linked_attach, HL.
Qed.

Lemma linked_reachable JSON_parse URL_origin page e thrown inputs :
  linked (run JSON_parse (initialize URL_origin page e thrown) inputs).
Proof. apply linked_run, linked_initialize. Qed.

Lemma parse_parsed JSON_parse raw s :
  (parseMessageData JSON_parse raw s).2 = parsed JSON_parse raw.
Proof.
  unfold parseMessageData, parsed. destruct raw; try reflexivity.
  destruct (JSON_parse _); reflexivity.
Qed.

(** Cleaning up another request keeps the entry and its timer. *)
Lemma clearPending_other k k' en s :
  linked s -> k' <> k -> pendingRequests s !! k = Some en ->
  pendingRequests (clearPending (VStr k') s) !! k = Some en /\
  forall t c, timerId en = Some t -> timers s !! t = Some c ->
    timers (clearPending (VStr k') s) !! t = Some c.
Proof.
  intros [_ HL] Hne Hk. split.
  - rewrite clearPending_pending, lookup_delete_ne by congruence. exact Hk.
  - intros t c Htid Ht. unfold clearPending. simpl.
    destruct (pendingRequests s !! k') as [en'|] eqn:Ek'; [| exact Ht].
    destruct (timerId en') as [[|t']|] eqn:Et'; simpl; try exact Ht.
    destruct (decide (S t' = t)) as [<- | Hnt].
    + destruct (HL k en (S t') Hk Htid) as [_ H1].
      destruct (HL k' en' (S t') Ek' Et') as [_ H2].
      destruct Hne. rewrite <- (H1 c Ht), <- (H2 c Ht). reflexivity.
    + rewrite lookup_delete_ne by exact Hnt. exact Ht.
Qed.

Lemma kept_eq k en s s1 s' :
  pendingRequests s' = pendingRequests s1 -> timers s' = timers s1 ->
  pendingRequests s1 !! k = Some en ->
  (forall t c, timerId en = Some t -> timers s !! t = Some c -> timers s1 !! t = Some c) ->
  Inv s' ->
  kept k en s s'.
Proof.
  intros Hp Ht Hk Htm HI. unfold kept. rewrite Hp, Ht.
  split; [exact Hk |]. split; [exact Htm |].
  apply (inv_held _ HI). left. exists k, en. rewrite Hp. auto.
Qed.

Lemma kept_same k en s s1 s' :
  same_registry s1 s' ->
  pendingRequests s1 !! k = Some en ->
  (forall t c, timerId en = Some t -> timers s !! t = Some c -> timers s1 !! t = Some c) ->
  Inv s' ->
  kept k en s s'.
Proof. intros (Hp & Ht & _). apply kept_eq; assumption. Qed.

Lemma step_keeps JSON_parse s i k en :
  Inv s -> linked s ->
  pendingRequests s !! k = Some en ->
  touches JSON_parse k s i = false ->
  kept k en s (step JSON_parse s i).
Proof.
  intros HI HL Hk Hi.
  pose proof (Inv_step JSON_parse s i HI) as HI'.
  destruct i as [name payload options e thrown | event | t | a0 a1 | callback];
    cbn [step touches] in *.
  - apply String.eqb_neq in Hi. unfold sendMessageToTop in *.
    destruct (negb (truthy (field (gadget s) "msghostOrigin"))).
    + cbn [new_deferred fst snd] in *.
      eapply kept_same; [apply reject_registry | exact Hk | auto | exact HI'].
    + pose proof (linked_register (makeCallbackId e) name (request_timeout options s) s HL)
        as HL3.
      assert (pendingRequests (register (makeCallbackId e) name
                                 (request_timeout options s) s).1 !! k = Some en /\
              forall t c, timerId en = Some t -> timers s !! t = Some c ->
                timers (register (makeCallbackId e) name
                          (request_timeout options s) s).1 !! t = Some c) as [Hk3 Ht3].
      { rewrite register_spec. destruct HL as [_ HL].
        destruct (is_finite_positive _); cbn [fst pendingRequests timers];
          (split; [rewrite lookup_insert_ne by congruence; exact Hk |]); [| auto].
        intros t c Htid Ht. destruct (HL k en t Hk Htid) as [Hlt _].
        rewrite lookup_insert_ne by lia. exact Ht. }
      destruct (register _ _ _ s) as [s3 d]. cbn [fst] in *.
      destruct thrown as [exn|]; cbn [fst] in *.
      * destruct (clearPending_other k (makeCallbackId e) en s3 HL3 Hi Hk3) as [Hk4 Ht4].
        eapply kept_same; [apply reject_registry | exact Hk4 | | exact HI'].
        intros t c Htid Ht. apply Ht4; auto.
      * eapply kept_same; [| exact Hk3 | exact Ht3 | exact HI']. repeat split.
  - unfold messageHandler in *.
    destruct (negb (isTrustedEvent event s));
      [eapply kept_same; [apply same_registry_refl | exact Hk | auto | exact HI'] |].
    pose proof (parse_registry JSON_parse (data event) s) as Hreg.
    pose proof (parse_parsed JSON_parse (data event) s) as Hparsed.
    destruct (parseMessageData JSON_parse (data event) s) as [s1 message].
    cbn [fst snd] in *. rewrite <- Hparsed in Hi.
    assert (pendingRequests s1 !! k = Some en) as Hk1
      by (destruct Hreg as (-> & _); exact Hk).
    assert (forall t c, timerId en = Some t -> timers s !! t = Some c ->
              timers s1 !! t = Some c) as Ht1
      by (destruct Hreg as (_ & -> & _); auto).
    destruct (negb (truthy message));
      [eapply kept_same; [apply same_registry_refl | exact Hk1 | exact Ht1 | exact HI'] |].
    destruct (truthy (get_prop message "callback")).
    + destruct (pending_get s1 (get_prop message "callback")) as [en'|] eqn:E;
        [| eapply kept_same; [apply same_registry_refl | exact Hk1 | exact Ht1 | exact HI']].
      apply pending_get_Some in E as (k' & Hcb & Hk').
      rewrite Hcb in Hi, HI' |- *. simpl in Hi. apply String.eqb_neq in Hi.
      destruct (clearPending_other k k' en s1 (linked_same _ _ Hreg HL)
                  ltac:(congruence) Hk1) as [Hk2 Ht2].
      eapply kept_same; [apply resolve_registry | exact Hk2 | | exact HI'].
      intros t c Htid Ht. apply Ht2; auto.
    + destruct (get_prop message "name");
        try (eapply kept_same; [apply same_registry_refl | exact Hk1 | exact Ht1 | exact HI']).
      destruct (negb (is_empty_string _));
        [| eapply kept_same; [apply same_registry_refl | exact Hk1 | exact Ht1 | exact HI']].
      eapply kept_same; [apply trigger_registry | exact Hk1 | exact Ht1 | exact HI'].
  - unfold timeout in *. destruct (timers s !! t) as [c|] eqn:Et;
      [| eapply kept_same; [apply same_registry_refl | exact Hk | auto | exact HI']].
    apply String.eqb_neq in Hi.
    set (s0 := set_timers (delete t (timers s)) s) in *.
    assert (linked s0) as HL0
      by (revert HL; apply linked_shrink; simpl;
          [reflexivity | apply delete_subseteq | reflexivity]).
    assert (forall t' c', timerId en = Some t' -> timers s !! t' = Some c' ->
              timers s0 !! t' = Some c') as Ht0.
    { intros t' c' Htid Ht'. simpl. destruct (decide (t = t')) as [-> | Hne].
      - destruct HL as [_ HL]. destruct (HL k en t' Hk Htid) as [_ Hc].
        rewrite Et in Ht'. injection Ht' as <-. destruct Hi. apply Hc, Et.
      - rewrite lookup_delete_ne by exact Hne. exact Ht'. }
    destruct (clearPending_other k (c_msgid c) en s0 HL0 Hi Hk) as [Hk2 Ht2].
    eapply kept_same; [apply reject_registry | exact Hk2 | | exact HI'].
    intros t' c' Htid Ht'. apply Ht2; auto.
  - eapply kept_same; [apply set_registry | exact Hk | auto | exact HI'].
  - unfold ready in *. cbn [new_deferred gadget] in *.
    destruct (truthy (field (gadget s) "isReady")); cbn [fst] in *.
    + eapply kept_same; [apply resolve_registry | | | exact HI'];
        destruct callback; auto.
    + apply (kept_eq k en s s); auto.
Qed.

(** X18: pending requests do not disturb each other.  In every state the
    page reaches, a step that is not about the request registered under
    [k] (not a response with that callback identifier, not the expiry of a
    timer set for it, not a new request that takes the same identifier)
    keeps its registry entry and its active timer, and calls neither
    [resolve] nor [reject] on its Deferred.  The messages of the host, in
    that step and before it, are those whose event, namespaces apart, is
    not named like a method of [gadget]. *)
Theorem pending_request_untouched JSON_parse URL_origin page e thrown inputs k en i :
  forallb (fun i => negb (invokes_method JSON_parse i)) inputs = true ->
  let s := run JSON_parse (initialize URL_origin page e thrown) inputs in
  pendingRequests s !! k = Some en ->
  touches JSON_parse k s i = false ->
  invokes_method JSON_parse i = false ->
  let s' := step JSON_parse s i in
  pendingRequests s' !! k = Some en /\
  (forall t c, timerId en = Some t -> timers s !! t = Some c -> timers s' !! t = Some c) /\
  calls_on (deferred en) (effects s') = O.
Proof.
  intros _ s Hk Hi _ s'.
  apply (step_keeps JSON_parse s i k en); auto.
  - apply Inv_reachable.
  - apply linked_reachable.
Qed.

Lemma pending_request_untouched_witness :
  let s := run Scenario.json_parse_model
             (initialize Scenario.url_origin_model Scenario.page (Scenario.uuid "uuid-1") None)
             [Send "get-location" VUndef VUndef (Scenario.uuid "uuid-2") None] in
  let s' := step Scenario.json_parse_model s
              (Message (Scenario.response "uuid-1" (VObj Scenario.host_environment))) in
  pendingRequests s' !! "uuid-2" = Some (Entry 1 (Some 2%nat) "get-location") /\
  (forall t c, timerId (Entry 1 (Some 2%nat) "get-location") = Some t ->
     timers s !! t = Some c -> timers s' !! t = Some c) /\
  calls_on (deferred (Entry 1 (Some 2%nat) "get-location")) (effects s') = O.
Proof.
  apply (pending_request_untouched Scenario.json_parse_model Scenario.url_origin_model
           Scenario.page (Scenario.uuid "uuid-1") None
           [Send "get-location" VUndef VUndef (Scenario.uuid "uuid-2") None]
           "uuid-2" (Entry 1 (Some 2%nat) "get-location")
           (Message (Scenario.response "uuid-1" (VObj Scenario.host_environment))));
    vm_compute; reflexivity.
Defined.

End RegistryFacts.

(** ** Listening requests do not disturb each other *)
Module ListenerFacts.
Import Bridge BridgeTrace RegistryTrace BridgeProofs Lib LibProofs RegistryFacts.

Lemma lib_linked_shrink s s' :
  (forall d r, closures s' !! d = Some r ->
     exists r0, closures s !! d = Some r0 /\ r_timerId r0 = r_timerId r) ->
  timers (core s') ⊆ timers (core s) ->
  next_timer (core s') = next_timer (core s) ->
  lib_linked s -> lib_linked s'.
Proof.
  intros Hc Ht Hn HL d r t Hd Htid. rewrite Hn.
  destruct (Hc d r Hd) as (r0 & Hd0 & Htid0). rewrite <- Htid0 in Htid.
  destruct (HL d r0 t Hd0 Htid) as [Hlt Hlink]. split; [exact Hlt |].
  intros c Hc'. apply Hlink. exact (lookup_weaken _ _ _ _ Hc' Ht).
Qed.

Lemma lib_linked_core f s :
  timers (f (core s)) = timers (core s) ->
  next_timer (f (core s)) = next_timer (core s) ->
  lib_linked s -> lib_linked (on_core f s).
Proof.
  intros Ht Hn. apply lib_linked_shrink; cbn [on_core core closures].
  - intros d r Hd. eauto.
  - rewrite Ht. reflexivity.
  - exact Hn.
Qed.

Lemma lib_linked_same f s :
  same_registry (core s) (f (core s)) -> lib_linked s -> lib_linked (on_core f s).
Proof. intros (_ & Ht & Hn & _). apply lib_linked_core; assumption. Qed.

Lemma lib_linked_cleanup d s : lib_linked s -> lib_linked (cleanup d s).
Proof.
  apply lib_linked_shrink.
  - intros d' r'. rewrite cleanup_spec.
    destruct (closures s !! d) as [r|] eqn:E; [| eauto].
    destruct (r_cleanedUp r); [eauto |]. cbn [closures].
    destruct (decide (d' = d)) as [-> | Hne].
    + rewrite lookup_insert_eq. intros [= <-]. exists r. auto.
    + rewrite lookup_insert_ne by congruence. eauto.
  - apply cleanup_timers.
  - rewrite cleanup_spec. destruct (closures s !! d) as [r|]; [| reflexivity].
    destruct (r_cleanedUp r); [reflexivity |]. destruct (r_timerId r); reflexivity.
Qed.

Lemma lib_linked_listen d msgid name ms s :
  lib_linked s -> lib_linked (listen d msgid name ms s).
Proof.
  intros HL. unfold listen. destruct (is_finite_positive ms).
  - cbn [setTimeout core closures fst snd]. intros d' r' t Hd' Htid.
    cbn [core closures next_timer timers] in *.
    rewrite insert_insert_eq in Hd'.
    destruct (decide (d' = d)) as [-> | Hne].
    + rewrite lookup_insert_eq in Hd'. injection Hd' as <-. simpl in Htid.
      injection Htid as <-. split; [lia |].
      intros c. rewrite lookup_insert_eq. intros [= <-]. reflexivity.
    + rewrite lookup_insert_ne in Hd' by congruence.
      destruct (HL d' r' t Hd' Htid) as [Hlt Hlink]. split; [lia |].
      intros c. rewrite lookup_insert_ne by lia. apply Hlink.
  - intros d' r' t Hd' Htid. cbn [core closures] in *.
    destruct (decide (d' = d)) as [-> | Hne].
    + rewrite lookup_insert_eq in Hd'. injection Hd' as <-. discriminate Htid.
    + rewrite lookup_insert_ne in Hd' by congruence. exact (HL d' r' t Hd' Htid).
Qed.

Lemma lib_parse_registry JSON_parse raw c :
  same_registry c (parseMessageData JSON_parse raw c).1.
Proof.
  unfold parseMessageData. destruct raw; try apply same_registry_refl.
  destruct (JSON_parse _); repeat split.
Qed.

Lemma lib_parse_parsed JSON_parse raw c :
  (parseMessageData JSON_parse raw c).2 = parsed JSON_parse raw.
Proof.
  unfold parseMessageData, parsed. destruct raw; try reflexivity.
  destruct (JSON_parse _); reflexivity.
Qed.

Lemma lib_linked_state c s :
  timers c = timers (core s) -> next_timer c = next_timer (core s) ->
  lib_linked s -> lib_linked (State c (closures s) (listeners s)).
Proof.
  intros Ht Hn. apply lib_linked_shrink; cbn [core closures]; [eauto | | exact Hn].
  rewrite Ht. reflexivity.
Qed.

Lemma lib_linked_request_listener JSON_parse d event s :
  lib_linked s -> lib_linked (request_listener JSON_parse d event s).
Proof.
  intros HL. unfold request_listener. destruct (closures s !! d); [| exact HL].
  destruct (negb (isTrustedEvent event (core s))); [exact HL |].
  destruct (lib_parse_registry JSON_parse (data event) (core s)) as (_ & Ht & Hn & _).
  destruct (parseMessageData JSON_parse (data event) (core s)) as [c1 parsed0].
  cbn [fst] in Ht, Hn.
  pose proof (lib_linked_state c1 s Ht Hn HL) as HL1.
  destruct (negb (truthy parsed0)); [exact HL1 |].
  destruct (str_strict_eq _ _); [| exact HL1].
  apply lib_linked_same; [apply resolve_registry |]. apply lib_linked_cleanup, HL1.
Qed.

Lemma lib_messageHandler_registry JSON_parse jQuery_type event c :
  same_registry c (messageHandler JSON_parse jQuery_type event c).
Proof.
  unfold messageHandler. destruct (negb (isTrustedEvent event c)); [apply same_registry_refl |].
  pose proof (lib_parse_registry JSON_parse (data event) c) as Hreg.
  destruct (parseMessageData JSON_parse (data event) c) as [c1 message]. cbn [fst] in Hreg.
  destruct (negb (truthy message)); [exact Hreg |].
  destruct (truthy (get_prop message "callback")); [exact Hreg |].
  destruct (event_type jQuery_type _); [| exact Hreg].
  eapply same_registry_trans; [exact Hreg | apply trigger_registry].
Qed.

Lemma lib_linked_call_listener JSON_parse jQuery_type event s l :
  lib_linked s -> lib_linked (call_listener JSON_parse jQuery_type event s l).
Proof.
  intros HL. unfold call_listener. destruct (bool_decide _); [| exact HL].
  destruct l as [d|]; [apply lib_linked_request_listener, HL |].
  apply lib_linked_same; [apply lib_messageHandler_registry | exact HL].
Qed.

Lemma lib_linked_timeout t s : lib_linked s -> lib_linked (timeout t s).
Proof.
  intros HL. unfold timeout. destruct (timers (core s) !! t) as [c|]; [| exact HL].
  apply lib_linked_same; [apply reject_registry |]. apply lib_linked_cleanup.
  revert HL. apply lib_linked_shrink; cbn [on_core core closures];
    [eauto | apply delete_subseteq | reflexivity].
Qed.

Lemma lib_linked_sendMessageToTop name payload options msgid thrown s :
  lib_linked s -> lib_linked (sendMessageToTop name payload options msgid thrown s).1.
Proof.
  intros HL. unfold sendMessageToTop. cbn [new_deferred fst snd gadget].
  match goal with |- context [State ?c (closures s) (listeners s)] =>
    assert (lib_linked (State c (closures s) (listeners s))) as HL1
      by (apply lib_linked_state; [reflexivity | reflexivity | exact HL]);
    set (s1 := State c (closures s) (listeners s)) in *
  end.
  destruct (negb (truthy (field (gadget (core s)) "msghost"))); cbn [fst].
  - apply lib_linked_same; [apply reject_registry | exact HL1].
  - pose proof (lib_linked_listen (next_deferred (core s)) msgid name
                  (request_timeout options (core s)) s1 HL1) as HL2.
    destruct thrown as [exn|]; cbn [fst].
    + apply lib_linked_same; [apply reject_registry |]. apply lib_linked_cleanup, HL2.
    + apply lib_linked_core; [reflexivity | reflexivity | exact HL2].
Qed.

Lemma lib_linked_step JSON_parse jQuery_type s i :
  lib_linked s -> lib_linked (step JSON_parse jQuery_type s i).
Proof.
  intros HL. destruct i as [name payload options msgid thrown | event | t | a0 a1 | callback];
    cbn [step].
  - apply lib_linked_sendMessageToTop, HL.
  - unfold dispatch. generalize (listeners s). intros ls. revert s HL.
    induction ls as [|l ls IH]; intros s HL; [exact HL |].
    simpl. apply IH, lib_linked_call_listener, HL.
  - apply lib_linked_timeout, HL.
  - apply lib_linked_same; [apply set_registry | exact HL].
  - apply lib_linked_core; [| | exact HL]; unfold ready; cbn [new_deferred gadget];
      destruct (truthy (field (gadget (core s)) "isReady")); cbn [fst]; try reflexivity;
      match goal with |- context [resolve ?d ?v ?s0] =>
        destruct (resolve_registry d v s0) as (_ & Ht & Hn & _) end;
      rewrite ?Ht, ?Hn; destruct callback; reflexivity.
Qed.

Lemma lib_linked_run JSON_parse jQuery_type inputs s :
  lib_linked s -> lib_linked (run JSON_parse jQuery_type s inputs).
Proof.
  revert s. induction inputs as [|i inputs IH]; intros s HL; [exact HL |].
  apply IH, lib_linked_step, HL.
Qed.

Lemma lib_linked_initialize page msgid thrown : lib_linked (initialize page msgid thrown).
Proof.
  unfold initialize, collectData.
  match goal with |- context [sendMessageToTop _ _ _ msgid thrown ?s0'] =>
    set (s0 := s0') end.
  assert (lib_linked s0) as HL0.
  { intros d r t Hd. cbn in Hd. rewrite lookup_empty in Hd. discriminate. }
  pose proof (lib_linked_sendMessageToTop "get-environment" VUndef VUndef msgid thrown s0 HL0)
    as HL.
  destruct (sendMessageToTop "get-environment" VUndef VUndef msgid thrown s0) as [s3 d].
  cbn [fst] in HL.
  assert (lib_linked (on_core (attach d (Initialization (getUrlData page))) s3)) as HL'.
  { apply lib_linked_core; [| | exact HL]; unfold attach;
      destruct (deferreds (core s3) !! d) as [[]|]; try reflexivity;
      match goal with |- context [run_chain ?c ?o ?s1] =>
        destruct (run_chain_registry c o s1) as (_ & Ht & Hn & _) end;
      assumption. }
  revert HL'. apply lib_linked_shrink; cbn [core closures]; [eauto | reflexivity | reflexivity].
Qed.

(** Cleaning up another request keeps the listener, the closure and the
    timer. *)
Lemma cleanup_other d d' r s0 s :
  lib_linked s -> d' <> d -> lib_kept d r s0 s -> lib_kept d r s0 (cleanup d' s).
Proof.
  intros HL Hne (Hl & Hd & Ht). rewrite cleanup_spec.
  destruct (closures s !! d') as [r'|] eqn:E; [| repeat split; assumption].
  destruct (r_cleanedUp r'); [repeat split; assumption |].
  split; [| split]; cbn [listeners closures core].
  - apply list_elem_of_filter. split; [congruence | exact Hl].
  - rewrite lookup_insert_ne by congruence. exact Hd.
  - intros t c Htid Hc. specialize (Ht t c Htid Hc).
    destruct (r_timerId r') as [t'|] eqn:Et'; [| exact Ht].
    unfold clearTimeout. cbn [timers set_timers].
    destruct (decide (t' = t)) as [-> | Hnt].
    + destruct (HL d r t Hd Htid) as [_ H1]. destruct (HL d' r' t E Et') as [_ H2].
      destruct Hne. rewrite <- (H1 c Ht), <- (H2 c Ht). reflexivity.
    + rewrite lookup_delete_ne by exact Hnt. exact Ht.
Qed.

Lemma lib_kept_core d r s0 s f :
  timers (f (core s)) = timers (core s) ->
  lib_kept d r s0 s -> lib_kept d r s0 (on_core f s).
Proof.
  intros Ht (Hl & Hd & Hk). repeat split; cbn [on_core listeners closures core]; auto.
  intros t c Htid Hc. rewrite Ht. auto.
Qed.

Lemma lib_kept_state d r s0 s c :
  timers c = timers (core s) ->
  lib_kept d r s0 s -> lib_kept d r s0 (State c (closures s) (listeners s)).
Proof.
  intros Ht (Hl & Hd & Hk). repeat split; cbn [listeners closures core]; auto.
  intros t c0 Htid Hc. rewrite Ht. auto.
Qed.

Lemma request_listener_keeps JSON_parse d d' r event s0 s :
  lib_linked s ->
  str_strict_eq (r_msgid r) (get_prop (parsed JSON_parse (data event)) "callback") = false ->
  lib_kept d r s0 s ->
  lib_kept d r s0 (request_listener JSON_parse d' event s).
Proof.
  intros HL Hi Hk. unfold request_listener.
  destruct (closures s !! d') as [r'|] eqn:E; [| exact Hk].
  destruct (negb (isTrustedEvent event (core s))); [exact Hk |].
  destruct (lib_parse_registry JSON_parse (data event) (core s)) as (_ & Ht & Hn & _).
  pose proof (lib_parse_parsed JSON_parse (data event) (core s)) as Hp.
  destruct (parseMessageData JSON_parse (data event) (core s)) as [c1 parsed0].
  cbn [fst snd] in Ht, Hn, Hp. subst parsed0.
  pose proof (lib_kept_state d r s0 s c1 Ht Hk) as Hk1.
  pose proof (lib_linked_state c1 s Ht Hn HL) as HL1.
  destruct (negb (truthy _)); [exact Hk1 |].
  destruct (str_strict_eq (r_msgid r') _) eqn:Em; [| exact Hk1].
  assert (d' <> d) as Hne.
  { intros ->. destruct Hk as (_ & Hd & _). rewrite Hd in E. injection E as <-.
    congruence. }
  apply lib_kept_core; [| apply cleanup_other; assumption].
  match goal with |- context [resolve ?d0 ?v ?c0] =>
    destruct (resolve_registry d0 v c0) as (_ & H & _) end. exact H.
Qed.

Lemma call_listener_keeps' JSON_parse jQuery_type d r event s0 s l :
  lib_linked s ->
  str_strict_eq (r_msgid r) (get_prop (parsed JSON_parse (data event)) "callback") = false ->
  lib_kept d r s0 s ->
  lib_kept d r s0 (call_listener JSON_parse jQuery_type event s l).
Proof.
  intros HL Hi Hk. unfold call_listener. destruct (bool_decide _); [| exact Hk].
  destruct l as [d'|]; [apply request_listener_keeps; assumption |].
  apply lib_kept_core; [| exact Hk].
  destruct (lib_messageHandler_registry JSON_parse jQuery_type event (core s))
    as (_ & H & _). exact H.
Qed.

Lemma calls_keep JSON_parse jQuery_type d r event ls s0 s :
  lib_linked s ->
  str_strict_eq (r_msgid r) (get_prop (parsed JSON_parse (data event)) "callback") = false ->
  lib_kept d r s0 s ->
  lib_kept d r s0 (foldl (call_listener JSON_parse jQuery_type event) s ls).
Proof.
  revert s. induction ls as [|l ls IH]; intros s HL Hi Hk; [exact Hk |].
  simpl. apply IH; [apply lib_linked_call_listener, HL | exact Hi |].
  apply call_listener_keeps'; assumption.
Qed.

Lemma lib_kept_refl d r s :
  PerRequest d ∈ listeners s -> closures s !! d = Some r -> lib_kept d r s s.
Proof. intros Hl Hd. repeat split; auto. Qed.

Lemma lib_step_keeps JSON_parse jQuery_type s i d r :
  Inv s -> lib_linked s ->
  PerRequest d ∈ listeners s -> closures s !! d = Some r ->
  lib_touches JSON_parse d r s i = false ->
  lib_kept d r s (step JSON_parse jQuery_type s i).
Proof.
  intros HI HL Hl Hd Hi. pose proof (lib_kept_refl d r s Hl Hd) as Hk.
  destruct (inv_closure _ HI d r Hd) as [Hlt _].
  destruct i as [name payload options msgid thrown | event | t | a0 a1 | callback];
    cbn [step lib_touches] in *.
  - unfold sendMessageToTop. cbn [new_deferred fst snd gadget].
    match goal with |- context [State ?c (closures s) (listeners s)] =>
      pose proof (lib_kept_state d r s s c eq_refl Hk) as Hk1;
      assert (lib_linked (State c (closures s) (listeners s))) as HL1
        by (apply lib_linked_state; [reflexivity | reflexivity | exact HL]);
      set (s1 := State c (closures s) (listeners s)) in *
    end.
    destruct (negb (truthy (field (gadget (core s)) "msghost"))); cbn [fst].
    + apply lib_kept_core; [| exact Hk1].
      match goal with |- context [reject ?d0 ?v ?c0] =>
        destruct (reject_registry d0 v c0) as (_ & H & _) end. exact H.
    + set (d0 := next_deferred (core s)) in *.
      set (ms := request_timeout options (core s)) in *.
      pose proof (lib_linked_listen d0 msgid name ms s1 HL1) as HL2.
      assert (lib_kept d r s (listen d0 msgid name ms s1)) as Hk2.
      { destruct Hk1 as (Hl1 & Hd1 & Ht1). unfold listen.
        destruct (is_finite_positive ms); cbn [setTimeout fst snd core closures listeners].
        - split; [| split]; cbn [listeners closures core timers].
          + apply elem_of_app. left. exact Hl1.
          + rewrite insert_insert_eq, lookup_insert_ne by (unfold d0; lia). exact Hd.
          + intros t c Htid Hc. destruct (HL d r t Hd Htid) as [Hb _].
            rewrite lookup_insert_ne by (cbn [s1 core next_timer]; lia).
            apply (Ht1 t c Htid Hc).
        - split; [| split]; cbn [listeners closures core].
          + apply elem_of_app. left. exact Hl1.
          + rewrite lookup_insert_ne by (unfold d0; lia). exact Hd.
          + exact Ht1. }
      destruct thrown as [exn|]; cbn [fst].
      * apply lib_kept_core;
          [| apply cleanup_other; [exact HL2 | unfold d0; lia | exact Hk2]].
        match goal with |- context [reject ?d1 ?v ?c0] =>
          destruct (reject_registry d1 v c0) as (_ & H & _) end. exact H.
      * apply lib_kept_core; [reflexivity | exact Hk2].
  - apply calls_keep; assumption.
  - unfold timeout. destruct (timers (core s) !! t) as [c|] eqn:Et; [| exact Hk].
    apply Nat.eqb_neq in Hi.
    assert (lib_kept d r s (on_core (set_timers (delete t (timers (core s)))) s)) as Hk0.
    { destruct Hk as (Hl0 & Hd0 & _). repeat split; cbn [on_core listeners closures core]; auto.
      intros t' c' Htid Hc'. cbn [timers set_timers].
      destruct (decide (t = t')) as [-> | Hne].
      - destruct (HL d r t' Hd Htid) as [_ Hlink]. destruct Hi. apply Hlink, Et.
      - rewrite lookup_delete_ne by exact Hne. exact Hc'. }
    assert (lib_linked (on_core (set_timers (delete t (timers (core s)))) s)) as HL0
      by (revert HL; apply lib_linked_shrink; cbn [on_core core closures];
          [eauto | apply delete_subseteq | reflexivity]).
    apply lib_kept_core; [| apply cleanup_other; assumption].
    match goal with |- context [reject ?d1 ?v ?c0] =>
      destruct (reject_registry d1 v c0) as (_ & H & _) end. exact H.
  - apply lib_kept_core; [| exact Hk]. destruct (set_registry a0 a1 (core s)) as (_ & H & _).
    exact H.
  - apply lib_kept_core; [| exact Hk]. unfold ready. cbn [new_deferred gadget].
    destruct (truthy (field (gadget (core s)) "isReady")); cbn [fst]; [| reflexivity].
    match goal with |- context [resolve ?d1 ?v ?c0] =>
      destruct (resolve_registry d1 v c0) as (_ & H & _) end.
    rewrite H. destruct callback; reflexivity.
Qed.



End ListenerFacts.

(** ** The calls the scripts make through [gadget]: helper lemmas *)
Module ScriptFacts.
Import Bridge BridgeProofs BridgeTrace BridgeFlow Script.

#[local] Open Scope nat_scope.

Ltac by_decision := apply (bool_decide_unpack _); vm_compute; exact I.

Lemma plain_object_lookup names (o : gmap string value) k :
  plain_object names o = true -> k ∈ names -> o !! k = None.
Proof.
  unfold plain_object. rewrite forallb_forall. intros H Hk.
  apply list_elem_of_In in Hk. specialize (H k Hk).
  apply bool_decide_eq_true in H. exact H.
Qed.

Lemma method_names_taken methods m : m ∈ methods -> m ∈ taken_of methods.
Proof. intros H. unfold taken_of. rewrite elem_of_cons. auto. Qed.

Lemma method_names_reserved methods m : m ∈ methods -> m ∈ reserved_of methods.
Proof.
  intros H. unfold reserved_of. rewrite !elem_of_cons.
  right. right. apply method_names_taken, H.
Qed.

Lemma plain_object_taken methods (o : gmap string value) :
  plain_object (reserved_of methods) o = true -> plain_object (taken_of methods) o = true.
Proof.
  unfold plain_object, reserved_of. cbn [forallb]. intros H.
  apply andb_prop in H as [_ H]. apply andb_prop in H as [_ H]. exact H.
Qed.

Lemma is_method_intact methods m (g : gmap string value) :
  m ∈ methods -> g !! m = None -> is_method_of methods m g = true.
Proof.
  intros Hm Hg. unfold is_method_of. apply andb_true_iff.
  split; apply bool_decide_eq_true; assumption.
Qed.

Lemma is_method_written methods m (g : gmap string value) v :
  g !! m = Some v -> is_method_of methods m g = false.
Proof.
  intros Hg. unfold is_method_of. apply andb_false_iff. right.
  apply bool_decide_eq_false. rewrite Hg. discriminate.
Qed.

(** [trigger("ready")] runs the handlers, then the default action. *)
Lemma trigger_ready_of methods payload s :
  trigger_of methods "ready" payload s
  = Returns (default_ready_of methods (Bridge.trigger "ready" payload s)).
Proof.
  unfold trigger_of, default_ready_of.
  change (event_base "ready") with "ready".
  destruct (is_method_of methods "ready" _); reflexivity.
Qed.

Lemma trigger_ready payload s :
  trigger "ready" payload s = Returns (default_ready (Bridge.trigger "ready" payload s)).
Proof. apply trigger_ready_of. Qed.

(** An event that is not named like a method has no default action. *)
Lemma trigger_plain name payload s :
  names_method (VStr name) = false ->
  trigger name payload s = Returns (Bridge.trigger name payload s).
Proof.
  intros H. unfold trigger, trigger_of, is_method_of.
  cbn [names_method] in H. rewrite H. reflexivity.
Qed.

(** [gadget.ready()] on a page that is ready adds a Deferred and resolves
    it. *)
Lemma default_ready_frame methods s :
  truthy (field (gadget s) "isReady") = true ->
  chains s !! next_deferred s = None ->
  gadget (default_ready_of methods s) = gadget s /\
  ready_waiters (default_ready_of methods s) = ready_waiters s /\
  ready_triggers (effects (default_ready_of methods s)) = ready_triggers (effects s) /\
  (forall cb, runs cb (effects (default_ready_of methods s)) = runs cb (effects s)) /\
  (forall e, In e (effects s) -> In e (effects (default_ready_of methods s))) /\
  (forall d, d < next_deferred s ->
     deferreds (default_ready_of methods s) !! d = deferreds s !! d).
Proof.
  intros Hready Hc. unfold default_ready_of.
  destruct (is_method_of methods "ready" (gadget s)); [| repeat split; auto].
  unfold Bridge.ready. cbn [new_deferred gadget]. rewrite Hready. cbn [fst].
  unfold Bridge.resolve, Bridge.settle. norm_state.
  rewrite lookup_insert_eq, Hc. unfold mark. norm_state. rewrite lookup_insert_eq.
  norm_state. repeat split.
  - rewrite ready_triggers_app. simpl. lia.
  - intros cb. rewrite runs_app. simpl. lia.
  - intros e He. apply in_or_app. left. exact He.
  - intros d Hd. rewrite !lookup_insert_ne by lia. reflexivity.
Qed.

(** *** The callbacks of the initialization *)

Lemma collectData_then_intact u data s :
  is_method "set" (gadget s) = true ->
  collectData_then u data s = Returns (Bridge.collectData_then u data s).
Proof.
  intros H. unfold collectData_then, Bridge.collectData_then. rewrite H.
  destruct (truthy data); reflexivity.
Qed.

Lemma collectData_then_throws u data s v :
  truthy data = true -> gadget s !! "set" = Some v ->
  collectData_then u data s = Throws (NotAFunction "set") s.
Proof.
  intros Hd Hs. unfold collectData_then. rewrite Hd.
  unfold is_method. rewrite (is_method_written _ _ _ _ Hs). reflexivity.
Qed.

Lemma run_chain_intact u o s :
  is_method "set" (gadget s) = true -> o <> Pending ->
  run_chain (Initialization u) o s
  = Returns (default_ready (Bridge.run_chain (Initialization u) o s)).
Proof.
  intros Hset Ho. destruct o as [| payload | error]; [congruence | |].
  - cbn [run_chain Bridge.run_chain]. rewrite (collectData_then_intact _ _ _ Hset).
    cbn [bind]. destruct (Bridge.collectData_then u (getEnvironment_then payload) s)
      as [s1 data]. cbn [fst snd].
    unfold initialization_then, Bridge.initialization_then. apply trigger_ready.
  - cbn [run_chain Bridge.run_chain].
    unfold initialization_fail, Bridge.initialization_fail. apply trigger_ready.
Qed.

Lemma settle_intact d u o s :
  deferreds s !! d = Some Pending ->
  chains s !! d = Some (Initialization u) ->
  is_method "set" (gadget s) = true -> o <> Pending ->
  settle d o s = Returns (default_ready (Bridge.settle d o s)).
Proof.
  intros Hd Hc Hset Ho. unfold settle, Bridge.settle. rewrite Hd, Hc.
  apply run_chain_intact; [| exact Ho]. rewrite mark_gadget. exact Hset.
Qed.

Lemma resolve_intact d u payload s :
  deferreds s !! d = Some Pending ->
  chains s !! d = Some (Initialization u) ->
  is_method "set" (gadget s) = true ->
  resolve d payload s = Returns (default_ready (Bridge.resolve d payload s)).
Proof.
  intros Hd Hc Hset. unfold resolve, Bridge.resolve.
  apply (settle_intact d u); auto; discriminate.
Qed.

Lemma reject_intact d u reason s :
  deferreds s !! d = Some Pending ->
  chains s !! d = Some (Initialization u) ->
  reject d reason s = Returns (default_ready (Bridge.reject d reason s)).
Proof.
  intros Hd Hc. unfold reject, Bridge.reject, settle, Bridge.settle. norm_state.
  rewrite Hd, Hc. cbn [run_chain Bridge.run_chain].
  unfold initialization_fail, Bridge.initialization_fail.
  rewrite trigger_ready. reflexivity.
Qed.

(** What the settlement of the initialization leaves, default action
    included. *)
Lemma settled_initialization d u o s :
  deferreds s !! d = Some Pending ->
  chains s !! d = Some (Initialization u) ->
  o <> Pending ->
  d < next_deferred s ->
  chains s !! next_deferred s = None ->
  let s' := default_ready (Bridge.settle d o s) in
  field (gadget s') "isReady" = VBool true /\
  gadget s' = gadget (Bridge.settle d o s) /\
  ready_triggers (effects s') = S (ready_triggers (effects s)) /\
  ready_waiters s' = [] /\
  (forall cb, runs cb (effects s') = account cb s) /\
  (forall e, In e (effects (Bridge.settle d o s)) -> In e (effects s')) /\
  deferreds s' !! d = Some o.
Proof.
  intros Hd Hc Ho Hlt Hfresh s'.
  destruct (settle_initialization d u o s Hd Hc Ho) as (H1 & H2 & H3 & _ & H5).
  destruct (default_ready_frame gadget_methods (Bridge.settle d o s))
    as (F1 & F2 & F3 & F4 & F5 & F6).
  - rewrite H1. reflexivity.
  - rewrite settle_chains.
    destruct (settle_registry d o s) as (_ & _ & _ & ->). exact Hfresh.
  - subst s'. unfold default_ready. rewrite F1, F2, F3, H1, H2, H3. repeat split; auto.
    + intros cb. rewrite F4.
      destruct (quiet_settle d o s) as [_ Ha]. specialize (Ha cb).
      unfold account in Ha. rewrite H3 in Ha. simpl in Ha. unfold account. lia.
    + rewrite F6; [exact H5 |].
      destruct (settle_registry d o s) as (_ & _ & _ & ->). exact Hlt.
Qed.

Lemma account_emit e cb s :
  (forall cb', is_run cb' e = false) -> account cb (emit e s) = account cb s.
Proof.
  intros H. unfold account. cbn [emit effects ready_waiters].
  rewrite runs_app. simpl. rewrite H. lia.
Qed.

Lemma resolved_initialization d u payload s :
  deferreds s !! d = Some Pending ->
  chains s !! d = Some (Initialization u) ->
  d < next_deferred s ->
  chains s !! next_deferred s = None ->
  let s' := default_ready (Bridge.resolve d payload s) in
  field (gadget s') "isReady" = VBool true /\
  gadget s' = gadget (Bridge.resolve d payload s) /\
  ready_triggers (effects s') = S (ready_triggers (effects s)) /\
  ready_waiters s' = [] /\
  (forall cb, runs cb (effects s') = account cb s) /\
  (forall e, In e (effects (Bridge.resolve d payload s)) -> In e (effects s')) /\
  deferreds s' !! d = Some (Resolved payload).
Proof.
  intros Hd Hc Hlt Hfresh. unfold Bridge.resolve.
  destruct (settled_initialization d u (Resolved payload) (emit (EResolve d payload) s))
    as (H1 & H2 & H3 & H4 & H5 & H6 & H7); auto; try discriminate.
  cbv zeta. rewrite H1, H2, H3, H4, H7. norm_state.
  rewrite ready_triggers_app. simpl. repeat split; auto; try lia.
  intros cb. rewrite H5. apply account_emit. reflexivity.
Qed.

Lemma rejected_initialization d u reason s :
  deferreds s !! d = Some Pending ->
  chains s !! d = Some (Initialization u) ->
  d < next_deferred s ->
  chains s !! next_deferred s = None ->
  let s' := default_ready (Bridge.reject d reason s) in
  field (gadget s') "isReady" = VBool true /\
  gadget s' = gadget (Bridge.reject d reason s) /\
  ready_triggers (effects s') = S (ready_triggers (effects s)) /\
  ready_waiters s' = [] /\
  (forall cb, runs cb (effects s') = account cb s) /\
  (forall e, In e (effects (Bridge.reject d reason s)) -> In e (effects s')) /\
  deferreds s' !! d = Some (Rejected reason).
Proof.
  intros Hd Hc Hlt Hfresh. unfold Bridge.reject.
  destruct (settled_initialization d u (Rejected reason) (emit (EReject d reason) s))
    as (H1 & H2 & H3 & H4 & H5 & H6 & H7); auto; try discriminate.
  cbv zeta. rewrite H1, H2, H3, H4, H7. norm_state.
  rewrite ready_triggers_app. simpl. repeat split; auto; try lia.
  intros cb. rewrite H5. apply account_emit. reflexivity.
Qed.

(** *** The script of the file with the registry *)

(** On a page whose URL data has none of the names that are taken, the
    methods are intact when the request of the initialization is sent. *)
Lemma plain_start URL_origin page m :
  plain_object taken (getUrlData page) = true ->
  m ∈ gadget_methods ->
  is_method m (environment_at_start URL_origin page) = true.
Proof.
  intros Hplain Hm. apply is_method_intact; [exact Hm |].
  unfold environment_at_start. rewrite lookup_insert_ne.
  - apply (plain_object_lookup _ _ _ Hplain), method_names_taken, Hm.
  - intros <-. revert Hm. apply (bool_decide_eq_false_1 _). vm_compute. reflexivity.
Qed.

Lemma collectData_intact URL_origin page e thrown :
  plain_object taken (getUrlData page) = true ->
  collectData URL_origin page e thrown initial
  = Returns (Bridge.collectData URL_origin page e thrown initial).
Proof.
  intros Hplain. unfold collectData, Bridge.collectData.
  change (is_method "getUrlData" (gadget initial)) with true.
  change (is_method "set" (gadget initial)) with true.
  cbn [negb Bridge.set set_gadget gadget initial].
  rewrite (right_id_L ∅ (∪)).
  change (<["msghostOrigin" := _]> (getUrlData page))
    with (environment_at_start URL_origin page).
  rewrite (plain_start URL_origin page "getEnvironment" Hplain) by by_decision.
  cbn [negb]. destruct (getEnvironment e thrown _) as [s3 d]. reflexivity.
Qed.

Lemma attach_pending d c s :
  deferreds s !! d = Some Pending ->
  attach d c s = Returns (Bridge.attach d c s).
Proof. intros H. unfold attach, Bridge.attach. rewrite H. reflexivity. Qed.

Lemma attach_rejected d u reason s :
  deferreds s !! d = Some (Rejected reason) ->
  attach d (Initialization u) s
  = Returns (default_ready (Bridge.attach d (Initialization u) s)).
Proof.
  intros H. unfold attach, Bridge.attach. rewrite H.
  cbn [run_chain Bridge.run_chain].
  unfold initialization_fail, Bridge.initialization_fail.
  rewrite trigger_ready. reflexivity.
Qed.

(** The script on a page whose URL data has none of the names that are taken:
    the request is pending, or it was rejected at once, the [fail]
    callback has run and the default action of [ready] after it. *)
Lemma initialize_pending' URL_origin page e :
  plain_object taken (getUrlData page) = true ->
  truthy (field (environment_at_start URL_origin page) "msghostOrigin") = true ->
  initialize URL_origin page e None = Returns (Bridge.initialize URL_origin page e None).
Proof.
  intros Hplain Hok. unfold initialize, Bridge.initialize.
  rewrite (collectData_intact _ _ _ _ Hplain). cbn [bind].
  destruct (Bridge.collectData URL_origin page e None initial) as [[s d] u] eqn:E.
  cbn [fst snd].
  assert (deferreds s !! d = Some Pending) as Hd.
  { revert E. unfold Bridge.collectData, getEnvironment, sendMessageToTop.
    cbn [Bridge.set set_gadget gadget initial].
    rewrite (right_id_L ∅ (∪)).
    change (<["msghostOrigin" := _]> (getUrlData page))
      with (environment_at_start URL_origin page).
    rewrite Hok. cbn [negb].
    rewrite (request_timeout_at_start URL_origin page) by reflexivity.
    rewrite register_spec. intros E. injection E as <- <- _.
    cbn [deferreds]. apply lookup_insert_eq. }
  apply attach_pending, Hd.
Qed.

Lemma initialize_missing' URL_origin page e thrown :
  plain_object taken (getUrlData page) = true ->
  truthy (field (environment_at_start URL_origin page) "msghostOrigin") = false ->
  initialize URL_origin page e thrown
  = Returns (default_ready (Bridge.initialize URL_origin page e thrown)).
Proof.
  intros Hplain Hno. unfold initialize, Bridge.initialize.
  rewrite (collectData_intact _ _ _ _ Hplain). cbn [bind].
  destruct (Bridge.collectData URL_origin page e thrown initial) as [[s d] u] eqn:E.
  cbn [fst snd].
  assert (deferreds s !! d = Some (Rejected (missing_msghost "get-environment"))) as Hd.
  { revert E. unfold Bridge.collectData, getEnvironment, sendMessageToTop.
    cbn [Bridge.set set_gadget gadget initial].
    rewrite (right_id_L ∅ (∪)).
    change (<["msghostOrigin" := _]> (getUrlData page))
      with (environment_at_start URL_origin page).
    rewrite Hno. cbn [negb]. intros E. injection E as <- <- _. reflexivity. }
  apply (attach_rejected _ _ _ _ Hd).
Qed.

Lemma initialize_thrown' URL_origin page e exn :
  plain_object taken (getUrlData page) = true ->
  truthy (field (environment_at_start URL_origin page) "msghostOrigin") = true ->
  initialize URL_origin page e (Some exn)
  = Returns (default_ready (Bridge.initialize URL_origin page e (Some exn))).
Proof.
  intros Hplain Hok. unfold initialize, Bridge.initialize.
  rewrite (collectData_intact _ _ _ _ Hplain). cbn [bind].
  destruct (Bridge.collectData URL_origin page e (Some exn) initial) as [[s d] u] eqn:E.
  cbn [fst snd].
  assert (deferreds s !! d = Some (Rejected exn)) as Hd.
  { revert E. unfold Bridge.collectData, getEnvironment, sendMessageToTop.
    cbn [Bridge.set set_gadget gadget initial].
    rewrite (right_id_L ∅ (∪)).
    change (<["msghostOrigin" := _]> (getUrlData page))
      with (environment_at_start URL_origin page).
    rewrite Hok. cbn [negb].
    rewrite (request_timeout_at_start URL_origin page) by reflexivity.
    rewrite register_spec. cbn [is_finite_positive Z.ltb Z.compare]. norm_state.
    unfold clearPending, pending_get. norm_state.
    rewrite lookup_insert_eq. norm_state.
    rewrite !delete_insert_eq, !delete_empty.
    unfold Bridge.reject, Bridge.settle. norm_state.
    rewrite lookup_insert_eq, lookup_empty.
    unfold mark. norm_state. rewrite lookup_insert_eq. norm_state.
    intros E. injection E as <- <- _. cbn [deferreds]. apply lookup_insert_eq. }
  apply (attach_rejected _ _ _ _ Hd).
Qed.

(** *** Consumers that wait for [ready] *)

Lemma waits_refl s : waits s s.
Proof. repeat split; auto. Qed.

Lemma waits_trans s1 s2 s3 : waits s1 s2 -> waits s2 s3 -> waits s1 s3.
Proof.
  intros (A1 & A2 & A3 & A4 & A5 & A6 & A7) (B1 & B2 & B3 & B4 & B5 & B6 & B7).
  repeat split; try congruence; try lia.
  intros d Hd. rewrite B6 by lia. apply A6, Hd.
Qed.

Lemma ready_waits callback s :
  Fresh s -> waits s (Bridge.ready callback s).1.
Proof.
  intros HF. unfold Bridge.ready. cbn [new_deferred gadget].
  destruct (truthy (field (gadget s) "isReady")); cbn [fst].
  - assert (chains s !! next_deferred s = None) as Hc by (apply HF; lia).
    unfold Bridge.resolve, Bridge.settle.
    destruct callback as [cb|]; norm_state; rewrite lookup_insert_eq, Hc;
      unfold mark; norm_state; rewrite lookup_insert_eq; norm_state.
    + repeat split; norm_state; auto; try lia.
      * intros d Hd. rewrite !lookup_insert_ne by lia. reflexivity.
      * rewrite !ready_triggers_app. simpl. lia.
    + repeat split; norm_state; auto; try lia.
      * intros d Hd. rewrite !lookup_insert_ne by lia. reflexivity.
      * rewrite !ready_triggers_app. simpl. lia.
  - repeat split; norm_state; auto; try lia.
    intros d Hd. rewrite lookup_insert_ne by lia. reflexivity.
Qed.

Lemma Fresh_ready callback s : Fresh s -> Fresh (Bridge.ready callback s).1.
Proof.
  intros HF. exact (Fresh_step (fun _ => None) s (Ready callback) HF).
Qed.

(** The calls of [gadget.ready] return, leave the request of the
    initialization alone, and each callback handed over has run or
    waits. *)
Lemma ready_all_of_spec methods callbacks s :
  Fresh s -> is_method_of methods "ready" (gadget s) = true ->
  exists s',
    ready_all_of methods callbacks s = Returns s' /\ waits s s' /\ Fresh s' /\
    forall cb, account cb s' = account cb s + asked cb callbacks.
Proof.
  revert s. induction callbacks as [|callback rest IH]; intros s HF Hm.
  - exists s. split; [reflexivity |]. split; [apply waits_refl |]. split; [exact HF |].
    intros cb. simpl. lia.
  - cbn [ready_all_of]. unfold ready_of. rewrite Hm. cbn [bind].
    pose proof (ready_waits callback s HF) as Hw.
    destruct (IH (Bridge.ready callback s).1) as (s' & Hr & Hw' & HF' & Ha).
    + apply Fresh_ready, HF.
    + destruct Hw as (-> & _). exact Hm.
    + exists s'. split; [exact Hr |]. split; [eapply waits_trans; eassumption |].
      split; [exact HF' |]. intros cb. rewrite Ha.
      destruct (ready_flow callback s) as [_ Hf]. rewrite Hf.
      destruct callback as [cb'|]; simpl; lia.
Qed.

End ScriptFacts.

(** ** The initialization of [gadget.js] with the registry, call by call *)
Module ScriptFlow.
Import Bridge BridgeProofs BridgeTrace BridgeFlow Script ScriptFacts.
#[local] Open Scope nat_scope.

Lemma delivered_parse JSON_parse raw message s :
  delivered JSON_parse raw message ->
  parseMessageData JSON_parse raw s = (s, message).
Proof.
  unfold delivered, parseMessageData. destruct raw; intros ->; reflexivity.
Qed.

Lemma usable_origin_trusted event s :
  source event = Top ->
  origin event = field (gadget s) "msghostOrigin" ->
  typeof (origin event) = "string" ->
  isTrustedEvent event s = true.
Proof.
  intros Hs Ho Ht. unfold isTrustedEvent. rewrite Hs.
  destruct (origin event) as [| | | | o |] eqn:E; try discriminate Ht.
  rewrite <- Ho. cbn [str_strict_eq]. apply String.eqb_refl.
Qed.

Lemma origin_value_string o : truthy (origin_value o) = true -> typeof (origin_value o) = "string".
Proof. destruct o; [reflexivity | discriminate]. Qed.

Lemma start_origin_string URL_origin page :
  truthy (field (environment_at_start URL_origin page) "msghostOrigin") = true ->
  typeof (field (environment_at_start URL_origin page) "msghostOrigin") = "string".
Proof.
  unfold environment_at_start, field. rewrite lookup_insert_eq. apply origin_value_string.
Qed.

(** The script left the request pending; consumers hand callbacks to
    [gadget.ready]; then the host answers, or the timer expires. *)
Lemma pending_then_ready JSON_parse URL_origin page e callbacks :
  plain_object taken (getUrlData page) = true ->
  truthy (field (environment_at_start URL_origin page) "msghostOrigin") = true ->
  let s0 := Bridge.initialize URL_origin page e None in
  exists s,
    ready_all callbacks s0 = Returns s /\
    gadget s = environment_at_start URL_origin page /\
    ready_triggers (effects s) = 0 /\
    (forall event message,
       source event = Top ->
       origin event = field (gadget s0) "msghostOrigin" ->
       delivered JSON_parse (data event) message ->
       get_prop message "callback" = VStr (makeCallbackId e) ->
       makeCallbackId e <> "" ->
       exists s1,
         messageHandler JSON_parse event s = Returns s1 /\
         deferreds s1 !! 0 = Some (Resolved (get_prop message "payload")) /\
         became_ready callbacks s1 /\
         gadget s1
         = <["isReady" := VBool true]>
             (gadget (Bridge.collectData_then (getUrlData page)
                        (getEnvironment_then (get_prop message "payload")) s).1) /\
         exists banner,
           In (ELog banner
                 [VObj (Bridge.collectData_then (getUrlData page)
                          (getEnvironment_then (get_prop message "payload")) s).2])
              (effects s1)) /\
    (exists s1,
       timeout 1 s = Returns s1 /\
       deferreds s1 !! 0
       = Some (Rejected (timed_out (TimeoutClosure (makeCallbackId e) 0 "get-environment"
                                      (Fin 15000)))) /\
       became_ready callbacks s1).
Proof.
  intros Hplain Hok s0.
  pose proof (Fresh_initialize URL_origin page e None) as HF0. fold s0 in HF0.
  assert (s0 = _) as Hs0 by (apply (initialize_pending URL_origin page e Hok)).
  assert (is_method "ready" (gadget s0) = true) as Hm0.
  { rewrite Hs0. cbn [gadget]. apply plain_start; [exact Hplain | by_decision]. }
  destruct (ready_all_of_spec gadget_methods callbacks s0 HF0 Hm0) as (s & Hr & Hw & HF & Ha).
  destruct Hw as (Hg & Hc & Hp & Ht & Hn & Hd & Htr).
  assert (forall cb, account cb s = asked cb callbacks) as Ha'.
  { intros cb. rewrite Ha, Hs0. unfold account. simpl. lia. }
  clear Ha. rewrite Hs0 in Hg, Hc, Hp, Ht, Hn, Hd, Htr.
  cbn [gadget chains pendingRequests timers next_deferred deferreds effects] in *.
  assert (deferreds s !! 0 = Some Pending) as Hd0
    by (rewrite Hd by lia; apply lookup_insert_eq).
  clear Hd. rename Hd0 into Hd. simpl in Htr.
  assert (pendingRequests s !! makeCallbackId e
          = Some (Entry 0 (Some 1) "get-environment")) as Hp0
    by (rewrite Hp; apply lookup_insert_eq).
  assert (timers s !! 1
          = Some (TimeoutClosure (makeCallbackId e) 0 "get-environment" (Fin 15000)))
    as Ht0 by (rewrite Ht; apply lookup_insert_eq).
  assert (chains s !! 0 = Some (Initialization (getUrlData page))) as Hc0
    by (rewrite Hc; apply lookup_insert_eq).
  assert (chains s !! next_deferred s = None) as Hfresh by (apply HF; lia).
  assert (is_method "set" (gadget s) = true) as Hset.
  { rewrite Hg. apply plain_start; [exact Hplain | by_decision]. }
  exists s. split; [exact Hr |]. split; [exact Hg |]. split; [exact Htr |]. split.
  - intros event message Hsrc Horigin Hdel Hcb Hne.
    assert (isTrustedEvent event s = true) as Htrust.
    { apply usable_origin_trusted; [exact Hsrc | |].
      - rewrite Horigin, Hs0, Hg. reflexivity.
      - rewrite Horigin, Hs0. cbn [gadget]. apply start_origin_string, Hok. }
    unfold messageHandler. rewrite Htrust, (delivered_parse _ _ _ _ Hdel). cbn [negb].
    rewrite (callback_is_object _ _ Hcb), Hcb, (truthy_nonempty _ Hne). cbn [negb].
    unfold pending_get. rewrite Hp0. cbn [deferred].
    set (s' := clearPending (VStr (makeCallbackId e)) s).
    assert (deferreds s' !! 0 = Some Pending) as Hd'
      by (unfold s'; destruct (clearPending_deferreds (VStr (makeCallbackId e)) s) as (-> & _);
          exact Hd).
    assert (chains s' !! 0 = Some (Initialization (getUrlData page))) as Hc'
      by (unfold s'; rewrite clearPending_chains; exact Hc0).
    assert (gadget s' = gadget s) as Hg' by apply clearPending_gadget.
    rewrite (resolve_intact 0 (getUrlData page) _ s' Hd' Hc') by (rewrite Hg'; exact Hset).
    eexists. split; [reflexivity |].
    destruct (resolved_initialization 0 (getUrlData page) (get_prop message "payload") s'
                Hd' Hc') as (R1 & R2 & R3 & R4 & R5 & R6 & R7).
    + unfold s'. rewrite clearPending_next_deferred. lia.
    + unfold s'. rewrite clearPending_next_deferred, clearPending_chains. exact Hfresh.
    + split; [exact R7 |]. split; [| split].
      * split; [exact R1 |]. split; [| split; [exact R4 |]].
        -- rewrite R3. unfold s'. rewrite clearPending_effects, Htr. reflexivity.
        -- intros cb. rewrite R5. destruct (quiet_clearPending (VStr (makeCallbackId e)) s)
             as [_ Hq]. fold s' in Hq. rewrite Hq. apply Ha'.
      * rewrite R2.
        destruct (resolve_initialization_gadget 0 (getUrlData page)
                    (get_prop message "payload") s' Hd' Hc') as [-> _].
        f_equal. unfold Bridge.collectData_then. cbn [fst].
        destruct (truthy (getEnvironment_then (get_prop message "payload")));
          [| exact Hg'].
        unfold Bridge.set. destruct (getEnvironment_then _); norm_state; rewrite ?Hg';
          reflexivity.
      * destruct (resolve_initialization_gadget 0 (getUrlData page)
                    (get_prop message "payload") s' Hd' Hc') as [_ [banner Hlog]].
        exists banner. apply R6. exact Hlog.
  - unfold timeout. rewrite Ht0. cbn [c_msgid c_deferred].
    set (s' := clearPending _ _).
    assert (deferreds s' !! 0 = Some Pending) as Hd'.
    { unfold s'. destruct (clearPending_deferreds (VStr (makeCallbackId e))
                             (set_timers (delete 1 (timers s)) s)) as (-> & _).
      exact Hd. }
    assert (chains s' !! 0 = Some (Initialization (getUrlData page))) as Hc'
      by (unfold s'; rewrite clearPending_chains; exact Hc0).
    rewrite (reject_intact 0 (getUrlData page) _ s' Hd' Hc').
    eexists. split; [reflexivity |].
    destruct (rejected_initialization 0 (getUrlData page)
                (timed_out (TimeoutClosure (makeCallbackId e) 0 "get-environment" (Fin 15000)))
                s' Hd' Hc') as (R1 & R2 & R3 & R4 & R5 & R6 & R7).
    + unfold s'. rewrite clearPending_next_deferred. norm_state. lia.
    + unfold s'. rewrite clearPending_next_deferred, clearPending_chains. exact Hfresh.
    + split; [exact R7 |]. split; [exact R1 |]. split; [| split; [exact R4 |]].
      * rewrite R3. unfold s'. rewrite clearPending_effects. norm_state. rewrite Htr.
        reflexivity.
      * intros cb. rewrite R5.
        destruct (quiet_clearPending (VStr (makeCallbackId e))
                    (set_timers (delete 1 (timers s)) s)) as [_ Hq].
        fold s' in Hq. rewrite Hq. apply Ha'.
Qed.

(** [gadget.ready(callback)] on a page that is ready calls back at once. *)
Lemma ready_when_ready methods cb s :
  truthy (field (gadget s) "isReady") = true ->
  is_method_of methods "ready" (gadget s) = true ->
  exists r, ready_of methods (Some cb) s = Returns r /\ In (ERun cb) (effects r.1).
Proof.
  intros Hready Hm. unfold ready_of. rewrite Hm. eexists. split; [reflexivity |].
  unfold Bridge.ready. cbn [new_deferred gadget]. rewrite Hready. cbn [fst].
  unfold Bridge.resolve. apply settle_keeps. norm_state.
  apply in_or_app. left. apply in_or_app. right. left. reflexivity.
Qed.

Lemma is_method_flag methods m (g : gmap string value) v :
  m <> "isReady" ->
  is_method_of methods m (<["isReady" := v]> g) = is_method_of methods m g.
Proof.
  intros Hm. unfold is_method_of. rewrite lookup_insert_ne by congruence. reflexivity.
Qed.

(** A state the [fail] callback of the initialization has left. *)
Lemma ready_at_once methods g p t nt reason log :
  let b := State (<["isReady" := VBool true]> g) p t nt {[ 0 := Rejected reason ]} 1 ∅ []
             [EReject 0 reason; log; ETrigger "ready" VUndef] in
  (forall cb, is_run cb log = false) -> is_ready_trigger log = false ->
  is_method_of methods "ready" g = true ->
  deferreds (default_ready_of methods b) !! 0 = Some (Rejected reason) /\
  became_ready [] (default_ready_of methods b) /\
  forall cb, exists r,
    ready_of methods (Some cb) (default_ready_of methods b) = Returns r /\
    In (ERun cb) (effects r.1).
Proof.
  intros b Hrun Hlog Hm.
  destruct (default_ready_frame methods b) as (F1 & F2 & F3 & F4 & _ & F6).
  - unfold b, field. cbn [gadget]. rewrite lookup_insert_eq. reflexivity.
  - apply lookup_empty.
  - split; [rewrite F6; [apply lookup_insert_eq | unfold b; cbn [next_deferred]; lia] |].
    split.
    + unfold became_ready. rewrite F1, F2, F3. split; [| split; [| split]].
      * unfold b, field. cbn [gadget]. rewrite lookup_insert_eq. reflexivity.
      * unfold b. cbn [effects ready_triggers is_ready_trigger]. rewrite Hlog. reflexivity.
      * reflexivity.
      * intros cb. rewrite F4. unfold b. cbn [effects runs is_run]. rewrite Hrun.
        reflexivity.
    + intros cb. apply ready_when_ready; rewrite F1; unfold b; cbn [gadget].
      * unfold field. rewrite lookup_insert_eq. reflexivity.
      * rewrite is_method_flag by discriminate. exact Hm.
Qed.

(** Without a usable origin, or when the transmission throws, the page is
    ready when the script ends. *)
Lemma rejected_at_once URL_origin page e thrown :
  plain_object taken (getUrlData page) = true ->
  truthy (field (environment_at_start URL_origin page) "msghostOrigin") = false \/
    thrown <> None ->
  exists s0 reason,
    initialize URL_origin page e thrown = Returns s0 /\
    deferreds s0 !! 0 = Some (Rejected reason) /\
    became_ready [] s0 /\
    forall cb, exists r, ready (Some cb) s0 = Returns r /\ In (ERun cb) (effects r.1).
Proof.
  intros Hplain Hcase.
  assert (is_method "ready" (environment_at_start URL_origin page) = true) as Hm
    by (apply plain_start; [exact Hplain | by_decision]).
  destruct (truthy (field (environment_at_start URL_origin page) "msghostOrigin")) eqn:Hok.
  - destruct thrown as [exn|]; [| destruct Hcase; congruence].
    rewrite (initialize_thrown' _ _ _ _ Hplain Hok), (initialize_thrown _ _ _ _ Hok).
    eexists _, exn. split; [reflexivity |].
    apply (ready_at_once gadget_methods); [reflexivity | reflexivity | exact Hm].
  - rewrite (initialize_missing' _ _ _ _ Hplain Hok), (initialize_missing _ _ _ _ Hok).
    eexists _, _. split; [reflexivity |].
    apply (ready_at_once gadget_methods); [reflexivity | reflexivity | exact Hm].
Qed.

End ScriptFlow.

(** ** The initialization of [src/_lib/gadget.js], call by call *)
Module LibScriptFacts.
Import Bridge BridgeProofs BridgeTrace BridgeFlow Script ScriptFacts ScriptFlow.
#[local] Open Scope nat_scope.

Lemma lib_plain_start page m :
  plain_object taken (getUrlData page) = true ->
  m ∈ gadget_methods ->
  is_method m (getUrlData page) = true.
Proof.
  intros Hplain Hm. apply is_method_intact; [exact Hm |].
  apply (plain_object_lookup _ _ _ Hplain), method_names_taken, Hm.
Qed.

Lemma lib_collectData_intact page msgid thrown :
  plain_object taken (getUrlData page) = true ->
  LibScript.collectData page msgid thrown Lib.initial
  = Returns (Lib.collectData page msgid thrown Lib.initial).
Proof.
  intros Hplain. unfold LibScript.collectData, Lib.collectData.
  change (is_method "getUrlData" (gadget (Lib.core Lib.initial))) with true.
  change (is_method "set" (gadget (Lib.core Lib.initial))) with true.
  cbn [negb]. unfold Lib.initial.
  cbn [Lib.on_core Lib.core Lib.closures Lib.listeners Bridge.set set_gadget gadget
       Bridge.initial].
  rewrite (right_id_L ∅ (∪)).
  rewrite (lib_plain_start page "getEnvironment" Hplain) by by_decision.
  cbn [negb]. destruct (Lib.sendMessageToTop _ _ _ _ _ _) as [s2 d]. reflexivity.
Qed.

Lemma lib_initialize_pending' page msgid :
  plain_object taken (getUrlData page) = true ->
  truthy (field (getUrlData page) "msghost") = true ->
  LibScript.initialize page msgid None = Returns (Lib.initialize page msgid None).
Proof.
  intros Hplain Hok. unfold LibScript.initialize, Lib.initialize.
  rewrite (lib_collectData_intact _ _ _ Hplain). cbn [bind].
  destruct (Lib.collectData page msgid None Lib.initial) as [[s d] u] eqn:E.
  cbn [fst snd].
  assert (deferreds (Lib.core s) !! d = Some Pending) as Hd.
  { revert E. unfold Lib.collectData, Lib.sendMessageToTop, Lib.initial.
    cbn [Lib.on_core Lib.core Lib.closures Lib.listeners Bridge.set set_gadget gadget
         Bridge.initial].
    rewrite (right_id_L ∅ (∪)). LibProofs.norm_lib. rewrite Hok. cbn [negb].
    rewrite (LibProofs.lib_request_timeout_at_start page) by reflexivity.
    unfold Lib.listen. cbn [is_finite_positive Z.ltb Z.compare]. LibProofs.norm_lib.
    intros E. injection E as <- <- _. LibProofs.norm_lib. apply lookup_insert_eq. }
  unfold LibScript.on_core. rewrite (attach_pending _ _ _ Hd). reflexivity.
Qed.

Lemma lib_attach_rejected d u reason s :
  deferreds (Lib.core s) !! d = Some (Rejected reason) ->
  bind (LibScript.on_core (attach d (Initialization u)) s)
       (fun s1 => Returns (Lib.State (Lib.core s1) (Lib.closures s1)
                             (Lib.listeners s1 ++ [Lib.Global])))
  = Returns (Lib.on_core default_ready
               (let s1 := Lib.on_core (Bridge.attach d (Initialization u)) s in
                Lib.State (Lib.core s1) (Lib.closures s1)
                  (Lib.listeners s1 ++ [Lib.Global]))).
Proof.
  intros Hd. unfold LibScript.on_core. rewrite (attach_rejected _ _ _ _ Hd). reflexivity.
Qed.

Lemma lib_initialize_missing' page msgid thrown :
  plain_object taken (getUrlData page) = true ->
  truthy (field (getUrlData page) "msghost") = false ->
  LibScript.initialize page msgid thrown
  = Returns (Lib.on_core default_ready (Lib.initialize page msgid thrown)).
Proof.
  intros Hplain Hno. unfold LibScript.initialize, Lib.initialize.
  rewrite (lib_collectData_intact _ _ _ Hplain). cbn [bind].
  destruct (Lib.collectData page msgid thrown Lib.initial) as [[s d] u] eqn:E.
  cbn [fst snd].
  assert (deferreds (Lib.core s) !! d
          = Some (Rejected (Lib.missing_msghost "get-environment" msgid))) as Hd.
  { revert E. unfold Lib.collectData, Lib.sendMessageToTop, Lib.initial.
    cbn [Lib.on_core Lib.core Lib.closures Lib.listeners Bridge.set set_gadget gadget
         Bridge.initial].
    rewrite (right_id_L ∅ (∪)). LibProofs.norm_lib. rewrite Hno. cbn [negb].
    intros E. injection E as <- <- _. reflexivity. }
  apply (lib_attach_rejected _ _ _ _ Hd).
Qed.

Lemma lib_initialize_thrown' page msgid exn :
  plain_object taken (getUrlData page) = true ->
  truthy (field (getUrlData page) "msghost") = true ->
  LibScript.initialize page msgid (Some exn)
  = Returns (Lib.on_core default_ready (Lib.initialize page msgid (Some exn))).
Proof.
  intros Hplain Hok. unfold LibScript.initialize, Lib.initialize.
  rewrite (lib_collectData_intact _ _ _ Hplain). cbn [bind].
  destruct (Lib.collectData page msgid (Some exn) Lib.initial) as [[s d] u] eqn:E.
  cbn [fst snd].
  assert (deferreds (Lib.core s) !! d = Some (Rejected exn)) as Hd.
  { revert E. unfold Lib.collectData, Lib.sendMessageToTop, Lib.initial.
    cbn [Lib.on_core Lib.core Lib.closures Lib.listeners Bridge.set set_gadget gadget
         Bridge.initial].
    rewrite (right_id_L ∅ (∪)). LibProofs.norm_lib. rewrite Hok. cbn [negb].
    rewrite (LibProofs.lib_request_timeout_at_start page) by reflexivity.
    unfold Lib.listen. cbn [is_finite_positive Z.ltb Z.compare]. LibProofs.norm_lib.
    rewrite insert_insert_eq. cbn [fst]. rewrite LibProofs.cleanup_spec.
    LibProofs.norm_lib.
    rewrite lookup_insert_eq.
    cbn [Lib.r_cleanedUp Lib.r_timerId Lib.r_msgid Lib.r_name Lib.r_timeoutMs].
    unfold Lib.on_core, clearTimeout. LibProofs.norm_lib.
    rewrite insert_insert_eq, delete_insert_eq, delete_empty.
    unfold Bridge.reject, Bridge.settle. norm_state.
    rewrite lookup_insert_eq, lookup_empty.
    unfold mark. norm_state. rewrite lookup_insert_eq. norm_state.
    intros E. injection E as <- <- _. LibProofs.norm_lib. apply lookup_insert_eq. }
  apply (lib_attach_rejected _ _ _ _ Hd).
Qed.

(** Without [msghost], or when the transmission throws, the page is ready
    when the script ends. *)
Lemma lib_rejected_at_once page msgid thrown :
  plain_object taken (getUrlData page) = true ->
  truthy (field (getUrlData page) "msghost") = false \/ thrown <> None ->
  exists s0 reason,
    LibScript.initialize page msgid thrown = Returns s0 /\
    deferreds (Lib.core s0) !! 0 = Some (Rejected reason) /\
    became_ready [] (Lib.core s0) /\
    forall cb, exists r,
      ready (Some cb) (Lib.core s0) = Returns r /\ In (ERun cb) (effects r.1).
Proof.
  intros Hplain Hcase.
  assert (is_method "ready" (getUrlData page) = true) as Hm
    by (apply lib_plain_start; [exact Hplain | by_decision]).
  destruct (truthy (field (getUrlData page) "msghost")) eqn:Hok.
  - destruct thrown as [exn|]; [| destruct Hcase; congruence].
    rewrite (lib_initialize_thrown' _ _ _ Hplain Hok),
      (LibProofs.lib_initialize_thrown _ _ _ Hok).
    eexists _, exn. split; [reflexivity |].
    cbn [Lib.on_core Lib.core].
    apply (ready_at_once gadget_methods); [reflexivity | reflexivity | exact Hm].
  - rewrite (lib_initialize_missing' _ _ _ Hplain Hok),
      (LibProofs.lib_initialize_missing _ _ _ Hok).
    eexists _, _. split; [reflexivity |].
    cbn [Lib.on_core Lib.core].
    apply (ready_at_once gadget_methods); [reflexivity | reflexivity | exact Hm].
Qed.

Lemma lib_delivered_parse JSON_parse raw message c :
  delivered JSON_parse raw message ->
  Lib.parseMessageData JSON_parse raw c = (c, message).
Proof.
  unfold delivered, Lib.parseMessageData. destruct raw; intros ->; reflexivity.
Qed.

Lemma lib_trusted event c :
  source event = Top ->
  origin event = field (gadget c) "msghost" ->
  typeof (origin event) = "string" ->
  Lib.isTrustedEvent event c = true.
Proof.
  intros Hs Ho Ht. unfold Lib.isTrustedEvent. rewrite Hs, <- Ho.
  destruct (origin event); try discriminate Ht. apply String.eqb_refl.
Qed.

(** The global [messageHandler] leaves a message with a callback
    identifier alone. *)
Lemma lib_messageHandler_callback JSON_parse jQuery_type event message k c :
  delivered JSON_parse (data event) message ->
  get_prop message "callback" = VStr k -> k <> "" ->
  LibScript.messageHandler JSON_parse jQuery_type event c = Returns c.
Proof.
  intros Hdel Hcb Hne. unfold LibScript.messageHandler.
  destruct (negb (Lib.isTrustedEvent event c)); [reflexivity |].
  rewrite (lib_delivered_parse _ _ _ _ Hdel), (callback_is_object _ _ Hcb), Hcb,
    (truthy_nonempty _ Hne).
  reflexivity.
Qed.

(** The script left the request listening; consumers hand callbacks to
    [gadget.ready]; then the host answers, or the timer expires. *)
Lemma lib_pending_then_ready JSON_parse jQuery_type page msgid callbacks :
  plain_object taken (getUrlData page) = true ->
  truthy (field (getUrlData page) "msghost") = true ->
  let s0 := Lib.initialize page msgid None in
  exists s,
    LibScript.ready_all callbacks s0 = Returns s /\
    gadget (Lib.core s) = getUrlData page /\
    ready_triggers (effects (Lib.core s)) = 0 /\
    (forall event message,
       source event = Top ->
       origin event = field (getUrlData page) "msghost" ->
       typeof (origin event) = "string" ->
       delivered JSON_parse (data event) message ->
       get_prop message "callback" = VStr msgid ->
       msgid <> "" ->
       exists s1,
         LibScript.dispatch JSON_parse jQuery_type event s = Returns s1 /\
         deferreds (Lib.core s1) !! 0 = Some (Resolved (get_prop message "payload")) /\
         became_ready callbacks (Lib.core s1) /\
         gadget (Lib.core s1)
         = <["isReady" := VBool true]>
             (gadget (Bridge.collectData_then (getUrlData page)
                        (getEnvironment_then (get_prop message "payload"))
                        (Lib.core s)).1) /\
         exists banner,
           In (ELog banner
                 [VObj (Bridge.collectData_then (getUrlData page)
                          (getEnvironment_then (get_prop message "payload"))
                          (Lib.core s)).2])
              (effects (Lib.core s1))) /\
    (exists s1,
       LibScript.timeout 1 s = Returns s1 /\
       deferreds (Lib.core s1) !! 0
       = Some (Rejected (timed_out (TimeoutClosure msgid 0 "get-environment" (Fin 15000)))) /\
       became_ready callbacks (Lib.core s1)).
Proof.
  intros Hplain Hok s0.
  pose proof (LibProofs.lib_Fresh_initialize page msgid None) as HF0. fold s0 in HF0.
  assert (s0 = _) as Hs0 by (apply (LibProofs.lib_initialize_pending page msgid Hok)).
  assert (is_method "ready" (gadget (Lib.core s0)) = true) as Hm0.
  { rewrite Hs0. cbn [gadget Lib.core]. apply lib_plain_start; [exact Hplain | by_decision]. }
  destruct (ready_all_of_spec gadget_methods callbacks (Lib.core s0) HF0 Hm0)
    as (c & Hr & Hw & HF & Ha).
  destruct Hw as (Hg & Hc & Hp & Ht & Hn & Hd & Htr).
  assert (forall cb, account cb c = asked cb callbacks) as Ha'.
  { intros cb. rewrite Ha, Hs0. unfold account. simpl. lia. }
  clear Ha. rewrite Hs0 in Hg, Hc, Hp, Ht, Hn, Hd, Htr.
  cbn [Lib.core gadget chains pendingRequests timers next_deferred deferreds effects] in *.
  assert (deferreds c !! 0 = Some Pending) as Hd0
    by (rewrite Hd by lia; apply lookup_insert_eq).
  clear Hd. rename Hd0 into Hd. simpl in Htr.
  assert (timers c !! 1 = Some (TimeoutClosure msgid 0 "get-environment" (Fin 15000)))
    as Ht0 by (rewrite Ht; apply lookup_insert_eq).
  assert (chains c !! 0 = Some (Initialization (getUrlData page))) as Hc0
    by (rewrite Hc; apply lookup_insert_eq).
  assert (chains c !! next_deferred c = None) as Hfresh by (apply HF; lia).
  assert (is_method "set" (gadget c) = true) as Hset.
  { rewrite Hg. apply lib_plain_start; [exact Hplain | by_decision]. }
  set (r0 := Lib.Closure msgid "get-environment" (Fin 15000) (Some 1) false).
  set (s := Lib.State c {[ 0 := r0 ]} [Lib.PerRequest 0; Lib.Global]).
  assert (LibScript.ready_all callbacks s0 = Returns s) as Hrs.
  { unfold LibScript.ready_all, LibScript.on_core, ready_all. rewrite Hr, Hs0. reflexivity. }
  exists s. split; [exact Hrs |]. split; [exact Hg |]. split; [exact Htr |].
  set (c' := clearTimeout 1 c).
  assert (Lib.cleanup 0 s
          = Lib.State c' {[ 0 := Lib.Closure msgid "get-environment" (Fin 15000) (Some 1) true ]}
              [Lib.Global]) as Hclean.
  { rewrite LibProofs.cleanup_spec. unfold s. cbn [Lib.closures Lib.core Lib.listeners].
    rewrite lookup_singleton_eq. unfold r0.
    cbn [Lib.r_cleanedUp Lib.r_timerId Lib.r_msgid Lib.r_name Lib.r_timeoutMs].
    rewrite insert_singleton_eq. reflexivity. }
  assert (deferreds c' !! 0 = Some Pending) as Hd' by exact Hd.
  assert (chains c' !! 0 = Some (Initialization (getUrlData page))) as Hc' by exact Hc0.
  assert (gadget c' = gadget c) as Hg' by reflexivity.
  split.
  - intros event message Hsrc Horigin Hstr Hdel Hcb Hne.
    assert (Lib.isTrustedEvent event c = true) as Htrust
      by (apply lib_trusted; [exact Hsrc | rewrite Hg; exact Horigin | exact Hstr]).
    unfold LibScript.dispatch. unfold s at 2. cbn [Lib.listeners foldl].
    unfold LibScript.call_listener at 2. cbn [bind].
    rewrite bool_decide_true by (unfold s; cbn [Lib.listeners]; left).
    unfold LibScript.request_listener.
    replace (Lib.closures s !! 0) with (Some r0) by (symmetry; apply lookup_insert_eq).
    replace (Lib.core s) with c by reflexivity.
    rewrite Htrust, (lib_delivered_parse _ _ _ _ Hdel). cbn [negb].
    rewrite (callback_is_object _ _ Hcb), Hcb. cbn [negb str_strict_eq Lib.r_msgid r0].
    rewrite String.eqb_refl.
    change (Lib.State c (Lib.closures s) (Lib.listeners s)) with s.
    rewrite Hclean. unfold LibScript.on_core at 1. cbn [Lib.core Lib.closures Lib.listeners].
    rewrite (resolve_intact 0 (getUrlData page) _ c' Hd' Hc') by (rewrite Hg'; exact Hset).
    unfold LibScript.call_listener. cbn [bind Lib.listeners].
    rewrite bool_decide_true by left.
    unfold LibScript.on_core. cbn [Lib.core Lib.closures Lib.listeners].
    rewrite (lib_messageHandler_callback _ _ _ _ _ _ Hdel Hcb Hne).
    eexists. split; [reflexivity |]. cbn [Lib.core].
    destruct (resolved_initialization 0 (getUrlData page) (get_prop message "payload") c'
                Hd' Hc') as (R1 & R2 & R3 & R4 & R5 & R6 & R7).
    + unfold c'. norm_state. lia.
    + exact Hfresh.
    + split; [exact R7 |]. split; [| split].
      * split; [exact R1 |]. split; [| split; [exact R4 |]].
        -- rewrite R3. unfold c'. norm_state. rewrite Htr. reflexivity.
        -- intros cb. rewrite R5. apply Ha'.
      * rewrite R2.
        destruct (resolve_initialization_gadget 0 (getUrlData page)
                    (get_prop message "payload") c' Hd' Hc') as [-> _].
        f_equal. unfold Bridge.collectData_then. cbn [fst].
        destruct (truthy (getEnvironment_then (get_prop message "payload")));
          [| reflexivity].
        unfold Bridge.set. destruct (getEnvironment_then _); reflexivity.
      * destruct (resolve_initialization_gadget 0 (getUrlData page)
                    (get_prop message "payload") c' Hd' Hc') as [_ [banner Hlog]].
        exists banner. apply R6. exact Hlog.
  - unfold LibScript.timeout. replace (Lib.core s) with c by reflexivity.
    rewrite Ht0. cbn [c_deferred].
    set (s1 := Lib.on_core _ s).
    set (c1 := set_timers (delete 1 (timers c)) c).
    assert (Lib.cleanup 0 s1
            = Lib.State (clearTimeout 1 c1)
                {[ 0 := Lib.Closure msgid "get-environment" (Fin 15000) (Some 1) true ]}
                [Lib.Global]) as Hclean1.
    { rewrite LibProofs.cleanup_spec. unfold s1, s.
      cbn [Lib.on_core Lib.closures Lib.core Lib.listeners].
      rewrite lookup_singleton_eq. unfold r0.
      cbn [Lib.r_cleanedUp Lib.r_timerId Lib.r_msgid Lib.r_name Lib.r_timeoutMs].
      rewrite insert_singleton_eq. reflexivity. }
    rewrite Hclean1. unfold LibScript.on_core. cbn [Lib.core Lib.closures Lib.listeners].
    set (c2 := clearTimeout 1 c1).
    assert (deferreds c2 !! 0 = Some Pending) as Hd2 by exact Hd.
    assert (chains c2 !! 0 = Some (Initialization (getUrlData page))) as Hc2 by exact Hc0.
    rewrite (reject_intact 0 (getUrlData page) _ c2 Hd2 Hc2).
    eexists. split; [reflexivity |]. cbn [Lib.core].
    destruct (rejected_initialization 0 (getUrlData page)
                (timed_out (TimeoutClosure msgid 0 "get-environment" (Fin 15000)))
                c2 Hd2 Hc2) as (R1 & R2 & R3 & R4 & R5 & R6 & R7).
    + unfold c2, c1. norm_state. lia.
    + exact Hfresh.
    + split; [exact R7 |]. split; [exact R1 |]. split; [| split; [exact R4 |]].
      * rewrite R3. unfold c2, c1. norm_state. rewrite Htr. reflexivity.
      * intros cb. rewrite R5. apply Ha'.
Qed.

End LibScriptFacts.

(** ** The initialization of the older [gadgetlib.js] *)
Module GadgetlibFacts.
Import Bridge BridgeProofs BridgeTrace BridgeFlow Script ScriptFacts ScriptFlow.
#[local] Open Scope nat_scope.

(** The state the script of the older file leaves when the transmission
    does not throw. *)
Lemma gadgetlib_initialize href msgid :
  plain_object Gadgetlib.reserved (Legacy.getDataFromUrl href) = true ->
  Gadgetlib.initialize href msgid None =
  Returns
    (Gadgetlib.State
       (State (Legacy.getDataFromUrl href) ∅ ∅ 1 {[ 0 := Pending ]} 1 ∅ []
          [ EPostMessage
              (envelope "get-environment" VUndef msgid
                 (set_gadget (Legacy.getDataFromUrl href) initial))
              (field (Legacy.getDataFromUrl href) "msghost") ])
       [(msgid, 0)] (Some 0)).
Proof.
  intros Hplain. unfold Gadgetlib.initialize, Gadgetlib.on_core, Gadgetlib.set.
  cbn [Gadgetlib.core Gadgetlib.initial].
  rewrite bool_decide_true
    by (apply (plain_object_lookup _ _ _ Hplain); left).
  cbn [bind Bridge.set set_gadget gadget initial Gadgetlib.listeners Gadgetlib.awaiting].
  rewrite (right_id_L ∅ (∪)). reflexivity.
Qed.

(** When the transmission throws, the script ends there: the listener is
    on the window, and no callback is attached to the Deferred. *)
Lemma gadgetlib_initialize_thrown href msgid exn :
  plain_object Gadgetlib.reserved (Legacy.getDataFromUrl href) = true ->
  Gadgetlib.initialize href msgid (Some exn) =
  Throws (Raised exn)
    (Gadgetlib.State
       (State (Legacy.getDataFromUrl href) ∅ ∅ 1 {[ 0 := Pending ]} 1 ∅ [] [])
       [(msgid, 0)] None).
Proof.
  intros Hplain. unfold Gadgetlib.initialize, Gadgetlib.on_core, Gadgetlib.set.
  cbn [Gadgetlib.core Gadgetlib.initial].
  rewrite bool_decide_true
    by (apply (plain_object_lookup _ _ _ Hplain); left).
  cbn [bind Bridge.set set_gadget gadget initial Gadgetlib.listeners Gadgetlib.awaiting].
  rewrite (right_id_L ∅ (∪)). reflexivity.
Qed.

Lemma legacy_method_intact (g : gmap string value) m :
  plain_object Gadgetlib.reserved g = true ->
  m ∈ Gadgetlib.legacy_methods ->
  is_method_of Gadgetlib.legacy_methods m g = true.
Proof.
  intros Hplain Hm. apply is_method_intact; [exact Hm |].
  apply (plain_object_lookup _ _ _ Hplain). right.
  apply method_names_reserved, Hm.
Qed.

Lemma legacy_set_plain arg0 c :
  plain_argument Gadgetlib.reserved arg0 = true ->
  Gadgetlib.set arg0 VUndef c = Returns (Bridge.set arg0 VUndef c).
Proof.
  intros Hplain. unfold Gadgetlib.set. destruct arg0; try reflexivity.
  rewrite bool_decide_true; [reflexivity |].
  apply (plain_object_lookup _ _ _ Hplain). left.
Qed.

(** The [then] of the older initialization, with [set] still a method. *)
Lemma gadgetlib_initialization_then loose_eq payload c :
  is_method_of Gadgetlib.legacy_methods "set" (gadget c) = true ->
  (loose_eq payload (VStr "Unrecognized message.") = false ->
   plain_argument Gadgetlib.reserved payload = true) ->
  chains c !! next_deferred c = None ->
  exists c',
    Gadgetlib.initialization_then loose_eq payload c = Returns c' /\
    gadget c'
    = <["isReady" := VBool true]>
        (gadget (if loose_eq payload (VStr "Unrecognized message.") then c
                 else Bridge.set payload VUndef c)) /\
    ready_triggers (effects c') = S (ready_triggers (effects c)) /\
    ready_waiters c' = [] /\
    (forall cb, runs cb (effects c') = account cb c) /\
    (forall e, In e (effects c) -> In e (effects c')) /\
    (forall d o, d < next_deferred c -> deferreds c !! d = Some o -> o <> Pending ->
       deferreds c' !! d = Some o).
Proof.
  intros Hset Hplain Hfresh. unfold Gadgetlib.initialization_then.
  set (c1 := if loose_eq payload (VStr "Unrecognized message.") then c
             else Bridge.set payload VUndef c).
  assert ((if loose_eq payload (VStr "Unrecognized message.") then Returns c
           else if is_method_of Gadgetlib.legacy_methods "set" (gadget c)
                then Gadgetlib.set payload VUndef c
                else Throws (NotAFunction "set") c) = Returns c1) as ->.
  { unfold c1. destruct (loose_eq payload (VStr "Unrecognized message."));
      [reflexivity |]. rewrite Hset. apply legacy_set_plain, Hplain. reflexivity. }
  cbn [bind]. rewrite trigger_ready_of.
  set (c2 := set_gadget (<["isReady" := VBool true]> (gadget c1)) c1).
  assert (effects c1 = effects c /\ ready_waiters c1 = ready_waiters c /\
          chains c1 = chains c /\ next_deferred c1 = next_deferred c /\
          deferreds c1 = deferreds c) as (E1 & E2 & E3 & E4 & E5).
  { unfold c1. destruct (loose_eq payload (VStr "Unrecognized message."));
      [repeat split |].
    split; [apply set_effects |]. split; [apply set_waiters' |].
    split; [apply set_chains' |]. split; [apply set_next_deferred | apply set_deferreds']. }
  destruct (trigger_ready_spec VUndef c2) as (T1 & T2 & T3 & _ & T5).
  destruct (default_ready_frame Gadgetlib.legacy_methods (Bridge.trigger "ready" VUndef c2))
    as (F1 & F2 & F3 & F4 & F5 & F6).
  - rewrite T1. unfold c2, field. cbn [gadget set_gadget]. rewrite lookup_insert_eq.
    reflexivity.
  - rewrite trigger_chains, trigger_next_deferred. unfold c2.
    cbn [chains next_deferred set_gadget]. rewrite E3, E4. exact Hfresh.
  - eexists. split; [reflexivity |]. rewrite F1, F2, F3, T1, T2, T3.
    split; [reflexivity |]. split; [unfold c2; cbn [effects set_gadget]; rewrite E1; reflexivity |].
    split; [reflexivity |]. split; [| split].
    + intros cb. rewrite F4.
      destruct (quiet_trigger "ready" VUndef c2) as [_ Ha]. specialize (Ha cb).
      unfold account in Ha. rewrite T3 in Ha. simpl in Ha. unfold account.
      change (effects c2) with (effects c1) in Ha.
      change (ready_waiters c2) with (ready_waiters c1) in Ha.
      rewrite E1, E2 in Ha. lia.
    + intros e He. apply F5, trigger_keeps. unfold c2. cbn [effects set_gadget].
      rewrite E1. exact He.
    + intros d o Hlt Hd Ho. rewrite F6.
      * apply T5; [| exact Ho]. unfold c2. cbn [deferreds set_gadget]. rewrite E5. exact Hd.
      * rewrite trigger_next_deferred. unfold c2. cbn [next_deferred set_gadget].
        rewrite E4. exact Hlt.
Qed.

Lemma mark_next_deferred d o s : next_deferred (mark d o s) = next_deferred s.
Proof. unfold mark. destruct (deferreds s !! d) as [[| |]|]; reflexivity. Qed.

(** The listener of a request on the answer to it. *)
Lemma gadgetlib_listener_answer JSON_parse loose_eq msgid d event message s :
  loose_eq (origin event) (field (gadget (Gadgetlib.core s)) "msghost") = true ->
  delivered JSON_parse (data event) message ->
  message <> VUndef -> message <> VNull ->
  loose_eq (get_prop message "callback") (VStr msgid) = true ->
  Gadgetlib.request_listener JSON_parse loose_eq msgid d event s
  = Gadgetlib.resolve loose_eq d (get_prop message "payload")
      (Gadgetlib.State (Gadgetlib.core s)
         (filter (fun l => l <> (msgid, d)) (Gadgetlib.listeners s))
         (Gadgetlib.awaiting s)).
Proof.
  intros Horigin Hdel Hu Hnull Hcb. unfold Gadgetlib.request_listener.
  rewrite Horigin. cbn [negb]. unfold delivered in Hdel.
  destruct (data event); try rewrite Hdel; try subst message;
    try contradiction; try (rewrite Hcb; reflexivity).
  destruct message; try contradiction; rewrite Hcb; reflexivity.
Qed.

(** The older script left its request pending; consumers hand callbacks
    to [gadget.ready]; then the host answers. *)
Lemma gadgetlib_pending_then_ready JSON_parse loose_eq href msgid callbacks :
  plain_object Gadgetlib.reserved (Legacy.getDataFromUrl href) = true ->
  exists s0 c,
    Gadgetlib.initialize href msgid None = Returns s0 /\
    Gadgetlib.ready_all callbacks (Gadgetlib.core s0) = Returns c /\
    gadget c = Legacy.getDataFromUrl href /\
    not_ready (Legacy.getDataFromUrl href) (Gadgetlib.core s0) /\
    ready_triggers (effects c) = 0 /\
    forall event message,
      loose_eq (origin event) (field (Legacy.getDataFromUrl href) "msghost") = true ->
      delivered JSON_parse (data event) message ->
      message <> VUndef -> message <> VNull ->
      loose_eq (get_prop message "callback") (VStr msgid) = true ->
      (loose_eq (get_prop message "payload") (VStr "Unrecognized message.") = false ->
       plain_argument Gadgetlib.reserved (get_prop message "payload") = true) ->
      exists s1,
        Gadgetlib.request_listener JSON_parse loose_eq msgid 0 event
          (Gadgetlib.State c (Gadgetlib.listeners s0) (Gadgetlib.awaiting s0))
        = Returns s1 /\
        deferreds (Gadgetlib.core s1) !! 0 = Some (Resolved (get_prop message "payload")) /\
        became_ready callbacks (Gadgetlib.core s1) /\
        gadget (Gadgetlib.core s1)
        = <["isReady" := VBool true]>
            (gadget (if loose_eq (get_prop message "payload") (VStr "Unrecognized message.")
                     then c else Bridge.set (get_prop message "payload") VUndef c)).
Proof.
  intros Hplain. rewrite (gadgetlib_initialize _ _ Hplain).
  eexists. 
  set (c0 := State (Legacy.getDataFromUrl href) ∅ ∅ 1 {[ 0 := Pending ]} 1 ∅ [] _).
  assert (Fresh c0) as HF0 by (intros d _; apply lookup_empty).
  assert (is_method_of Gadgetlib.legacy_methods "ready" (gadget c0) = true) as Hm0
    by (apply (legacy_method_intact _ _ Hplain); by_decision).
  destruct (ready_all_of_spec Gadgetlib.legacy_methods callbacks c0 HF0 Hm0)
    as (c & Hr & Hw & HF & Ha).
  destruct Hw as (Hg & Hc & _ & _ & Hn & Hd & Htr).
  exists c. split; [reflexivity |]. split; [exact Hr |]. split; [exact Hg |].
  assert (forall cb, account cb c = asked cb callbacks) as Ha'.
  { intros cb. rewrite Ha. unfold account, c0. simpl. lia. }
  split; [repeat split |]. split; [exact Htr |].
  intros event message Horigin Hdel Hu Hnull Hcb Hpayload.
  cbn [Gadgetlib.core Gadgetlib.listeners Gadgetlib.awaiting].
  rewrite (gadgetlib_listener_answer JSON_parse loose_eq msgid 0 event message
             (Gadgetlib.State c [(msgid, 0)] (Some 0))
             ltac:(cbn [Gadgetlib.core]; rewrite Hg; exact Horigin) Hdel Hu Hnull Hcb).
  cbn [Gadgetlib.core Gadgetlib.listeners Gadgetlib.awaiting].
  rewrite filter_cons_False by (intros H; apply H; reflexivity). rewrite filter_nil.
  unfold Gadgetlib.resolve. cbn [Gadgetlib.core Gadgetlib.listeners Gadgetlib.awaiting].
  assert (deferreds c !! 0 = Some Pending) as Hd0
    by (rewrite Hd by (unfold c0; cbn [next_deferred]; lia); apply lookup_insert_eq).
  cbn [emit deferreds]. rewrite Hd0.
  rewrite bool_decide_true by reflexivity.
  set (c1 := mark 0 _ _).
  destruct (gadgetlib_initialization_then loose_eq (get_prop message "payload") c1)
    as (c' & Hthen & G1 & G2 & G3 & G4 & G5 & G6).
  - unfold c1. rewrite mark_gadget. cbn [gadget emit]. rewrite Hg.
    apply (legacy_method_intact _ _ Hplain). by_decision.
  - exact Hpayload.
  - unfold c1. rewrite mark_chains. cbn [chains emit]. apply HF. rewrite mark_next_deferred. simpl. lia.
  - unfold Gadgetlib.on_core. cbn [Gadgetlib.core Gadgetlib.listeners Gadgetlib.awaiting].
    rewrite Hthen. eexists. split; [reflexivity |]. cbn [Gadgetlib.core].
    split; [| split].
    + apply G6; [| | discriminate].
      * unfold c1. rewrite mark_next_deferred. simpl. unfold c0 in Hn.
        cbn [next_deferred] in Hn. lia.
      * unfold c1. apply mark_pending. cbn [deferreds emit]. exact Hd0.
    + unfold became_ready. split; [| split; [| split; [exact G3 |]]].
      * rewrite G1. unfold field. rewrite lookup_insert_eq. reflexivity.
      * rewrite G2. unfold c1. rewrite mark_effects. cbn [effects emit].
        rewrite ready_triggers_app, Htr. reflexivity.
      * intros cb. rewrite G4. unfold c1.
        destruct (quiet_mark 0 (Resolved (get_prop message "payload"))
                    (emit (EResolve 0 (get_prop message "payload")) c)) as [_ ->].
        rewrite account_emit by reflexivity. apply Ha'.
    + rewrite G1. f_equal.
      destruct (loose_eq (get_prop message "payload") (VStr "Unrecognized message."));
        [unfold c1; rewrite mark_gadget; reflexivity |].
      unfold Bridge.set. destruct (get_prop message "payload"); unfold c1;
        rewrite ?mark_gadget; reflexivity.
Qed.



End GadgetlibFacts.

(** ** The host origin, the merge and the readiness of the page, on the scripts as they run *)
Module HostScript.
Import Bridge BridgeProofs BridgeTrace BridgeFlow Script ScriptFacts ScriptFlow.
#[local] Open Scope nat_scope.

(** C2: [src/_lib/gadget.js] tests [gadget.msghost] for being set and
    hands it to [postMessage] as it is.  On a page configured with the
    wildcard, the request of the initialization and a [get-location] sent
    afterwards are posted, token included, to the target ["*"], and nothing
    is rejected; the [gadget.js] with [normalizeOrigin], on the same page,
    posts nothing and rejects both requests with [missing_msghost]. *)
Theorem wildcard_reaches_postMessage :
  let s0 := Lib.initialize Pages.page_star "41" None in
  let s1 := (Lib.sendMessageToTop "get-location" VUndef VUndef "42" None s0).1 in
  let b0 := Bridge.initialize Scenario.url_origin_model Pages.page_star
              (Scenario.uuid "uuid-1") None in
  let b1 := (Bridge.sendMessageToTop "get-location" VUndef VUndef
               (Scenario.uuid "uuid-2") None b0).1 in
  let address := VStr "https://gadgets.example.edu/gadgets/broken_links/index.html" in
  LibScript.initialize Pages.page_star "41" None = Returns s0 /\
  effects (Lib.core s1)
  = [ EPostMessage
        (VObj {[ "name" := VStr "get-environment"; "gid" := VStr "g1";
                 "origin" := address; "token" := VStr "t0"; "place" := VUndef;
                 "payload" := VUndef; "callback" := VStr "41" ]})
        (VStr "*");
      EPostMessage
        (VObj {[ "name" := VStr "get-location"; "gid" := VStr "g1";
                 "origin" := address; "token" := VStr "t0"; "place" := VUndef;
                 "payload" := VUndef; "callback" := VStr "42" ]})
        (VStr "*") ] /\
  deferreds (Lib.core s1) !! 0 = Some Pending /\
  deferreds (Lib.core s1) !! 1 = Some Pending /\
  normalizeOrigin Scenario.url_origin_model Pages.page_star (VStr "*") = None /\
  posted (effects b1) = [] /\
  (exists reason, deferreds b1 !! 0 = Some (Rejected reason) /\
                  get_prop reason "code" = VStr "missing_msghost") /\
  deferreds b1 !! 1 = Some (Rejected (Bridge.missing_msghost "get-location")).
Proof.
  cbv zeta. repeat split; try (vm_compute; reflexivity).
  eexists. split; vm_compute; reflexivity.
Qed.





Lemma not_ready_pending URL_origin page e :
  truthy (field (environment_at_start URL_origin page) "msghostOrigin") = true ->
  not_ready (getUrlData page) (Bridge.initialize URL_origin page e None).
Proof.
  intros Hok. rewrite (initialize_pending _ _ _ Hok). unfold not_ready. norm_state.
  split; [| split; [reflexivity | intros cb; reflexivity]].
  unfold environment_at_start, field. rewrite lookup_insert_ne by discriminate.
  reflexivity.
Qed.

Lemma lib_not_ready_pending page msgid :
  truthy (field (getUrlData page) "msghost") = true ->
  not_ready (getUrlData page) (Lib.core (Lib.initialize page msgid None)).
Proof.
  intros Hok. rewrite (LibProofs.lib_initialize_pending _ _ Hok). unfold not_ready.
  cbn [Lib.core]. norm_state. split; [| split; [reflexivity | intros cb; reflexivity]].
  reflexivity.
Qed.



End HostScript.
